(* ===== verification/_CoqProject ===== *)
-Q . S2P
Prelude.v
GoErrors.v
AgentFunc.v
Retry.v
CircuitBreaker.v
Registry.v
GoStrings.v
GoTime.v
Utf8.v
Decimal.v
GoFloat.v
GoRound.v
GoPath.v
GoDuration.v
Helpers.v
Json.v
Base64.v
Calendar.v
Rfc3339.v
JsonCodec.v
JsonAny.v
JsonStream.v
Sha256.v
Os.v
Trace.v
TraceFile.v
AstraGraph.v
AuditLog.v
Metrics.v
Prometheus.v
Kahn.v
PlanGraph.v
Engine.v
Scheduler.v
Access.v
ControlPlane.v
Manifest.v
App.v
AppIo.v
Scaffold.v
Cli.v
Server.v
ControlPlaneHttp.v
Coordinator.v
CoordinatorLive.v
Adapters.v
Sdk.v
