(* ===== verification/Prelude.v ===== *)
(** * FluxRoute: a verification development

    FluxRoute (module [github.com/your-org/fluxroute]) runs manifests of agents: a YAML manifest
    declares agents and a pipeline of steps; the application turns it into a plan, a dependency
    graph of invocations; the engine runs the plan level by level on a bounded pool of goroutines,
    with retries, per-agent circuit breakers, metrics and a trace that can be compared and
    replayed.  A control plane keeps tenants, usage and bills.  This development models the
    program's logic as Rocq functions, programs over effects and transition systems, and proves
    what makes it correct.

    ** Parts and files

    Foundations:

    - [Prelude] (this file): results of fallible calls, 64-bit integers, clock readings, sorting
      by keys, the tactics [step_cases], [bool_lia], [wrap_lia] and the hint database [flux].
    - [GoErrors] (internal/retry/errors.go): error values with identity and wrapping,
      [errors.Is], [errors.As], the sentinel errors, [AgentError], [NonRetryable].
    - What the code uses of the Standard Library of Go, executable and checked on examples:
      [GoStrings] and [Utf8] (strings, UTF-8), [GoTime] and [GoDuration] (strconv.Atoi,
      [time.ParseDuration], [Duration.String]), [Decimal], [GoFloat] (float64 in text, exactly),
      [GoRound] (every float64 has a text, and everything read is a float64), [GoPath]
      (path/filepath), [Sha256], [Base64], [Calendar] and [Rfc3339] (UTC months, timestamps).
    - encoding/json: [Json] (values, the printers, the scanner as a state machine), [JsonCodec]
      (structs, slices, maps, bytes and times), [JsonAny] (decoding into any), [JsonStream]
      ([json.Decoder]).  The parser inverts the printers, the decoders the encoders.
    - [Os]: the file system as an interface with laws, and files in a map as an instance.
    - [Helpers] (internal/trace/otel.go, internal/channel, internal/state, constructors of the
      coordinators, setters of the engine).

    Execution:

    - [AgentFunc] (pkg/agentfunc/types.go): the agent contract.
    - [Retry] (internal/retry/retry.go): [Execute] and [BackoffDuration].
    - [CircuitBreaker] (internal/retry/circuit_breaker.go): the breaker, and the README's
      machine with states closed, open and half-open that it refines.
    - [Registry] (internal/agent/registry.go): the registry, and the interface [AgentResolver]
      through which [App] uses it.
    - [Metrics] (internal/metrics/metrics.go, multi.go): the interface [Recorder] with its no-op,
      in-memory and fan-out instances; [Prometheus] (prometheus.go): the Prometheus instance over
      an abstract client library.
    - [Trace] (internal/trace/trace.go, recorder.go, debug.go, replay.go): traces, their
      recorder, comparison and replay; [TraceFile] (io.go): traces as files; [AstraGraph]
      (astragraph_exporter.go): their export as audit entries.
    - [Kahn]: the loop body and invariant of Kahn's algorithm, shared by [PlanGraph] and
      [Manifest].
    - [PlanGraph] (internal/router/router.go, [buildGraph]): plans and their levels.
    - [Engine] (internal/router/router.go, [executeNode] and its helpers): one node, as a program
      over the engine's effects; [logs] relates a program to the event sequences it can produce
      for arbitrary answers, and [attempts] specifies them.
    - [Scheduler] (internal/router/router.go, [executeLevel], [RunPlan], [Run]): the goroutines of
      a level as a transition system over the shared state [world]; [RunPlan] for every schedule
      as a relation; [RunPlan_seq], one goroutine at a time, is only there to run samples.

    Application:

    - [Access] (internal/security/rbac.go, internal/tenant/namespace.go, [authorize]): roles,
      policies, namespaces.
    - [AuditLog] (internal/audit): the audit log and its export to CSV.
    - [Manifest] (internal/config/manifest.go, config.go): validation, topological order of the
      pipeline, conversion to the engine's configuration.
    - [App] (internal/app/run.go): registry, built-in agents, execution plan, the run of a
      loaded manifest, for every schedule of the engine, and the replay of a trace; [AppIo] (run.go, tools.go): the same from paths
      of files to printed text, with loading, trace file, export, audit record and logs.
    - [Scaffold] (internal/scaffold), [Cli] (cmd/cli, cmd/router, internal/version): generated
      projects, and the commands from arguments to output and exit code.
    - [Server] (internal/app/server.go, internal/security/tls.go, cmd/controlplane, the endpoint
      of internal/metrics): the router's handler, TLS configurations, the start of the servers.
    - [ControlPlane] (internal/billing/service.go, internal/controlplane/service.go): tenants,
      usage, rates and invoices, and the HTTP handlers on them; [ControlPlaneHttp]: the JSON and
      CSV they read and write.
    - [Coordinator] (internal/coordinator/coordinator.go, redis.go, [acquireLeaseIfEnabled]):
      leases in memory, in lock files and in Redis, as transition systems of concurrent clients
      with the polls of their loops; failing system calls, lost answers, commands sent again and
      commands that arrive late are steps too.  A Redis server is a parameter, the interface
      [RedisServer] with the laws [RedisLaws]; [until] says what every run of a client left alone
      comes to; [CoordinatorLive]: clients that wait are granted their lease within a poll.
    - [Adapters] (pkg/adapters): the clients of three LLM providers over an abstract HTTP
      transport; [Sdk] (pkg/sdk): the public runtime and the agents made from providers.

    ** What the theorems show

    - Plans: [buildGraph] accepts exactly the well-formed acyclic plans; its levels are a
      layering.
    - A node: however other goroutines interfere, its recorded steps are numbered and bounded by
      the retry policy, it follows the breaker's protocol (ask, call once, report once), panics
      are contained, retries follow the policy, the result agrees with what was recorded.
    - A level: no more goroutines run than the pool has slots, sends never block, there is no
      deadlock and no infinite interleaving.
    - A plan: every schedule amounts to one run per node, skipped exactly when a dependency
      failed; failures reach all dependents; results and trace are sorted and do not depend on
      the schedule.
    - Breaker, registry, metrics, recorder, comparison, replay: refinement of the three-state
      machine of the README for callers whose calls of an agent do not overlap, a single half-open
      probe, write-once registration, exact tallies that the Prometheus counters share, a
      finalized trace independent of the order of arrival, exactly the divergences of two traces,
      an exact characterisation of replay.
    - Manifests: validation accepts exactly the well-formed acyclic manifests; a validated
      manifest yields an accepted plan whose agents all resolve, and a run, however it is
      scheduled, reports one result per step of the engine's run of that plan; policies mean what
      the manifest lists.
    - Files: a saved trace loads unchanged and every trace that loads can be saved again; the
      exporter's file and the CSV of the audit
      log hold exactly the steps and the events, in order (up to a line too long for the
      scanner); a scaffolded manifest loads.
    - Entry points: each run, validation and replay leaves one audit record, whatever happens;
      the router's endpoints and the commands do what the entry points do and report their
      errors; a server with TLS that must verify client certificates never serves without.
    - Control plane: the accounts agree with the usage events after any requests, only an
      authenticated administrator changes them, monthly summaries are exact, the pages of a
      listing make up the listing, rates survive a round trip over HTTP bit for bit.
    - Leases: a key has one holder at a time, in memory when leases are released in time, in
      Redis always; undisturbed attempts on lock files refine the memory coordinator; a client
      that waits and is left alone gets its lease at most one poll after the key is free, whatever
      the others did.
    - SDK and adapters: one result per node with what the engine recorded; each client sends at
      most one request, made of what it was asked, and returns the whole text of the answer.
    - Flaws found: the exponential backoff overflows; a non-retryable timeout is retried;
      validation does not check the default timeout; traces of flaky or panicking agents do
      not replay; a listing panics at page numbers that overflow; late releases and unstamped
      lock files give a lease to two clients; reports of overlapping calls
      close an open circuit early; a failed run exits with 0 in JSON mode; the
      scaffold of the usage text's example does not compile; an invoice out of the range of a
      float64 is an empty answer.

    ** Conventions, bounds and fuel

    Integers that can overflow are [Z] with [wrap64] written out; counters outside [Metrics] that
    would need 2^63 events to overflow are unbounded.  Zones are offsets of whole minutes, all
    that RFC 3339 can write.  Clock readings are nanoseconds; nothing is assumed
    of the clock.  Maps are [gmap], iterated in sorted order only where the code sorts.  Each
    method of a type that holds a mutex is one atomic step.  [levels_loop] has one unit of fuel
    per node, [order_loop] two per step, [duration_loop] one per byte; [levels_loop_enough],
    [order_loop_enough] and [duration_loop_fuel] show that they are enough.  The JSON parser and
    the printers are structural; the parser has encoding/json's limit of 10000 levels of nesting.
    Printing a float64 tries one to seventeen digits; [shortest_total] shows that seventeen are
    enough for every float64.  Hypotheses [plan_fits] and [manifest_fits] say that edges or steps can be counted in an [int].
    Agents are unconstrained (they return any output and error, or panic), except that a call
    ends.  Outside code is a parameter: the file system, the YAML decoder, HTTP transports and
    listeners, key pairs, Redis, the Prometheus client and the OpenTelemetry libraries; the texts
    of encoding/json's own errors are parameters too.

    ** Not modelled

    The YAML decoder, the HTTP servers and clients underneath the handlers and adapters
    (connections, header canonicalisation, the multiplexer's redirects of unclean paths), signal
    handling, spans of OpenTelemetry, log files written by several processes at once, a CSV
    output whose buffer is flushed in parts, timers that fire late.  Code of those kinds is third-party or belongs to
    the operating system; the program's own code around it is modelled. *)

From stdpp Require Export prelude gmap strings list sorting pretty.
From Stdlib Require Export ZArith Lia.
From Stdlib Require Ascii.
Export Ascii.AsciiSyntax.
Delimit Scope char_scope with char.

#[global] Open Scope Z_scope.

(** ** Results of fallible calls

    A Go function that returns [(T, error)] is modelled by [result E T], where
    [E] is the type of its errors: [Err e] when the error is non-nil. *)
Inductive result (E A : Type) : Type :=
| Ok (a : A)
| Err (e : E).
Arguments Ok {E A} a.
Arguments Err {E A} e.

#[global] Instance result_mret E : MRet (result E) := fun A a => Ok a.
#[global] Instance result_mbind E : MBind (result E) := fun A B f m =>
  match m with Ok a => f a | Err e => Err e end.

Definition is_ok {E A} (r : result E A) : bool :=
  match r with Ok _ => true | Err _ => false end.

(** ** Machine integers and durations

    [int], [int64] and [time.Duration] are 64-bit two's complement; [wrap64]
    is the value an arithmetic operation leaves in such a variable. *)
Definition min_int64 : Z := -9223372036854775808.
Definition max_int64 : Z := 9223372036854775807.
Definition wrap64 (z : Z) : Z :=
  (z + 9223372036854775808) mod 18446744073709551616 - 9223372036854775808.
Definition int64_range (z : Z) : Prop := min_int64 ≤ z ≤ max_int64.

Definition Millisecond : Z := 1000000.
Definition Second : Z := 1000 * Millisecond.
Definition Minute : Z := 60 * Second.

(** ** Instants

    A [time.Time] is the number of nanoseconds since the zero time (January 1,
    year 1, UTC), so the zero [time.Time] is [0]. *)
Definition time : Type := Z.
Definition zero_time : time := 0.
Definition IsZero (t : time) : bool := t =? 0.
Definition Before (t u : time) : bool := t <? u.
Definition After (t u : time) : bool := u <? t.
Definition Add (t : time) (d : Z) : time := t + d.
(** [t.Sub(u)] saturates at the ends of [time.Duration]. *)
Definition Sub (t u : time) : Z := Z.max min_int64 (Z.min max_int64 (t - u)).

(** ** Sorting by a key

    [sort.Strings] and [sort.Slice] are given by a merge sort on the key the
    comparison reads.  [sort.Slice] is not stable, so a client relies on the
    result only where the keys determine the elements; [sort_by_unique] shows
    that there every sorting algorithm gives this list. *)
Definition key_le {A K} (le : relation K) (key : A → K) : relation A :=
  λ x y, le (key x) (key y).

#[global] Instance key_le_dec {A K} (le : relation K) `{!RelDecision le} (key : A → K) :
  RelDecision (key_le le key) := λ x y, decide (le (key x) (key y)).

Definition sort_by {A K} (le : relation K) `{!RelDecision le} (key : A → K) : list A → list A :=
  merge_sort (key_le le key).

Definition sort_strings : list string → list string := merge_sort String.le.

(** ** Tactics and hints *)
Create HintDb flux.

(** [step_cases] splits every [if] and [match] the goal or a hypothesis blocks
    on, keeping the equations, and closes what becomes contradictory. *)
Ltac step_cases :=
  repeat (case_match || case_decide || case_bool_decide); simplify_eq/=.

(** [bool_lia] turns boolean comparisons on integers into propositions first. *)
Ltac bool_lia :=
  rewrite ?Z.ltb_lt, ?Z.leb_le, ?Z.eqb_eq, ?Z.ltb_ge, ?Z.leb_gt, ?Z.eqb_neq in *; lia.

(** [wrap_lia] decides equations between wrapped sums. *)
Ltac wrap_lia :=
  unfold int64_range, wrap64, min_int64, max_int64 in *;
  Z.div_mod_to_equations; lia.

(** ** Integer lemmas *)
Lemma wrap64_range z : int64_range (wrap64 z).
Proof. wrap_lia. Qed.

Lemma wrap64_id z : int64_range z → wrap64 z = z.
Proof. wrap_lia. Qed.

Lemma wrap64_add_l a b : wrap64 (wrap64 a + b) = wrap64 (a + b).
Proof. wrap_lia. Qed.

Lemma wrap64_add_r a b : wrap64 (a + wrap64 b) = wrap64 (a + b).
Proof. wrap_lia. Qed.

Lemma wrap64_idem a : wrap64 (wrap64 a) = wrap64 a.
Proof. apply wrap64_id, wrap64_range. Qed.

#[export] Hint Resolve wrap64_range : flux.

(** ** Sorting lemmas *)
Section sort_by_facts.
Context {A K : Type} (le : relation K) `{!RelDecision le, !PartialOrder le, !Total le}.
Context (key : A → K).

#[local] Instance key_le_trans : Transitive (key_le le key).
Proof. intros x y z. unfold key_le. apply transitivity. Qed.

#[local] Instance key_le_total : Total (key_le le key).
Proof. intros x y. apply (total le). Qed.

Lemma sort_by_perm l : sort_by le key l ≡ₚ l.
Proof. apply merge_sort_Permutation. Qed.

Lemma sort_by_sorted l : StronglySorted (key_le le key) (sort_by le key l).
Proof. apply (StronglySorted_merge_sort (key_le le key)). Qed.

Lemma sort_by_elem_of x l : x ∈ sort_by le key l ↔ x ∈ l.
Proof. by rewrite sort_by_perm. Qed.

Lemma sort_by_length l : length (sort_by le key l) = length l.
Proof. apply Permutation_length, sort_by_perm. Qed.

(** Where the key tells elements apart, sorting has one answer. *)
Lemma sorted_unique_by_key l1 l2 :
  NoDup (key <$> l1) → l1 ≡ₚ l2 →
  StronglySorted (key_le le key) l1 → StronglySorted (key_le le key) l2 → l1 = l2.
Proof.
  intros Hnd Hp H1 H2. apply (StronglySorted_unique_strong (key_le le key)); [|done..].
  intros x y Hx Hy Hxy Hyx. rewrite <- Hp in Hy.
  assert (key x = key y) as Hk by (apply (anti_symm le); done).
  apply list_elem_of_lookup in Hx as [i Hi]. apply list_elem_of_lookup in Hy as [j Hj].
  assert (i = j) as ->; [|congruence].
  apply (NoDup_lookup (key <$> l1) i j (key x)); [done|..];
    rewrite list_lookup_fmap; [rewrite Hi|rewrite Hj]; simpl; congruence.
Qed.

Lemma sort_by_unique l l' :
  NoDup (key <$> l) → l' ≡ₚ l → StronglySorted (key_le le key) l' → l' = sort_by le key l.
Proof.
  intros Hnd Hp Hs. symmetry. apply sorted_unique_by_key;
    [|by rewrite sort_by_perm|apply sort_by_sorted|done].
  by rewrite sort_by_perm.
Qed.

Lemma sort_by_proper l l' :
  NoDup (key <$> l) → l ≡ₚ l' → sort_by le key l = sort_by le key l'.
Proof.
  intros Hnd Hp. apply sorted_unique_by_key; try apply sort_by_sorted.
  - by rewrite sort_by_perm.
  - by rewrite !sort_by_perm.
Qed.
End sort_by_facts.

Lemma sort_strings_perm l : sort_strings l ≡ₚ l.
Proof. apply merge_sort_Permutation. Qed.

Lemma sort_strings_sorted l : StronglySorted String.le (sort_strings l).
Proof. apply StronglySorted_merge_sort; apply _. Qed.

(** A list of strings has one sorted arrangement, so [sort_strings] does not
    depend on the order a Go map iteration produced its argument in. *)
#[global] Instance sort_strings_proper : Proper ((≡ₚ) ==> (=)) sort_strings.
Proof.
  intros l1 l2 Hp. apply (StronglySorted_unique String.le);
    [apply sort_strings_sorted..|]. by rewrite !sort_strings_perm.
Qed.

Lemma elem_of_sort_strings x l : x ∈ sort_strings l ↔ x ∈ l.
Proof. by rewrite sort_strings_perm. Qed.

Lemma sort_strings_length l : length (sort_strings l) = length l.
Proof. apply Permutation_length, sort_strings_perm. Qed.

Lemma sort_strings_NoDup l : NoDup l → NoDup (sort_strings l).
Proof. by rewrite sort_strings_perm. Qed.

#[export] Hint Resolve sort_strings_sorted sort_strings_NoDup : flux.

(** ** Filters *)
Lemma filter_none {A} (P : A → Prop) `{!∀ x, Decision (P x)} l : Forall (λ x, ¬ P x) l → filter P l = [].
Proof. induction 1; [done|]. by rewrite filter_cons_False. Qed.

Lemma filter_all {A} (P : A → Prop) `{!∀ x, Decision (P x)} l : Forall P l → filter P l = l.
Proof. induction 1 as [|x l Hx _ IH]; [done|]. by rewrite filter_cons_True, IH. Qed.

(** ** Lexicographic keys *)
Definition lex_le {A B} (R1 : relation A) (R2 : relation B) : relation (A * B) :=
  λ x y, (R1 x.1 y.1 ∧ x.1 ≠ y.1) ∨ (x.1 = y.1 ∧ R2 x.2 y.2).

Section lex_facts.
Context {A B : Type} `{!EqDecision A} (R1 : relation A) (R2 : relation B).
Context `{!PartialOrder R1, !Total R1, !RelDecision R1}.
Context `{!PartialOrder R2, !Total R2, !RelDecision R2}.

#[global] Instance lex_le_dec : RelDecision (lex_le R1 R2).
Proof. intros x y. unfold lex_le. apply _. Defined.

#[global] Instance lex_le_po : PartialOrder (lex_le R1 R2).
Proof.
  split; [split|].
  - intros [a b]. right. by split.
  - intros [a b] [c d] [e f]. unfold lex_le; simpl. intros [[H1 N1]|[-> H1]] [[H2 N2]|[-> H2]]; auto.
    + left. split; [by etrans|]. intros ->. apply N1. by apply (anti_symm R1).
    + right. split; [done|]. by etrans.
  - intros [a b] [c d]. unfold lex_le; simpl. intros [[H1 N1]|[-> H1]] [[H2 N2]|[E2 H2]];
      try (exfalso; naive_solver).
    + exfalso. apply N1. by apply (anti_symm R1).
    + f_equal. by apply (anti_symm R2).
Qed.

#[global] Instance lex_le_total : Total (lex_le R1 R2).
Proof.
  intros [a b] [c d]. unfold lex_le; simpl. destruct (decide (a = c)) as [->|Hne].
  - destruct (total R2 b d); auto.
  - destruct (total R1 a c); auto.
Qed.
End lex_facts.
