(* ===== verification/GoErrors.v ===== *)
(** * Go errors and the error types of internal/retry/errors.go

    The [error] values the engine handles, Go's [errors.Is] and [errors.As] on
    them, and [AgentError]/[NonRetryable] of internal/retry/errors.go. *)

From S2P Require Import Prelude.

(** An [error] value.  [ErrorString] is the pointer [errors.New] and
    [fmt.Errorf] without [%w] return; [WrapError] the pointer [fmt.Errorf]
    returns for one [%w]; [AgentError] the struct of internal/retry.
    Pointers compare by address: [Some a] is a package-level variable, [None]
    a value allocated during the modelled call, to which no variable is equal. *)
Inductive error : Type :=
| ErrorString (addr : option N) (msg : string)
| WrapError (addr : option N) (msg : string) (inner : error)
| AgentError (Cause : option error) (Retryable : bool).

Definition same_address (a b : option N) : bool :=
  match a, b with Some x, Some y => N.eqb x y | _, _ => false end.

(** [e == t] on interface values: the same dynamic type and equal values. *)
Fixpoint err_eqb (e t : error) : bool :=
  match e, t with
  | ErrorString a _, ErrorString b _ => same_address a b
  | WrapError a _ _, WrapError b _ _ => same_address a b
  | AgentError c r, AgentError c' r' =>
      Bool.eqb r r' &&
      match c, c' with
      | None, None => true
      | Some x, Some y => err_eqb x y
      | _, _ => false
      end
  | _, _ => false
  end.

(** [errors.Is]: the error or one it unwraps to equals the target. *)
Fixpoint errors_Is (e target : error) : bool :=
  err_eqb e target ||
  match e with
  | ErrorString _ _ => false
  | WrapError _ _ inner => errors_Is inner target
  | AgentError None _ => false
  | AgentError (Some c) _ => errors_Is c target
  end.

(** [errors.As(err, &ae)] for [ae] of type [AgentError]: the first one in the
    chain, as its two fields. *)
Fixpoint errors_As_AgentError (e : error) : option (option error * bool) :=
  match e with
  | ErrorString _ _ => None
  | WrapError _ _ inner => errors_As_AgentError inner
  | AgentError c r => Some (c, r)
  end.

(** The method [Error() string] of each dynamic type. *)
Fixpoint Error (e : error) : string :=
  match e with
  | ErrorString _ msg => msg
  | WrapError _ msg _ => msg
  | AgentError None _ => "agent error"
  | AgentError (Some c) _ => "agent error: " +:+ Error c
  end.

(** [Unwrap() error], for the types that have it. *)
Definition Unwrap (e : error) : option error :=
  match e with
  | ErrorString _ _ => None
  | WrapError _ _ inner => Some inner
  | AgentError c _ => c
  end.

(** [fmt.Errorf] without and with one [%w]; the text is already formatted. *)
Definition Errorf (msg : string) : error := ErrorString None msg.
Definition Errorf_w (msg : string) (inner : error) : error := WrapError None msg inner.

(** The package-level error variables. *)
Definition context_Canceled : error := ErrorString (Some 1%N) "context canceled".
Definition context_DeadlineExceeded : error := ErrorString (Some 2%N) "context deadline exceeded".
Definition ErrAgentTimeout : error := ErrorString (Some 3%N) "agent timeout".
Definition ErrCircuitOpen : error := ErrorString (Some 4%N) "circuit breaker open".
Definition ErrAgentPanic : error := ErrorString (Some 5%N) "agent panicked".
Definition ErrInvalidPayload : error := ErrorString (Some 6%N) "invalid agent payload".

(** [NonRetryable]: marks an error as not eligible for retries; nil stays nil. *)
Definition NonRetryable (err : option error) : option error :=
  match err with
  | None => None
  | Some e => Some (AgentError (Some e) false)
  end.

(** ** Facts about chains *)
Lemma errors_Is_wrap a msg inner target :
  errors_Is inner target = true → errors_Is (WrapError a msg inner) target = true.
Proof. intros H. simpl. rewrite H. by rewrite orb_true_r. Qed.

Lemma errors_Is_agent c r target :
  errors_Is c target = true → errors_Is (AgentError (Some c) r) target = true.
Proof. intros H. simpl. rewrite H. by rewrite orb_true_r. Qed.

(** [errors.Is] follows the chain [Unwrap] gives. *)
Lemma errors_Is_unfold e target :
  errors_Is e target =
  err_eqb e target || match Unwrap e with Some c => errors_Is c target | None => false end.
Proof. by destruct e as [| |[]]. Qed.

#[export] Hint Resolve errors_Is_wrap errors_Is_agent : flux.
