(* ===== verification/AgentFunc.v ===== *)
(** * The agent contract of pkg/agentfunc/types.go

    The payload, policy and configuration records shared by every component. *)

From S2P Require Import Prelude GoErrors.

(** A [[]byte] slice: [None] is the nil slice. *)
Definition slice : Type := option string.
Definition bytes_of (s : slice) : string := default "" s.

(** A [map[string]string]: [None] is the nil map. *)
Definition metadata : Type := option (gmap string string).

Record AgentInput := mkAgentInput {
  in_TaskID : string;
  in_RequestID : string;
  in_Payload : slice;
  in_Metadata : metadata;
  in_Timestamp : time
}.

Record AgentOutput := mkAgentOutput {
  out_RequestID : string;
  out_Payload : slice;
  out_Metadata : metadata;
  out_Duration : Z
}.

(** The zero [AgentOutput]. *)
Definition AgentOutput_zero : AgentOutput := mkAgentOutput "" None None 0.
Definition AgentInput_zero : AgentInput := mkAgentInput "" "" None None zero_time.

Definition BackoffStrategy : Type := string.
Definition BackoffLinear : BackoffStrategy := "linear".
Definition BackoffExponential : BackoffStrategy := "exponential".
Definition BackoffExponentialJitter : BackoffStrategy := "exponential_jitter".

Record RetryPolicy := mkRetryPolicy {
  MaxAttempts : Z;
  Backoff : BackoffStrategy;
  RetryableErrs : list error
}.

Record CircuitBreakerPolicy := mkCircuitBreakerPolicy {
  FailureThreshold : Z;
  ResetTimeout : Z;
  ProbeTimeout : Z
}.

Record RouterConfig := mkRouterConfig {
  WorkerPoolSize : Z;
  ChannelBuffer : Z;
  DefaultTimeout : Z;
  rc_RetryPolicy : RetryPolicy;
  rc_CircuitBreaker : CircuitBreakerPolicy
}.

Definition RetryPolicy_zero : RetryPolicy := mkRetryPolicy 0 "" [].
Definition CircuitBreakerPolicy_zero : CircuitBreakerPolicy := mkCircuitBreakerPolicy 0 0 0.

(** What calling an agent function gives: it returns, or it panics with a value
    whose [%v] text is [r].  A returned error comes with an output too. *)
Inductive outcome : Type :=
| Returned (out : AgentOutput) (err : option error)
| Panicked (r : string).

#[global] Instance RetryPolicy_inhabited : Inhabited RetryPolicy := populate RetryPolicy_zero.
