(* ===== verification/Retry.v ===== *)
(** * Retries: internal/retry/retry.go

    The backoff schedule, with the overflow of [time.Duration], and the generic
    retry loop [Execute]. *)

From S2P Require Import Prelude GoErrors AgentFunc.

(** [1 << uint(n)] at type [time.Duration]: the count is converted to [uint]
    first, and a count of 64 or more shifts every bit out. *)
Definition shl64 (x n : Z) : Z :=
  let count := n mod 18446744073709551616 in
  if count <? 64 then wrap64 (Z.shiftl x count) else 0.

(** [BackoffDuration]: the sleep before the retry that follows [attempt]. *)
Definition BackoffDuration (strategy : BackoffStrategy) (attempt : Z) : Z :=
  let base := 100 * Millisecond in
  if decide (strategy = BackoffExponential) then
    wrap64 (base * shl64 1 (wrap64 (attempt - 1)))
  else if decide (strategy = BackoffExponentialJitter) then
    let exp := wrap64 (base * shl64 1 (wrap64 (attempt - 1))) in
    let jitter := wrap64 (Z.rem (wrap64 (attempt * 37)) 100 * Millisecond) in
    wrap64 (exp + jitter)
  else wrap64 (base * attempt).

Section Execute.
(** The state the callback and the wait act on. *)
Context {St : Type}.
(** [fn(ctx)]: the new state and the returned error. *)
Context (fn : St → St * option error).
(** The [select] between [ctx.Done()] and the timer: [Some ctx.Err()] when the
    first branch is taken. *)
Context (select : Z → St → St * option error).

(** The body of the loop from attempt [i], with [remaining] attempts left, the
    current one included. *)
Fixpoint Execute_loop (policy : RetryPolicy) (attempts : Z) (remaining : nat) (i : Z)
    (lastErr : option error) (s : St) : St * option error :=
  match remaining with
  | O => (s, lastErr)
  | S remaining' =>
      match fn s with
      | (s1, Some err) =>
          if i =? attempts then (s1, Some err)
          else match select (BackoffDuration (Backoff policy) i) s1 with
               | (s2, Some ctxErr) => (s2, Some ctxErr)
               | (s2, None) => Execute_loop policy attempts remaining' (i + 1) (Some err) s2
               end
      | (s1, None) => (s1, None)
      end
  end.

Definition Execute (policy : RetryPolicy) (s : St) : St * option error :=
  let attempts := if MaxAttempts policy <=? 0 then 1 else MaxAttempts policy in
  Execute_loop policy attempts (Z.to_nat attempts) 1 None s.
End Execute.

(** ** Backoff *)
Lemma shl64_small n : 0 ≤ n < 63 → shl64 1 n = 2 ^ n.
Proof.
  intros Hn. unfold shl64. rewrite Z.mod_small by lia.
  destruct (Z.ltb_spec n 64); [|lia]. rewrite Z.shiftl_1_l. apply wrap64_id.
  assert (0 < 2 ^ n ≤ 2 ^ 62) by (split; [lia|apply Z.pow_le_mono_r; lia]).
  unfold int64_range, min_int64, max_int64. lia.
Qed.

Lemma backoff_exp_value n : 0 ≤ n ≤ 36 → wrap64 (100000000 * 2 ^ n) = 100000000 * 2 ^ n.
Proof.
  intros Hn. apply wrap64_id.
  assert (0 < 2 ^ n ≤ 2 ^ 36) by (split; [lia|apply Z.pow_le_mono_r; lia]).
  unfold int64_range, min_int64, max_int64. lia.
Qed.

Lemma backoff_exponential attempt :
  1 ≤ attempt ≤ 37 →
  BackoffDuration BackoffExponential attempt = 100 * Millisecond * 2 ^ (attempt - 1).
Proof.
  intros Ha. unfold BackoffDuration. rewrite decide_True by done.
  rewrite (wrap64_id (attempt - 1)) by wrap_lia.
  rewrite shl64_small by lia. unfold Millisecond. apply backoff_exp_value. lia.
Qed.

Lemma backoff_jitter attempt :
  1 ≤ attempt ≤ 37 →
  BackoffDuration BackoffExponentialJitter attempt =
    100 * Millisecond * 2 ^ (attempt - 1) + (attempt * 37) mod 100 * Millisecond.
Proof.
  intros Ha. unfold BackoffDuration.
  rewrite decide_False by done. rewrite decide_True by done.
  rewrite (wrap64_id (attempt - 1)) by wrap_lia.
  rewrite shl64_small by lia. unfold Millisecond. rewrite backoff_exp_value by lia.
  rewrite (wrap64_id (attempt * 37)) by wrap_lia.
  rewrite Z.rem_mod_nonneg by lia.
  assert (0 ≤ (attempt * 37) mod 100 < 100) by (apply Z.mod_pos_bound; lia).
  assert (0 < 2 ^ (attempt - 1) ≤ 2 ^ 36) by (split; [lia|apply Z.pow_le_mono_r; lia]).
  rewrite (wrap64_id (_ * 1000000)) by (unfold int64_range, min_int64, max_int64; lia).
  apply wrap64_id. unfold int64_range, min_int64, max_int64. lia.
Qed.

(** For the first 37 attempts the exponential backoff is
    100 ms doubled after each attempt, the jittered one exceeds it by less than 100 ms
    (whole milliseconds, determined by the attempt number), and no wait overflows
    [time.Duration]. *)
Theorem BackoffDuration_schedule attempt :
  1 ≤ attempt ≤ 37 →
  BackoffDuration BackoffExponential attempt = 100 * Millisecond * 2 ^ (attempt - 1) ∧
  0 ≤ BackoffDuration BackoffExponentialJitter attempt
      - BackoffDuration BackoffExponential attempt < 100 * Millisecond ∧
  BackoffDuration BackoffLinear attempt = 100 * Millisecond * attempt.
Proof.
  intros Ha. rewrite backoff_jitter, backoff_exponential by done.
  split; [done|]. split.
  - pose proof (Z.mod_pos_bound (attempt * 37) 100). unfold Millisecond. lia.
  - unfold BackoffDuration. rewrite decide_False, decide_False by done.
    unfold Millisecond. wrap_lia.
Qed.

Lemma BackoffDuration_schedule_witness :
  1 ≤ 5 ≤ 37 ∧ BackoffDuration BackoffExponential 5 = 1600 * Millisecond.
Proof. split; [lia|]. apply (BackoffDuration_schedule 5); lia. Defined.

(** From the 38th attempt on the exponential backoff has
    overflowed: attempt 38 gives a negative duration, and every attempt from 65 on gives
    zero, so that [time.After] fires at once and the retries follow without a delay. *)
Theorem BackoffDuration_overflow attempt :
  65 ≤ attempt ≤ max_int64 →
  BackoffDuration BackoffExponential 38 < 0 ∧ BackoffDuration BackoffExponential attempt = 0.
Proof.
  intros Ha. split; [vm_compute; reflexivity|].
  unfold BackoffDuration. rewrite decide_True by done.
  rewrite (wrap64_id (attempt - 1)) by wrap_lia.
  unfold shl64. rewrite Z.mod_small by (unfold max_int64 in *; lia).
  destruct (Z.ltb_spec (attempt - 1) 64); [lia|done].
Qed.

Lemma BackoffDuration_overflow_witness :
  65 ≤ 65 ≤ max_int64 ∧ BackoffDuration BackoffExponential 65 = 0.
Proof. split; [unfold max_int64; lia|]. apply (BackoffDuration_overflow 65). unfold max_int64; lia. Defined.

(** ** Execute *)
Section Execute_facts.
Context {St : Type} (fn : St → St * option error) (select : Z → St → St * option error).

(** [fn] and [select] on a state that also logs what each call returned. *)
Definition logged_fn : St * list (option error) → (St * list (option error)) * option error :=
  λ '(s, log), let '(s', e) := fn s in ((s', log ++ [e]), e).
Definition logged_select (d : Z) :
    St * list (option error) → (St * list (option error)) * option error :=
  λ '(s, log), let '(s', e) := select d s in ((s', log), e).

(** How a finished loop's log and result relate: every call but the last failed,
    and the result is nil exactly when the last call succeeded. *)
Definition execute_log_ok (attempts : nat) (log : list (option error)) (r : option error) : Prop :=
  ∃ failed final,
    log = (Some <$> failed) ++ [final] ∧ (length log ≤ attempts)%nat ∧
    (r = None ↔ final = None) ∧ (length log = attempts → r = final).

Lemma Execute_loop_log policy attempts remaining i lastErr s failed :
  (remaining ≠ 0)%nat → attempts = i + Z.of_nat remaining - 1 → i = Z.of_nat (length failed) + 1 →
  ∃ s' log r, Execute_loop logged_fn logged_select policy attempts remaining i lastErr
      (s, Some <$> failed) = ((s', log), r) ∧ execute_log_ok (Z.to_nat attempts) log r.
Proof.
  revert i lastErr s failed. induction remaining as [|n IH]; intros i lastErr s failed; [done|].
  intros _ Ha Hi. cbn [Execute_loop logged_fn]. destruct (fn s) as [s1 [err|]].
  - destruct (Z.eqb_spec i attempts) as [->|Hne].
    + eexists _, _, _. split; [done|]. exists failed, (Some err).
      rewrite length_app, length_fmap. simpl. repeat split; (done || lia).
    + simpl. destruct (select _ s1) as [s2 [ctxErr|]].
      * eexists _, _, _. split; [done|]. exists failed, (Some err).
        rewrite length_app, length_fmap. simpl. repeat split; (done || lia).
      * destruct (IH (i + 1) (Some err) s2 (failed ++ [err])) as (s' & log & r & He & Hok);
          [lia..|rewrite length_app; simpl; lia|].
        rewrite fmap_app in He. eauto.
  - eexists _, _, _. split; [done|]. exists failed, None.
    rewrite length_app, length_fmap. simpl. repeat split; (done || lia).
Qed.

(** Execute calls the callback between once and [MaxAttempts] times (once for
    a non-positive setting), every call but the last failed, it returns nil exactly
    when the last call did, and after all attempts the last call's error. *)
Theorem Execute_history policy s :
  ∃ s' log r, Execute logged_fn logged_select policy (s, []) = ((s', log), r) ∧
    execute_log_ok (Z.to_nat (Z.max 1 (MaxAttempts policy))) log r.
Proof.
  unfold Execute. set (attempts := if _ <=? 0 then 1 else _).
  assert (Z.max 1 (MaxAttempts policy) = attempts ∧ 1 ≤ attempts) as [-> Hpos].
  { subst attempts. destruct (Z.leb_spec (MaxAttempts policy) 0); lia. }
  apply (Execute_loop_log policy attempts _ 1 None s []); simpl; lia.
Qed.
End Execute_facts.
