(* ===== verification/CircuitBreaker.v ===== *)
(** * The circuit breaker: internal/retry/circuit_breaker.go

    Per-agent breaker state behind one mutex, its three operations, the
    three-state machine of the README ("Resilience model"), and the refinement
    between the two for calls of an agent that do not overlap.  Overlapping calls
    leave the machine: a report that arrives late closes an open circuit. *)

From S2P Require Import Prelude GoErrors AgentFunc.

(** ** The code *)
Record circuitState := mkCircuitState {
  consecutiveFailures : Z;
  openUntil : time;
  halfOpenProbeActive : bool
}.

(** The zero [circuitState], which reading an absent key of the map gives. *)
Definition circuitState_zero : circuitState := mkCircuitState 0 zero_time false.

(** The field [states]; each operation runs under the mutex. *)
Definition CircuitBreaker : Type := gmap string circuitState.
Definition NewCircuitBreaker : gmap string circuitState := ∅.

Definition get_state (cb : gmap string circuitState) (agentID : string) : circuitState :=
  default circuitState_zero (cb !! agentID).

(** [Allow]: whether a request may proceed, and whether it is the half-open probe. *)
Definition Allow (cb : gmap string circuitState) (agentID : string)
    (policy : CircuitBreakerPolicy) (now : time) : gmap string circuitState * (bool * bool) :=
  if FailureThreshold policy <=? 0 then (cb, (true, false))
  else
    let s := get_state cb agentID in
    if halfOpenProbeActive s then (cb, (false, false))
    else if IsZero (openUntil s) then (cb, (true, false))
    else if Before now (openUntil s) then (cb, (false, false))
    else (<[agentID := mkCircuitState 0 zero_time true]> cb, (true, true)).

Definition RecordSuccess (cb : gmap string circuitState) (agentID : string) :
    gmap string circuitState :=
  <[agentID := mkCircuitState 0 zero_time false]> cb.

Definition RecordFailure (cb : gmap string circuitState) (agentID : string)
    (policy : CircuitBreakerPolicy) (now : time) : gmap string circuitState :=
  if FailureThreshold policy <=? 0 then cb
  else
    let resetTimeout := if ResetTimeout policy <=? 0 then 60 * Second else ResetTimeout policy in
    let s := get_state cb agentID in
    if halfOpenProbeActive s then
      <[agentID := mkCircuitState 0 (Add now resetTimeout) false]> cb
    else
      let failures := wrap64 (consecutiveFailures s + 1) in
      if FailureThreshold policy <=? failures then
        <[agentID := mkCircuitState 0 (Add now resetTimeout) false]> cb
      else <[agentID := mkCircuitState failures (openUntil s) (halfOpenProbeActive s)]> cb.

(** ** The machine of the README

    The states and the transitions of the diagram; a failure is counted in the
    closed state only, and the open state is left only when the reset timeout has
    elapsed. *)
Inductive breaker : Type :=
| Closed (failures : Z)
| Open (until : time)
| HalfOpen.

(** What happens to an agent: a request, with its answer, or the outcome of a call. *)
Inductive event : Type :=
| Request (now : time) (allowed probe : bool)
| Success
| Failure (now : time).

(** The effective reset timeout of an enabled policy. *)
Definition reset_of (policy : CircuitBreakerPolicy) : Z :=
  if ResetTimeout policy <=? 0 then 60 * Second else ResetTimeout policy.

Inductive transition (policy : CircuitBreakerPolicy) : breaker → event → breaker → Prop :=
| normal_traffic n now : transition policy (Closed n) (Request now true false) (Closed n)
| reset_count n : transition policy (Closed n) Success (Closed 0)
| count_failure n now : n + 1 < FailureThreshold policy → transition policy (Closed n) (Failure now) (Closed (n + 1))
| open_circuit n now : FailureThreshold policy ≤ n + 1 →
    transition policy (Closed n) (Failure now) (Open (now + reset_of policy))
| short_circuit u now : now < u → transition policy (Open u) (Request now false false) (Open u)
| allow_probe u now : u ≤ now → transition policy (Open u) (Request now true true) HalfOpen
| probe_only now : transition policy HalfOpen (Request now false false) HalfOpen
| probe_success : transition policy HalfOpen Success (Closed 0)
| probe_failure now : transition policy HalfOpen (Failure now) (Open (now + reset_of policy)).

(** The state of the machine a [circuitState] stands for. *)
Definition abs_state (s : circuitState) : breaker :=
  if halfOpenProbeActive s then HalfOpen
  else if IsZero (openUntil s) then Closed (consecutiveFailures s)
  else Open (openUntil s).

Definition abs (cb : gmap string circuitState) (agentID : string) : breaker :=
  abs_state (get_state cb agentID).

(** ** Well-formedness *)
Definition state_wf (s : circuitState) : Prop :=
  0 ≤ consecutiveFailures s < max_int64 ∧
  (halfOpenProbeActive s = true → consecutiveFailures s = 0 ∧ openUntil s = zero_time).

Definition breaker_wf (cb : gmap string circuitState) : Prop :=
  ∀ agentID, state_wf (get_state cb agentID).

(** What a caller passes: a threshold that fits an [int] and a clock reading after
    the zero time. *)
Definition call_ok (policy : CircuitBreakerPolicy) (now : time) : Prop :=
  FailureThreshold policy ≤ max_int64 ∧ 0 < now.

(** ** Operations as data, for statements about sequences of calls *)
Inductive op : Type :=
| OpAllow (agentID : string) (policy : CircuitBreakerPolicy) (now : time)
| OpSuccess (agentID : string)
| OpFailure (agentID : string) (policy : CircuitBreakerPolicy) (now : time).

(** One operation: the next state, and what [Allow] returned. *)
Definition do_op (cb : gmap string circuitState) (o : op) :
    gmap string circuitState * option (bool * bool) :=
  match o with
  | OpAllow a p now => let '(cb', r) := Allow cb a p now in (cb', Some r)
  | OpSuccess a => (RecordSuccess cb a, None)
  | OpFailure a p now => (RecordFailure cb a p now, None)
  end.

Fixpoint do_ops (cb : gmap string circuitState) (os : list op) : gmap string circuitState :=
  match os with
  | [] => cb
  | o :: os => do_ops (do_op cb o).1 os
  end.

Definition op_ok (o : op) : Prop :=
  match o with
  | OpAllow _ p now | OpFailure _ p now => call_ok p now
  | OpSuccess _ => True
  end.

(** The agent a [Record...] operation reports a finished call of. *)
Definition reports (o : op) : option string :=
  match o with
  | OpAllow _ _ _ => None
  | OpSuccess a | OpFailure a _ _ => Some a
  end.

(** ** Reading and writing one agent *)
Lemma get_state_insert_eq cb a s : get_state (<[a := s]> cb) a = s.
Proof. unfold get_state. by rewrite lookup_insert_eq. Qed.

Lemma get_state_insert_ne cb a b s : a ≠ b → get_state (<[a := s]> cb) b = get_state cb b.
Proof. intros. unfold get_state. by rewrite lookup_insert_ne. Qed.

(** Every operation leaves the other agents alone. *)
Lemma Allow_other cb a b p now : a ≠ b → get_state (Allow cb a p now).1 b = get_state cb b.
Proof. intros. unfold Allow. repeat case_match; simpl; by rewrite ?get_state_insert_ne. Qed.

Lemma RecordSuccess_other cb a b : a ≠ b → get_state (RecordSuccess cb a) b = get_state cb b.
Proof. apply get_state_insert_ne. Qed.

Lemma RecordFailure_other cb a b p now :
  a ≠ b → get_state (RecordFailure cb a p now) b = get_state cb b.
Proof. intros. unfold RecordFailure. repeat case_match; by rewrite ?get_state_insert_ne. Qed.

Lemma breaker_wf_insert cb a s : breaker_wf cb → state_wf s → breaker_wf (<[a := s]> cb).
Proof.
  intros Hcb Hs b. destruct (decide (a = b)) as [->|];
    by rewrite ?get_state_insert_eq, ?get_state_insert_ne.
Qed.

(** ** The invariant *)
Lemma breaker_wf_new : breaker_wf NewCircuitBreaker.
Proof. intros a. unfold get_state, NewCircuitBreaker. rewrite lookup_empty. by split. Qed.

Lemma Allow_wf cb a p now : breaker_wf cb → breaker_wf (Allow cb a p now).1.
Proof.
  intros Hcb. unfold Allow. repeat case_match; simpl; try done.
  apply breaker_wf_insert; [done|]. by split.
Qed.

Lemma RecordSuccess_wf cb a : breaker_wf cb → breaker_wf (RecordSuccess cb a).
Proof. intros. apply breaker_wf_insert; [done|]. by split. Qed.

Lemma failures_in_range cb a : breaker_wf cb →
  wrap64 (consecutiveFailures (get_state cb a) + 1) = consecutiveFailures (get_state cb a) + 1.
Proof. intros H. destruct (H a) as [Hr _]. wrap_lia. Qed.

Lemma RecordFailure_wf cb a p now :
  call_ok p now → breaker_wf cb → breaker_wf (RecordFailure cb a p now).
Proof.
  intros [Hp _] Hcb. unfold RecordFailure. rewrite failures_in_range by done.
  destruct (Hcb a) as [Hr Hh].
  repeat case_match; try done; apply breaker_wf_insert; try done; split; simpl; try done; bool_lia.
Qed.

#[local] Hint Resolve Allow_wf RecordSuccess_wf RecordFailure_wf : flux.

Lemma do_op_wf cb o : op_ok o → breaker_wf cb → breaker_wf (do_op cb o).1.
Proof.
  destruct o as [a p now|a|a p now]; simpl; intros; eauto with flux.
  destruct (Allow cb a p now) eqn:E. simpl. replace g with (Allow cb a p now).1 by (by rewrite E).
  auto with flux.
Qed.

Lemma do_ops_wf cb os : Forall op_ok os → breaker_wf cb → breaker_wf (do_ops cb os).
Proof. intros Hos. revert cb. induction Hos; simpl; auto using do_op_wf. Qed.

(** ** Calls that do not overlap

    [follows cb pending os]: from [cb], with calls of the agents [pending] under way, the
    operations [os] are those of callers that report every call they were allowed, and of which
    at most one per agent is under way at a time. *)
Definition op_agent (o : op) : string :=
  match o with OpAllow a _ _ | OpSuccess a | OpFailure a _ _ => a end.

Definition follows_one (cb : gmap string circuitState) (pending : gset string) (o : op) : Prop :=
  match o with
  | OpAllow a p now => call_ok p now ∧ 0 < FailureThreshold p ∧ ((Allow cb a p now).2.1 = true → a ∉ pending)
  | OpSuccess a => a ∈ pending
  | OpFailure a p now => call_ok p now ∧ 0 < FailureThreshold p ∧ a ∈ pending
  end.

Definition pending_after (cb : gmap string circuitState) (pending : gset string) (o : op) : gset string :=
  match o with
  | OpAllow a p now => if (Allow cb a p now).2.1 then {[a]} ∪ pending else pending
  | OpSuccess a | OpFailure a _ _ => pending ∖ {[a]}
  end.

Fixpoint follows (cb : gmap string circuitState) (pending : gset string) (os : list op) : Prop :=
  match os with
  | [] => True
  | o :: os => follows_one cb pending o ∧ follows (do_op cb o).1 (pending_after cb pending o) os
  end.

(** The event and the policy of an operation. *)
Definition event_of (cb : gmap string circuitState) (o : op) : event :=
  match o with
  | OpAllow a p now => Request now (Allow cb a p now).2.1 (Allow cb a p now).2.2
  | OpSuccess _ => Success
  | OpFailure _ _ now => Failure now
  end.

Definition policy_ok (o : op) (p : CircuitBreakerPolicy) : Prop :=
  match o with OpAllow _ q _ | OpFailure _ q _ => p = q | OpSuccess _ => True end.

(** A call under way keeps the circuit from being open; the circuit is half-open only while the
    probe is under way. *)
Definition pending_ok (cb : gmap string circuitState) (pending : gset string) : Prop :=
  ∀ a, (a ∈ pending → ∀ u, abs cb a ≠ Open u) ∧ (a ∉ pending → abs cb a ≠ HalfOpen).

Lemma do_op_other cb o b : op_agent o ≠ b → get_state (do_op cb o).1 b = get_state cb b.
Proof.
  destruct o as [a p now|a|a p now]; cbn; intros Hne.
  - rewrite <- (Allow_other cb a b p now) by done. by destruct (Allow cb a p now).
  - by apply RecordSuccess_other.
  - by apply RecordFailure_other.
Qed.

Lemma Allow_transition cb a p now : 0 < FailureThreshold p →
  transition p (abs cb a) (Request now (Allow cb a p now).2.1 (Allow cb a p now).2.2) (abs (Allow cb a p now).1 a).
Proof.
  intros Hp. unfold Allow, abs, abs_state. destruct (Z.leb_spec (FailureThreshold p) 0); [lia|].
  destruct (get_state cb a) as [n u h] eqn:E. cbn. unfold Before.
  destruct h; cbn; [rewrite E; constructor|]. destruct (IsZero u) eqn:Eu; cbn; [rewrite E; cbn; rewrite Eu; constructor|].
  destruct (Z.ltb_spec now u); cbn; rewrite ?get_state_insert_eq, ?E; cbn; rewrite ?Eu; by constructor.
Qed.

Lemma reset_of_pos p : 0 < reset_of p.
Proof. unfold reset_of. destruct (Z.leb_spec (ResetTimeout p) 0); [done|lia]. Qed.

Lemma abs_state_opened now p :
  0 < now → abs_state (mkCircuitState 0 (Add now (reset_of p)) false) = Open (now + reset_of p).
Proof.
  intros. pose proof (reset_of_pos p). unfold abs_state, Add, IsZero. simpl.
  destruct (Z.eqb_spec (now + reset_of p) 0); [lia|done].
Qed.

Lemma RecordFailure_transition cb a p now :
  breaker_wf cb → call_ok p now → 0 < FailureThreshold p → (∀ u, abs cb a ≠ Open u) →
  transition p (abs cb a) (Failure now) (abs (RecordFailure cb a p now) a).
Proof.
  intros Hcb [_ Hnow] Hp Hopen. unfold RecordFailure. fold (reset_of p). rewrite failures_in_range by done.
  unfold abs in *. destruct (Z.leb_spec (FailureThreshold p) 0); [lia|].
  destruct (get_state cb a) as [n u h]. cbn in *. unfold abs_state at 1. cbn in *.
  destruct h; cbn; [rewrite get_state_insert_eq, abs_state_opened by done; constructor|].
  unfold abs_state in Hopen. cbn in Hopen. destruct (IsZero u) eqn:Eu; [|by destruct (Hopen u)].
  destruct (Z.leb_spec (FailureThreshold p) (n + 1)); rewrite get_state_insert_eq.
  - rewrite abs_state_opened by done. by constructor.
  - unfold abs_state. cbn. rewrite Eu. by constructor.
Qed.

Lemma RecordSuccess_transition cb a p : (∀ u, abs cb a ≠ Open u) → transition p (abs cb a) Success (abs (RecordSuccess cb a) a).
Proof.
  intros Hopen. unfold RecordSuccess, abs at 2. rewrite get_state_insert_eq. cbn.
  destruct (abs cb a) as [n|u|]; [constructor|by destruct (Hopen u)|constructor].
Qed.

(** One operation of such callers is a transition of the machine. *)
Lemma do_op_transition cb pending o p :
  breaker_wf cb → pending_ok cb pending → follows_one cb pending o → policy_ok o p →
  transition p (abs cb (op_agent o)) (event_of cb o) (abs (do_op cb o).1 (op_agent o)).
Proof.
  intros Hwf Hpend Hf Hpol. destruct o as [a q now|a|a q now]; cbn in *; subst.
  - destruct Hf as (_ & Hp & _). pose proof (Allow_transition cb a q now Hp). by destruct (Allow cb a q now) as [cb' [? ?]].
  - apply RecordSuccess_transition. by apply Hpend.
  - destruct Hf as (? & ? & Hin). apply RecordFailure_transition; [done..|]. by apply Hpend.
Qed.

Lemma pending_ok_step cb pending o :
  breaker_wf cb → pending_ok cb pending → follows_one cb pending o → pending_ok (do_op cb o).1 (pending_after cb pending o).
Proof.
  intros Hwf Hpend Hf b. destruct (decide (op_agent o = b)) as [<-|Hne].
  - assert (∃ p, policy_ok o p) as [p Hpol]
      by (destruct o as [? q ?| |? q ?]; cbn; [by exists q|by exists (mkCircuitBreakerPolicy 0 0 0)|by exists q]).
    pose proof (do_op_transition cb pending o p Hwf Hpend Hf Hpol) as Ht. destruct (Hpend (op_agent o)) as [H1 H2].
    revert Ht H1 H2 Hf. generalize (abs (do_op cb o).1 (op_agent o)). intros x Ht H1 H2 Hf.
    destruct o as [a q now|a|a q now]; cbn in *.
    + destruct (Allow cb a q now) as [cb' [[|] pr]]; cbn in *.
      * split; [intros _ u|set_solver]. inversion Ht; done.
      * split; [intros Hin u; specialize (H1 Hin)|intros Hin; specialize (H2 Hin)]; inversion Ht; congruence.
    + split; [set_solver|]. intros _. inversion Ht; done.
    + split; [set_solver|]. intros _. inversion Ht; done.
  - unfold abs. rewrite do_op_other by done. destruct (Hpend b) as [H1 H2]. unfold abs in H1, H2.
    assert (b ∈ pending_after cb pending o ↔ b ∈ pending) as ->; [|done].
    destruct o as [a q now|a|a q now]; cbn in *; [destruct (Allow cb a q now).2.1|..]; set_solver.
Qed.

Lemma follows_op_ok cb pending o : follows_one cb pending o → op_ok o.
Proof. destruct o; cbn; naive_solver. Qed.

Lemma follows_app cb pending os o : breaker_wf cb → pending_ok cb pending → follows cb pending (os ++ [o]) →
  ∃ pending', breaker_wf (do_ops cb os) ∧ pending_ok (do_ops cb os) pending' ∧ follows_one (do_ops cb os) pending' o.
Proof.
  revert cb pending. induction os as [|o' os IH]; intros cb pending Hwf Hpend; cbn [app follows do_ops].
  - intros [Hf _]. by exists pending.
  - intros [Hf Hrest]. eapply IH; [|by eapply pending_ok_step|exact Hrest]. eapply do_op_wf; [by eapply follows_op_ok|done].
Qed.

Lemma pending_ok_new : pending_ok NewCircuitBreaker ∅.
Proof. intros a. split; [set_solver|]. intros _. unfold abs, get_state, NewCircuitBreaker. by rewrite lookup_empty. Qed.

(** ** Sequences of operations *)
Lemma Allow_half_open cb a p now :
  0 < FailureThreshold p → halfOpenProbeActive (get_state cb a) = true →
  Allow cb a p now = (cb, (false, false)).
Proof. intros Hp Hh. unfold Allow. destruct (Z.leb_spec (FailureThreshold p) 0); [lia|]. by rewrite Hh. Qed.

Lemma Allow_probe_marks cb a p now cb' :
  Allow cb a p now = (cb', (true, true)) → halfOpenProbeActive (get_state cb' a) = true.
Proof. unfold Allow. repeat case_match; intros; simplify_eq. by rewrite get_state_insert_eq. Qed.

(** Only a report for [a] ends [a]'s probe. *)
Lemma probe_stays cb o a :
  reports o ≠ Some a → halfOpenProbeActive (get_state cb a) = true →
  halfOpenProbeActive (get_state (do_op cb o).1 a) = true.
Proof.
  destruct o as [b p now|b|b p now]; simpl; intros Hr Hh.
  - destruct (decide (b = a)) as [->|Hne].
    + unfold Allow. rewrite Hh. by destruct (FailureThreshold p <=? 0).
    + rewrite <- Hh, <- (Allow_other cb b a p now) by done. by destruct (Allow cb b p now).
  - by rewrite RecordSuccess_other by congruence.
  - by rewrite RecordFailure_other by congruence.
Qed.

Lemma probe_stays_ops cb os a :
  Forall (λ o, reports o ≠ Some a) os → halfOpenProbeActive (get_state cb a) = true →
  halfOpenProbeActive (get_state (do_ops cb os) a) = true.
Proof. intros Hos. revert cb. induction Hos; simpl; auto using probe_stays. Qed.

Lemma do_ops_app cb os1 os2 : do_ops cb (os1 ++ os2) = do_ops (do_ops cb os1) os2.
Proof. revert cb. induction os1; simpl; auto. Qed.



(** Calls that overlap leave the diagram: the success of a call that was allowed before the
    circuit opened closes it before its reset timeout. *)
Example late_success_closes :
  let p := mkCircuitBreakerPolicy 1 50 5 in
  let opened := do_ops NewCircuitBreaker [OpAllow "a" p 99; OpAllow "a" p 99; OpFailure "a" p 100] in
  abs opened "a" = Open 150 ∧ abs (RecordSuccess opened "a") "a" = Closed 0 ∧
  ¬ transition p (Open 150) Success (Closed 0).
Proof. split; [vm_compute; reflexivity|]. split; [vm_compute; reflexivity|]. inversion 1. Qed.

(** Once [Allow] has granted an agent's half-open probe, every further
    request for that agent is refused until some call for that agent is reported as finished,
    whatever happens to other agents in between. *)
Theorem breaker_single_probe cb a p now cb' os p' now' :
  Allow cb a p now = (cb', (true, true)) →
  Forall (λ o, reports o ≠ Some a) os → 0 < FailureThreshold p' →
  (Allow (do_ops cb' os) a p' now').2 = (false, false).
Proof.
  intros Hprobe Hos Hp'. rewrite Allow_half_open; [done..|].
  eapply probe_stays_ops, Allow_probe_marks; eassumption.
Qed.

Lemma breaker_single_probe_witness :
  let p := mkCircuitBreakerPolicy 1 10 5 in
  let opened := RecordFailure NewCircuitBreaker "b" p 100 in
  (Allow opened "b" p 115).2 = (true, true) ∧
  (Allow (do_ops (Allow opened "b" p 115).1 [OpFailure "c" p 116]) "b" p 117).2 = (false, false).
Proof.
  split; [vm_compute; reflexivity|].
  apply (breaker_single_probe (RecordFailure NewCircuitBreaker "b" (mkCircuitBreakerPolicy 1 10 5) 100)
    "b" (mkCircuitBreakerPolicy 1 10 5) 115); [vm_compute; reflexivity| |vm_compute; reflexivity].
  repeat constructor. vm_compute. congruence.
Defined.
