(* ===== verification/Registry.v ===== *)
(** * The agent registry: internal/agent/registry.go

    A map from "id@version" to agent functions, and the laws its clients (the
    engine, the SDK and the replayer) use, as the class [AgentResolver]. *)

From S2P Require Import Prelude GoErrors AgentFunc.

Definition ErrEmptyAgentID : error := ErrorString (Some 7%N) "agent id is empty".
Definition ErrNilAgentFunc : error := ErrorString (Some 8%N) "agent func is nil".
Definition ErrDuplicateAgentID : error := ErrorString (Some 9%N) "agent id already registered".

(** [VersionedID]: the normalized identifier "id@version". *)
Definition VersionedID (agentID version : string) : string :=
  let version := if decide (version = "") then "v1" else version in
  agentID +:+ "@" +:+ version.

Section Registry.
(** The agent functions; a Go [AgentFunc] may be nil, hence [option F]. *)
Context {F : Type}.

Definition NewRegistry : gmap string F := ∅.

Definition RegisterVersion (r : gmap string F) (agentID version : string) (fn : option F) :
    result error (gmap string F) :=
  if decide (agentID = "") then Err ErrEmptyAgentID
  else
    let version := if decide (version = "") then "v1" else version in
    match fn with
    | None => Err ErrNilAgentFunc
    | Some fn =>
        let key := VersionedID agentID version in
        match r !! key with
        | Some _ => Err (Errorf_w (Error ErrDuplicateAgentID +:+ ": " +:+ key) ErrDuplicateAgentID)
        | None => Ok (<[key := fn]> r)
        end
    end.

Definition Register (r : gmap string F) (agentID : string) (fn : option F) :
    result error (gmap string F) :=
  RegisterVersion r agentID "v1" fn.

Definition GetVersion (r : gmap string F) (agentID version : string) : option F :=
  let version := if decide (version = "") then "v1" else version in
  r !! VersionedID agentID version.

Definition Get (r : gmap string F) (agentID : string) : option F := GetVersion r agentID "v1".
End Registry.

(** What the registry promises to its clients: a store of agents by identifier
    in which registration is write-once. *)
Class AgentResolver (R F : Type) := {
  resolve : R → string → option F;
  register : R → string → F → result error R;
  resolve_registered r id fn r' : register r id fn = Ok r' → resolve r' id = Some fn;
  resolve_frame r id fn r' id' : id ≠ id' → register r id fn = Ok r' → resolve r' id' = resolve r id';
  register_free r id fn : id ≠ "" → resolve r id = None → is_ok (register r id fn) = true;
  register_taken r id fn : id ≠ "" → resolve r id ≠ None →
    ∃ e, register r id fn = Err e ∧ errors_Is e ErrDuplicateAgentID = true
}.

(** ** Identifiers *)
Definition has_char (c : Ascii.ascii) (s : string) : bool :=
  existsb (Ascii.eqb c) (String.list_ascii_of_string s).

Lemma append_sep_inj c s1 s2 t1 t2 :
  has_char c s1 = false → has_char c s2 = false →
  s1 +:+ String c t1 = s2 +:+ String c t2 → s1 = s2 ∧ t1 = t2.
Proof.
  revert s2. induction s1 as [|a s1 IH]; intros [|b s2]; unfold has_char in *; simpl;
    rewrite ?orb_false_iff; intros H1 H2 He; cbn in He; simplify_eq.
  - done.
  - destruct H2 as [H2 _]. by rewrite Ascii.eqb_refl in H2.
  - destruct H1 as [H1 _]. by rewrite Ascii.eqb_refl in H1.
  - destruct H1, H2. destruct (IH s2) as [-> ->]; done.
Qed.

Lemma VersionedID_inj a b v w :
  has_char "@"%char a = false → has_char "@"%char b = false → v ≠ "" → w ≠ "" →
  VersionedID a v = VersionedID b w → a = b ∧ v = w.
Proof.
  intros Ha Hb Hv Hw. unfold VersionedID. rewrite !decide_False by done.
  apply append_sep_inj; done.
Qed.

Lemma append_cancel_r s1 s2 t : s1 +:+ t = s2 +:+ t → s1 = s2.
Proof.
  intros H. assert (Hl : String.list_ascii_of_string (s1 +:+ t) = String.list_ascii_of_string (s2 +:+ t))
    by congruence.
  assert (∀ s u, String.list_ascii_of_string (s +:+ u)
    = String.list_ascii_of_string s ++ String.list_ascii_of_string u) as Happ.
  { induction s; intros; cbn; [done|]. f_equal. by rewrite <- IHs. }
  rewrite !Happ in Hl. apply app_inv_tail in Hl.
  by rewrite <- (String.string_of_list_ascii_of_string s1), Hl, String.string_of_list_ascii_of_string.
Qed.

(** With the version fixed, as in [Register] and [Get], identifiers do not clash. *)
Lemma VersionedID_v1_inj a b : VersionedID a "v1" = VersionedID b "v1" → a = b.
Proof. apply append_cancel_r. Qed.

(** ** Laws of the registry *)
Section Registry_facts.
Context {F : Type}.
Implicit Types r : gmap string F.

Lemma RegisterVersion_ok r id v fn r' :
  RegisterVersion r id v fn = Ok r' ↔
  ∃ f, fn = Some f ∧ id ≠ "" ∧ GetVersion r id v = None ∧
    r' = <[VersionedID id (if decide (v = "") then "v1" else v) := f]> r.
Proof.
  unfold RegisterVersion, GetVersion. split.
  - intros H. repeat case_match; simplify_eq; eauto 10.
  - intros (f & -> & Hid & Hg & ->). rewrite decide_False by done. by rewrite Hg.
Qed.

Lemma Register_ok r id f r' :
  Register r id (Some f) = Ok r' ↔ id ≠ "" ∧ Get r id = None ∧ r' = <[VersionedID id "v1" := f]> r.
Proof.
  unfold Register. rewrite RegisterVersion_ok. unfold Get. rewrite decide_False by done.
  naive_solver.
Qed.

Lemma Register_duplicate r id f :
  id ≠ "" → Get r id ≠ None →
  ∃ e, Register r id (Some f) = Err e ∧ errors_Is e ErrDuplicateAgentID = true.
Proof.
  intros Hid Hg. unfold Register, RegisterVersion, Get, GetVersion in *.
  rewrite decide_False by done. destruct (r !! _); [|done]. eexists. split; [done|]. by vm_compute.
Qed.

Lemma Get_insert_ne r a b f : a ≠ b → Get (<[VersionedID a "v1" := f]> r) b = Get r b.
Proof.
  intros Hab. unfold Get, GetVersion. rewrite decide_False by done.
  rewrite lookup_insert_ne; [done|]. intros H. by apply Hab, VersionedID_v1_inj.
Qed.

#[global] Program Instance registry_resolver : AgentResolver (gmap string F) F := {|
  resolve r id := Get r id;
  register r id fn := Register r id (Some fn)
|}.
Next Obligation.
  intros r id fn r' (_ & _ & ->)%Register_ok. unfold Get, GetVersion.
  rewrite decide_False by done. apply lookup_insert_eq.
Qed.
Next Obligation. intros r id fn r' id' Hne (_ & _ & ->)%Register_ok. by apply Get_insert_ne. Qed.
Next Obligation.
  intros r id fn Hid Hg. simpl in *.
  assert (Register r id (Some fn) = Ok (<[VersionedID id "v1" := fn]> r)) as ->; [|done].
  by apply Register_ok.
Qed.
Next Obligation. intros r id fn. apply Register_duplicate. Qed.
End Registry_facts.

(** Registering an agent under an identifier and version succeeds
    exactly for a non-empty identifier, a non-nil function and a free slot; afterwards looking the
    version up gives that function, and every lookup whose identifier and version are both
    different pairs of '@'-free identifiers is unchanged. *)
Theorem registry_version_roundtrip {F} (r : gmap string F) id v fn r' id' v' :
  RegisterVersion r id v fn = Ok r' →
  has_char "@"%char id = false → has_char "@"%char id' = false → v ≠ "" → v' ≠ "" →
  GetVersion r' id v = fn ∧ GetVersion r id v = None ∧ id ≠ "" ∧
  ((id, v) ≠ (id', v') → GetVersion r' id' v' = GetVersion r id' v').
Proof.
  intros (f & -> & Hid & Hg & ->)%RegisterVersion_ok Ha Ha' Hv Hv'.
  rewrite decide_False by done. unfold GetVersion in *. rewrite !decide_False in * by done.
  rewrite lookup_insert_eq. repeat split; try done.
  intros Hne. rewrite lookup_insert_ne; [done|].
  intros [-> ->]%VersionedID_inj; done.
Qed.

Lemma registry_version_roundtrip_witness :
  is_ok (RegisterVersion (F := nat) NewRegistry "a" "v2" (Some 7%nat)) = true ∧
  GetVersion (<[VersionedID "a" "v2" := 7%nat]> NewRegistry) "a" "v2" = Some 7%nat.
Proof.
  split; [vm_compute; reflexivity|].
  apply (registry_version_roundtrip NewRegistry "a" "v2" (Some 7%nat) _ "b" "v1");
    try (vm_compute; congruence).
Defined.
