(* ===== verification/GoStrings.v ===== *)
(** * Go strings

    A Go [string] is a byte sequence, here a Rocq [string].  This file models what the
    repository uses of the packages [strings], [strconv], [unicode] and [unicode/utf8]:
    UTF-8 decoding with Go's treatment of invalid bytes, [strings.ToLower] with the simple
    lower-case mapping of Unicode, [strings.TrimSpace], and the quoting of [%q]. *)

From S2P Require Import Prelude.

(** ** Bytes and runes *)
Definition bytes (s : string) : list Z :=
  (λ c, Z.of_N (Ascii.N_of_ascii c)) <$> String.list_ascii_of_string s.
Definition string_of_bytes (bs : list Z) : string :=
  String.string_of_list_ascii ((λ b, Ascii.ascii_of_N (Z.to_N b)) <$> bs).

Definition RuneError : Z := 65533.

Definition continuation (b : Z) : bool := (128 <=? b) && (b <=? 191).
Definition low6 (b : Z) : Z := Z.land b 63.

(** The encodings [utf8.DecodeRune] accepts, by length. *)
Definition valid2 (b0 b1 : Z) : bool := (194 <=? b0) && (b0 <=? 223) && continuation b1.
Definition valid3 (b0 b1 b2 : Z) : bool :=
  (224 <=? b0) && (b0 <=? 239) && continuation b1 && continuation b2 &&
  implb (b0 =? 224) (160 <=? b1) && implb (b0 =? 237) (b1 <=? 159).
Definition valid4 (b0 b1 b2 b3 : Z) : bool :=
  (240 <=? b0) && (b0 <=? 244) && continuation b1 && continuation b2 && continuation b3 &&
  implb (b0 =? 240) (144 <=? b1) && implb (b0 =? 244) (b1 <=? 143).

(** The runes of a byte sequence with the bytes each one came from, as a [for range] loop
    meets them; an invalid byte is [RuneError] of width one. *)
Fixpoint decode (bs : list Z) : list (Z * list Z) :=
  match bs with
  | [] => []
  | b0 :: r0 =>
      if b0 <? 128 then (b0, [b0]) :: decode r0
      else match r0 with
      | b1 :: r1 =>
          if valid2 b0 b1 then
            (Z.lor (Z.shiftl (Z.land b0 31) 6) (low6 b1), [b0; b1]) :: decode r1
          else match r1 with
          | b2 :: r2 =>
              if valid3 b0 b1 b2 then
                (Z.lor (Z.shiftl (Z.land b0 15) 12) (Z.lor (Z.shiftl (low6 b1) 6) (low6 b2)),
                 [b0; b1; b2]) :: decode r2
              else match r2 with
              | b3 :: r3 =>
                  if valid4 b0 b1 b2 b3 then
                    (Z.lor (Z.shiftl (Z.land b0 7) 18) (Z.lor (Z.shiftl (low6 b1) 12)
                       (Z.lor (Z.shiftl (low6 b2) 6) (low6 b3))), [b0; b1; b2; b3]) :: decode r3
                  else (RuneError, [b0]) :: decode r0
              | [] => (RuneError, [b0]) :: decode r0
              end
          | [] => (RuneError, [b0]) :: decode r0
          end
      | [] => [(RuneError, [b0])]
      end
  end.

(** [utf8.AppendRune]. *)
Definition encode_rune (r : Z) : list Z :=
  if (0 <=? r) && (r <? 128) then [r]
  else if (128 <=? r) && (r <? 2048) then [192 + Z.shiftr r 6; 128 + low6 r]
  else if ((2048 <=? r) && (r <? 55296)) || ((57344 <=? r) && (r <? 65536)) then
    [224 + Z.shiftr r 12; 128 + low6 (Z.shiftr r 6); 128 + low6 r]
  else if (65536 <=? r) && (r <=? 1114111) then
    [240 + Z.shiftr r 18; 128 + low6 (Z.shiftr r 12); 128 + low6 (Z.shiftr r 6); 128 + low6 r]
  else [239; 191; 189].

(** ** Letter case

    The simple lower-case mapping outside ASCII, as ranges [(first, last, stride, delta)];
    a rune of a range is mapped to itself plus [delta]. *)
Definition lower_ranges : list (Z * Z * Z * Z) := [
  (192, 214, 1, 32); (216, 222, 1, 32); (256, 302, 2, 1); (304, 304, 1, -199);
  (306, 310, 2, 1); (313, 327, 2, 1); (330, 374, 2, 1); (376, 376, 1, -121); (377, 381, 2, 1);
  (385, 385, 1, 210); (386, 388, 2, 1); (390, 390, 1, 206); (391, 391, 1, 1);
  (393, 394, 1, 205); (395, 395, 1, 1); (398, 398, 1, 79); (399, 399, 1, 202);
  (400, 400, 1, 203); (401, 401, 1, 1); (403, 403, 1, 205); (404, 404, 1, 207);
  (406, 406, 1, 211); (407, 407, 1, 209); (408, 408, 1, 1); (412, 412, 1, 211);
  (413, 413, 1, 213); (415, 415, 1, 214); (416, 420, 2, 1); (422, 422, 1, 218);
  (423, 423, 1, 1); (425, 425, 1, 218); (428, 428, 1, 1); (430, 430, 1, 218); (431, 431, 1, 1);
  (433, 434, 1, 217); (435, 437, 2, 1); (439, 439, 1, 219); (440, 440, 1, 1); (444, 444, 1, 1);
  (452, 452, 1, 2); (453, 453, 1, 1); (455, 455, 1, 2); (456, 456, 1, 1); (458, 458, 1, 2);
  (459, 475, 2, 1); (478, 494, 2, 1); (497, 497, 1, 2); (498, 500, 2, 1); (502, 502, 1, -97);
  (503, 503, 1, -56); (504, 542, 2, 1); (544, 544, 1, -130); (546, 562, 2, 1);
  (570, 570, 1, 10795); (571, 571, 1, 1); (573, 573, 1, -163); (574, 574, 1, 10792);
  (577, 577, 1, 1); (579, 579, 1, -195); (580, 580, 1, 69); (581, 581, 1, 71);
  (582, 590, 2, 1); (880, 882, 2, 1); (886, 886, 1, 1); (895, 895, 1, 116); (902, 902, 1, 38);
  (904, 906, 1, 37); (908, 908, 1, 64); (910, 911, 1, 63); (913, 929, 1, 32);
  (931, 939, 1, 32); (975, 975, 1, 8); (984, 1006, 2, 1); (1012, 1012, 1, -60);
  (1015, 1015, 1, 1); (1017, 1017, 1, -7); (1018, 1018, 1, 1); (1021, 1023, 1, -130);
  (1024, 1039, 1, 80); (1040, 1071, 1, 32); (1120, 1152, 2, 1); (1162, 1214, 2, 1);
  (1216, 1216, 1, 15); (1217, 1229, 2, 1); (1232, 1326, 2, 1); (1329, 1366, 1, 48);
  (4256, 4293, 1, 7264); (4295, 4295, 1, 7264); (4301, 4301, 1, 7264); (5024, 5103, 1, 38864);
  (5104, 5109, 1, 8); (7312, 7354, 1, -3008); (7357, 7359, 1, -3008); (7680, 7828, 2, 1);
  (7838, 7838, 1, -7615); (7840, 7934, 2, 1); (7944, 7951, 1, -8); (7960, 7965, 1, -8);
  (7976, 7983, 1, -8); (7992, 7999, 1, -8); (8008, 8013, 1, -8); (8025, 8031, 2, -8);
  (8040, 8047, 1, -8); (8072, 8079, 1, -8); (8088, 8095, 1, -8); (8104, 8111, 1, -8);
  (8120, 8121, 1, -8); (8122, 8123, 1, -74); (8124, 8124, 1, -9); (8136, 8139, 1, -86);
  (8140, 8140, 1, -9); (8152, 8153, 1, -8); (8154, 8155, 1, -100); (8168, 8169, 1, -8);
  (8170, 8171, 1, -112); (8172, 8172, 1, -7); (8184, 8185, 1, -128); (8186, 8187, 1, -126);
  (8188, 8188, 1, -9); (8486, 8486, 1, -7517); (8490, 8490, 1, -8383); (8491, 8491, 1, -8262);
  (8498, 8498, 1, 28); (8544, 8559, 1, 16); (8579, 8579, 1, 1); (9398, 9423, 1, 26);
  (11264, 11311, 1, 48); (11360, 11360, 1, 1); (11362, 11362, 1, -10743);
  (11363, 11363, 1, -3814); (11364, 11364, 1, -10727); (11367, 11371, 2, 1);
  (11373, 11373, 1, -10780); (11374, 11374, 1, -10749); (11375, 11375, 1, -10783);
  (11376, 11376, 1, -10782); (11378, 11378, 1, 1); (11381, 11381, 1, 1);
  (11390, 11391, 1, -10815); (11392, 11490, 2, 1); (11499, 11501, 2, 1); (11506, 11506, 1, 1);
  (42560, 42604, 2, 1); (42624, 42650, 2, 1); (42786, 42798, 2, 1); (42802, 42862, 2, 1);
  (42873, 42875, 2, 1); (42877, 42877, 1, -35332); (42878, 42886, 2, 1); (42891, 42891, 1, 1);
  (42893, 42893, 1, -42280); (42896, 42898, 2, 1); (42902, 42920, 2, 1);
  (42922, 42922, 1, -42308); (42923, 42923, 1, -42319); (42924, 42924, 1, -42315);
  (42925, 42925, 1, -42305); (42926, 42926, 1, -42308); (42928, 42928, 1, -42258);
  (42929, 42929, 1, -42282); (42930, 42930, 1, -42261); (42931, 42931, 1, 928);
  (42932, 42946, 2, 1); (42948, 42948, 1, -48); (42949, 42949, 1, -42307);
  (42950, 42950, 1, -35384); (42951, 42953, 2, 1); (42960, 42960, 1, 1); (42966, 42968, 2, 1);
  (42997, 42997, 1, 1); (65313, 65338, 1, 32); (66560, 66599, 1, 40); (66736, 66771, 1, 40);
  (66928, 66938, 1, 39); (66940, 66954, 1, 39); (66956, 66962, 1, 39); (66964, 66965, 1, 39);
  (68736, 68786, 1, 64); (71840, 71871, 1, 32); (93760, 93791, 1, 32); (125184, 125217, 1, 34)
].

Definition in_range (r : Z) : Z * Z * Z * Z → bool :=
  λ '(lo, hi, stride, _), (lo <=? r) && (r <=? hi) && ((r - lo) mod stride =? 0).

(** [unicode.ToLower]. *)
Definition rune_ToLower (r : Z) : Z :=
  if r <? 128 then if (65 <=? r) && (r <=? 90) then r + 32 else r
  else match List.find (in_range r) lower_ranges with
       | Some (_, _, _, delta) => r + delta
       | None => r
       end.

(** [strings.ToLower]: every rune lowered and re-encoded, an invalid byte as U+FFFD. *)
Definition ToLower (s : string) : string :=
  string_of_bytes (concat ((λ rb, encode_rune (rune_ToLower rb.1)) <$> decode (bytes s))).

(** ** White space *)

(** [unicode.IsSpace]. *)
Definition rune_IsSpace (r : Z) : bool :=
  ((9 <=? r) && (r <=? 13)) || (r =? 32) || (r =? 133) || (r =? 160) || (r =? 5760) ||
  ((8192 <=? r) && (r <=? 8202)) || (r =? 8232) || (r =? 8233) || (r =? 8239) ||
  (r =? 8287) || (r =? 12288).

(** Removes the leading elements that satisfy [f]. *)
Fixpoint drop_while {A} (f : A → bool) (l : list A) : list A :=
  match l with
  | [] => []
  | x :: l' => if f x then drop_while f l' else l
  end.

(** Removes them at both ends. *)
Definition trim {A} (f : A → bool) (l : list A) : list A :=
  reverse (drop_while f (reverse (drop_while f l))).

(** [strings.TrimSpace]. *)
Definition TrimSpace (s : string) : string :=
  string_of_bytes (concat ((trim (λ rb, rune_IsSpace rb.1) (decode (bytes s))).*2)).

(** ** Substrings *)

(** [strings.HasPrefix]. *)
Definition HasPrefix (s prefix : string) : bool := String.prefix prefix s.

(** [strings.TrimPrefix]. *)
Definition TrimPrefix (s prefix : string) : string :=
  if HasPrefix s prefix
  then String.substring (String.length prefix) (String.length s - String.length prefix)%nat s
  else s.

(** [strings.Contains]. *)
Fixpoint Contains (s substr : string) : bool :=
  HasPrefix s substr || match s with EmptyString => false | String _ s' => Contains s' substr end.

(** ** Formatting *)

(** [%d] of an integer. *)
Definition Itoa (z : Z) : string := pretty z.

Definition hex_digit (d : Z) : Z := if d <? 10 then 48 + d else 87 + d.
Definition hex2 (b : Z) : list Z := [hex_digit (Z.shiftr b 4); hex_digit (Z.land b 15)].

(** One rune inside a quoted string.  Non-ASCII runes from U+00A1 on are written as they
    are, which is what [strconv.Quote] does with the printable ones. *)
Definition quote_rune (rb : Z * list Z) : list Z :=
  let '(r, bs) := rb in
  if (r =? RuneError) && (length bs =? 1)%nat then bytes "\x" ++ concat (hex2 <$> bs)
  else if (r =? 34) || (r =? 92) then 92 :: bs
  else if (32 <=? r) && (r <? 127) then bs
  else if (161 <=? r) && negb (r =? 173) then bs
  else if r =? 7 then bytes "\a"
  else if r =? 8 then bytes "\b"
  else if r =? 12 then bytes "\f"
  else if r =? 10 then bytes "\n"
  else if r =? 13 then bytes "\r"
  else if r =? 9 then bytes "\t"
  else if r =? 11 then bytes "\v"
  else if r <? 128 then bytes "\x" ++ hex2 r
  else bytes "\u00" ++ hex2 r.

(** [%q] of a string: [strconv.Quote]. *)
Definition Quote (s : string) : string :=
  string_of_bytes ([34] ++ concat (quote_rune <$> decode (bytes s)) ++ [34]).

(** ** Checks *)
Example ToLower_kelvin :
  ToLower (string_of_bytes [226; 132; 170; 65]) = "ka" ∧ ToLower "TeNant-Ä" = "tenant-ä".
Proof. split; vm_compute; reflexivity. Qed.

Example ToLower_invalid_byte :
  ToLower (string_of_bytes [65; 255]) = string_of_bytes [97; 239; 191; 189].
Proof. vm_compute; reflexivity. Qed.

Example TrimSpace_nbsp :
  TrimSpace (string_of_bytes [32; 194; 160; 120; 32; 121; 226; 128; 131; 10]) = "x y".
Proof. vm_compute; reflexivity. Qed.

Example Contains_inner : Contains "tenant-a" "ant-" = true ∧ Contains "tenant" "x" = false.
Proof. split; vm_compute; reflexivity. Qed.

(** ** Prefixes *)
Lemma HasPrefix_app p s : HasPrefix (p +:+ s) p = true.
Proof.
  unfold HasPrefix. induction p as [|c p IH]; [by destruct s|].
  change (String c p +:+ s) with (String c (p +:+ s)). cbn [String.prefix]. by destruct (Ascii.ascii_dec c c).
Qed.

Lemma substring_all s : String.substring 0 (String.length s) s = s.
Proof. induction s as [|c s IH]; [done|]. cbn [String.length String.substring]. by rewrite IH. Qed.

Lemma HasPrefix_TrimPrefix s p : HasPrefix s p = true → s = p +:+ TrimPrefix s p.
Proof.
  intros H. unfold TrimPrefix. rewrite H. unfold HasPrefix in H. revert s H.
  induction p as [|c p IH]; intros s H.
  - change (String.length "") with 0%nat. by rewrite Nat.sub_0_r, substring_all.
  - destruct s as [|c' s]; [done|]. cbn [String.prefix] in H. destruct (Ascii.ascii_dec c c') as [->|]; [|done].
    cbn [String.length Nat.sub String.substring]. change (String c' p +:+ ?t) with (String c' (p +:+ t)). f_equal. by apply IH.
Qed.
