(* ===== verification/GoTime.v ===== *)
(** * Numbers and durations in text: strconv.Atoi and time.ParseDuration

    The parts of the Standard Library with which internal/config, internal/app and
    internal/controlplane read numbers and durations from YAML fields, environment variables
    and query parameters. *)

From Stdlib Require Import SpecFloat.
From S2P Require Import Prelude GoErrors GoStrings.

Definition is_digit (c : Z) : bool := (48 <=? c) && (c <=? 57).
Definition char_dot : Z := 46.
Definition char_minus : Z := 45.
Definition char_plus : Z := 43.

(** ** strconv.Atoi *)

(** The value of a non-empty sequence of digits. *)
Fixpoint digits_value (s : list Z) (x : Z) : option Z :=
  match s with
  | [] => Some x
  | c :: s' => if is_digit c then digits_value s' (x * 10 + (c - 48)) else None
  end.

(** [strconv.Atoi]: an optional sign, digits, a value that fits an [int]; the error itself is
    not used by any caller. *)
Definition Atoi (s : string) : option Z :=
  let '(neg, ds) :=
    match bytes s with
    | c :: ds => if c =? char_minus then (true, ds) else if c =? char_plus then (false, ds) else (false, c :: ds)
    | [] => (false, [])
    end in
  match ds with
  | [] => None
  | _ =>
      v ← digits_value ds 0;
      let n := if neg then - v else v in
      if (min_int64 <=? n) && (n <=? max_int64) then Some n else None
  end.

(** ** time.ParseDuration *)

(** [time.quote]. *)
Definition time_quote (s : string) : string :=
  string_of_bytes ([34] ++ concat ((λ c,
    if (128 <=? c) || (c <? 32) then bytes "\x" ++ hex2 c
    else if (c =? 34) || (c =? 92) then [92; c] else [c]) <$> bytes s) ++ [34]).

Definition two63 : Z := 9223372036854775808.
Definition two64 : Z := 18446744073709551616.

(** [leadingInt]: the leading digits as a uint64; [None] on overflow. *)
Fixpoint leadingInt (s : list Z) (x : Z) : option (Z * list Z) :=
  match s with
  | c :: s' =>
      if is_digit c then
        if two63 / 10 <? x then None
        else let x' := x * 10 + (c - 48) in
             if two63 <? x' then None else leadingInt s' x'
      else Some (x, s)
  | [] => Some (x, [])
  end.

(** float64 arithmetic, as IEEE 754 binary64 with round to nearest even. *)
Definition float64 (z : Z) : spec_float := binary_normalize 53 1024 z 0 false.
Definition fmul : spec_float → spec_float → spec_float := SFmul 53 1024.
Definition fdiv : spec_float → spec_float → spec_float := SFdiv 53 1024.

(** [uint64(f)] of a non-negative float that fits. *)
Definition uint64_of_float (f : spec_float) : Z :=
  match f with S754_finite _ m e => Z.shiftl (Zpos m) e | _ => 0 end.

(** [leadingFraction]: the digits after the point, and the power of ten to divide them by;
    digits that would overflow are skipped. *)
Fixpoint leadingFraction (s : list Z) (x : Z) (scale : spec_float) (overflow : bool) :
    Z * spec_float * list Z :=
  match s with
  | c :: s' =>
      if is_digit c then
        if overflow then leadingFraction s' x scale true
        else if (two63 - 1) / 10 <? x then leadingFraction s' x scale true
        else let y := x * 10 + (c - 48) in
             if two63 <? y then leadingFraction s' x scale true
             else leadingFraction s' y (fmul scale (float64 10)) false
      else (x, scale, s)
  | [] => (x, scale, [])
  end.

(** The bytes up to the next digit or point. *)
Fixpoint split_unit (s : list Z) : list Z * list Z :=
  match s with
  | c :: s' => if (c =? char_dot) || is_digit c then ([], s) else let '(u, r) := split_unit s' in (c :: u, r)
  | [] => ([], [])
  end.

(** [unitMap]; the micro sign and the Greek letter mu are both accepted. *)
Definition unitMap (u : list Z) : option Z :=
  if decide (u = bytes "ns") then Some 1
  else if decide (u = bytes "us") then Some 1000
  else if decide (u = [194; 181; 115]) then Some 1000
  else if decide (u = [206; 188; 115]) then Some 1000
  else if decide (u = bytes "ms") then Some Millisecond
  else if decide (u = bytes "s") then Some Second
  else if decide (u = bytes "m") then Some Minute
  else if decide (u = bytes "h") then Some (60 * Minute)
  else None.

Section ParseDuration.
Context (orig : string).

Definition invalid_duration : error := Errorf ("time: invalid duration " +:+ time_quote orig).
Definition missing_unit : error := Errorf ("time: missing unit in duration " +:+ time_quote orig).
Definition unknown_unit (u : list Z) : error :=
  Errorf ("time: unknown unit " +:+ time_quote (string_of_bytes u) +:+ " in duration " +:+ time_quote orig).

(** One number with its unit: the nanoseconds it adds and the rest of the text. *)
Definition duration_item (s : list Z) : result error (Z * list Z) :=
  match s with
  | [] => Err invalid_duration
  | c :: _ =>
      if negb ((c =? char_dot) || is_digit c) then Err invalid_duration
      else
        match leadingInt s 0 with
        | None => Err invalid_duration
        | Some (v, s1) =>
            let pre := negb (length s1 =? length s)%nat in
            let '(f, scale, s2, post) :=
              match s1 with
              | c1 :: s1' =>
                  if c1 =? char_dot then
                    let '(f, scale, s2) := leadingFraction s1' 0 (float64 1) false in
                    (f, scale, s2, negb (length s2 =? length s1')%nat)
                  else (0, float64 1, s1, false)
              | [] => (0, float64 1, s1, false)
              end in
            if negb pre && negb post then Err invalid_duration
            else
              let '(u, s3) := split_unit s2 in
              match u with
              | [] => Err missing_unit
              | _ =>
                  match unitMap u with
                  | None => Err (unknown_unit u)
                  | Some unit =>
                      if two63 / unit <? v then Err invalid_duration
                      else
                        let v := v * unit in
                        if 0 <? f then
                          let v := v + uint64_of_float (fmul (float64 f) (fdiv (float64 unit) scale)) in
                          if two63 <? v then Err invalid_duration else Ok (v, s3)
                        else Ok (v, s3)
                  end
              end
        end
  end.

(** The loop over the items; every item consumes its unit, so [length s] rounds are enough. *)
Fixpoint duration_loop (fuel : nat) (s : list Z) (d : Z) : result error Z :=
  match s, fuel with
  | [], _ => Ok d
  | _, O => Err invalid_duration
  | _, S fuel' =>
      match duration_item s with
      | Err e => Err e
      | Ok (v, s') =>
          let d := (d + v) mod two64 in
          if two63 <? d then Err invalid_duration else duration_loop fuel' s' d
      end
  end.
End ParseDuration.

Definition ParseDuration (orig : string) : result error Z :=
  let s := bytes orig in
  let '(neg, s) :=
    match s with
    | c :: s' => if (c =? char_minus) || (c =? char_plus) then (c =? char_minus, s') else (false, s)
    | [] => (false, s)
    end in
  if decide (s = bytes "0") then Ok 0
  else match s with
       | [] => Err (invalid_duration orig)
       | _ =>
           match duration_loop orig (length s) s 0 with
           | Err e => Err e
           | Ok d =>
               if neg then Ok (wrap64 (- wrap64 d))
               else if two63 - 1 <? d then Err (invalid_duration orig) else Ok d
           end
       end.

(** ** Checks *)
Example ParseDuration_checks :
  ParseDuration "30s" = Ok (30 * Second) ∧ ParseDuration "1h15m30.918s" = Ok 4530918000000 ∧
  ParseDuration "-1.5h" = Ok (-5400000000000) ∧ ParseDuration "0" = Ok 0 ∧
  ParseDuration ".5s" = Ok 500000000 ∧ ParseDuration "5us" = Ok 5000 ∧
  ParseDuration "0.3333333333333333333h" = Ok 1200000000000 ∧
  ParseDuration "-9223372036854775808ns" = Ok min_int64 ∧
  ParseDuration "9223372036854775807ns" = Ok max_int64.
Proof. vm_compute. repeat split; reflexivity. Qed.

Example ParseDuration_errors :
  ParseDuration "" = Err (Errorf ("time: invalid duration " +:+ Quote "")) ∧
  ParseDuration "3" = Err (Errorf ("time: missing unit in duration " +:+ Quote "3")) ∧
  ParseDuration "1d" = Err (Errorf ("time: unknown unit " +:+ Quote "d" +:+ " in duration " +:+ Quote "1d")) ∧
  is_ok (ParseDuration "9223372036854775808ns") = false ∧ is_ok (ParseDuration ".s") = false.
Proof. vm_compute. repeat split; reflexivity. Qed.

Example Atoi_checks :
  Atoi "42" = Some 42 ∧ Atoi "-7" = Some (-7) ∧ Atoi "+0012" = Some 12 ∧ Atoi "" = None ∧
  Atoi "-" = None ∧ Atoi "1_0" = None ∧ Atoi " 1" = None ∧ Atoi "9223372036854775808" = None.
Proof. vm_compute. repeat split; reflexivity. Qed.

(** ** Facts *)
Lemma leadingInt_length s : ∀ x v s', leadingInt s x = Some (v, s') → (length s' ≤ length s)%nat.
Proof.
  induction s as [|c s IH]; intros x v s'; simpl; [by intros [= <- <-]|].
  destruct (is_digit c); [|by intros [= <- <-]]. destruct (two63 / 10 <? x); [done|].
  destruct (two63 <? _); [done|]. intros H%IH. lia.
Qed.

Lemma leadingFraction_length s : ∀ x sc o, (length (leadingFraction s x sc o).2 ≤ length s)%nat.
Proof.
  induction s as [|c s IH]; intros x sc o; simpl; [done|].
  repeat case_match; simpl; try lia; (etrans; [apply IH|lia]).
Qed.

Lemma split_unit_length s u r : split_unit s = (u, r) → (length u + length r = length s)%nat.
Proof.
  revert u r. induction s as [|c s IH]; intros u r; simpl; [by intros [= <- <-]|].
  destruct (_ || _); [by intros [= <- <-]|]. destruct (split_unit s) as [u' r'].
  intros [= <- <-]. simpl. by rewrite (IH u' r').
Qed.

(** An item consumes at least its unit, so the fuel of [duration_loop] is never used up. *)
Lemma duration_item_shrinks orig s v s' : duration_item orig s = Ok (v, s') → (length s' < length s)%nat.
Proof.
  unfold duration_item. destruct s as [|c s]; [done|]. destruct (negb _); [done|].
  destruct (leadingInt (c :: s) 0) as [[x s1]|] eqn:E1; [|done]. apply leadingInt_length in E1.
  destruct (match s1 with [] => _ | _ => _ end) as [[[f scale] s2] post] eqn:E2.
  assert (length s2 ≤ length s1)%nat as H2.
  { destruct s1 as [|c1 s1]; [by simplify_eq|]. destruct (c1 =? char_dot); [|by simplify_eq].
    pose proof (leadingFraction_length s1 0 (float64 1) false) as Hf.
    destruct (leadingFraction s1 0 (float64 1) false) as [[? ?] ?]. simplify_eq/=. lia. }
  destruct (_ && _); [done|]. destruct (split_unit s2) as [u s3] eqn:E3. apply split_unit_length in E3.
  destruct u as [|cu u]; [done|]. destruct (unitMap (cu :: u)) as [unit|]; [|done].
  destruct (_ <? _); [done|]. simpl in *.
  destruct (0 <? f); [destruct (_ <? _); [done|]|]; intros [= <- <-]; lia.
Qed.

Lemma duration_loop_fuel orig fuel fuel' : ∀ s d,
  (length s ≤ fuel)%nat → (length s ≤ fuel')%nat →
  duration_loop orig fuel s d = duration_loop orig fuel' s d.
Proof.
  revert fuel'. induction fuel as [|fuel IH]; intros fuel' [|c s] d H H'; try (by destruct fuel'); [simpl in H; lia|].
  destruct fuel' as [|fuel']; [simpl in H'; lia|]. cbn [duration_loop].
  destruct (duration_item orig (c :: s)) as [[v s']|] eqn:E; [|done].
  apply duration_item_shrinks in E. simpl in *. destruct (_ <? _); [done|]. apply IH; lia.
Qed.

Lemma duration_loop_range orig fuel : ∀ s d d',
  0 ≤ d ≤ two63 → duration_loop orig fuel s d = Ok d' → 0 ≤ d' ≤ two63.
Proof.
  induction fuel as [|fuel IH]; intros [|c s] d d' Hd; cbn [duration_loop]; try (by intros [= <-]).
  destruct (duration_item orig (c :: s)) as [[v s']|]; [|done].
  destruct (two63 <? _) eqn:E; [done|]. apply IH. apply Z.ltb_ge in E.
  pose proof (Z.mod_pos_bound (d + v) two64 eq_refl). lia.
Qed.

(** A parsed duration fits a [time.Duration]. *)
Lemma ParseDuration_int64 s d : ParseDuration s = Ok d → int64_range d.
Proof.
  unfold ParseDuration. destruct (match bytes s with [] => _ | _ => _ end) as [neg ds].
  case_decide; [intros [= <-]; by apply (wrap64_range 0)|]. destruct ds as [|c ds]; [done|].
  destruct (duration_loop _ _ _ _) as [x|] eqn:E; [|done].
  apply duration_loop_range in E; [|unfold two63; lia]. destruct neg; [intros [= <-]; apply wrap64_range|].
  destruct (two63 - 1 <? x) eqn:El; [done|]. intros [= <-]. apply Z.ltb_ge in El.
  unfold int64_range, min_int64, max_int64, two63 in *. lia.
Qed.

Lemma Atoi_int64 s n : Atoi s = Some n → int64_range n.
Proof.
  unfold Atoi. destruct (match bytes s with [] => _ | _ => _ end) as [neg ds]. destruct ds; [done|].
  destruct (digits_value _ _) as [v|]; simpl; [|done].
  destruct (_ && _) eqn:E; [|done]. intros [= <-]. apply andb_true_iff in E as [H1%Z.leb_le H2%Z.leb_le]. by split.
Qed.

#[global] Arguments ParseDuration : simpl never.
#[global] Arguments Atoi : simpl never.
