(* ===== verification/Utf8.v ===== *)
(** * UTF-8 round trips

    Runes and bytes: what [encode_rune] writes [decode] reads back, whatever follows, and a
    string that is valid UTF-8 is the encoding of its runes. *)

From S2P Require Import Prelude GoStrings.

(** A Unicode scalar value: a code point that UTF-8 encodes. *)
Definition scalar (r : Z) : bool := ((0 <=? r) && (r <? 55296)) || ((57344 <=? r) && (r <=? 1114111)).

(** The bytes of runes. *)
Definition encode_runes (rs : list Z) : list Z := concat (encode_rune <$> rs).

(** The runes of bytes, invalid bytes being [RuneError]. *)
Definition runes (bs : list Z) : list Z := (decode bs).*1.

Definition string_of_runes (rs : list Z) : string := string_of_bytes (encode_runes rs).
Definition runes_of_string (s : string) : list Z := runes (bytes s).

(** [utf8.ValidString]. *)
Definition valid_utf8 (s : string) : bool :=
  forallb (λ rb, negb ((rb.1 =? RuneError) && (length rb.2 =? 1)%nat)) (decode (bytes s)).

#[global] Arguments valid_utf8 : simpl never.

(** ** Bit fields as arithmetic *)
Lemma low6_mod b : low6 b = b mod 64.
Proof. unfold low6. change 63 with (Z.ones 6). by rewrite Z.land_ones. Qed.

Lemma shiftr_div a n : 0 ≤ n → Z.shiftr a n = a / 2 ^ n.
Proof. apply Z.shiftr_div_pow2. Qed.

Lemma lor_shiftl a b n : 0 ≤ n → 0 ≤ b < 2 ^ n → Z.lor (Z.shiftl a n) b = a * 2 ^ n + b.
Proof.
  intros Hn Hb. rewrite Z.shiftl_mul_pow2 by done.
  assert (Z.land (a * 2 ^ n) b = 0) as Hl.
  { rewrite <- Z.shiftl_mul_pow2 by done. apply Z.bits_inj'. intros k Hk.
    rewrite Z.land_spec, Z.bits_0. destruct (Z.lt_ge_cases k n).
    - by rewrite Z.shiftl_spec_low.
    - destruct (Z.eq_dec b 0) as [->|]; [by rewrite Z.bits_0, andb_false_r|].
      rewrite (Z.bits_above_log2 b k); [by rewrite andb_false_r|lia|]. apply Z.log2_lt_pow2; [lia|].
      apply Z.lt_le_trans with (2 ^ n); [lia|]. by apply Z.pow_le_mono_r. }
  pose proof (Z.add_lor_land (a * 2 ^ n) b). lia.
Qed.

(** ** Decoding inverts encoding *)
Lemma encode_rune_bytes r : Forall (λ b, 0 ≤ b < 256) (encode_rune r).
Proof.
  unfold encode_rune. rewrite !low6_mod, !shiftr_div by lia.
  repeat case_match; repeat constructor; Z.div_mod_to_equations; lia.
Qed.

(** The byte tests and the values of [decode], on the bytes [encode_rune] writes. *)
Lemma decode2 b0 b1 bs :
  valid2 b0 b1 = true →
  decode (b0 :: b1 :: bs) = ((b0 mod 32) * 64 + b1 mod 64, [b0; b1]) :: decode bs.
Proof.
  intros Hv. cbn [decode]. rewrite Hv. unfold valid2, continuation in Hv.
  replace (b0 <? 128) with false by lia. rewrite low6_mod. change 31 with (Z.ones 5).
  rewrite Z.land_ones by lia. rewrite lor_shiftl; [done|lia|apply Z.mod_pos_bound; lia].
Qed.

Lemma decode3 b0 b1 b2 bs :
  valid3 b0 b1 b2 = true →
  decode (b0 :: b1 :: b2 :: bs) = ((b0 mod 16) * 4096 + ((b1 mod 64) * 64 + b2 mod 64), [b0; b1; b2]) :: decode bs.
Proof.
  intros Hv. cbn [decode]. rewrite Hv. unfold valid3, continuation in Hv.
  replace (b0 <? 128) with false by lia. replace (valid2 b0 b1) with false by (unfold valid2; lia).
  rewrite !low6_mod. change 15 with (Z.ones 4). rewrite Z.land_ones by lia.
  pose proof (Z.mod_pos_bound b1 64). pose proof (Z.mod_pos_bound b2 64).
  rewrite (lor_shiftl (b1 mod 64)), lor_shiftl by lia. done.
Qed.

Lemma decode4 b0 b1 b2 b3 bs :
  valid4 b0 b1 b2 b3 = true →
  decode (b0 :: b1 :: b2 :: b3 :: bs) =
    ((b0 mod 8) * 262144 + ((b1 mod 64) * 4096 + ((b2 mod 64) * 64 + b3 mod 64)), [b0; b1; b2; b3]) :: decode bs.
Proof.
  intros Hv. cbn [decode]. rewrite Hv. unfold valid4, continuation in Hv.
  replace (b0 <? 128) with false by lia. replace (valid2 b0 b1) with false by (unfold valid2; lia).
  replace (valid3 b0 b1 b2) with false by (unfold valid3; lia).
  rewrite !low6_mod. change 7 with (Z.ones 3). rewrite Z.land_ones by lia.
  pose proof (Z.mod_pos_bound b1 64). pose proof (Z.mod_pos_bound b2 64). pose proof (Z.mod_pos_bound b3 64).
  rewrite (lor_shiftl (b2 mod 64)), (lor_shiftl (b1 mod 64)), lor_shiftl by lia. done.
Qed.

Lemma decode_encode r bs : scalar r = true → decode (encode_rune r ++ bs) = (r, encode_rune r) :: decode bs.
Proof.
  unfold scalar. intros Hr. unfold encode_rune. rewrite !low6_mod, !shiftr_div by lia.
  repeat case_match; cbn [app].
  - cbn [decode]. replace (r <? 128) with true by lia. done.
  - rewrite decode2; [do 2 f_equal|unfold valid2, continuation]; Z.div_mod_to_equations; lia.
  - rewrite decode3; [do 2 f_equal|unfold valid3, continuation]; Z.div_mod_to_equations; lia.
  - rewrite decode4; [do 2 f_equal|unfold valid4, continuation]; Z.div_mod_to_equations; lia.
  - lia.
Qed.

Lemma runes_encode rs bs : Forall (λ r, scalar r = true) rs → runes (encode_runes rs ++ bs) = rs ++ runes bs.
Proof.
  induction 1 as [|r rs Hr _ IH]; [done|]. unfold encode_runes, runes in *. cbn [fmap list_fmap concat].
  rewrite <- app_assoc, decode_encode by done. cbn [fmap list_fmap app]. by rewrite IH.
Qed.

(** ** Encoding inverts decoding, on valid bytes *)
Definition byte_range (b : Z) : Prop := 0 ≤ b < 256.

(** What one item of [decode] is. *)
Definition decoded (rb : Z * list Z) : Prop :=
  scalar rb.1 = true ∧ (rb.2 = encode_rune rb.1 ∨ (rb.1 = RuneError ∧ length rb.2 = 1%nat)).

Lemma encode_decoded2 b0 b1 : byte_range b0 → byte_range b1 → valid2 b0 b1 = true →
  let r := (b0 mod 32) * 64 + b1 mod 64 in scalar r = true ∧ [b0; b1] = encode_rune r.
Proof.
  intros ? ? Hv r. unfold byte_range, valid2, continuation in *. assert (128 ≤ r < 2048) as Hr by (subst r; Z.div_mod_to_equations; lia).
  split; [unfold scalar; lia|]. unfold encode_rune. replace (_ && (r <? 128)) with false by lia.
  replace (_ && (r <? 2048)) with true by lia. rewrite low6_mod, shiftr_div by lia.
  f_equal; [|f_equal]; subst r; Z.div_mod_to_equations; lia.
Qed.

Lemma encode_decoded3 b0 b1 b2 : byte_range b0 → byte_range b1 → byte_range b2 → valid3 b0 b1 b2 = true →
  let r := (b0 mod 16) * 4096 + ((b1 mod 64) * 64 + b2 mod 64) in
  scalar r = true ∧ [b0; b1; b2] = encode_rune r.
Proof.
  intros ? ? ? Hv r. unfold byte_range, valid3, continuation in *.
  assert (2048 ≤ r < 55296 ∨ 57344 ≤ r < 65536) as Hr by (subst r; Z.div_mod_to_equations; lia).
  split; [unfold scalar; lia|]. unfold encode_rune. replace (_ && (r <? 128)) with false by lia.
  replace (_ && (r <? 2048)) with false by lia. replace (_ || _) with true by lia.
  rewrite !low6_mod, !shiftr_div by lia.
  f_equal; [|f_equal; [|f_equal]]; subst r; Z.div_mod_to_equations; lia.
Qed.

Lemma encode_decoded4 b0 b1 b2 b3 :
  byte_range b0 → byte_range b1 → byte_range b2 → byte_range b3 → valid4 b0 b1 b2 b3 = true →
  let r := (b0 mod 8) * 262144 + ((b1 mod 64) * 4096 + ((b2 mod 64) * 64 + b3 mod 64)) in
  scalar r = true ∧ [b0; b1; b2; b3] = encode_rune r.
Proof.
  intros ? ? ? ? Hv r. unfold byte_range, valid4, continuation in *.
  assert (65536 ≤ r ≤ 1114111) as Hr by (subst r; Z.div_mod_to_equations; lia).
  split; [unfold scalar; lia|]. unfold encode_rune. replace (_ && (r <? 128)) with false by lia.
  replace (_ && (r <? 2048)) with false by lia. replace (_ || _) with false by lia.
  replace (_ && (r <=? 1114111)) with true by lia. rewrite !low6_mod, !shiftr_div by lia.
  f_equal; [|f_equal; [|f_equal; [|f_equal]]]; subst r; Z.div_mod_to_equations; lia.
Qed.

Lemma decoded_invalid b : decoded (RuneError, [b]).
Proof. split; [done|by right]. Qed.

Lemma decode_decoded bs : Forall byte_range bs → Forall decoded (decode bs).
Proof.
  remember (length bs) as n eqn:Hn. revert bs Hn. induction (lt_wf n) as [n _ IH]. intros bs -> Hbs.
  assert (∀ bs', (length bs' < length bs)%nat → Forall byte_range bs' → Forall decoded (decode bs')) as IH'
    by (intros bs' Hlt; by eapply IH).
  destruct bs as [|b0 r0]; [constructor|]. inversion Hbs as [|? ? H0 Hr0]; subst.
  destruct (b0 <? 128) eqn:E0.
  { cbn [decode]. rewrite E0. constructor; [|apply IH'; [simpl; lia|done]].
    unfold byte_range in H0. split; [unfold scalar; cbn; lia|left]. cbn. unfold encode_rune.
    by replace ((0 <=? b0) && (b0 <? 128)) with true by lia. }
  assert (Forall decoded ((RuneError, [b0]) :: decode r0)) as Hinv
    by (constructor; [apply decoded_invalid|apply IH'; [simpl; lia|done]]).
  destruct r0 as [|b1 r1]; [cbn [decode]; by rewrite E0|]. inversion Hr0 as [|? ? H1 Hr1]; subst.
  destruct (valid2 b0 b1) eqn:E2.
  { rewrite decode2 by done. constructor; [|apply IH'; [simpl; lia|done]].
    destruct (encode_decoded2 b0 b1) as [? ?]; [done..|]. split; [done|by left]. }
  destruct r1 as [|b2 r2]; [cbn [decode] in Hinv |- *; by rewrite E0, E2|]. inversion Hr1 as [|? ? H2 Hr2]; subst.
  destruct (valid3 b0 b1 b2) eqn:E3.
  { rewrite decode3 by done. constructor; [|apply IH'; [simpl; lia|done]].
    destruct (encode_decoded3 b0 b1 b2) as [? ?]; [done..|]. split; [done|by left]. }
  destruct r2 as [|b3 r3]; [cbn [decode] in Hinv |- *; by rewrite E0, E2, E3|]. inversion Hr2 as [|? ? H3 Hr3]; subst.
  destruct (valid4 b0 b1 b2 b3) eqn:E4.
  { rewrite decode4 by done. constructor; [|apply IH'; [simpl; lia|done]].
    destruct (encode_decoded4 b0 b1 b2 b3) as [? ?]; [done..|]. split; [done|by left]. }
  cbn [decode] in Hinv |- *. by rewrite E0, E2, E3, E4.
Qed.

Lemma decode_cons bs : bs ≠ [] →
  ∃ r pre post, decode bs = (r, pre) :: decode post ∧ bs = pre ++ post ∧ pre ≠ [].
Proof.
  intros Hne. destruct bs as [|b0 r0]; [done|].
  destruct (b0 <? 128) eqn:E0; [exists b0, [b0], r0; cbn [decode]; by rewrite E0|].
  destruct r0 as [|b1 r1]; [exists RuneError, [b0], []; cbn [decode]; by rewrite E0|].
  destruct (valid2 b0 b1) eqn:E2; [rewrite decode2 by done; by eexists _, [b0; b1], r1|].
  destruct r1 as [|b2 r2]; [exists RuneError, [b0], [b1]; cbn [decode]; by rewrite E0, E2|].
  destruct (valid3 b0 b1 b2) eqn:E3; [rewrite decode3 by done; by eexists _, [b0; b1; b2], r2|].
  destruct r2 as [|b3 r3]; [exists RuneError, [b0], [b1; b2]; cbn [decode]; by rewrite E0, E2, E3|].
  destruct (valid4 b0 b1 b2 b3) eqn:E4; [rewrite decode4 by done; by eexists _, [b0; b1; b2; b3], r3|].
  exists RuneError, [b0], (b1 :: b2 :: b3 :: r3). cbn [decode]. by rewrite E0, E2, E3, E4.
Qed.

Lemma decode_bytes bs : concat ((decode bs).*2) = bs.
Proof.
  remember (length bs) as n eqn:Hn. revert bs Hn. induction (lt_wf n) as [n _ IH]. intros bs ->.
  destruct (decide (bs = [])) as [->|Hne]; [done|].
  destruct (decode_cons bs Hne) as (r & pre & post & -> & -> & Hpre). cbn. f_equal.
  apply (IH (length post)); [|done]. rewrite length_app. destruct pre; [done|]. simpl. lia.
Qed.

(** ** Strings and bytes *)
Lemma string_of_bytes_bytes s : string_of_bytes (bytes s) = s.
Proof.
  unfold string_of_bytes, bytes. rewrite <- list_fmap_compose.
  rewrite <- (String.string_of_list_ascii_of_string s) at 2. f_equal.
  rewrite <- (list_fmap_id (String.list_ascii_of_string s)) at 2.
  apply list_fmap_ext. intros i c _. cbn. by rewrite N2Z.id, Ascii.ascii_N_embedding.
Qed.

Lemma bytes_string_of_bytes bs : Forall byte_range bs → bytes (string_of_bytes bs) = bs.
Proof.
  intros Hbs. unfold string_of_bytes, bytes. rewrite String.list_ascii_of_string_of_list_ascii, <- list_fmap_compose.
  rewrite <- (list_fmap_id bs) at 2. apply list_fmap_ext. intros i b Hb. cbn.
  rewrite Forall_lookup in Hbs. specialize (Hbs _ _ Hb). unfold byte_range in Hbs.
  rewrite Ascii.N_ascii_embedding by lia. lia.
Qed.

Lemma bytes_range s : Forall byte_range (bytes s).
Proof.
  unfold bytes. apply Forall_fmap, Forall_true. intros c. cbn. unfold byte_range.
  pose proof (Ascii.N_ascii_bounded c). lia.
Qed.

Lemma bytes_inj s t : bytes s = bytes t → s = t.
Proof. intros H. by rewrite <- (string_of_bytes_bytes s), H, string_of_bytes_bytes. Qed.

Lemma bytes_app s t : bytes (s +:+ t) = bytes s ++ bytes t.
Proof.
  unfold bytes. rewrite <- fmap_app. f_equal. induction s as [|c s IH]; [done|].
  change (String c s +:+ t) with (String c (s +:+ t)). cbn. by rewrite IH.
Qed.

Lemma string_app_nil_r s : s +:+ "" = s.
Proof. apply bytes_inj. rewrite bytes_app. apply app_nil_r. Qed.

Lemma string_app_assoc s t u : s +:+ (t +:+ u) = (s +:+ t) +:+ u.
Proof. apply bytes_inj. rewrite !bytes_app. apply app_assoc. Qed.

Lemma encode_runes_range rs : Forall byte_range (encode_runes rs).
Proof.
  unfold encode_runes. induction rs as [|r rs IH]; [constructor|]. cbn. apply Forall_app. split; [apply encode_rune_bytes|done].
Qed.

Lemma runes_scalar s : Forall (λ r, scalar r = true) (runes_of_string s).
Proof.
  unfold runes_of_string, runes. apply Forall_fmap. eapply Forall_impl; [apply decode_decoded, bytes_range|].
  by intros rb [Hs _].
Qed.

(** A string of runes has these runes. *)
Lemma runes_of_string_of_runes rs : Forall (λ r, scalar r = true) rs → runes_of_string (string_of_runes rs) = rs.
Proof.
  intros Hrs. unfold runes_of_string, string_of_runes. rewrite bytes_string_of_bytes by apply encode_runes_range.
  rewrite <- (app_nil_r (encode_runes rs)), runes_encode by done. apply app_nil_r.
Qed.

(** A valid string is the encoding of its runes. *)
Lemma string_of_runes_of_string s : valid_utf8 s = true → string_of_runes (runes_of_string s) = s.
Proof.
  intros Hv. rewrite <- (string_of_bytes_bytes s) at 2. unfold string_of_runes, runes_of_string. f_equal.
  rewrite <- (decode_bytes (bytes s)) at 2. unfold encode_runes, runes. f_equal. rewrite <- list_fmap_compose.
  apply list_fmap_ext. intros i rb Hi. cbn. pose proof (decode_decoded _ (bytes_range s)) as Hd.
  rewrite Forall_lookup in Hd. destruct (Hd _ _ Hi) as [_ [->|[He Hl]]]; [done|].
  unfold valid_utf8 in Hv. rewrite forallb_forall in Hv.
  specialize (Hv rb). rewrite He, Hl in Hv. cbn in Hv. discriminate Hv.
  apply list_elem_of_In. by eapply list_elem_of_lookup_2.
Qed.

Lemma valid_utf8_runes rs : Forall (λ r, scalar r = true) rs → valid_utf8 (string_of_runes rs) = true.
Proof.
  intros Hrs. unfold valid_utf8, string_of_runes. rewrite bytes_string_of_bytes by apply encode_runes_range.
  induction Hrs as [|r rs Hr _ IH]; [done|]. unfold encode_runes in *. cbn [fmap list_fmap concat].
  rewrite decode_encode by done. cbn [forallb]. rewrite IH, andb_true_r. unfold encode_rune, RuneError. cbn [fst snd].
  unfold scalar in Hr. repeat case_match; cbn; lia.
Qed.

(** ** Trimming *)
Lemma drop_while_suffix {A} (f : A → bool) l : drop_while f l `suffix_of` l.
Proof. induction l as [|x l IH]; cbn; [done|]. case_match; [by apply suffix_cons_r|done]. Qed.

Lemma drop_while_head {A} (f : A → bool) l x : head (drop_while f l) = Some x → f x = false.
Proof. induction l as [|y l IH]; cbn; [done|]. case_match; [done|]. by intros [= <-]. Qed.

Lemma trim_infix {A} (f : A → bool) l : ∃ a b, l = a ++ trim f l ++ b.
Proof.
  destruct (drop_while_suffix f l) as [a Ha], (drop_while_suffix f (reverse (drop_while f l))) as [b Hb].
  exists a, (reverse b). rewrite Ha at 1. f_equal. unfold trim. by rewrite <- reverse_app, <- Hb, reverse_involutive.
Qed.

Lemma trim_ends {A} (f : A → bool) l x : head (trim f l) = Some x ∨ last (trim f l) = Some x → f x = false.
Proof.
  unfold trim. intros [H|H].
  - apply (drop_while_head f l). destruct (drop_while_suffix f (reverse (drop_while f l))) as [b Hb].
    apply (f_equal reverse) in Hb. rewrite reverse_involutive, reverse_app in Hb. rewrite Hb.
    destruct (reverse (drop_while f (reverse _))); [done|exact H].
  - rewrite last_reverse in H. by apply drop_while_head in H.
Qed.

Lemma trim_idem {A} (f : A → bool) l : trim f (trim f l) = trim f l.
Proof.
  assert (∀ l, (∀ x, head l = Some x → f x = false) → drop_while f l = l) as Hd.
  { intros [|x l'] H; [done|]. cbn. by rewrite (H x eq_refl). }
  unfold trim at 1. rewrite (Hd (trim f l)) by (intros x Hx; by apply (trim_ends f l); left).
  rewrite Hd, reverse_involutive; [done|]. intros x Hx. apply (trim_ends f l). right. by rewrite <- head_reverse.
Qed.

(** A byte that starts no rune. *)
Definition stray (b0 : Z) (r0 : list Z) : Prop :=
  (b0 <? 128) = false ∧ (∀ b1 r, r0 = b1 :: r → valid2 b0 b1 = false) ∧
  (∀ b1 b2 r, r0 = b1 :: b2 :: r → valid3 b0 b1 b2 = false) ∧
  (∀ b1 b2 b3 r, r0 = b1 :: b2 :: b3 :: r → valid4 b0 b1 b2 b3 = false).

Lemma decode_stray b0 r0 : stray b0 r0 → decode (b0 :: r0) = (RuneError, [b0]) :: decode r0.
Proof.
  intros (E0 & E2 & E3 & E4). destruct r0 as [|b1 r1]; [cbn [decode]; by rewrite E0|]. specialize (E2 _ _ eq_refl).
  destruct r1 as [|b2 r2]; [cbn [decode]; by rewrite E0, E2|]. specialize (E3 _ _ _ eq_refl).
  destruct r2 as [|b3 r3]; [cbn [decode]; by rewrite E0, E2, E3|]. specialize (E4 _ _ _ _ eq_refl).
  cbn [decode]. by rewrite E0, E2, E3, E4.
Qed.

Lemma stray_prefix b0 r0 p : stray b0 r0 → p `prefix_of` r0 → stray b0 p.
Proof. intros (E0 & E2 & E3 & E4) [q ->]. split; [done|]. repeat split; intros; subst; naive_solver. Qed.

(** Decoding does not look past the end of a rune that is followed by less. *)
Lemma decode_cons_prefix bs : bs ≠ [] →
  ∃ r pre post, bs = pre ++ post ∧ pre ≠ [] ∧ ∀ post', post' `prefix_of` post → decode (pre ++ post') = (r, pre) :: decode post'.
Proof.
  intros Hne. destruct bs as [|b0 r0]; [done|].
  destruct (b0 <? 128) eqn:E0; [exists b0, [b0], r0; repeat split; try done; intros p _; cbn [app decode]; by rewrite E0|].
  assert (stray b0 r0 → ∃ r pre post, b0 :: r0 = pre ++ post ∧ pre ≠ [] ∧
    ∀ post', post' `prefix_of` post → decode (pre ++ post') = (r, pre) :: decode post') as Hst.
  { intros Hst. exists RuneError, [b0], r0. repeat split; try done. intros p Hp. by eapply decode_stray, stray_prefix. }
  destruct r0 as [|b1 r1]; [apply Hst; repeat split; naive_solver|].
  destruct (valid2 b0 b1) eqn:E2; [eexists _, [b0; b1], r1; repeat split; try done; intros p _; by apply decode2|].
  destruct r1 as [|b2 r2]; [apply Hst; repeat split; naive_solver|].
  destruct (valid3 b0 b1 b2) eqn:E3; [eexists _, [b0; b1; b2], r2; repeat split; try done; intros p _; by apply decode3|].
  destruct r2 as [|b3 r3]; [apply Hst; repeat split; naive_solver|].
  destruct (valid4 b0 b1 b2 b3) eqn:E4; [eexists _, [b0; b1; b2; b3], r3; repeat split; try done; intros p _; by apply decode4|].
  apply Hst. repeat split; naive_solver.
Qed.

Lemma decode_prefix l : ∀ bs l3, decode bs = l ++ l3 → decode (concat l.*2) = l.
Proof.
  induction l as [|x l IH]; intros bs l3 E; [done|]. assert (bs ≠ []) as Hne by (by intros ->).
  destruct (decode_cons_prefix bs Hne) as (r & pre & post & -> & Hpre & Hp). rewrite Hp in E by done. injection E as <- E.
  cbn. rewrite Hp, (IH post l3 E); [done|]. exists (concat l3.*2).
  by rewrite <- (decode_bytes post), E, fmap_app, concat_app.
Qed.

Lemma decode_suffix l1 : ∀ bs l, decode bs = l1 ++ l → decode (concat l.*2) = l.
Proof.
  induction l1 as [|x l1 IH]; intros bs l E; [cbn in E; by rewrite <- E, decode_bytes|].
  assert (bs ≠ []) as Hne by (by intros ->).
  destruct (decode_cons bs Hne) as (r & pre & post & E' & -> & _). rewrite E' in E. injection E as <- E. by eapply IH.
Qed.

Lemma TrimSpace_idem s : TrimSpace (TrimSpace s) = TrimSpace s.
Proof.
  unfold TrimSpace. set (f := λ rb : Z * list Z, rune_IsSpace rb.1). destruct (trim_infix f (decode (bytes s))) as (a & b & E).
  pose proof (bytes_range s) as Hr. rewrite <- (decode_bytes (bytes s)), E, !fmap_app, !concat_app, !Forall_app in Hr.
  rewrite bytes_string_of_bytes by tauto. pose proof (decode_suffix _ _ _ E) as E2.
  rewrite (decode_prefix _ _ _ E2). by rewrite trim_idem.
Qed.
