(* ===== verification/Decimal.v ===== *)
(** * Integers in decimal: strconv.Itoa and strconv.Atoi are inverse *)

From S2P Require Import Prelude GoStrings GoTime Utf8.

(** A decimal literal of a natural number without leading zeros. *)
Definition digits_of (x : Z) (ds : list Z) : Prop :=
  Forall (λ c, is_digit c = true) ds ∧
  (∀ rest a, digits_value (ds ++ rest) a = digits_value rest (a * 10 ^ Z.of_nat (length ds) + x)).

Lemma pretty_N_char_byte y : (y < 10)%N → Z.of_N (Ascii.N_of_ascii (pretty_N_char y)) = 48 + Z.of_N y.
Proof.
  intros Hy. assert (y ∈ [0; 1; 2; 3; 4; 5; 6; 7; 8; 9]%N) as H by (rewrite !elem_of_cons; lia).
  by repeat (apply elem_of_cons in H as [->|H]; [done|]); apply elem_of_nil in H.
Qed.

(** The digits of a positive number, the first of which is not zero. *)
Lemma pretty_N_go_digits x : (0 < x)%N → ∀ s,
  ∃ c ds, bytes (pretty_N_go x s) = (c :: ds) ++ bytes s ∧ c ≠ 48 ∧ digits_of (Z.of_N x) (c :: ds).
Proof.
  induction (N.lt_wf_0 x) as [x _ IH]. intros Hx s. rewrite pretty_N_go_step by done.
  assert (x mod 10 < 10)%N as Hm by (by apply N.mod_lt).
  set (b := Z.of_N (Ascii.N_of_ascii (pretty_N_char (x mod 10)))).
  assert (b = 48 + Z.of_N (x mod 10)) as Hb by (by apply pretty_N_char_byte).
  assert (bytes (String (pretty_N_char (x mod 10)) s) = b :: bytes s) as Hcons by done.
  assert (0 ≤ Z.of_N (x mod 10) < 10) as Hr
    by (split; [apply N2Z.is_nonneg|change 10 with (Z.of_N 10); by apply N2Z.inj_lt]).
  assert (Z.of_N x = 10 * Z.of_N (x / 10) + Z.of_N (x mod 10)) as Hdm
    by (rewrite N2Z.inj_div, N2Z.inj_mod; apply Z.div_mod; done).
  clearbody b. remember (Z.of_N (x mod 10)) as m eqn:Em. clear Em.
  assert (is_digit b = true) as Hdig by (unfold is_digit; lia).
  destruct (decide (x / 10 = 0)%N) as [H0|H0].
  - rewrite H0, pretty_N_go_0, Hcons. exists b, []. split; [done|].
    assert (Z.of_N x = b - 48) as Hxb by (rewrite Hdm, H0; lia).
    split; [lia|]. split; [by repeat constructor|]. intros rest a. cbn. rewrite Hdig. f_equal. lia.
  - destruct (IH (x / 10)%N) with (s := String (pretty_N_char (x mod 10)) s) as (c & ds & -> & Hc & Hall & Hval);
      [by apply N.div_lt|lia|].
    exists c, (ds ++ [b]). rewrite Hcons. split; [cbn; by rewrite <- app_assoc|]. split; [done|].
    change (c :: ds ++ [b]) with ((c :: ds) ++ [b]). split.
    + apply Forall_app. split; [done|]. by repeat constructor.
    + intros rest a. rewrite <- app_assoc, Hval. change ([b] ++ rest) with (b :: rest). cbn [digits_value]. rewrite Hdig. f_equal.
      rewrite length_app, Nat2Z.inj_add, Z.pow_add_r by lia. change (10 ^ Z.of_nat (length [b])) with 10.
      rewrite Hdm. lia.
Qed.

(** The text of an integer: a sign for negative numbers, then digits. *)
Lemma Itoa_bytes z : ∃ ds, ds ≠ [] ∧ digits_of (Z.abs z) ds ∧
  (z ≠ 0 → ∃ c ds', ds = c :: ds' ∧ c ≠ 48) ∧ (z = 0 → ds = [48]) ∧
  bytes (Itoa z) = if z <? 0 then 45 :: ds else ds.
Proof.
  unfold Itoa, pretty, pretty_Z. destruct z as [|p|p].
  - exists [48]. split; [done|]. split; [|done]. split; [by repeat constructor|]. intros rest a. cbn. f_equal; lia.
  - destruct (pretty_N_go_digits (N.pos p)) with (s := "") as (c & ds & Hb & Hc & Hd); [done|].
    exists (c :: ds). split; [done|]. split; [done|]. split; [by eauto|]. split; [done|].
    change (pretty p) with (pretty_N_go (N.pos p) ""). rewrite Hb. by rewrite app_nil_r.
  - destruct (pretty_N_go_digits (N.pos p)) with (s := "") as (c & ds & Hb & Hc & Hd); [done|].
    exists (c :: ds). split; [done|]. split; [done|]. split; [by eauto|]. split; [done|].
    change (bytes ("-" +:+ pretty p)) with (45 :: bytes (pretty_N_go (N.pos p) "")).
    rewrite Hb. by rewrite app_nil_r.
Qed.

Lemma digit_not_sign c : is_digit c = true → (c =? char_minus) = false ∧ (c =? char_plus) = false.
Proof. unfold is_digit, char_minus, char_plus. lia. Qed.

Lemma Atoi_Itoa z : int64_range z → Atoi (Itoa z) = Some z.
Proof.
  intros Hz. destruct (Itoa_bytes z) as (ds & Hne & [Hall Hval] & _ & _ & Hb). unfold Atoi. rewrite Hb.
  assert (digits_value ds 0 = Some (Z.abs z)) as Hv by (rewrite <- (app_nil_r ds), Hval; cbn; f_equal; lia).
  assert (∀ n, n = z → (min_int64 <=? n) && (n <=? max_int64) = true) as Hr by (intros n ->; unfold int64_range in Hz; lia).
  destruct ds as [|c ds]; [done|]. inversion Hall as [|? ? Hc _]; subst. apply digit_not_sign in Hc as [Hm Hp].
  destruct (Z.ltb_spec z 0).
  - cbn [Z.eqb char_minus Pos.eqb]. rewrite Hv. cbn. rewrite Hr by lia. f_equal. lia.
  - rewrite Hm, Hp, Hv. cbn. rewrite Hr by lia. f_equal. lia.
Qed.
