(* ===== verification/GoFloat.v ===== *)
(** * Floating-point numbers in text

    [strconv.ParseFloat] and [strconv.FormatFloat] as encoding/json uses them for a float64, and
    the verb [%.4f].  All arithmetic is exact on integers: a finite float64 is m * 2^e, a decimal
    is d * 10^k. *)

From Stdlib Require Import SpecFloat.
From S2P Require Import Prelude GoStrings GoTime Utf8 Decimal.

(** The float64 nearest to [num / den], ties to even. *)
Definition float_of_ratio (neg : bool) (num den : Z) : spec_float :=
  if num =? 0 then S754_zero neg
  else
    (* at least 55 bits of quotient; the remainder only says whether it is exact *)
    let e := Z.log2 num - Z.log2 den - 55 in
    let '(n, d) := if 0 <=? e then (num, den * 2 ^ e) else (num * 2 ^ (- e), den) in
    binary_round_aux 53 1024 neg (n / d) e (if n mod d =? 0 then loc_Exact else loc_Inexact Lt).

Definition float_of_decimal (neg : bool) (digits exp10 : Z) : spec_float :=
  if 0 <=? exp10 then float_of_ratio neg (digits * 10 ^ exp10) 1
  else float_of_ratio neg digits (10 ^ (- exp10)).

(** The digits before a character that is not one. *)
Fixpoint take_digits (l : list Z) : list Z * list Z :=
  match l with
  | c :: l' => if is_digit c then let '(ds, r) := take_digits l' in (c :: ds, r) else ([], l)
  | [] => ([], [])
  end.
Definition number_of (ds : list Z) : Z := default 0 (digits_value ds 0).

(** [strconv.ParseFloat] on a JSON number; [None] is a range error. *)
Definition ParseFloat (literal : string) : option spec_float :=
  let '(neg, l) := match bytes literal with 45 :: l => (true, l) | l => (false, l) end in
  let '(ip, l) := take_digits l in
  let '(fp, l) := match l with 46 :: l => take_digits l | _ => ([], l) end in
  let exp :=
    match l with
    | c :: 45 :: l => - number_of l
    | c :: 43 :: l => number_of l
    | c :: l => number_of l
    | [] => 0
    end in
  match float_of_decimal neg (number_of (ip ++ fp)) (exp - Z.of_nat (length fp)) with
  | S754_infinity _ | S754_nan => None
  | f => Some f
  end.

(** ** The shortest digits that are read back as the number *)

(** [m * 2^e / 10^k] rounded down. *)
Definition scaled (m e k : Z) : Z :=
  let num := m * (if 0 <=? e then 2 ^ e else 1) * (if k <? 0 then 10 ^ (- k) else 1) in
  let den := (if 0 <=? e then 1 else 2 ^ (- e)) * (if k <? 0 then 1 else 10 ^ k) in
  num / den.

(** The decimal exponent of the first digit of [m * 2^e]: the number is in [10^k, 10^(k+1)). *)
Definition decimal_exponent (m e : Z) : Z :=
  (* log10 is within one of this estimate *)
  let est := (Z.log2 m + e) * 30103 / 100000 in
  let est := if scaled m e est =? 0 then est - 1 else est in
  if 10 <=? scaled m e est then est + 1 else est.

(** Removes the zeros at the end of the digits. *)
Fixpoint strip_zeros (fuel : nat) (d k : Z) : Z * Z :=
  match fuel with
  | O => (d, k)
  | S fuel' => if (d mod 10 =? 0) && negb (d =? 0) then strip_zeros fuel' (d / 10) (k + 1) else (d, k)
  end.

(** Whether a decimal is read as the number. *)
Definition reads_as (s : bool) (m : positive) (e : Z) (dk : Z * Z) : bool :=
  match float_of_decimal s dk.1 dk.2 with
  | S754_finite s' m' e' => Bool.eqb s s' && Pos.eqb m m' && (e =? e')
  | _ => false
  end.

(** Digits and exponent; the candidates with n digits are the two decimals around the number,
    the nearer one first.  Seventeen digits are always enough ([shortest_total] in
    GoRound), so [None] is not reached. *)
Fixpoint shortest_from (fuel : nat) (n : Z) (s : bool) (m : positive) (e top : Z) : option (Z * Z) :=
  match fuel with
  | O => None
  | S fuel' =>
      let k := top - n + 1 in
      let lo := scaled (Zpos m) e k in
      let below := strip_zeros 20 lo k in
      let above := strip_zeros 20 (lo + 1) k in
      (* twice the distance to [lo], in units of 10^k, against one unit *)
      let '(c1, c2) := if scaled (2 * Zpos m) e k <=? 2 * lo then (below, above) else (above, below) in
      if reads_as s m e c1 then Some c1
      else if reads_as s m e c2 then Some c2
      else shortest_from fuel' (n + 1) s m e top
  end.
Definition shortest (s : bool) (m : positive) (e : Z) : option (Z * Z) :=
  shortest_from 17 1 s m e (decimal_exponent (Zpos m) e).

(** Decimal digits of a positive number. *)
Definition dec_digits (d : Z) : list Z := bytes (Itoa d).

(** [d * 10^k] without an exponent: format 'f'. *)
Definition plain_digits (d k : Z) : list Z :=
  let ds := dec_digits d in
  if 0 <=? k then ds ++ replicate (Z.to_nat k) 48
  else
    let n := Z.of_nat (length ds) in
    if - k <? n then take (Z.to_nat (n + k)) ds ++ [46] ++ drop (Z.to_nat (n + k)) ds
    else bytes "0." ++ replicate (Z.to_nat (- k - n)) 48 ++ ds.

(** Format 'e', with at least two digits of exponent that encoding/json shortens to one when
    the exponent is negative. *)
Definition scientific (d k : Z) : list Z :=
  let ds := dec_digits d in
  let x := k + Z.of_nat (length ds) - 1 in
  take 1 ds ++ (match drop 1 ds with [] => [] | r => 46 :: r end) ++ [101] ++
  (if x <? 0 then 45 :: dec_digits (- x)
   else 43 :: (if x <? 10 then 48 :: dec_digits x else dec_digits x)).

(** The text encoding/json gives a float64; [None] for an infinity or NaN, which it refuses. *)
Definition json_float (f : spec_float) : option string :=
  match f with
  | S754_zero s => Some (if s then "-0" else "0")
  | S754_finite s m e =>
      '(d, k) ← shortest s m e;
      let x := k + Z.of_nat (length (dec_digits d)) - 1 in
      let text := if (x <? -6) || (21 <=? x) then scientific d k else plain_digits d k in
      Some (string_of_bytes ((if s then [45] else []) ++ text))
  | _ => None
  end.

(** [%.4f]: rounded to the nearest ten-thousandth, ties to even. *)
Definition format_4f (f : spec_float) : string :=
  let fixed (s : bool) (n : Z) :=
    string_of_bytes ((if s then [45] else []) ++ dec_digits (n / 10000) ++ [46] ++
      [48 + n / 1000 mod 10; 48 + n / 100 mod 10; 48 + n / 10 mod 10; 48 + n mod 10]) in
  match f with
  | S754_zero s => fixed s 0
  | S754_finite s m e =>
      let num := Zpos m * 10000 * (if 0 <=? e then 2 ^ e else 1) in
      let den := if 0 <=? e then 1 else 2 ^ (- e) in
      let q := num / den in
      let r := 2 * (num mod den) in
      fixed s (if (den <? r) || ((r =? den) && (q mod 2 =? 1)) then q + 1 else q)
  | S754_infinity s => if s then "-Inf" else "+Inf"
  | S754_nan => "NaN"
  end.

(** A JSON number read into a float64 and written again. *)
Definition reformat (literal : string) : option string := ParseFloat literal ≫= json_float.

Example float_checks :
  reformat "0.1" = Some "0.1" ∧ reformat "-1.50e2" = Some "-150" ∧
  reformat "12345678901234567890" = Some "12345678901234567000" ∧
  reformat "1e21" = Some "1e+21" ∧ reformat "0.0000001" = Some "1e-7" ∧
  reformat "5e-324" = Some "5e-324" ∧ reformat "1.7976931348623157e308" = Some "1.7976931348623157e+308" ∧
  ParseFloat "1e400" = None ∧ reformat "9007199254740993" = Some "9007199254740992" ∧
  reformat "100" = Some "100" ∧ reformat "2.2250738585072014e-308" = Some "2.2250738585072014e-308" ∧
  option_map format_4f (ParseFloat "2.5") = Some "2.5000" ∧ option_map format_4f (ParseFloat "0.00005") = Some "0.0001" ∧
  option_map format_4f (ParseFloat "-12.34565") = Some "-12.3456".
Proof. vm_compute. repeat split; reflexivity. Qed.

(** ** The digits written are those of a positive number that is read back *)
Lemma scaled_nonneg m e k : 0 ≤ m → 0 ≤ scaled m e k.
Proof.
  intros Hm. unfold scaled. apply Z.div_pos.
  - repeat case_match; repeat apply Z.mul_nonneg_nonneg; try lia; apply Z.pow_nonneg; lia.
  - repeat case_match; rewrite ?Z.mul_1_l, ?Z.mul_1_r; try lia; try (apply Z.mul_pos_pos); apply Z.pow_pos_nonneg; lia.
Qed.

Lemma strip_zeros_nonneg fuel d k : 0 ≤ d → 0 ≤ (strip_zeros fuel d k).1.
Proof.
  revert d k. induction fuel as [|fuel IH]; intros d k Hd; [done|]. cbn [strip_zeros]. case_match; [|done].
  apply IH. Z.div_mod_to_equations; lia.
Qed.

Lemma reads_as_inv s m e dk : 0 ≤ dk.1 → reads_as s m e dk = true →
  0 < dk.1 ∧ float_of_decimal s dk.1 dk.2 = S754_finite s m e.
Proof.
  destruct dk as [d k]. cbn. unfold reads_as. cbn. intros Hd H.
  assert (d ≠ 0) by (intros ->; unfold float_of_decimal, float_of_ratio in H; by destruct (0 <=? k)).
  split; [lia|]. destruct (float_of_decimal s d k) as [| | |s' m' e']; try done.
  apply andb_true_iff in H as [[Hs Hm]%andb_true_iff He].
  apply Bool.eqb_prop in Hs. apply Pos.eqb_eq in Hm. apply Z.eqb_eq in He. by subst.
Qed.

(** The first of two candidates that is read back, or what comes after them. *)
Lemma candidates_inv s m e (c1 c2 : Z * Z) (rest : option (Z * Z)) (P : Z * Z → Prop) dk :
  (if reads_as s m e c1 then Some c1 else if reads_as s m e c2 then Some c2 else rest) = Some dk →
  (reads_as s m e c1 = true → P c1) → (reads_as s m e c2 = true → P c2) → (rest = Some dk → P dk) → P dk.
Proof. destruct (reads_as s m e c1); [|destruct (reads_as s m e c2)]; naive_solver. Qed.

Lemma shortest_from_inv fuel n s m e top dk : shortest_from fuel n s m e top = Some dk →
  0 < dk.1 ∧ float_of_decimal s dk.1 dk.2 = S754_finite s m e.
Proof.
  revert n. induction fuel as [|fuel IH]; intros n; cbn [shortest_from]; [done|].
  set (k0 := top - n + 1). set (lo := scaled (Zpos m) e k0).
  assert (0 ≤ lo) as Hlo by (apply scaled_nonneg; lia).
  assert (0 ≤ lo + 1) as Hlo' by lia.
  pose proof (strip_zeros_nonneg 20 lo k0 Hlo) as Hb. pose proof (strip_zeros_nonneg 20 (lo + 1) k0 Hlo') as Ha.
  generalize dependent (strip_zeros 20 lo k0). generalize dependent (strip_zeros 20 (lo + 1) k0). intros c1 H1 c2 H2.
  specialize (IH (n + 1)).
  destruct (_ <=? _); intros H; apply (candidates_inv _ _ _ _ _ _ (λ dk, 0 < dk.1 ∧ float_of_decimal s dk.1 dk.2 = S754_finite s m e) _ H); auto using reads_as_inv.
Qed.

Lemma shortest_inv s m e d k : shortest s m e = Some (d, k) → 0 < d ∧ float_of_decimal s d k = S754_finite s m e.
Proof. apply shortest_from_inv. Qed.
