(* ===== verification/GoRound.v ===== *)
(** * Rounding of decimals to float64

    A decimal close enough to a float64 is read as it, and the shortest text that encoding/json
    looks for always exists: seventeen digits are enough for every float64. *)

From Stdlib Require Import SpecFloat.
From S2P Require Import Prelude GoStrings GoTime Utf8 Decimal GoFloat.

(** ** Shifting right with a sticky bit *)
Lemma iter_shr p rec : SpecFloat.iter_pos shr_1 p rec = Nat.iter (Pos.to_nat p) shr_1 rec.
Proof.
  revert rec. induction p as [p IH|p IH|]; intros rec; cbn [SpecFloat.iter_pos].
  - rewrite !IH, Pos2Nat.inj_xI. replace (S (2 * Pos.to_nat p)) with (Pos.to_nat p + (Pos.to_nat p + 1))%nat by lia.
    by rewrite !Nat.iter_add.
  - rewrite !IH, Pos2Nat.inj_xO. replace (2 * Pos.to_nat p)%nat with (Pos.to_nat p + Pos.to_nat p)%nat by lia.
    by rewrite !Nat.iter_add.
  - done.
Qed.

Lemma shr_1_spec m r s : 0 ≤ m →
  shr_1 (Build_shr_record m r s) = Build_shr_record (m / 2) (m mod 2 =? 1) (r || s).
Proof.
  intros Hm. destruct m as [|[p|p|]|p]; cbn [shr_1]; try lia; try done.
  - f_equal; [|symmetry; apply Z.eqb_eq]; rewrite Pos2Z.inj_xI; Z.div_mod_to_equations; lia.
  - f_equal; [|symmetry; apply Z.eqb_neq]; rewrite Pos2Z.inj_xO; Z.div_mod_to_equations; lia.
Qed.

(** After [S n] shifts: the quotient, and whether what was cut off is below, at or above half. *)
Lemma iter_shr_spec n m s : 0 ≤ m →
  Nat.iter (S n) shr_1 (Build_shr_record m false s) =
  Build_shr_record (m / 2 ^ Z.of_nat (S n)) (m / 2 ^ Z.of_nat n mod 2 =? 1) (negb (m mod 2 ^ Z.of_nat n =? 0) || s).
Proof.
  intros Hm. induction n as [|n IH].
  - cbn [Nat.iter]. rewrite shr_1_spec by done. change (2 ^ Z.of_nat 1) with 2. change (2 ^ Z.of_nat 0) with 1.
    rewrite Z.div_1_r, Z.mod_1_r. done.
  - change (Nat.iter (S (S n)) shr_1 ?x) with (shr_1 (Nat.iter (S n) shr_1 x)). rewrite IH.
    assert (0 < 2 ^ Z.of_nat n) by (apply Z.pow_pos_nonneg; lia).
    rewrite !Nat2Z.inj_succ, !Z.pow_succ_r by lia. rewrite shr_1_spec by (apply Z.div_pos; lia).
    set (P := 2 ^ Z.of_nat n) in *. rewrite (Z.mul_comm 2 P), (Z.mul_comm 2 (P * 2)). f_equal.
    + rewrite Z.div_div by lia. done.
    + rewrite orb_assoc. f_equal. rewrite Z.rem_mul_r by lia.
      pose proof (Z.mod_pos_bound m P ltac:(lia)) as H1. pose proof (Z.mod_pos_bound (m / P) 2 ltac:(lia)) as H2.
      generalize dependent (m mod P). generalize dependent (m / P mod 2). intros a Ha b Hb.
      destruct (Z.eqb_spec a 1), (Z.eqb_spec b 0), (Z.eqb_spec (b + P * a) 0); cbn; try done; nia.
Qed.

(** The integer nearest to [q / 2^p], where [s] says that a little more than [q] is meant. *)
Definition round_shift (p : positive) (q : Z) (s : bool) : Z :=
  let rec := SpecFloat.iter_pos shr_1 p (Build_shr_record q false s) in
  round_nearest_even (shr_m rec) (loc_of_shr_record rec).

Lemma round_shift_cases p q s : 0 ≤ q →
  ∃ P b r, Zpos p = Z.of_nat (S (Pos.to_nat p - 1)) ∧ P = 2 ^ (Zpos p - 1) ∧ 0 < P ∧ 2 ^ Zpos p = 2 * P ∧
    0 ≤ b < 2 ∧ 0 ≤ r < P ∧ q = (2 * (q / 2 ^ Zpos p) + b) * P + r ∧
    round_shift p q s = round_nearest_even (q / 2 ^ Zpos p) (loc_of_shr_record (Build_shr_record 0 (b =? 1) (negb (r =? 0) || s))).
Proof.
  intros Hq. assert (Zpos p = Z.of_nat (S (Pos.to_nat p - 1))) as Hp by lia.
  set (n := (Pos.to_nat p - 1)%nat) in *. exists (2 ^ Z.of_nat n), (q / 2 ^ Z.of_nat n mod 2), (q mod 2 ^ Z.of_nat n).
  assert (0 < 2 ^ Z.of_nat n) by (apply Z.pow_pos_nonneg; lia).
  assert (2 ^ Zpos p = 2 * 2 ^ Z.of_nat n) as H2 by (rewrite Hp, Nat2Z.inj_succ, Z.pow_succ_r by lia; done).
  split; [done|]. split; [f_equal; lia|]. split; [done|]. split; [done|].
  split; [apply Z.mod_pos_bound; lia|]. split; [apply Z.mod_pos_bound; lia|]. split.
  - rewrite H2, (Z.mul_comm 2 (2 ^ Z.of_nat n)), <- Z.div_div by lia.
    rewrite <- (Z_div_mod_eq_full (q / 2 ^ Z.of_nat n) 2), Z.mul_comm. apply Z_div_mod_eq_full.
  - unfold round_shift. rewrite iter_shr. replace (Pos.to_nat p) with (S n) by lia. rewrite iter_shr_spec by done.
    rewrite <- Hp. done.
Qed.

Lemma round_shift_near p q s M : 0 ≤ q →
  (2 * M - 1) * 2 ^ Zpos p < 2 * q + Z.b2z s → 2 * q < (2 * M + 1) * 2 ^ Zpos p → round_shift p q s = M.
Proof.
  intros Hq H1 H2. destruct (round_shift_cases p q s Hq) as (P & b & r & _ & _ & HP & HpP & Hb & Hr & Heq & ->).
  set (Q := q / 2 ^ Zpos p) in *. rewrite HpP in H1, H2.
  assert ((2 * M - 1) * P ≤ q) as H1' by (destruct s; cbn [Z.b2z] in H1; nia). assert (q < (2 * M + 1) * P) as H2' by nia.
  assert (2 * M - 1 < 2 * Q + b + 1) by (apply (Z.mul_lt_mono_pos_r P); [done|]; rewrite Z.mul_add_distr_r; lia).
  assert (2 * Q + b < 2 * M + 1) by (apply (Z.mul_lt_mono_pos_r P); [done|lia]).
  assert ((b = 0 ∧ Q = M) ∨ (b = 1 ∧ Q = M - 1)) as [[-> ->]|[-> ->]] by lia.
  - by destruct (negb (r =? 0) || s).
  - assert (negb (r =? 0) || s = true) as ->; [|cbn; lia].
    destruct (Z.eqb_spec r 0) as [->|]; [|done]. destruct s; [done|]. cbn [Z.b2z] in H1. nia.
Qed.

Lemma round_shift_bounds p q s : 0 ≤ q → q / 2 ^ Zpos p ≤ round_shift p q s ≤ q / 2 ^ Zpos p + 1.
Proof.
  intros Hq. destruct (round_shift_cases p q s Hq) as (P & b & r & _ & _ & _ & _ & _ & _ & _ & ->).
  destruct (b =? 1), (negb (r =? 0) || s); cbn; try case_match; lia.
Qed.

(** ** Numbers of binary digits *)
Lemma digits2_bounds m : 2 ^ (Zpos (digits2_pos m) - 1) ≤ Zpos m < 2 ^ Zpos (digits2_pos m).
Proof.
  induction m as [m IH|m IH|]; cbn [digits2_pos]; [| |by split].
  - rewrite Pos2Z.inj_succ, (Pos2Z.inj_xI m). replace (Z.succ (Zpos (digits2_pos m)) - 1) with (Z.succ (Zpos (digits2_pos m) - 1)) by lia.
    rewrite !Z.pow_succ_r by lia. lia.
  - rewrite Pos2Z.inj_succ, (Pos2Z.inj_xO m). replace (Z.succ (Zpos (digits2_pos m)) - 1) with (Z.succ (Zpos (digits2_pos m) - 1)) by lia.
    rewrite !Z.pow_succ_r by lia. lia.
Qed.

Lemma digits2_unique m d : 2 ^ (d - 1) ≤ Zpos m < 2 ^ d → Zpos (digits2_pos m) = d.
Proof.
  intros [H1 H2]. pose proof (digits2_bounds m) as [H3 H4]. 
  assert (1 ≤ d). { destruct (Z.le_gt_cases 1 d); [done|]. assert (2 ^ d ≤ 2 ^ 0) by (apply Z.pow_le_mono_r; lia). change (2 ^ 0) with 1 in *. lia. }
  apply Z.le_antisymm.
  - assert (Zpos (digits2_pos m) - 1 < d); [|lia]. apply (Z.pow_lt_mono_r_iff 2); lia.
  - assert (d - 1 < Zpos (digits2_pos m)); [|lia]. apply (Z.pow_lt_mono_r_iff 2); lia.
Qed.

#[local] Abbreviation fexp64 := (fexp 53 1024).
#[local] Abbreviation bounded64 := (bounded 53 1024).

Lemma fexp64_max e : fexp64 e = Z.max (e - 53) (-1074).
Proof. done. Qed.

Lemma bounded64_inv m e : bounded64 m e = true → fexp64 (Zpos (digits2_pos m) + e) = e ∧ e ≤ 971.
Proof. unfold bounded, canonical_mantissa. intros [H1%Z.eqb_eq H2%Z.leb_le]%andb_true_iff. done. Qed.

Definition location_of (s : bool) : location := if s then loc_Inexact Lt else loc_Exact.

(** The second shift, which takes back a carry. *)
Definition finish (sx : bool) (R e : Z) : spec_float :=
  let '(rec, e') := shr_fexp 53 1024 R e loc_Exact in
  match shr_m rec with
  | Z0 => S754_zero sx
  | Zpos m => if e' <=? 971 then S754_finite sx m e' else S754_infinity sx
  | _ => S754_nan
  end.

Lemma round_aux_shift sx q e0 s p :
  fexp64 (Zdigits2 q + e0) = e0 + Zpos p →
  binary_round_aux 53 1024 sx q e0 (location_of s) = finish sx (round_shift p q s) (e0 + Zpos p).
Proof.
  intros Hp. unfold binary_round_aux, shr_fexp at 1. rewrite Hp. replace (e0 + Zpos p - e0) with (Zpos p) by lia.
  cbn [shr]. unfold finish, round_shift. by destruct s.
Qed.

Lemma finish_exact sx m e : bounded64 m e = true → finish sx (Zpos m) e = S754_finite sx m e.
Proof.
  intros [H1 H2]%bounded64_inv. unfold finish, shr_fexp. cbn [Zdigits2]. rewrite H1, Z.sub_diag. cbn.
  by rewrite (proj2 (Z.leb_le _ _)).
Qed.

Lemma finish_carry sx m e : Zpos m = 2 ^ 52 → bounded64 m e = true → finish sx (2 * Zpos m) (e - 1) = S754_finite sx m e.
Proof.
  intros Hm [H1 H2]%bounded64_inv. assert (m = Z.to_pos (2 ^ 52)) as -> by (rewrite <- Hm; done).
  unfold finish, shr_fexp. rewrite fexp64_max in *.
  change (Zdigits2 _) with 54. change (Zpos (digits2_pos _)) with 53 in H1.
  replace (Z.max (54 + (e - 1) - 53) (-1074) - (e - 1)) with 1 by lia.
  cbn. replace (e - 1 + 1) with e by lia. by rewrite (proj2 (Z.leb_le _ _)).
Qed.

(** ** A decimal near a float64 is read as it *)

(** [num / den] is closer to [m * 2^e] than one part in 2^54. *)
Definition near (m e num den : Z) : Prop :=
  Z.abs (num * 2 ^ Z.max (- e) 0 - m * 2 ^ Z.max e 0 * den) * 2 ^ 54 < m * 2 ^ Z.max e 0 * den.

Lemma ratio_div n d A U : 0 < d → 0 < U → n * U = A * d → n / d = A / U ∧ (n mod d =? 0) = (A mod U =? 0).
Proof.
  intros Hd HU H. assert (n / d = A / U) as Hq.
  { rewrite <- (Z.div_mul_cancel_r n d U), H, (Z.mul_comm d U), Z.div_mul_cancel_r by lia. done. }
  split; [done|]. pose proof (Z_div_mod_eq_full n d) as H1. pose proof (Z_div_mod_eq_full A U) as H2. rewrite Hq in H1.
  assert (n mod d * U = A mod U * d) as Hm by nia.
  destruct (Z.eqb_spec (n mod d) 0), (Z.eqb_spec (A mod U) 0); nia.
Qed.

Section Scale.
(** Values in a common unit: [V z] is 2^z. *)
Context (den N : Z) (Hden : 0 < den).
Definition V (z : Z) : Z := den * 2 ^ (z + N).

Lemma V_pos z : 0 ≤ z + N → 0 < V z.
Proof. intros H. unfold V. assert (0 < 2 ^ (z + N)) by (apply Z.pow_pos_nonneg; lia). nia. Qed.

Lemma V_add z k : 0 ≤ z + N → 0 ≤ k → V (z + k) = 2 ^ k * V z.
Proof. intros Hz Hk. unfold V. replace (z + k + N) with (k + (z + N)) by lia. rewrite Z.pow_add_r by lia. ring. Qed.

Lemma V_mono a b : 0 ≤ a + N → a ≤ b → V a ≤ V b.
Proof. intros Ha Hab. unfold V. apply Z.mul_le_mono_nonneg_l; [lia|]. apply Z.pow_le_mono_r; lia. Qed.

(** The binade of a number near [m * 2^e]. *)
Lemma near_binade m e A G : 0 ≤ e + N → bounded64 m e = true → 0 ≤ G - 1 + N →
  Z.abs (A - Zpos m * V e) * 2 ^ 54 < Zpos m * V e → V (G - 1) ≤ A < V G →
  let g := Zpos (digits2_pos m) + e in G = g ∨ (G = g - 1 ∧ Zpos m = 2 ^ (Zpos (digits2_pos m) - 1)).
Proof.
  intros He [Hc _]%bounded64_inv HG Hnear [HG1 HG2] g. pose proof (digits2_bounds m) as [Hm1 Hm2].
  set (dm := Zpos (digits2_pos m)) in *. assert (1 ≤ dm) by lia. assert (dm ≤ 53) by (rewrite fexp64_max in Hc; lia).
  pose proof (V_pos e He) as HV. assert (2 ^ dm ≤ 2 ^ 53) by (apply Z.pow_le_mono_r; lia).
  assert (G ≤ g) as Hle.
  { destruct (Z.le_gt_cases G g) as [|Hgt]; [done|]. assert (V g ≤ V (G - 1)) by (apply V_mono; lia).
    assert (V g = 2 ^ dm * V e) as Hg by (unfold g; rewrite Z.add_comm; apply V_add; lia). nia. }
  assert (2 ^ dm = 2 * 2 ^ (dm - 1)) as Hdm by (rewrite <- Z.pow_succ_r by lia; f_equal; lia).
  assert (V (g - 1) = 2 ^ (dm - 1) * V e) as Hg1 by (replace (g - 1) with (e + (dm - 1)) by lia; apply V_add; lia).
  destruct (Z.eq_dec G g) as [|Hne]; [by left|right].
  assert (V G ≤ V (g - 1)) by (apply V_mono; lia).
  assert (Zpos m = 2 ^ (dm - 1)) as Hm by (destruct (Z.eq_dec (Zpos m) (2 ^ (dm - 1))); [done|nia]).
  split; [|done]. destruct (Z.eq_dec G (g - 1)) as [|Hne']; [done|].
  assert (V G ≤ V (g - 2)) by (apply V_mono; lia).
  assert (0 ≤ g - 2 + N) by lia. assert (V (g - 1) = 2 * V (g - 2)) by (replace (g - 1) with (g - 2 + 1) by lia; rewrite V_add by lia; lia).
  nia.
Qed.
End Scale.

(** The quotient that [float_of_ratio] rounds, in the common unit, has at least 55 digits. *)
Lemma ratio_quotient neg num den N : 0 < num → 0 < den →
  let e0 := Z.log2 num - Z.log2 den - 55 in 0 ≤ e0 + N → 0 ≤ N →
  let A := num * 2 ^ N in let U := V den N e0 in
  float_of_ratio neg num den = binary_round_aux 53 1024 neg (A / U) e0 (location_of (negb (A mod U =? 0))) ∧ 2 ^ 54 ≤ A / U.
Proof.
  intros Hnum Hden e0 He0 HN A U. pose proof (V_pos den N Hden e0 He0) as HU. split.
  - unfold float_of_ratio. rewrite (proj2 (Z.eqb_neq num 0)) by lia. fold e0.
    assert (∃ n d, (if 0 <=? e0 then (num, den * 2 ^ e0) else (num * 2 ^ (- e0), den)) = (n, d) ∧ 0 < d ∧ n * U = A * d)
      as (n & d & -> & Hd & Hnd).
    { destruct (Z.leb_spec 0 e0); (eexists _, _; split; [done|]); unfold U, V, A.
      - assert (0 < 2 ^ e0) by (apply Z.pow_pos_nonneg; lia). split; [nia|]. rewrite Z.pow_add_r by lia. ring.
      - split; [done|]. assert (2 ^ N = 2 ^ (- e0) * 2 ^ (e0 + N)) as -> by (rewrite <- Z.pow_add_r by lia; f_equal; lia). ring. }
    destruct (ratio_div n d A U Hd HU Hnd) as [-> ->]. by destruct (A mod U =? 0).
  - apply Z.div_le_lower_bound; [done|]. unfold U, V, A.
    pose proof (Z.log2_spec num Hnum) as [H1 _]. pose proof (Z.log2_spec den Hden) as [_ H2].
    pose proof (Z.log2_nonneg num). pose proof (Z.log2_nonneg den).
    assert (2 ^ Z.succ (Z.log2 den) * 2 ^ (e0 + N) * 2 ^ 54 = 2 ^ Z.log2 num * 2 ^ N) as Heq.
    { rewrite <- !Z.pow_add_r by lia. f_equal. lia. }
    assert (0 < 2 ^ (e0 + N)) by (apply Z.pow_pos_nonneg; lia). assert (0 < 2 ^ N) by (apply Z.pow_pos_nonneg; lia).
    transitivity (2 ^ Z.log2 num * 2 ^ N); [rewrite <- Heq|apply Z.mul_le_mono_nonneg_r; lia].
    apply Z.mul_le_mono_nonneg_r; [lia|]. apply Z.mul_le_mono_nonneg_r; lia.
Qed.

Lemma near_scaled m e num den N : near m e num den → 0 ≤ e + N → 0 ≤ N →
  Z.abs (num * 2 ^ N - m * V den N e) * 2 ^ 54 < m * V den N e.
Proof.
  unfold near, V. intros H He HN. set (k := N - Z.max (- e) 0). assert (0 ≤ k) by lia.
  assert (0 < 2 ^ k) by (apply Z.pow_pos_nonneg; lia).
  assert (2 ^ N = 2 ^ Z.max (- e) 0 * 2 ^ k) as -> by (rewrite <- Z.pow_add_r by lia; f_equal; lia).
  assert (2 ^ (e + N) = 2 ^ Z.max e 0 * 2 ^ k) as -> by (rewrite <- Z.pow_add_r by lia; f_equal; lia).
  replace (num * (2 ^ Z.max (- e) 0 * 2 ^ k) - m * (den * (2 ^ Z.max e 0 * 2 ^ k)))
    with ((num * 2 ^ Z.max (- e) 0 - m * 2 ^ Z.max e 0 * den) * 2 ^ k) by ring.
  rewrite Z.abs_mul, (Z.abs_eq (2 ^ k)) by lia. nia.
Qed.

(** The quotient of a number near [M * 2^E] rounds to [M]. *)
Lemma near_rounds A U M p : 0 < U → 0 ≤ A → Z.abs (A - M * (2 ^ Zpos p * U)) * 2 < 2 ^ Zpos p * U →
  round_shift p (A / U) (negb (A mod U =? 0)) = M.
Proof.
  intros HU HA H. pose proof (Z_div_mod_eq_full A U) as Hdm. pose proof (Z.mod_pos_bound A U HU) as Hr.
  assert (2 ^ Zpos p = 2 * 2 ^ (Zpos p - 1)) as Hp by (rewrite <- Z.pow_succ_r by lia; f_equal; lia).
  set (P := 2 ^ (Zpos p - 1)) in *. assert (0 < P) by (apply Z.pow_pos_nonneg; lia). rewrite Hp in *.
  apply round_shift_near; [apply Z.div_pos; lia| |]; rewrite ?Hp; set (q := A / U) in *.
  - assert ((2 * M - 1) * P * U < q * U + A mod U) as Hlt by nia.
    assert ((2 * M - 1) * P ≤ q) by nia. destruct (Z.eqb_spec (A mod U) 0); cbn [negb Z.b2z]; nia.
  - assert (q * U < (2 * M + 1) * P * U) by nia. nia.
Qed.

Lemma quotient_binade A U e0 qp den N : U = V den N e0 → 0 < den → 0 ≤ e0 + N → 0 < U → A / U = Zpos qp →
  let G := Zpos (digits2_pos qp) + e0 in V den N (G - 1) ≤ A < V den N G.
Proof.
  intros -> Hden He0 HU Hq G. pose proof (Z_div_mod_eq_full A (V den N e0)) as Hdm. pose proof (Z.mod_pos_bound A _ HU) as Hr.
  rewrite Hq in Hdm. pose proof (digits2_bounds qp) as [H1 H2]. set (D := Zpos (digits2_pos qp)) in *. assert (1 ≤ D) by lia.
  replace (G - 1) with (e0 + (D - 1)) by lia. replace G with (e0 + D) by lia. rewrite !V_add by lia. split; nia.
Qed.

Lemma round_near s m e A e0 den N p M :
  0 < den → 0 ≤ e0 + N → 0 ≤ A → finish s M (e0 + Zpos p) = S754_finite s m e →
  fexp64 (Zdigits2 (A / V den N e0) + e0) = e0 + Zpos p →
  Z.abs (A - M * V den N (e0 + Zpos p)) * 2 < V den N (e0 + Zpos p) →
  binary_round_aux 53 1024 s (A / V den N e0) e0 (location_of (negb (A mod V den N e0 =? 0))) = S754_finite s m e.
Proof.
  intros Hden He0 HA Hf Hp H. rewrite V_add in H by lia. pose proof (V_pos den N Hden e0 He0).
  by rewrite (round_aux_shift _ _ _ _ _ Hp), (near_rounds A (V den N e0) M p).
Qed.

Lemma float_of_ratio_near s m e num den : bounded64 m e = true → 0 < num → 0 < den →
  near (Zpos m) e num den → float_of_ratio s num den = S754_finite s m e.
Proof.
  intros Hb Hnum Hden Hnear. set (e0 := Z.log2 num - Z.log2 den - 55). set (N := Z.abs e + Z.abs e0 + 1).
  destruct (ratio_quotient s num den N Hnum Hden) as [-> Hq]; [lia..|]. fold e0 in Hq |- *. set (A := num * 2 ^ N) in *.
  assert (0 < A) by (unfold A; apply Z.mul_pos_pos; [done|apply Z.pow_pos_nonneg; lia]).
  apply (near_scaled _ _ _ _ N) in Hnear; [|lia..]. fold A in Hnear.
  pose proof (V_pos den N Hden e0 ltac:(lia)) as HU. destruct (A / V den N e0) as [|qp|qp] eqn:Eq; [lia| |lia].
  pose proof (quotient_binade A _ e0 qp den N eq_refl Hden ltac:(lia) HU Eq) as HG. cbv zeta in HG.
  pose proof (digits2_bounds qp) as [_ Hd]. set (D := Zpos (digits2_pos qp)) in *.
  assert (55 ≤ D) as HD by (assert (54 < D); [|lia]; apply (Z.pow_lt_mono_r_iff 2); lia).
  pose proof (bounded64_inv m e Hb) as [Hc He]. rewrite fexp64_max in Hc.
  pose proof (digits2_bounds m) as [_ Hm]. assert (Zpos (digits2_pos m) ≤ 53) by lia.
  assert (2 ^ Zpos (digits2_pos m) ≤ 2 ^ 53) by (apply Z.pow_le_mono_r; lia).
  assert (Z.max (D + e0 - 53) (-1074) - e0 > 0) as Hpos by lia.
  destruct (near_binade den N Hden m e A (D + e0) ltac:(lia) Hb ltac:(lia) Hnear HG) as [Hg|[Hg Hm2]].
  all: destruct (Z.eq_dec (Z.max (D + e0 - 53) (-1074)) e) as [HE|HE].
  1, 3: rewrite <- Eq; apply (round_near s m e A e0 den N (Z.to_pos (e - e0)) (Zpos m)); rewrite ?Z2Pos.id by lia;
    replace (e0 + (e - e0)) with e by lia; [done|lia|lia|by apply finish_exact|by rewrite Eq; cbn [Zdigits2]; rewrite fexp64_max|].
  1, 2: pose proof (V_pos den N Hden e ltac:(lia)); nia.
  { lia. }
  assert (Zpos (digits2_pos m) = 53) as H53 by lia. rewrite H53 in Hm2. change (53 - 1) with 52 in Hm2.
  assert (V den N e = 2 * V den N (e - 1)) as HV.
  { replace e with (e - 1 + 1) at 1 by lia. rewrite V_add by lia. lia. }
  rewrite <- Eq. apply (round_near s m e A e0 den N (Z.to_pos (e - 1 - e0)) (2 * Zpos m)); rewrite ?Z2Pos.id by lia;
    replace (e0 + (e - 1 - e0)) with (e - 1) by lia; [done|lia|lia|by apply finish_carry|rewrite Eq; cbn [Zdigits2]; rewrite fexp64_max; fold D; lia|].
  pose proof (V_pos den N Hden (e - 1) ltac:(lia)). rewrite HV in Hnear. change (2 ^ 52) with 4503599627370496 in Hm2. nia.
Qed.

(** ** Seventeen digits are enough *)
Definition num_s (m e k : Z) : Z := m * 2 ^ Z.max e 0 * 10 ^ Z.max (- k) 0.
Definition den_s (e k : Z) : Z := 2 ^ Z.max (- e) 0 * 10 ^ Z.max k 0.

Lemma den_s_pos e k : 0 < den_s e k.
Proof. apply Z.mul_pos_pos; apply Z.pow_pos_nonneg; lia. Qed.

Lemma scaled_ratio m e k : scaled m e k = num_s m e k / den_s e k.
Proof.
  unfold scaled, num_s, den_s. destruct (Z.leb_spec 0 e), (Z.ltb_spec k 0).
  - by rewrite (Z.max_l e), (Z.max_r (- e)), (Z.max_l (- k)), (Z.max_r k) by lia.
  - by rewrite (Z.max_l e), (Z.max_r (- e)), (Z.max_r (- k)), (Z.max_l k) by lia.
  - by rewrite (Z.max_r e), (Z.max_l (- e)), (Z.max_l (- k)), (Z.max_r k) by lia.
  - by rewrite (Z.max_r e), (Z.max_l (- e)), (Z.max_r (- k)), (Z.max_l k) by lia.
Qed.

Lemma pow_split b x y z w : 0 < b → 0 ≤ x → 0 ≤ y → 0 ≤ z → 0 ≤ w → x + y = z + w → b ^ x * b ^ y = b ^ z * b ^ w.
Proof. intros. rewrite <- !Z.pow_add_r by done. by f_equal. Qed.

Lemma scaled_succ m e k : scaled m e (k + 1) = scaled m e k / 10.
Proof.
  rewrite !scaled_ratio, Z.div_div by (pose proof (den_s_pos e k); lia).
  apply ratio_div; [apply den_s_pos|pose proof (den_s_pos e k); lia|]. unfold num_s, den_s.
  pose proof (pow_split 10 (Z.max (- (k + 1)) 0) (Z.max k 0 + 1) (Z.max (- k) 0) (Z.max (k + 1) 0)) as H.
  rewrite (Z.pow_add_r 10 (Z.max k 0) 1) in H by lia. change (10 ^ 1) with 10 in H.
  transitivity (m * 2 ^ Z.max e 0 * 2 ^ Z.max (- e) 0 * (10 ^ Z.max (- (k + 1)) 0 * (10 ^ Z.max k 0 * 10))); [ring|].
  rewrite H by lia. ring.
Qed.

Lemma scaled_down m e k c (j : nat) : c ≤ scaled m e k → c * 10 ^ Z.of_nat j ≤ scaled m e (k - Z.of_nat j).
Proof.
  intros H. induction j as [|j IH]; [change (Z.of_nat 0) with 0; by rewrite Z.mul_1_r, Z.sub_0_r|].
  pose proof (scaled_succ m e (k - Z.of_nat (S j))) as Hs. replace (k - Z.of_nat (S j) + 1) with (k - Z.of_nat j) in Hs by lia.
  rewrite Hs in IH. rewrite Nat2Z.inj_succ, Z.pow_succ_r by lia. rewrite Nat2Z.inj_succ in *.
  pose proof (Z.mul_div_le (scaled m e (k - Z.succ (Z.of_nat j))) 10). lia.
Qed.

Lemma scaled_mono m m' e k : m ≤ m' → scaled m e k ≤ scaled m' e k.
Proof.
  intros H. rewrite !scaled_ratio. apply Z.div_le_mono; [apply den_s_pos|]. unfold num_s.
  apply Z.mul_le_mono_nonneg_r; [apply Z.pow_nonneg; lia|]. apply Z.mul_le_mono_nonneg_r; [apply Z.pow_nonneg; lia|done].
Qed.

Lemma scaled_pow j e k : 0 ≤ j → scaled (2 ^ j) e k = scaled 1 (e + j) k.
Proof.
  intros Hj. rewrite !scaled_ratio. apply ratio_div; [apply den_s_pos..|]. unfold num_s, den_s.
  pose proof (pow_split 2 (j + Z.max e 0) (Z.max (- (e + j)) 0) (Z.max (e + j) 0) (Z.max (- e) 0)) as H.
  rewrite (Z.pow_add_r 2 j (Z.max e 0)) in H by lia.
  transitivity (2 ^ j * 2 ^ Z.max e 0 * 2 ^ Z.max (- (e + j)) 0 * (10 ^ Z.max (- k) 0 * 10 ^ Z.max k 0)); [ring|].
  rewrite H by lia. ring.
Qed.

(** The estimate of [decimal_exponent] is right, or one too large, for all exponents: checked
    against tables of powers. *)
Fixpoint powers (b x : Z) (n : nat) : list Z :=
  match n with O => [x] | S n' => x :: powers b (b * x) n' end.

Lemma powers_lookup b x n i : (i ≤ n)%nat → powers b x n !! i = Some (x * b ^ Z.of_nat i).
Proof.
  revert x i. induction n as [|n IH]; intros x [|i] Hi; cbn [powers]; [by rewrite Z.mul_1_r|lia|by rewrite Z.mul_1_r|].
  cbn. rewrite IH by lia. f_equal. rewrite Nat2Z.inj_succ, Z.pow_succ_r by lia. ring.
Qed.

Definition power_in (table : list Z) (i : Z) : Z := default 0 (table !! Z.to_nat (Z.max i 0)).
Lemma power_in_powers b n i : Z.max i 0 ≤ Z.of_nat n → power_in (powers b 1 n) i = b ^ Z.max i 0.
Proof. intros Hi. unfold power_in. rewrite powers_lookup by lia. cbn [default from_option]. rewrite Z2Nat.id by lia. apply Z.mul_1_l. Qed.

Definition estimate_check (twos tens : list Z) (L : Z) : bool :=
  let k := L * 30103 / 100000 - 1 in
  power_in twos (- L) * power_in tens k <=? power_in twos L * power_in tens (- k).

Lemma estimates_checked :
  let twos := powers 2 1 1074 in let tens := powers 10 1 330 in forallb (estimate_check twos tens) (seqZ (-1074) 2098) = true.
Proof. vm_compute. reflexivity. Qed.

Lemma estimate_bound L : -1074 ≤ L < 1024 → 1 ≤ scaled 1 L (L * 30103 / 100000 - 1).
Proof.
  intros HL. pose proof estimates_checked as Hb. cbv zeta in Hb. rewrite forallb_forall in Hb. specialize (Hb L).
  assert (estimate_check (powers 2 1 1074) (powers 10 1 330) L = true) as Hc by (apply Hb, list_elem_of_In, elem_of_seqZ; lia).
  clear Hb. unfold estimate_check in Hc. set (k := L * 30103 / 100000 - 1) in *.
  assert (-330 ≤ k ≤ 330) by (unfold k; Z.div_mod_to_equations; lia).
  rewrite !power_in_powers in Hc by lia. apply Z.leb_le in Hc.
  rewrite scaled_ratio. apply Z.div_le_lower_bound; [apply den_s_pos|]. unfold num_s, den_s. lia.
Qed.

Lemma decimal_exponent_le m e : bounded64 m e = true → 1 ≤ scaled (Zpos m) e (decimal_exponent (Zpos m) e).
Proof.
  intros [Hc He]%bounded64_inv. rewrite fexp64_max in Hc. pose proof (digits2_bounds m) as [_ Hd].
  pose proof (Z.log2_spec (Zpos m) ltac:(lia)) as [Hl _]. pose proof (Z.log2_nonneg (Zpos m)).
  assert (Z.log2 (Zpos m) < 53).
  { apply (Z.pow_lt_mono_r_iff 2); [lia..|]. assert (2 ^ Zpos (digits2_pos m) ≤ 2 ^ 53) by (apply Z.pow_le_mono_r; lia). lia. }
  unfold decimal_exponent. set (L := Z.log2 (Zpos m) + e). set (est := L * 30103 / 100000).
  assert (1 ≤ scaled (Zpos m) e (est - 1)) as Hest.
  { pose proof (estimate_bound L ltac:(lia)) as Hb. fold est in Hb.
    assert (scaled 1 L (est - 1) = scaled (2 ^ Z.log2 (Zpos m)) e (est - 1)) as Hp.
    { rewrite scaled_pow by done. f_equal. lia. }
    rewrite Hp in Hb. etransitivity; [exact Hb|]. by apply scaled_mono. }
  set (est1 := if scaled (Zpos m) e est =? 0 then est - 1 else est).
  assert (1 ≤ scaled (Zpos m) e est1) as H1.
  { unfold est1. destruct (Z.eqb_spec (scaled (Zpos m) e est) 0); [done|]. pose proof (scaled_nonneg (Zpos m) e est). lia. }
  destruct (Z.leb_spec 10 (scaled (Zpos m) e est1)); [|done]. rewrite scaled_succ. apply Z.div_le_lower_bound; lia.
Qed.

(** The decimal [c * 10^k] is near [m * 2^e]. *)
Definition decimal_near (m e c k : Z) : Prop := Z.abs (c * den_s e k - num_s m e k) * 2 ^ 54 < num_s m e k.

Lemma decimal_near_read s m e c k : bounded64 m e = true → 0 < c → decimal_near (Zpos m) e c k →
  float_of_decimal s c k = S754_finite s m e.
Proof.
  intros Hb Hc H.
  assert (float_of_decimal s c k = float_of_ratio s (c * 10 ^ Z.max k 0) (10 ^ Z.max (- k) 0)) as ->.
  { unfold float_of_decimal. destruct (Z.leb_spec 0 k).
    - by rewrite Z.max_l, Z.max_r by lia.
    - rewrite Z.max_r, Z.max_l by lia. change (10 ^ 0) with 1. by rewrite Z.mul_1_r. }
  apply float_of_ratio_near; [done| | |].
  - apply Z.mul_pos_pos; [done|apply Z.pow_pos_nonneg; lia].
  - apply Z.pow_pos_nonneg; lia.
  - unfold near, decimal_near, den_s, num_s in *.
    by replace (c * 10 ^ Z.max k 0 * 2 ^ Z.max (- e) 0) with (c * (2 ^ Z.max (- e) 0 * 10 ^ Z.max k 0)) by ring.
Qed.

Lemma decimal_near_strip m e c k : decimal_near m e (10 * c) k → decimal_near m e c (k + 1).
Proof.
  unfold decimal_near, num_s, den_s. destruct (Z.le_gt_cases 0 k).
  - rewrite (Z.max_r (- k) 0), (Z.max_r (- (k + 1)) 0), (Z.max_l k 0), (Z.max_l (k + 1) 0) by lia.
    rewrite Z.pow_add_r by lia. change (10 ^ 1) with 10.
    by replace (c * (2 ^ Z.max (- e) 0 * (10 ^ k * 10))) with (10 * c * (2 ^ Z.max (- e) 0 * 10 ^ k)) by ring.
  - rewrite (Z.max_l (- k) 0), (Z.max_l (- (k + 1)) 0), (Z.max_r k 0), (Z.max_r (k + 1) 0) by lia.
    assert (10 ^ (- k) = 10 ^ (- (k + 1)) * 10) as -> by (replace (- k) with (- (k + 1) + 1) by lia; by rewrite Z.pow_add_r by lia).
    replace (10 * c * (2 ^ Z.max (- e) 0 * 10 ^ 0) - m * 2 ^ Z.max e 0 * (10 ^ (- (k + 1)) * 10))
      with (10 * (c * (2 ^ Z.max (- e) 0 * 10 ^ 0) - m * 2 ^ Z.max e 0 * 10 ^ (- (k + 1)))) by ring.
    rewrite Z.abs_mul. change (Z.abs 10) with 10. lia.
Qed.

Lemma strip_zeros_near m e fuel c k : 0 < c → decimal_near m e c k →
  let '(c', k') := strip_zeros fuel c k in 0 < c' ∧ decimal_near m e c' k'.
Proof.
  revert c k. induction fuel as [|fuel IH]; intros c k Hc Hn; [done|]. cbn [strip_zeros].
  destruct (Z.eqb_spec (c mod 10) 0) as [Hz|]; [|done]. destruct (Z.eqb_spec c 0); [lia|]. cbn [andb negb].
  assert (c = 10 * (c / 10)) as Hc10 by (Z.div_mod_to_equations; lia). apply IH; [lia|]. apply decimal_near_strip. by rewrite <- Hc10.
Qed.

Lemma strip_zeros_reads s m e c k : bounded64 m e = true → 0 < c → decimal_near (Zpos m) e c k →
  reads_as s m e (strip_zeros 20 c k) = true.
Proof.
  intros Hb Hc Hn. pose proof (strip_zeros_near (Zpos m) e 20 c k Hc Hn) as Hs. destruct (strip_zeros 20 c k) as [c' k'].
  destruct Hs as [Hc' Hn']. unfold reads_as. cbn [fst snd]. rewrite (decimal_near_read s m e c' k') by done.
  by rewrite Bool.eqb_reflx, Pos.eqb_refl, Z.eqb_refl.
Qed.

(** With enough digits the nearer candidate is near. *)
Lemma nearer_candidate m e k : 10 ^ 16 ≤ scaled (Zpos m) e k →
  let lo := scaled (Zpos m) e k in
  if scaled (2 * Zpos m) e k <=? 2 * lo then decimal_near (Zpos m) e lo k else decimal_near (Zpos m) e (lo + 1) k.
Proof.
  intros Hlo lo. pose proof (den_s_pos e k) as Hd. unfold decimal_near.
  assert (scaled (2 * Zpos m) e k = 2 * num_s (Zpos m) e k / den_s e k) as Hs2.
  { rewrite scaled_ratio. f_equal. unfold num_s. ring. }
  assert (lo = num_s (Zpos m) e k / den_s e k) as Hl by apply scaled_ratio. fold lo in Hlo.
  change (10 ^ 16) with 10000000000000000 in Hlo. change (2 ^ 54) with 18014398509481984.
  generalize dependent (num_s (Zpos m) e k). generalize dependent (den_s e k). generalize dependent lo. intros lo Hlo d Hd n Hs2 Hl.
  pose proof (Z_div_mod_eq_full n d) as H1. pose proof (Z.mod_pos_bound n d Hd) as H2. rewrite <- Hl in H1.
  rewrite Hs2. destruct (Z.leb_spec (2 * n / d) (2 * lo)) as [H|H].
  - assert (2 * n < (2 * lo + 1) * d) by (pose proof (Z.mul_succ_div_gt (2 * n) d Hd); nia). nia.
  - assert ((2 * lo + 1) * d ≤ 2 * n) by (pose proof (Z.mul_div_le (2 * n) d Hd); nia). nia.
Qed.

Lemma shortest_from_some fuel n s m e top (j : nat) : (j < fuel)%nat → bounded64 m e = true →
  10 ^ 16 ≤ scaled (Zpos m) e (top - (n + Z.of_nat j) + 1) → is_Some (shortest_from fuel n s m e top).
Proof.
  revert n fuel. induction j as [|j IH]; intros n [|fuel] Hj Hb Hs; [lia| |lia|].
  - cbn [shortest_from]. replace (top - (n + Z.of_nat 0) + 1) with (top - n + 1) in Hs by lia. set (k := top - n + 1) in *.
    pose proof (nearer_candidate m e k Hs) as Hn. cbv zeta in Hn. change (10 ^ 16) with 10000000000000000 in Hs.
    destruct (_ <=? _); cbv iota beta zeta.
    + rewrite (strip_zeros_reads s m e (scaled (Zpos m) e k) k) by (done || lia). by eexists.
    + rewrite (strip_zeros_reads s m e (scaled (Zpos m) e k + 1) k) by (done || lia). by eexists.
  - cbn [shortest_from].
    assert (is_Some (shortest_from fuel (n + 1) s m e top)) as Hrec.
    { apply IH; [lia|done|]. by replace (n + 1 + Z.of_nat j) with (n + Z.of_nat (S j)) by lia. }
    destruct (_ <=? _); cbv iota beta; repeat (destruct (reads_as _ _ _ _); [by eexists|]); done.
Qed.

Lemma shortest_total s m e : bounded64 m e = true → is_Some (shortest s m e).
Proof.
  intros Hb. unfold shortest. set (top := decimal_exponent (Zpos m) e).
  apply (shortest_from_some 17 1 s m e top 16); [lia|done|].
  replace (top - (1 + Z.of_nat 16) + 1) with (top - Z.of_nat 16) by lia.
  pose proof (scaled_down (Zpos m) e top 1 16 (decimal_exponent_le m e Hb)) as H. by rewrite Z.mul_1_l in H.
Qed.

(** Every finite float64 has a text. *)
Definition is_float64 (f : spec_float) : Prop := valid_binary 53 1024 f = true ∧ f ≠ S754_nan ∧ ∀ s, f ≠ S754_infinity s.

Lemma json_float_total f : is_float64 f → is_Some (json_float f).
Proof.
  intros (Hv & Hnan & Hinf). destruct f as [s|s| |s m e]; cbn [json_float]; [by eexists|by destruct (Hinf s)|done|].
  destruct (shortest_total s m e Hv) as [[d k] ->]. by eexists.
Qed.

(** ** What is read is a float64 *)
Lemma finish_valid sx R e : 0 ≤ R ≤ 2 ^ 53 → -1074 ≤ e → (R < 2 ^ 52 → e = -1074) → valid_binary 53 1024 (finish sx R e) = true.
Proof.
  intros [HR0 HR] He Hsub. destruct (Z.eq_dec R (2 ^ 53)) as [->|Hne].
  { destruct (Z.leb_spec e 970) as [Hle|Hgt].
    - pose proof (finish_carry sx (Z.to_pos (2 ^ 52)) (e + 1) eq_refl) as Hf.
      assert (bounded64 (Z.to_pos (2 ^ 52)) (e + 1) = true) as Hb.
      { unfold bounded, canonical_mantissa. rewrite fexp64_max. change (Zpos (digits2_pos _)) with 53.
        rewrite (proj2 (Z.leb_le _ _)) by lia. rewrite andb_true_r. apply Z.eqb_eq. lia. }
      specialize (Hf Hb). replace (e + 1 - 1) with e in Hf by lia. change (2 * Zpos (Z.to_pos (2 ^ 52))) with (2 ^ 53) in Hf.
      by rewrite Hf.
    - unfold finish, shr_fexp. rewrite fexp64_max. change (Zdigits2 _) with 54.
      replace (Z.max (54 + e - 53) (-1074) - e) with 1 by lia. cbn. by rewrite (proj2 (Z.leb_gt _ _)) by lia. }
  destruct R as [|r|r]; [| |lia].
  - unfold finish, shr_fexp. rewrite fexp64_max. change (Zdigits2 0) with 0.
    destruct (Z.max (0 + e - 53) (-1074) - e) eqn:Es; [done|lia|done].
  - pose proof (digits2_bounds r) as [H1 H2].
    assert (Zpos (digits2_pos r) ≤ 53) by (assert (Zpos (digits2_pos r) - 1 < 53); [|lia]; apply (Z.pow_lt_mono_r_iff 2); lia).
    assert (fexp64 (Zpos (digits2_pos r) + e) = e) as Hc.
    { rewrite fexp64_max. destruct (Z.lt_ge_cases (Zpos r) (2 ^ 52)) as [Hlt|Hge]; [rewrite (Hsub Hlt); lia|].
      assert (52 < Zpos (digits2_pos r)) by (apply (Z.pow_lt_mono_r_iff 2); lia). lia. }
    unfold finish, shr_fexp. cbn [Zdigits2]. rewrite Hc, Z.sub_diag. cbn [shr shr_m shr_record_of_loc].
    destruct (Z.leb_spec e 971) as [Hle|]; [|done]. cbn [valid_binary]. unfold bounded, canonical_mantissa.
    rewrite Hc, Z.eqb_refl. by apply Z.leb_le.
Qed.

Lemma round_aux_valid sx q e0 s : 2 ^ 54 ≤ q → valid_binary 53 1024 (binary_round_aux 53 1024 sx q e0 (location_of s)) = true.
Proof.
  intros Hq. destruct q as [|qp|qp]; [lia| |lia]. pose proof (digits2_bounds qp) as [H1 H2]. set (D := Zpos (digits2_pos qp)) in *.
  assert (55 ≤ D) as HD by (assert (54 < D); [|lia]; apply (Z.pow_lt_mono_r_iff 2); lia).
  set (E := Z.max (D + e0 - 53) (-1074)). set (p := Z.to_pos (E - e0)). assert (Zpos p = E - e0) as Hp by (apply Z2Pos.id; lia).
  rewrite (round_aux_shift sx (Zpos qp) e0 s p) by (cbn [Zdigits2]; rewrite fexp64_max; fold D; lia).
  pose proof (round_shift_bounds p (Zpos qp) s ltac:(lia)) as HR. set (Q := Zpos qp / 2 ^ Zpos p) in *.
  assert (0 < 2 ^ Zpos p) by (apply Z.pow_pos_nonneg; lia).
  assert (0 ≤ Q) by (apply Z.div_pos; lia).
  assert (Q < 2 ^ 53).
  { apply Z.div_lt_upper_bound; [done|]. rewrite <- Z.pow_add_r by lia.
    assert (2 ^ D ≤ 2 ^ (Zpos p + 53)) by (apply Z.pow_le_mono_r; lia). lia. }
  apply finish_valid; [lia|lia|]. intros Hlt.
  destruct (Z.eq_dec (e0 + Zpos p) (-1074)) as [|Hne]; [done|]. assert (2 ^ 52 ≤ Q); [|lia].
  apply Z.div_le_lower_bound; [done|]. rewrite <- Z.pow_add_r by lia. by replace (Zpos p + 52) with (D - 1) by lia.
Qed.

Lemma float_of_ratio_valid neg num den : 0 ≤ num → 0 < den → valid_binary 53 1024 (float_of_ratio neg num den) = true.
Proof.
  intros Hnum Hden. destruct (Z.eq_dec num 0) as [->|]; [done|]. set (e0 := Z.log2 num - Z.log2 den - 55).
  destruct (ratio_quotient neg num den (Z.abs e0)) as [-> Hq]; [lia..|]. by apply round_aux_valid.
Qed.

Lemma number_of_nonneg ds : 0 ≤ number_of ds.
Proof.
  unfold number_of. assert (∀ a, 0 ≤ a → 0 ≤ default 0 (digits_value ds a)) as H; [|by apply H].
  induction ds as [|c ds IH]; intros a Ha; [done|]. cbn [digits_value]. unfold is_digit in *.
  destruct ((48 <=? c) && (c <=? 57)) eqn:Ec; [|done]. apply IH. lia.
Qed.

(** Whatever is read is a finite float64, so it has a text that is read as it. *)
Lemma ParseFloat_float64 literal f : ParseFloat literal = Some f → is_float64 f.
Proof.
  unfold ParseFloat. destruct (match bytes literal with 45 :: _ => _ | _ => _ end) as [neg l].
  destruct (take_digits l) as [ip l1]. destruct (match l1 with 46 :: _ => _ | _ => _ end) as [fp l2].
  set (exp := match l2 with [] => _ | _ => _ end). set (k := exp - _). clearbody k.
  assert (valid_binary 53 1024 (float_of_decimal neg (number_of (ip ++ fp)) k) = true) as Hv.
  { unfold float_of_decimal. pose proof (number_of_nonneg (ip ++ fp)). destruct (Z.leb_spec 0 k).
    - apply float_of_ratio_valid; [|lia]. apply Z.mul_nonneg_nonneg; [done|]. apply Z.pow_nonneg. lia.
    - apply float_of_ratio_valid; [done|]. apply Z.pow_pos_nonneg; lia. }
  destruct (float_of_decimal _ _ _); try discriminate; intros [= <-]; by split_and!.
Qed.

Lemma reformat_total literal : is_Some (ParseFloat literal) → is_Some (reformat literal).
Proof. intros [f Hf]. unfold reformat. rewrite Hf. cbn. by eapply json_float_total, ParseFloat_float64. Qed.
