(* ===== verification/GoPath.v ===== *)
(** * Paths and pieces of strings

    What the program uses of path/filepath on Unix ([Clean], [Dir], [Join], [IsAbs]) and of
    strings ([Split], [ReplaceAll], [Trim] and [TrimRight] of a single character). *)

From S2P Require Import Prelude GoStrings Utf8.

Definition slash : Z := 47.

(** [strings.Split] on one character. *)
Fixpoint split_on (c : Z) (l : list Z) : list (list Z) :=
  match l with
  | [] => [[]]
  | x :: l' =>
      if x =? c then [] :: split_on c l'
      else match split_on c l' with
           | w :: ws => (x :: w) :: ws
           | [] => [[x]]
           end
  end.

Fixpoint join_with (sep : list Z) (ws : list (list Z)) : list Z :=
  match ws with
  | [] => []
  | [w] => w
  | w :: ws' => w ++ sep ++ join_with sep ws'
  end.

(** [strings.ReplaceAll(s, old, new)] for a non-empty [old]; [skip] characters of a match are
    still to be dropped. *)
Fixpoint replace_from (old new : list Z) (skip : nat) (l : list Z) : list Z :=
  match l with
  | [] => []
  | c :: l' =>
      match skip with
      | S k => replace_from old new k l'
      | O => if decide (old `prefix_of` l) then new ++ replace_from old new (length old - 1) l'
             else c :: replace_from old new 0 l'
      end
  end.
Definition ReplaceAll (s old new : string) : string :=
  string_of_bytes (replace_from (bytes old) (bytes new) 0 (bytes s)).

(** [strings.TrimRight(s, c)] and [strings.Trim(s, c)] for one character. *)
Definition trim_right (c : Z) (l : list Z) : list Z := reverse (drop_while (λ x, x =? c) (reverse l)).
Definition trim_both (c : Z) (l : list Z) : list Z := trim (λ x, x =? c) l.

(** ** Paths *)
Definition dot : list Z := [46].
Definition dotdot : list Z := [46; 46].

Definition is_rooted (l : list Z) : bool := match l with c :: _ => c =? slash | [] => false end.
Definition IsAbs (path : string) : bool := is_rooted (bytes path).

(** One element of a path; the elements kept so far are in reverse. *)
Definition clean_step (rooted : bool) (kept : list (list Z)) (w : list Z) : list (list Z) :=
  if decide (w = [] ∨ w = dot) then kept
  else if decide (w = dotdot) then
    match kept with
    | [] => if rooted then [] else [dotdot]
    | x :: kept' => if decide (x = dotdot) then dotdot :: kept else kept'
    end
  else w :: kept.

Definition clean_bytes (l : list Z) : list Z :=
  let rooted := is_rooted l in
  let out := (if rooted then [slash] else []) ++
    join_with [slash] (reverse (foldl (clean_step rooted) [] (split_on slash l))) in
  match out with [] => dot | _ => out end.

Definition Clean (path : string) : string := string_of_bytes (clean_bytes (bytes path)).

(** All but the last element. *)
Definition Dir (path : string) : string :=
  let ws := split_on slash (bytes path) in
  let dir := match reverse ws with
             | [] | [_] => []
             | _ :: ws' => join_with [slash] (reverse ws') ++ [slash]
             end in
  string_of_bytes (clean_bytes dir).

Definition Join (elems : list string) : string :=
  match filter (λ s, s ≠ "") elems with
  | [] => ""
  | es => Clean (string_of_bytes (join_with [slash] (bytes <$> es)))
  end.

Example path_checks :
  Clean "a//b/./c/../d/" = "a/b/d" ∧ Clean "" = "." ∧ Clean "/../a" = "/a" ∧ Clean "../../x/.." = "../.." ∧
  Dir "/tmp/x.json" = "/tmp" ∧ Dir "x.json" = "." ∧ Dir "a/b/" = "a/b" ∧ Dir "/x" = "/" ∧
  Join ["out"; "agents"; "a.go"] = "out/agents/a.go" ∧ Join ["./s"; ""; "../t"] = "t" ∧
  ReplaceAll "a{task_id}b{task_id}" "{task_id}" "T" = "aTbT" ∧ IsAbs "/a" = true.
Proof. vm_compute. repeat split; reflexivity. Qed.
