(* ===== verification/GoDuration.v ===== *)
(** * time.Duration in text

    [Duration.String], as the verb [%s] prints it. *)

From S2P Require Import Prelude GoStrings GoTime Utf8.

(** [fmtFrac]: the fraction v / 10^prec without its trailing zeros, and the point before it. *)
Fixpoint fmt_frac (prec : nat) (v : Z) (print : bool) : list Z :=
  match prec with
  | O => if print then [46] else []
  | S p =>
      let digit := v mod 10 in
      let print' := print || negb (digit =? 0) in
      fmt_frac p (v / 10) print' ++ (if print' then [48 + digit] else [])
  end.

(** The value in a unit of 10^prec, with its fraction. *)
Definition fmt_unit (prec : nat) (u : Z) (suffix : list Z) : list Z :=
  bytes (Itoa (u / 10 ^ Z.of_nat prec)) ++ fmt_frac prec u false ++ suffix.

Definition duration_bytes (u : Z) : list Z :=
  if u =? 0 then bytes "0s"
  else if u <? 1000 then bytes (Itoa u) ++ bytes "ns"
  else if u <? 1000000 then fmt_unit 3 u [194; 181; 115]
  else if u <? 1000000000 then fmt_unit 6 u (bytes "ms")
  else
    let secs := u / 1000000000 in
    let mins := secs / 60 in
    let hours := mins / 60 in
    (if 0 <? hours then bytes (Itoa hours) ++ [104] else []) ++
    (if 0 <? mins then bytes (Itoa (mins mod 60)) ++ [109] else []) ++
    bytes (Itoa (secs mod 60)) ++ fmt_frac 9 u false ++ [115].

Definition Duration_String (d : Z) : string :=
  string_of_bytes ((if d <? 0 then [45] else []) ++ duration_bytes (Z.abs d)).

Example duration_checks :
  Duration_String 0 = "0s" ∧ Duration_String 1500000000 = "1.5s" ∧ Duration_String 1500 = "1.5µs" ∧
  Duration_String 2000000 = "2ms" ∧ Duration_String (-7) = "-7ns" ∧ Duration_String 3600000000000 = "1h0m0s" ∧
  Duration_String 90061001000000 = "25h1m1.001s" ∧ Duration_String 60000000001 = "1m0.000000001s".
Proof. vm_compute. repeat split; reflexivity. Qed.
