(* ===== verification/Helpers.v ===== *)
(** * Small parts: tracing set-up, connections, the engine's setters, helper packages

    [SetupOTelFromEnv] (internal/trace/otel.go), [NewRedisCoordinator] and [NewFileCoordinator]
    (internal/coordinator), [SetMetricsRecorder] and [SetTracer] (internal/router),
    internal/channel and internal/state.  The libraries behind them are parameters by the
    errors they return. *)

From S2P Require Import Prelude GoErrors GoStrings GoPath.

(** ** Tracing *)

(** otel.go has its own [envBool], which lowers before it trims. *)
Definition otel_envBool (getenv : string → string) (key : string) : bool :=
  let v := TrimSpace (ToLower (getenv key)) in
  bool_decide (v = "1") || bool_decide (v = "true") || bool_decide (v = "yes") || bool_decide (v = "on").

Inductive Exporter := OtlpExporter (endpoint : string) | StdoutExporter.
(** The tracer of the global provider, or one of a provider made here that batches to an exporter. *)
Inductive OTelRuntime := NoopRuntime (serviceName : string) | ExportingRuntime (serviceName : string) (exp : Exporter).

Section Otel.
Context (resource_New : string → option error) (otlptracegrpc_New : string → option error) (stdouttrace_New : option error).

Definition SetupOTelFromEnv (getenv : string → string) (serviceName : string) : result error OTelRuntime :=
  if negb (otel_envBool getenv "TRACE_ENABLED") then Ok (NoopRuntime serviceName)
  else
    match resource_New serviceName with
    | Some err => Err (Errorf_w ("otel resource: " +:+ Error err) err)
    | None =>
        let endpoint := TrimSpace (getenv "TRACE_ENDPOINT") in
        if decide (endpoint = "") then
          match stdouttrace_New with
          | Some err => Err (Errorf_w ("otel stdout exporter: " +:+ Error err) err)
          | None => Ok (ExportingRuntime serviceName StdoutExporter)
          end
        else
          match otlptracegrpc_New endpoint with
          | Some err => Err (Errorf_w ("otel otlp exporter: " +:+ Error err) err)
          | None => Ok (ExportingRuntime serviceName (OtlpExporter endpoint))
          end
    end.
End Otel.

(** ** Connections of the coordinators *)
Section Redis.
Context {Options RedisClient : Type} (ParseURL : string → result error Options) (NewClient : Options → RedisClient) (Ping : RedisClient → option error).

Record redisCoordinator := mkRedisCoordinator { rc_client : RedisClient; rc_prefix : string }.

Definition NewRedisCoordinator (redisURL prefix : string) : result error redisCoordinator :=
  if decide (TrimSpace redisURL = "") then Err (Errorf "redis url is empty")
  else
    let prefix := if decide (prefix = "") then "fluxroute" else prefix in
    match ParseURL redisURL with
    | Err err => Err (Errorf_w ("parse redis url: " +:+ Error err) err)
    | Ok opt =>
        let client := NewClient opt in
        match Ping client with
        | Some err => Err (Errorf_w ("redis ping failed: " +:+ Error err) err)
        | None => Ok (mkRedisCoordinator client prefix)
        end
    end.
End Redis.

(** The directory of the file coordinator. *)
Definition NewFileCoordinator (tempDir dir : string) : string :=
  if decide (dir = "") then Join [tempDir; "fluxroute-coordination"] else dir.

(** ** The engine's setters: nil restores the default *)
Record observers (M T : Type) := mkObservers { ob_metrics : M; ob_tracer : T }.
Arguments mkObservers {_ _}. Arguments ob_metrics {_ _}. Arguments ob_tracer {_ _}.

Definition SetMetricsRecorder {M T} (noop : M) (e : observers M T) (rec : option M) : observers M T :=
  mkObservers (default noop rec) (ob_tracer e).
Definition SetTracer {M T} (global : T) (e : observers M T) (t : option T) : observers M T :=
  mkObservers (ob_metrics e) (default global t).

(** ** internal/channel: the capacity of the channel that is made *)
Definition NewBufferedResultChannel (size : Z) : Z := if size <=? 0 then 1 else size.

(** ** internal/state: a value in a context *)
Record StateSnapshot := mkStateSnapshot { ss_TaskID : string; ss_Metadata : option (gmap string string) }.

(** A context is the values put on it, the latest first; a key is its type and name, and the key of
    this package has a type no other package can name. *)
Inductive ctx_key := StateKey | OtherKey (name : string).
#[global] Instance ctx_key_eq_dec : EqDecision ctx_key.
Proof. solve_decision. Defined.

Section State.
Context {V : Type}.
Definition context : Type := list (ctx_key * (StateSnapshot + V)).
Definition ctx_Value (ctx : context) (k : ctx_key) : option (StateSnapshot + V) :=
  snd <$> List.find (λ kv, bool_decide (kv.1 = k)) ctx.
Definition ToContext (ctx : context) (s : StateSnapshot) : context := (StateKey, inl s) :: ctx.
Definition FromContext (ctx : context) : StateSnapshot * bool :=
  match ctx_Value ctx StateKey with Some (inl s) => (s, true) | _ => (mkStateSnapshot "" None, false) end.

(** The latest snapshot is read back through any values other packages put on the context. *)
Lemma FromContext_ToContext ctx s (others : list (string * V)) :
  FromContext (((λ kv, (OtherKey kv.1, inr kv.2)) <$> others) ++ ToContext ctx s) = (s, true).
Proof.
  unfold FromContext, ctx_Value. induction others as [|kv others IH]; [done|]. cbn. exact IH.
Qed.
End State.
