(* ===== verification/Json.v ===== *)
(** * JSON as encoding/json reads and writes it

    Values, the compact and the indented form of [json.Marshal] and [json.MarshalIndent], and the
    parser of [json.Unmarshal] as the scanner's state machine: one step per character, a stack of
    open arrays and objects with the scanner's limit on nesting, the unquoting of strings with
    surrogate pairs, and the number grammar.  Texts are rune sequences, invalid bytes being
    [RuneError], which is how both directions treat them.  The main fact is that the parser
    inverts the printers. *)

From S2P Require Import Prelude GoStrings Utf8.

(** Objects keep their members in order, duplicates included. *)
#[local] Unset Elimination Schemes.
Inductive json : Type :=
| JNull
| JBool (b : bool)
| JNumber (literal : string)
| JString (s : string)
| JArray (elements : list json)
| JObject (members : list (string * json)).
#[local] Set Elimination Schemes.

Section Induction.
Context (P : json → Prop).
Context (Hnull : P JNull) (Hbool : ∀ b, P (JBool b)) (Hnumber : ∀ l, P (JNumber l)) (Hstring : ∀ s, P (JString s)).
Context (Harray : ∀ l, Forall P l → P (JArray l)) (Hobject : ∀ l, Forall (P ∘ snd) l → P (JObject l)).

Fixpoint json_ind (v : json) : P v :=
  match v with
  | JNull => Hnull
  | JBool b => Hbool b
  | JNumber l => Hnumber l
  | JString s => Hstring s
  | JArray l =>
      Harray l ((fix go l : Forall P l :=
        match l with [] => Forall_nil_2 _ | x :: l' => Forall_cons_2 _ _ _ (json_ind x) (go l') end) l)
  | JObject l =>
      Hobject l ((fix go l : Forall (P ∘ snd) l :=
        match l with [] => Forall_nil_2 _ | x :: l' => Forall_cons_2 _ _ _ (json_ind x.2) (go l') end) l)
  end.
End Induction.

(** ** Printing *)

(** One rune of a string, given with the bytes it came from: HTML characters, control
    characters, the line separators and invalid bytes are escaped. *)
Definition escape_rune (rb : Z * list Z) : list Z :=
  let '(r, bs) := rb in
  if (r =? RuneError) && (length bs =? 1)%nat then bytes "\ufffd"
  else if (r =? 34) || (r =? 92) then [92; r]
  else if r =? 8 then bytes "\b"
  else if r =? 12 then bytes "\f"
  else if r =? 10 then bytes "\n"
  else if r =? 13 then bytes "\r"
  else if r =? 9 then bytes "\t"
  else if (r <? 32) || (r =? 60) || (r =? 62) || (r =? 38) then bytes "\u00" ++ hex2 r
  else if (r =? 8232) || (r =? 8233) then bytes "\u20" ++ hex2 (r - 8192)
  else [r].

Definition quote_json (s : string) : list Z := [34] ++ concat (escape_rune <$> decode (bytes s)) ++ [34].

(** The elements of an array or object, separated by commas. *)
Fixpoint commas (l : list (list Z)) : list Z :=
  match l with
  | [] => []
  | [x] => x
  | x :: l' => x ++ [44] ++ commas l'
  end.

Section Print.
(** The white space at the start of a line of a given depth, and after a colon. *)
Context (newline_at : nat → list Z) (space : list Z).

Fixpoint print (d : nat) (v : json) : list Z :=
  match v with
  | JNull => bytes "null"
  | JBool true => bytes "true"
  | JBool false => bytes "false"
  | JNumber l => bytes l
  | JString s => quote_json s
  | JArray [] => bytes "[]"
  | JArray l => [91] ++ commas (map (λ x, newline_at (S d) ++ print (S d) x) l) ++ newline_at d ++ [93]
  | JObject [] => bytes "{}"
  | JObject l =>
      [123] ++ commas (map (λ m, newline_at (S d) ++ quote_json m.1 ++ [58] ++ space ++ print (S d) m.2) l)
        ++ newline_at d ++ [125]
  end.
End Print.

(** [json.Marshal] of a value, and [json.MarshalIndent(v, "", "  ")]. *)
Definition compact : json → list Z := print (λ _, []) [] 0.
Definition indented : json → list Z := print (λ d, 10 :: replicate (2 * d) 32) [32] 0.

(** ** Parsing *)
Definition is_ws (c : Z) : bool := (c =? 32) || (c =? 9) || (c =? 10) || (c =? 13).
Definition is_dig (c : Z) : bool := (48 <=? c) && (c <=? 57).

(** *** Numbers: the states of the scanner *)
Inductive numstate := NNeg | N0 | N1 | NDot | NDot0 | NE | NESign | NE0.

Definition num_start (c : Z) : option numstate :=
  if c =? 45 then Some NNeg else if c =? 48 then Some N0 else if is_dig c then Some N1 else None.

Definition num_step (n : numstate) (c : Z) : option numstate :=
  let exp := (c =? 101) || (c =? 69) in
  match n with
  | NNeg => if c =? 48 then Some N0 else if is_dig c then Some N1 else None
  | N0 => if c =? 46 then Some NDot else if exp then Some NE else None
  | N1 => if is_dig c then Some N1 else if c =? 46 then Some NDot else if exp then Some NE else None
  | NDot => if is_dig c then Some NDot0 else None
  | NDot0 => if is_dig c then Some NDot0 else if exp then Some NE else None
  | NE => if (c =? 43) || (c =? 45) then Some NESign else if is_dig c then Some NE0 else None
  | NESign | NE0 => if is_dig c then Some NE0 else None
  end.

Definition num_final (n : numstate) : bool :=
  match n with N0 | N1 | NDot0 | NE0 => true | _ => false end.

(** *** Strings: runes and \u escapes *)
Inductive piece := Lit (r : Z) | Esc (u : Z).

Definition hex_value (c : Z) : option Z :=
  if is_dig c then Some (c - 48)
  else if (97 <=? c) && (c <=? 102) then Some (c - 87)
  else if (65 <=? c) && (c <=? 70) then Some (c - 55)
  else None.

Definition is_surrogate (u : Z) : bool := (55296 <=? u) && (u <? 57344).

(** [unquote]: a pair of surrogates is one rune, any other surrogate is [RuneError]. *)
Fixpoint unquote (l : list piece) : list Z :=
  match l with
  | [] => []
  | Lit r :: l' => r :: unquote l'
  | Esc u :: l' =>
      if is_surrogate u then
        match l' with
        | Esc u' :: l'' =>
            if (u <? 56320) && (56320 <=? u') && (u' <? 57344)
            then (65536 + (u - 55296) * 1024 + (u' - 56320)) :: unquote l''
            else RuneError :: unquote l'
        | _ => RuneError :: unquote l'
        end
      else u :: unquote l'
  end.

(** *** The scanner with the values it has completed *)
Inductive frame := FArray (done : list json) | FObject (done : list (string * json)) (key : string).
Inductive escape := NoEscape | Backslash | Hex (digits : nat) (u : Z).
Inductive destination := AsValue | AsKey (done : list (string * json)).

Inductive state :=
| BeginValue (k : list frame)
| BeginArray (k : list frame)
| BeginKey (first : bool) (done : list (string * json)) (k : list frame)
| AfterKey (done : list (string * json)) (key : string) (k : list frame)
| InString (d : destination) (e : escape) (pieces : list piece) (k : list frame)
| InNumber (n : numstate) (chars : list Z) (k : list frame)
| InLiteral (rest : list Z) (v : json) (k : list frame)
| EndValue (v : json) (k : list frame)
| Invalid.

Definition maxNestingDepth : Z := 10000.

(** [pushParseState]. *)
Definition push (k : list frame) (st : state) : state :=
  if Z.of_nat (length k) <? maxNestingDepth then st else Invalid.

Definition begin_value (k : list frame) (c : Z) : state :=
  if c =? 123 then push k (BeginKey true [] k)
  else if c =? 91 then push k (BeginArray k)
  else if c =? 34 then InString AsValue NoEscape [] k
  else if c =? 116 then InLiteral (bytes "rue") (JBool true) k
  else if c =? 102 then InLiteral (bytes "alse") (JBool false) k
  else if c =? 110 then InLiteral (bytes "ull") JNull k
  else match num_start c with Some n => InNumber n [c] k | None => Invalid end.

Definition end_value (v : json) (k : list frame) (c : Z) : state :=
  if is_ws c then EndValue v k
  else match k with
  | [] => Invalid
  | FArray done :: k' =>
      if c =? 44 then BeginValue (FArray (v :: done) :: k')
      else if c =? 93 then EndValue (JArray (reverse (v :: done))) k'
      else Invalid
  | FObject done key :: k' =>
      if c =? 44 then BeginKey false ((key, v) :: done) k'
      else if c =? 125 then EndValue (JObject (reverse ((key, v) :: done))) k'
      else Invalid
  end.

Definition end_string (d : destination) (pieces : list piece) (k : list frame) : state :=
  let s := string_of_runes (unquote (reverse pieces)) in
  match d with
  | AsValue => EndValue (JString s) k
  | AsKey done => AfterKey done s k
  end.

Definition in_string (d : destination) (e : escape) (pieces : list piece) (k : list frame) (c : Z) : state :=
  match e with
  | NoEscape =>
      if c =? 34 then end_string d pieces k
      else if c =? 92 then InString d Backslash pieces k
      else if c <? 32 then Invalid
      else InString d NoEscape (Lit c :: pieces) k
  | Backslash =>
      let lit r := InString d NoEscape (Lit r :: pieces) k in
      if c =? 98 then lit 8 else if c =? 102 then lit 12 else if c =? 110 then lit 10
      else if c =? 114 then lit 13 else if c =? 116 then lit 9
      else if (c =? 92) || (c =? 47) || (c =? 34) then lit c
      else if c =? 117 then InString d (Hex 0 0) pieces k
      else Invalid
  | Hex n u =>
      match hex_value c with
      | None => Invalid
      | Some x =>
          let u' := u * 16 + x in
          if (n =? 3)%nat then InString d NoEscape (Esc u' :: pieces) k else InString d (Hex (S n) u') pieces k
      end
  end.

Definition step (st : state) (c : Z) : state :=
  match st with
  | Invalid => Invalid
  | BeginValue k => if is_ws c then st else begin_value k c
  | BeginArray k =>
      if is_ws c then st
      else if c =? 93 then EndValue (JArray []) k
      else begin_value (FArray [] :: k) c
  | BeginKey first done k =>
      if is_ws c then st
      else if first && (c =? 125) then EndValue (JObject []) k
      else if c =? 34 then InString (AsKey done) NoEscape [] k
      else Invalid
  | AfterKey done key k =>
      if is_ws c then st else if c =? 58 then BeginValue (FObject done key :: k) else Invalid
  | InString d e pieces k => in_string d e pieces k c
  | InNumber n chars k =>
      match num_step n c with
      | Some n' => InNumber n' (c :: chars) k
      | None => if num_final n then end_value (JNumber (string_of_bytes (reverse chars))) k c else Invalid
      end
  | InLiteral rest v k =>
      match rest with
      | [] => end_value v k c
      | x :: rest' => if c =? x then InLiteral rest' v k else Invalid
      end
  | EndValue v k => end_value v k c
  end.

(** The value completed so far, if any, and the stack below it. *)
Definition settle (st : state) : option (json * list frame) :=
  match st with
  | EndValue v k => Some (v, k)
  | InLiteral [] v k => Some (v, k)
  | InNumber n chars k => if num_final n then Some (JNumber (string_of_bytes (reverse chars)), k) else None
  | _ => None
  end.

Definition parse_runes (rs : list Z) : option json :=
  match settle (foldl step (BeginValue []) rs) with
  | Some (v, []) => Some v
  | _ => None
  end.

(** The value [json.Unmarshal] reads in a text; [None] is a syntax error. *)
Definition parse (text : string) : option json := parse_runes (runes_of_string text).

Definition Marshal (v : json) : string := string_of_runes (compact v).
Definition MarshalIndent (v : json) : string := string_of_runes (indented v).


(** Texts in the examples write ' for the double quote. *)
Definition dq (s : string) : string := string_of_bytes ((λ b, if b =? 39 then 34 else b) <$> bytes s).

Example parse_checks :
  parse (dq " {'a': [1, -2.5e+3 ,true,null], 'b':'x\u00e9\ud83d\ude00\ud800'}") =
    Some (JObject [("a", JArray [JNumber "1"; JNumber "-2.5e+3"; JBool true; JNull]);
                   ("b", JString (string_of_runes [120; 233; 128512; 65533]))]) ∧
  parse "[1,]" = None ∧ parse "01" = None ∧ parse "1 2" = None ∧ parse "" = None ∧ parse "[]x" = None ∧
  Marshal (JObject [("k<", JString (dq "a'b"))]) = dq "{'k\u003c':'a\'b'}".
Proof. vm_compute. repeat split; reflexivity. Qed.

(** ** What can be printed *)
Definition number_ok (literal : string) : bool :=
  match bytes literal with
  | [] => false
  | c :: cs =>
      match foldl (λ o c, o ≫= λ n, num_step n c) (num_start c) cs with
      | Some n => num_final n
      | None => false
      end
  end.

(** Strings are valid UTF-8 and numbers are JSON numbers. *)
Fixpoint json_ok (v : json) : bool :=
  match v with
  | JNull | JBool _ => true
  | JNumber l => number_ok l
  | JString s => valid_utf8 s
  | JArray l => forallb json_ok l
  | JObject l => forallb (λ m, valid_utf8 m.1 && json_ok m.2) l
  end.

(** Only the numbers are restricted: any string can be printed, its invalid bytes as U+FFFD. *)
Fixpoint numbers_ok (v : json) : bool :=
  match v with
  | JNumber l => number_ok l
  | JArray l => forallb numbers_ok l
  | JObject l => forallb (λ m, numbers_ok m.2) l
  | _ => true
  end.

(** The valid string that printing and reading a string gives. *)
Definition clean_string (s : string) : string := string_of_runes (runes_of_string s).

#[global] Arguments clean_string : simpl never.

Fixpoint clean (v : json) : json :=
  match v with
  | JString s => JString (clean_string s)
  | JArray l => JArray (map clean l)
  | JObject l => JObject (map (λ m, (clean_string m.1, clean m.2)) l)
  | _ => v
  end.

Fixpoint json_depth (v : json) : nat :=
  match v with
  | JArray l => S (foldr (λ x d, json_depth x `max` d) 0 l)
  | JObject l => S (foldr (λ m d, json_depth m.2 `max` d) 0 l)
  | _ => 0
  end%nat.

(** ** Strings *)

(** A piece that stands for a rune. *)
Definition stands_for (p : piece) (r : Z) : Prop := p = Lit r ∨ (p = Esc r ∧ is_surrogate r = false).

Lemma unquote_stands ps rs : Forall2 stands_for ps rs → unquote ps = rs.
Proof.
  induction 1 as [|p r ps rs [->|[-> Hr]] _ IH]; [done|cbn; by rewrite IH|]. cbn. by rewrite Hr, IH.
Qed.

Lemma hex_value_digit d : 0 ≤ d < 16 → hex_value (hex_digit d) = Some d.
Proof.
  intros Hd. unfold hex_value, hex_digit, is_dig.
  destruct (d <? 10) eqn:E; [replace (_ && _) with true by lia; f_equal; lia|].
  replace ((48 <=? 87 + d) && (87 + d <=? 57)) with false by lia.
  replace (_ && _) with true by lia. f_equal. lia.
Qed.

Lemma hex2_digits b : 0 ≤ b < 256 → hex2 b = [hex_digit (b / 16); hex_digit (b mod 16)].
Proof.
  intros Hb. unfold hex2. rewrite shiftr_div by lia. change 15 with (Z.ones 4). by rewrite Z.land_ones by lia.
Qed.

(** A \u escape of two literal digits and one byte. *)
Lemma step_u d ps k hi x y b :
  hex_value x = Some (hi / 16) → hex_value y = Some (hi mod 16) → 0 ≤ b < 256 →
  foldl step (InString d NoEscape ps k) ([92; 117; x; y] ++ hex2 b) =
  InString d NoEscape (Esc (hi * 256 + b) :: ps) k.
Proof.
  intros Hx Hy Hb. rewrite hex2_digits by done. cbn. rewrite Hx. cbn. rewrite Hy. cbn.
  rewrite (hex_value_digit (b / 16)) by (Z.div_mod_to_equations; lia). cbn.
  rewrite (hex_value_digit (b mod 16)) by (Z.div_mod_to_equations; lia).
  do 3 f_equal. Z.div_mod_to_equations; lia.
Qed.

Lemma step_escape d ps k rb : decoded rb →
  ∃ p, foldl step (InString d NoEscape ps k) (escape_rune rb) = InString d NoEscape (p :: ps) k ∧ stands_for p rb.1.
Proof.
  destruct rb as [r bs]. intros [Hs _]. cbn in Hs. unfold escape_rune. cbn [fst]. unfold scalar in Hs.
  assert (∀ u, (u <? 55296) = true → stands_for (Esc u) u) as Hesc by (intros u Hu; right; unfold is_surrogate; split; [done|lia]).
  destruct (_ && (length bs =? 1)%nat) eqn:E0.
  { assert (r = 65533) as -> by (unfold RuneError in E0; lia). eexists. split; [reflexivity|]. by right. }
  destruct ((r =? 34) || (r =? 92)) eqn:E1.
  { exists (Lit r). split; [|by left]. assert (r = 34 ∨ r = 92) as [->| ->] by lia; done. }
  destruct (Z.eqb_spec r 8) as [->|]; [by eexists; split; [reflexivity|left]|].
  destruct (Z.eqb_spec r 12) as [->|]; [by eexists; split; [reflexivity|left]|].
  destruct (Z.eqb_spec r 10) as [->|]; [by eexists; split; [reflexivity|left]|].
  destruct (Z.eqb_spec r 13) as [->|]; [by eexists; split; [reflexivity|left]|].
  destruct (Z.eqb_spec r 9) as [->|]; [by eexists; split; [reflexivity|left]|].
  destruct (_ || (r =? 38)) eqn:E2.
  { exists (Esc r). split; [|apply Hesc; lia].
    change (bytes "\u00") with [92; 117; 48; 48]. rewrite (step_u d ps k 0) by (done || lia). done. }
  destruct (_ || (r =? 8233)) eqn:E3.
  { exists (Esc r). split; [|apply Hesc; lia].
    change (bytes "\u20") with [92; 117; 50; 48]. rewrite (step_u d ps k 32) by (done || lia). do 3 f_equal. lia. }
  exists (Lit r). split; [|by left]. cbn. replace (r =? 34) with false by lia. replace (r =? 92) with false by lia.
  by replace (r <? 32) with false by lia.
Qed.

Lemma steps_escape d ps k rbs : Forall decoded rbs →
  ∃ qs, foldl step (InString d NoEscape ps k) (concat (escape_rune <$> rbs)) = InString d NoEscape (reverse qs ++ ps) k ∧
    Forall2 stands_for qs (rbs.*1).
Proof.
  intros H. revert ps. induction H as [|rb rbs Hrb _ IH]; intros ps; [by exists []|].
  destruct (step_escape d ps k rb Hrb) as (p & Hp & Hst). destruct (IH (p :: ps)) as (qs & Hqs & Hall).
  exists (p :: qs). split; [|by constructor]. cbn [fmap list_fmap concat]. rewrite foldl_app, Hp, Hqs.
  f_equal. by rewrite reverse_cons, <- app_assoc.
Qed.

(** Printing a string and reading it back, from its opening to its closing quote. *)
Lemma step_quoted d k s :
  foldl step (InString d NoEscape [] k) (concat (escape_rune <$> decode (bytes s)) ++ [34]) =
  match d with AsValue => EndValue (JString (clean_string s)) k | AsKey done => AfterKey done (clean_string s) k end.
Proof.
  rewrite foldl_app. destruct (steps_escape d [] k _ (decode_decoded _ (bytes_range s))) as (qs & -> & Hall).
  cbn. unfold end_string. rewrite app_nil_r, reverse_involutive, (unquote_stands _ _ Hall).
  change (string_of_runes ((decode (bytes s)).*1)) with (clean_string s). by destruct d.
Qed.

(** ** Numbers *)
Lemma steps_number k cs n chars : (∃ n', foldl (λ o c, o ≫= λ n, num_step n c) (Some n) cs = Some n') →
  ∃ n', foldl (λ o c, o ≫= λ n, num_step n c) (Some n) cs = Some n' ∧
    foldl step (InNumber n chars k) cs = InNumber n' (reverse cs ++ chars) k.
Proof.
  revert n chars. induction cs as [|c cs IH]; intros n chars [n' Hn']; [by exists n|]. cbn [foldl step mbind option_bind] in Hn' |- *.
  destruct (num_step n c) as [n1|].
  - destruct (IH n1 (c :: chars)) as (n2 & H2 & ->); [eauto|]. exists n2. by rewrite reverse_cons, <- app_assoc.
  - exfalso. clear IH. induction cs; [done|]. apply IHcs, Hn'.
Qed.

Lemma step_number k l : number_ok l = true →
  settle (foldl step (BeginValue k) (bytes l)) = Some (JNumber l, k).
Proof.
  unfold number_ok. destruct (bytes l) as [|c cs] eqn:E; [done|]. destruct (num_start c) as [n|] eqn:Ec.
  - destruct (foldl _ (Some n) cs) as [n'|] eqn:En; [|done]. intros Hf.
    destruct (steps_number k cs n [c]) as (n2 & H2 & H3); [eauto|]. rewrite En in H2. injection H2 as <-.
    assert (step (BeginValue k) c = InNumber n [c] k) as Hstep.
    { unfold num_start, is_dig in Ec. cbn. unfold begin_value, num_start, is_dig, is_ws.
      repeat case_match; simplify_eq; try lia; done. }
    cbn [foldl]. rewrite Hstep, H3. cbn. rewrite Hf. do 2 f_equal.
    rewrite reverse_app, reverse_involutive, reverse_singleton. cbn [app]. rewrite <- E. by rewrite string_of_bytes_bytes.
  - intros Hf. exfalso. clear -Hf. induction cs; done.
Qed.

(** ** White space and delimiters *)
Definition all_ws (l : list Z) : Prop := Forall (λ c, is_ws c = true) l.

Definition is_delim (c : Z) : bool := is_ws c || (c =? 44) || (c =? 93) || (c =? 125).

Lemma num_step_delim n c : is_delim c = true → num_step n c = None.
Proof.
  unfold is_delim, is_ws. intros Hc. unfold num_step, is_dig. destruct n; repeat case_match; try done; lia.
Qed.

Lemma step_settled st v k c : settle st = Some (v, k) → is_delim c = true → step st c = end_value v k c.
Proof.
  destruct st as [| | | | |n chars k'|[|] v' k'|v' k'|]; cbn; try done; intros Hs Hc; simplify_eq; [|done..].
  rewrite num_step_delim by done. destruct (num_final n); [by simplify_eq|done].
Qed.

Lemma steps_ws_settled st v k ws : settle st = Some (v, k) → all_ws ws → settle (foldl step st ws) = Some (v, k).
Proof.
  intros Hs Hws. revert st Hs. induction Hws as [|c ws Hc _ IH]; intros st Hs; [done|]. cbn [foldl]. apply IH.
  rewrite (step_settled _ _ _ _ Hs) by (unfold is_delim; by rewrite Hc). unfold end_value. by rewrite Hc.
Qed.

(** States that skip white space. *)
Definition skips (st : state) : Prop :=
  match st with BeginValue _ | BeginArray _ | BeginKey _ _ _ | AfterKey _ _ _ => True | _ => False end.

Lemma steps_ws_skipped st ws : skips st → all_ws ws → foldl step st ws = st.
Proof.
  intros Hst Hws. induction Hws as [|c ws Hc _ IH]; [done|]. cbn [foldl].
  replace (step st c) with st; [done|]. destruct st; try done; cbn; by rewrite Hc.
Qed.

(** The closing of an array or object after its last value, white space before it. *)
Lemma steps_close st v k ws c : settle st = Some (v, k) → all_ws ws → is_delim c = true →
  foldl step st (ws ++ [c]) = end_value v k c.
Proof.
  intros Hs Hws Hc. rewrite foldl_app. cbn [foldl]. apply step_settled; [|done]. by apply steps_ws_settled.
Qed.

(** ** The parser inverts the printer *)
Section Roundtrip.
Context (newline_at : nat → list Z) (space : list Z).
Context (Hnl : ∀ d, all_ws (newline_at d)) (Hsp : all_ws space).
#[local] Abbreviation pr := (print newline_at space).
#[local] Hint Resolve Hnl Hsp : core.

(** What a value is read as, with room for its nesting. *)
Definition reads (v : json) : Prop := ∀ d k,
  numbers_ok v = true → (length k + json_depth v ≤ Z.to_nat maxNestingDepth)%nat →
  settle (foldl step (BeginValue k) (pr d v)) = Some (clean v, k).

Lemma print_head d v : numbers_ok v = true → ∃ c rest, pr d v = c :: rest ∧ is_ws c = false ∧ c ≠ 93.
Proof.
  intros Hok. destruct v as [|[]|l|s|[|]|[|]]; cbn; try by eexists _, _.
  cbn in Hok. unfold number_ok in Hok. destruct (bytes l) as [|c cs]; [done|]. exists c, cs. split; [done|].
  destruct (num_start c) as [n|] eqn:E; [|exfalso; clear -Hok; induction cs; done].
  unfold num_start, is_dig in E. unfold is_ws. repeat case_match; simplify_eq; lia.
Qed.

Lemma begin_array_first k d v rest : numbers_ok v = true →
  foldl step (BeginArray k) (newline_at d ++ pr d v ++ rest) =
  foldl step (BeginValue (FArray [] :: k)) (newline_at d ++ pr d v ++ rest).
Proof.
  intros Hok. rewrite !(foldl_app step (newline_at d)), !(steps_ws_skipped _ (newline_at d)) by done.
  destruct (print_head d v Hok) as (c & r & -> & Hws & Hc). cbn. rewrite Hws.
  by replace (c =? 93) with false by lia.
Qed.

Lemma elements_read d l : Forall reads l → l ≠ [] → ∀ done k,
  forallb numbers_ok l = true → (Forall (λ x, S (length k) + json_depth x ≤ Z.to_nat maxNestingDepth)%nat l) →
  foldl step (BeginValue (FArray done :: k))
    (commas (map (λ x, newline_at (S d) ++ pr (S d) x) l) ++ newline_at d ++ [93]) =
  EndValue (JArray (reverse done ++ map clean l)) k.
Proof.
  induction 1 as [|x l Hx _ IH]; intros Hne dn k Hok Hdepth; [done|]. cbn in Hok.
  apply andb_true_iff in Hok as [Hokx Hokl]. inversion Hdepth as [|? ? Hdx Hdl]; subst.
  assert (settle (foldl step (BeginValue (FArray dn :: k)) (newline_at (S d) ++ pr (S d) x)) = Some (clean x, FArray dn :: k)) as Hs.
  { rewrite foldl_app, (steps_ws_skipped _ (newline_at (S d))) by done. apply Hx; [done|]. simpl. lia. }
  destruct l as [|y l].
  - cbn [map commas]. rewrite foldl_app. rewrite (steps_close _ _ _ _ _ Hs) by done.
    change (end_value (clean x) (FArray dn :: k) 93) with (EndValue (JArray (reverse (clean x :: dn))) k). by rewrite reverse_cons.
  - change (commas (map (λ x, newline_at (S d) ++ pr (S d) x) (x :: y :: l)))
      with ((newline_at (S d) ++ pr (S d) x) ++ [44] ++ commas (map (λ x, newline_at (S d) ++ pr (S d) x) (y :: l))).
    rewrite <- app_assoc, (foldl_app step (newline_at (S d) ++ _)), <- app_assoc. cbn [app foldl].
    rewrite (step_settled _ _ _ _ Hs) by done. change (end_value (clean x) (FArray dn :: k) 44) with (BeginValue (FArray (clean x :: dn) :: k)).
    rewrite IH by done. by rewrite reverse_cons, <- app_assoc.
Qed.

Lemma members_read d l : Forall (reads ∘ snd) l → l ≠ [] → ∀ first done k,
  forallb (λ m, numbers_ok m.2) l = true →
  (Forall (λ m, S (length k) + json_depth m.2 ≤ Z.to_nat maxNestingDepth)%nat l) →
  foldl step (BeginKey first done k)
    (commas (map (λ m, newline_at (S d) ++ quote_json m.1 ++ [58] ++ space ++ pr (S d) m.2) l) ++ newline_at d ++ [125]) =
  EndValue (JObject (reverse done ++ map (λ m, (clean_string m.1, clean m.2)) l)) k.
Proof.
  induction 1 as [|[key x] l Hx _ IH]; intros Hne first dn k Hok Hdepth; [done|]. cbn in Hok.
  apply andb_true_iff in Hok as [Hokx Hokl]. inversion Hdepth as [|? ? Hdx Hdl]; subst.
  set (member := λ m : string * json, newline_at (S d) ++ quote_json m.1 ++ [58] ++ space ++ pr (S d) m.2) in *.
  assert (settle (foldl step (BeginKey first dn k) (member (key, x))) = Some (clean x, FObject dn (clean_string key) :: k)) as Hs.
  { unfold member, quote_json. cbn [fst snd].
    rewrite foldl_app, (steps_ws_skipped _ (newline_at (S d))) by done. rewrite <- app_assoc, foldl_app. cbn [foldl].
    replace (step (BeginKey first dn k) 34) with (InString (AsKey dn) NoEscape [] k) by (cbn; by destruct first).
    rewrite foldl_app, step_quoted. cbn [app foldl].
    change (step (AfterKey dn (clean_string key) k) 58) with (BeginValue (FObject dn (clean_string key) :: k)).
    rewrite foldl_app, (steps_ws_skipped _ space) by done. apply Hx; [done|]. simpl in *. lia. }
  destruct l as [|y l].
  - cbn [map commas]. rewrite foldl_app, (steps_close _ _ _ _ _ Hs) by done.
    change (end_value (clean x) (FObject dn (clean_string key) :: k) 125)
      with (EndValue (JObject (reverse ((clean_string key, clean x) :: dn))) k).
    by rewrite reverse_cons.
  - change (commas (map member ((key, x) :: y :: l))) with (member (key, x) ++ [44] ++ commas (map member (y :: l))).
    rewrite <- app_assoc, (foldl_app step (member _)), <- app_assoc. cbn [app foldl].
    rewrite (step_settled _ _ _ _ Hs) by done.
    change (end_value (clean x) (FObject dn (clean_string key) :: k) 44)
      with (BeginKey false ((clean_string key, clean x) :: dn) k).
    rewrite IH by done. by rewrite reverse_cons, <- app_assoc.
Qed.

Lemma push_room k st : (S (length k) ≤ Z.to_nat maxNestingDepth)%nat → push k st = st.
Proof. intros H. unfold push. by replace (_ <? _) with true by lia. Qed.

Lemma step_open_array k : (S (length k) ≤ Z.to_nat maxNestingDepth)%nat → step (BeginValue k) 91 = BeginArray k.
Proof. apply push_room. Qed.
Lemma step_open_object k : (S (length k) ≤ Z.to_nat maxNestingDepth)%nat → step (BeginValue k) 123 = BeginKey true [] k.
Proof. apply push_room. Qed.

Lemma foldr_max_le {A} (f : A → nat) l x : x ∈ l → (f x ≤ foldr (λ y d, f y `max` d) 0 l)%nat.
Proof. induction 1; simpl; lia. Qed.

Lemma reads_back v : reads v.
Proof.
  induction v as [|[]| |s|l IH|l IH] using json_ind; intros d k Hok Hdepth; try done.
  - by apply step_number.
  - cbn [print]. unfold quote_json. cbn [app foldl]. change (step (BeginValue k) 34) with (InString AsValue NoEscape [] k).
    by rewrite step_quoted.
  - simpl in Hdepth. destruct l as [|x l].
    + change (pr d (JArray [])) with [91; 93]. cbn [foldl]. by rewrite step_open_array by lia.
    + change (pr d (JArray (x :: l))) with
        ([91] ++ commas (map (λ x, newline_at (S d) ++ pr (S d) x) (x :: l)) ++ newline_at d ++ [93]).
      cbn [app foldl]. rewrite step_open_array by lia.
      assert (∃ rest, commas (map (λ x, newline_at (S d) ++ pr (S d) x) (x :: l)) ++ newline_at d ++ [93] =
        newline_at (S d) ++ pr (S d) x ++ rest) as [rest Hrest].
      { destruct l; [exists (newline_at d ++ [93]); cbn [map commas]; by rewrite <- app_assoc|]. cbn [map commas].
        eexists. rewrite <- !app_assoc. reflexivity. }
      cbn in Hok. rewrite Hrest, begin_array_first, <- Hrest by (by destruct (numbers_ok x)).
      rewrite elements_read; [done|done|done|done|].
      apply Forall_forall. intros y Hy. pose proof (foldr_max_le json_depth _ _ Hy). simpl in *. lia.
  - simpl in Hdepth. destruct l as [|x l].
    + change (pr d (JObject [])) with [123; 125]. cbn [foldl]. by rewrite step_open_object by lia.
    + change (pr d (JObject (x :: l))) with
        ([123] ++ commas (map (λ m, newline_at (S d) ++ quote_json m.1 ++ [58] ++ space ++ pr (S d) m.2) (x :: l))
           ++ newline_at d ++ [125]).
      cbn [app foldl]. rewrite step_open_object by lia.
      rewrite members_read; [done|done|done|done|].
      apply Forall_forall. intros y Hy. pose proof (foldr_max_le (λ m : string * json, json_depth m.2) _ _ Hy).
      simpl in *. lia.
Qed.
End Roundtrip.

(** ** Texts *)
Definition printable (v : json) : Prop := json_ok v = true ∧ Z.of_nat (json_depth v) ≤ maxNestingDepth.

Definition scalars (l : list Z) : Prop := Forall (λ r, scalar r = true) l.

Lemma num_step_char n c n' : num_step n c = Some n' → scalar c = true.
Proof. unfold num_step, is_dig, scalar. destruct n; repeat case_match; try done; lia. Qed.

Lemma number_scalars l : number_ok l = true → scalars (bytes l).
Proof.
  unfold number_ok, scalars. destruct (bytes l) as [|c cs]; [done|]. intros H.
  destruct (num_start c) as [n|] eqn:Ec; [|exfalso; clear -H; induction cs; done]. constructor.
  { unfold num_start, is_dig in Ec. unfold scalar. repeat case_match; try done; lia. }
  clear Ec. revert n H. induction cs as [|x cs IH]; intros n H; [constructor|]. cbn in H.
  destruct (num_step n x) as [n1|] eqn:E; [|exfalso; clear -H; induction cs; done].
  constructor; [by eapply num_step_char|by eapply IH].
Qed.

Lemma hex2_scalars b : 0 ≤ b < 256 → scalars (hex2 b).
Proof.
  intros Hb. rewrite hex2_digits by done. assert (∀ d, 0 ≤ d < 16 → scalar (hex_digit d) = true) as H
    by (intros d ?; unfold hex_digit, scalar; case_match; lia).
  repeat constructor; apply H; Z.div_mod_to_equations; lia.
Qed.

Lemma escape_scalars rb : decoded rb → scalars (escape_rune rb).
Proof.
  destruct rb as [r bs]. intros [Hs _]. cbn in Hs. unfold escape_rune, scalars.
  repeat case_match; try (repeat constructor; done); try (apply Forall_app; split; [repeat constructor|]);
    apply hex2_scalars; unfold scalar in Hs; lia.
Qed.

Lemma quote_scalars s : scalars (quote_json s).
Proof.
  unfold quote_json, scalars. apply Forall_app. split; [by repeat constructor|]. apply Forall_app. split; [|by repeat constructor].
  apply Forall_concat, Forall_fmap. eapply Forall_impl; [apply decode_decoded, bytes_range|]. intros rb. apply escape_scalars.
Qed.

Lemma commas_scalars ls : Forall scalars ls → scalars (commas ls).
Proof.
  induction 1 as [|l [|l' ls] Hl Hls IH]; [constructor|done|]. cbn [commas]. apply Forall_app. split; [done|].
  by constructor.
Qed.

Lemma print_scalars newline_at space v d :
  (∀ d, scalars (newline_at d)) → scalars space → numbers_ok v = true → scalars (print newline_at space d v).
Proof.
  intros Hnl Hsp. revert d. unfold scalars in *.
  induction v as [|[]|l|s|l IH|l IH] using json_ind; intros d Hok; try by repeat constructor.
  - by apply number_scalars.
  - apply quote_scalars.
  - destruct l as [|x l]; [by repeat constructor|]. set (ls := x :: l) in *.
    change (print newline_at space d (JArray ls)) with
      ([91] ++ commas (map (λ x, newline_at (S d) ++ print newline_at space (S d) x) ls) ++ newline_at d ++ [93]).
    constructor; [done|]. apply Forall_app. split; [|apply Forall_app; split; [done|by repeat constructor]].
    apply commas_scalars, Forall_fmap. rewrite Forall_forall in *. change (forallb numbers_ok ls = true) in Hok. rewrite forallb_forall in Hok.
    intros y Hy. apply Forall_app. split; [done|]. apply IH; [done|]. by apply Hok, list_elem_of_In.
  - destruct l as [|x l]; [by repeat constructor|]. set (ls := x :: l) in *.
    change (print newline_at space d (JObject ls)) with
      ([123] ++ commas (map (λ m, newline_at (S d) ++ quote_json m.1 ++ [58] ++ space ++ print newline_at space (S d) m.2) ls)
         ++ newline_at d ++ [125]).
    constructor; [done|]. apply Forall_app. split; [|apply Forall_app; split; [done|by repeat constructor]].
    apply commas_scalars, Forall_fmap. rewrite Forall_forall in *. 
    change (forallb (λ m, numbers_ok m.2) ls = true) in Hok. rewrite forallb_forall in Hok.
    intros y Hy. cbn beta. apply Forall_app. split; [done|]. apply Forall_app. split; [apply quote_scalars|].
    constructor; [done|]. apply Forall_app. split; [done|]. apply IH; [done|].
    by apply list_elem_of_In, Hok in Hy.
Qed.

(** [json.Unmarshal] reads what [json.Marshal] and [json.MarshalIndent] write, up to invalid
    bytes in strings. *)
Definition writable (v : json) : Prop := numbers_ok v = true ∧ Z.of_nat (json_depth v) ≤ maxNestingDepth.

Lemma parse_print newline_at space v :
  (∀ d, all_ws (newline_at d)) → all_ws space → writable v →
  parse (string_of_runes (print newline_at space 0 v)) = Some (clean v).
Proof.
  intros Hnl Hsp [Hok Hd]. assert (∀ ws, all_ws ws → scalars ws) as Hws.
  { intros ws H. eapply Forall_impl; [exact H|]. intros c. cbn. unfold is_ws, scalar. lia. }
  unfold parse, parse_runes. rewrite runes_of_string_of_runes by (apply print_scalars; auto).
  rewrite reads_back; [done..|]. simpl. unfold maxNestingDepth in *. lia.
Qed.

Lemma parse_Marshal_clean v : writable v → parse (Marshal v) = Some (clean v).
Proof. apply parse_print; repeat constructor. Qed.

Lemma parse_MarshalIndent_clean v : writable v → parse (MarshalIndent v) = Some (clean v).
Proof.
  apply parse_print; [|by repeat constructor]. intros d. constructor; [done|]. apply Forall_replicate. done.
Qed.

Lemma clean_id v : json_ok v = true → clean v = v ∧ numbers_ok v = true.
Proof.
  induction v as [| | |s|l IH|l IH] using json_ind; intros Hok; cbn in *; try done.
  - split; [|done]. f_equal. by apply string_of_runes_of_string.
  - rewrite forallb_forall in Hok. rewrite Forall_forall in IH. split.
    + f_equal. rewrite <- (list_fmap_id l) at 2. apply list_fmap_ext. intros i x Hx%list_elem_of_lookup_2.
      by apply IH; [|apply Hok, list_elem_of_In].
    + apply forallb_forall. intros x Hx%list_elem_of_In. by apply IH; [|apply Hok, list_elem_of_In].
  - rewrite forallb_forall in Hok. rewrite Forall_forall in IH. split.
    + f_equal. rewrite <- (list_fmap_id l) at 2. apply list_fmap_ext. intros i [key x] Hx%list_elem_of_lookup_2.
      pose proof (proj1 (list_elem_of_In _ _) Hx) as Hin. apply Hok, andb_true_iff in Hin as [Hk Hv]. cbn in *.
      destruct (IH _ Hx Hv) as [Hc _]. cbn in Hc. rewrite Hc. f_equal. by apply string_of_runes_of_string.
    + apply forallb_forall. intros x Hx%list_elem_of_In.
      pose proof (proj1 (list_elem_of_In _ _) Hx) as Hin. apply Hok, andb_true_iff in Hin as [_ Hv]. by apply IH.
Qed.

Lemma clean_string_valid s : valid_utf8 (clean_string s) = true.
Proof. apply valid_utf8_runes, runes_scalar. Qed.

Lemma clean_printable v : writable v → printable (clean v).
Proof.
  intros [Hok Hd]. assert (json_ok (clean v) = true ∧ json_depth (clean v) = json_depth v) as [H1 H2]; [|split; [done|lia]].
  clear Hd. induction v as [| | |s|l IH|l IH] using json_ind; cbn in *; try done.
  - split; [apply clean_string_valid|done].
  - induction IH as [|x l Hx _ IHl]; [done|]. cbn in *. apply andb_true_iff in Hok as [Hok1 Hok2].
    destruct (Hx Hok1) as [-> ->], (IHl Hok2) as [-> [= ->]]. done.
  - induction IH as [|x l Hx _ IHl]; [done|]. cbn in *. apply andb_true_iff in Hok as [Hok1 Hok2].
    rewrite clean_string_valid. destruct (Hx Hok1) as [-> ->], (IHl Hok2) as [-> [= ->]]. done.
Qed.

Lemma printable_writable v : printable v → clean v = v ∧ writable v.
Proof. intros [Hok Hd]. destruct (clean_id v Hok). by repeat split. Qed.

Lemma parse_Marshal v : printable v → parse (Marshal v) = Some v.
Proof. intros [Hc Hw]%printable_writable. rewrite parse_Marshal_clean by done. by rewrite Hc. Qed.

Lemma parse_MarshalIndent v : printable v → parse (MarshalIndent v) = Some v.
Proof. intros [Hc Hw]%printable_writable. rewrite parse_MarshalIndent_clean by done. by rewrite Hc. Qed.

(** ** What the parser returns can be printed *)

(** Numbers read so far: the scanner's state after the characters. *)
Definition num_run (chars : list Z) : option numstate :=
  match chars with
  | [] => None
  | c :: cs => foldl (λ o c, o ≫= λ n, num_step n c) (num_start c) cs
  end.

Lemma num_run_snoc chars c n n' : num_run chars = Some n → num_step n c = Some n' → num_run (chars ++ [c]) = Some n'.
Proof. destruct chars as [|x cs]; [done|]. cbn. rewrite foldl_app. intros ->. done. Qed.

Lemma num_run_bytes chars n : num_run chars = Some n → Forall byte_range chars.
Proof.
  revert n. induction chars as [|c chars IH] using rev_ind; intros n H; [constructor|]. destruct chars as [|x cs].
  - cbn in H. repeat constructor; unfold num_start, is_dig in H; repeat case_match; try done; lia.
  - cbn in H. rewrite foldl_app in H. cbn in H. apply Forall_app.
    destruct (foldl _ (num_start x) cs) as [m|] eqn:E; [|done]. split; [by apply (IH m)|].
    cbn in H. repeat constructor; unfold num_step, is_dig in H; destruct m; repeat case_match; try done; lia.
Qed.

Lemma num_run_ok chars n : num_run chars = Some n → num_final n = true → number_ok (string_of_bytes chars) = true.
Proof.
  intros H Hf. unfold number_ok. rewrite bytes_string_of_bytes by (by eapply num_run_bytes).
  destruct chars as [|c cs]; [done|]. cbn in H. by rewrite H.
Qed.

Lemma unquote_scalars ps : Forall (λ p, match p with Lit r => scalar r = true | Esc u => 0 ≤ u < 65536 end) ps →
  scalars (unquote ps).
Proof.
  unfold scalars. remember (length ps) as n eqn:Hn. revert ps Hn. induction (lt_wf n) as [n _ IH]. intros ps -> H.
  assert (∀ ps', (length ps' < length ps)%nat → Forall (λ p, match p with Lit r => scalar r = true | Esc u => 0 ≤ u < 65536 end) ps' →
    Forall (λ r, scalar r = true) (unquote ps')) as IH' by (intros ps' Hlt; by eapply IH).
  destruct ps as [|p ps]; [constructor|]. inversion H as [|? ? Hp Hps]; subst.
  assert (Forall (λ r, scalar r = true) (unquote ps)) as Hrest by (apply IH'; [simpl; lia|done]).
  destruct p as [r|u]; [by constructor|]. cbn [unquote]. unfold is_surrogate. destruct (_ && (u <? 57344)) eqn:E.
  - destruct ps as [|[r|u'] ps']; [by repeat constructor|by constructor|].
    inversion Hps as [|? ? Hu' Hps']; subst. destruct (_ && (u' <? 57344)) eqn:E'; [|by constructor].
    constructor; [unfold scalar; lia|]. apply IH'; [simpl; lia|done].
  - constructor; [unfold scalar; lia|done].
Qed.

(** A value that fits above a stack. *)
Definition fits (v : json) (below : nat) : Prop :=
  json_ok v = true ∧ Z.of_nat (json_depth v + below) ≤ maxNestingDepth.

Fixpoint frames_ok (k : list frame) : Prop :=
  match k with
  | [] => True
  | FArray done :: k' => Forall (λ v, fits v (S (length k'))) done ∧ Z.of_nat (S (length k')) ≤ maxNestingDepth ∧ frames_ok k'
  | FObject done key :: k' =>
      Forall (λ m, valid_utf8 m.1 = true ∧ fits m.2 (S (length k'))) done ∧ valid_utf8 key = true ∧
      Z.of_nat (S (length k')) ≤ maxNestingDepth ∧ frames_ok k'
  end.

Definition members_ok (done : list (string * json)) (below : nat) : Prop :=
  Forall (λ m, valid_utf8 m.1 = true ∧ fits m.2 below) done ∧ Z.of_nat below ≤ maxNestingDepth.

Definition pieces_ok (ps : list piece) : Prop :=
  Forall (λ p, match p with Lit r => scalar r = true | Esc u => 0 ≤ u < 65536 end) ps.

Definition state_ok (st : state) : Prop :=
  match st with
  | BeginValue k => frames_ok k
  | BeginArray k => frames_ok k ∧ Z.of_nat (S (length k)) ≤ maxNestingDepth
  | BeginKey _ done k => frames_ok k ∧ members_ok done (S (length k))
  | AfterKey done key k => frames_ok k ∧ members_ok done (S (length k)) ∧ valid_utf8 key = true
  | InString d e ps k =>
      frames_ok k ∧ pieces_ok ps ∧
      match d with AsValue => True | AsKey done => members_ok done (S (length k)) end ∧
      match e with Hex n u => (n ≤ 3)%nat ∧ 0 ≤ u < 16 ^ Z.of_nat n | _ => True end
  | InNumber n chars k => frames_ok k ∧ num_run (reverse chars) = Some n
  | InLiteral _ v k => frames_ok k ∧ json_ok v = true ∧ json_depth v = 0%nat
  | EndValue v k => frames_ok k ∧ fits v (length k)
  | Invalid => True
  end.

Lemma frames_room k : frames_ok k → Z.of_nat (length k) ≤ maxNestingDepth.
Proof. destruct k as [|[] k]; cbn; [done|naive_solver..]. Qed.

Lemma begin_value_ok k c : frames_ok k → state_ok (begin_value k c).
Proof.
  intros Hk. unfold begin_value, push. repeat case_match; cbn; try done.
  - split; [done|]. split; [constructor|lia].
  - split; [done|]. lia.
  - split; [done|]. by split; [constructor|].
Qed.

Lemma foldr_max_bound {A} (f : A → nat) l b : Forall (λ x, (f x ≤ b)%nat) l → (foldr (λ x d, f x `max` d) 0 l ≤ b)%nat.
Proof. induction 1; simpl; lia. Qed.

Lemma array_fits done below : Forall (λ v, fits v (S below)) done → Z.of_nat (S below) ≤ maxNestingDepth →
  fits (JArray (reverse done)) below.
Proof.
  intros Hd Hb. assert (Forall (λ v, fits v (S below)) (reverse done)) as Hr by (by rewrite reverse_Permutation).
  split.
  - cbn. apply forallb_forall. intros v Hv%list_elem_of_In. rewrite Forall_forall in Hr. by apply Hr.
  - cbn [json_depth]. assert (foldr (λ x d, json_depth x `max` d) 0 (reverse done) ≤ Z.to_nat maxNestingDepth - S below)%nat.
    { apply foldr_max_bound. eapply Forall_impl; [exact Hr|]. intros v [_ Hv]. lia. }
    lia.
Qed.

Lemma object_fits done below : members_ok done (S below) → fits (JObject (reverse done)) below.
Proof.
  intros [Hd Hb]. assert (Forall (λ m : string * json, valid_utf8 m.1 = true ∧ fits m.2 (S below)) (reverse done)) as Hr
    by (by rewrite reverse_Permutation).
  split.
  - cbn. apply forallb_forall. intros v Hv%list_elem_of_In. rewrite Forall_forall in Hr. destruct (Hr _ Hv) as [H1 [H2 _]].
    by rewrite H1, H2.
  - cbn [json_depth]. assert (foldr (λ x d, json_depth x.2 `max` d) 0 (reverse done) ≤ Z.to_nat maxNestingDepth - S below)%nat.
    { apply (foldr_max_bound (λ m : string * json, json_depth m.2)). eapply Forall_impl; [exact Hr|]. intros v [_ [_ Hv]]. lia. }
    lia.
Qed.

Lemma end_value_ok v k c : frames_ok k → fits v (length k) → state_ok (end_value v k c).
Proof.
  intros Hk Hv. unfold end_value. destruct (is_ws c); [done|]. destruct k as [|[dn|dn key] k]; [done| |].
  - destruct Hk as (Hd & Hb & Hk). repeat case_match; [cbn| |done].
    + split; [by constructor|done].
    + split; [done|]. apply array_fits; [by constructor|done].
  - destruct Hk as (Hd & Hkey & Hb & Hk). repeat case_match; [cbn| |done].
    + split; [done|]. split; [by constructor|done].
    + split; [done|]. apply object_fits. by split; [constructor|].
Qed.

Lemma end_string_ok d ps k : frames_ok k → pieces_ok ps →
  match d with AsValue => True | AsKey done => members_ok done (S (length k)) end → state_ok (end_string d ps k).
Proof.
  intros Hk Hps Hd. assert (valid_utf8 (string_of_runes (unquote (reverse ps))) = true) as Hv.
  { apply valid_utf8_runes, unquote_scalars. unfold pieces_ok in Hps. by rewrite reverse_Permutation. }
  unfold end_string. destruct d as [|dn]; cbn; [|done]. split; [done|]. split; [exact Hv|].
  pose proof (frames_room k Hk). cbn. lia.
Qed.

Lemma hex_value_range c x : hex_value c = Some x → 0 ≤ x < 16.
Proof. unfold hex_value, is_dig. repeat case_match; intros; simplify_eq; lia. Qed.

Lemma in_string_ok d e ps k c : state_ok (InString d e ps k) → scalar c = true → state_ok (in_string d e ps k c).
Proof.
  intros (Hk & Hps & Hd & He) Hc. unfold in_string. destruct e as [| |n u].
  - destruct (c =? 34); [by apply end_string_ok|]. destruct (c =? 92); [done|]. destruct (c <? 32); [done|].
    split; [done|]. split; [by constructor|done].
  - assert (∀ r, scalar r = true → state_ok (InString d NoEscape (Lit r :: ps) k)) as Hlit
      by (intros r Hr; split; [done|]; split; [by constructor|done]).
    assert (state_ok (InString d (Hex 0 0) ps k)) as Hhex by (split; [done|]; split; [done|]; split; [done|]; split; [lia|done]).
    repeat case_match; try (by apply Hlit); done.
  - destruct (hex_value c) as [x|] eqn:Ex; [|done]. apply hex_value_range in Ex. destruct He as [Hn Hu].
    destruct (Nat.eqb_spec n 3) as [->|Hne].
    + split; [done|]. split; [|done]. constructor; [|done]. change (16 ^ Z.of_nat 3) with 4096 in Hu. lia.
    + split; [done|]. split; [done|]. split; [done|]. split; [lia|]. rewrite Nat2Z.inj_succ, Z.pow_succ_r by lia. lia.
Qed.

Lemma step_ok st c : state_ok st → scalar c = true → state_ok (step st c).
Proof.
  intros Hst Hc. destruct st as [k|k|first dn k|dn key k|d e ps k|n chars k|rest v k|v k|]; cbn [step].
  - case_match; [done|]. by apply begin_value_ok.
  - destruct Hst as [Hk Hr]. case_match; [done|]. case_match; [split; [done|]|by apply begin_value_ok].
    split; [done|]. cbn. lia.
  - destruct Hst as [Hk Hm]. repeat case_match; try done.
    + split; [done|]. split; [done|]. destruct Hm. cbn. lia.
    + split; [done|]. split; [constructor|]. by split.
  - destruct Hst as (Hk & Hm & Hkey). repeat case_match; try done. destruct Hm. split; [done|]. by split.
  - by apply in_string_ok.
  - destruct Hst as [Hk Hr]. destruct (num_step n c) as [n'|] eqn:E.
    + split; [done|]. rewrite reverse_cons. by eapply num_run_snoc.
    + destruct (num_final n) eqn:Ef; [|done]. apply end_value_ok; [done|]. split; [by eapply num_run_ok|].
      pose proof (frames_room k Hk). cbn. lia.
  - destruct Hst as (Hk & Hv & Hd). destruct rest; [|case_match; done]. apply end_value_ok; [done|]. split; [done|].
    pose proof (frames_room k Hk). rewrite Hd. cbn. lia.
  - destruct Hst. by apply end_value_ok.
  - done.
Qed.

Lemma settle_printable st v : state_ok st → settle st = Some (v, []) → printable v.
Proof.
  intros Hok. destruct st as [| | | | |n chars k|[|] v' k|v' k|] eqn:E; cbn; try done.
  - destruct (num_final n) eqn:Ef; [|done]. intros [= <- ->]. destruct Hok as [_ Hr].
    split; [by eapply num_run_ok|done].
  - intros [= <- ->]. destruct Hok as (_ & Hv & Hd). split; [done|]. rewrite Hd. done.
  - intros [= <- ->]. destruct Hok as (_ & Hv & Hd). split; [done|]. cbn in Hd. by rewrite Nat.add_0_r in Hd.
Qed.

Lemma parse_printable text v : parse text = Some v → printable v.
Proof.
  unfold parse, parse_runes. assert (state_ok (foldl step (BeginValue []) (runes_of_string text))) as Hok.
  { pose proof (runes_scalar text) as Hr. assert (state_ok (BeginValue [])) as H0 by done.
    revert H0. generalize (BeginValue []). induction Hr as [|c rs Hc _ IH]; intros st Hst; [done|]. cbn. apply IH. by apply step_ok. }
  destruct (settle _) as [[v' [|f k]]|] eqn:E; try done. intros [= <-]. by eapply settle_printable.
Qed.
