(* ===== verification/Base64.v ===== *)
(** * base64.StdEncoding, in which encoding/json writes byte slices *)

From S2P Require Import Prelude GoStrings Utf8.

Definition pad_char : Z := 61.

(** The alphabet A-Z a-z 0-9 + /. *)
Definition b64_char (v : Z) : Z :=
  if v <? 26 then 65 + v else if v <? 52 then 71 + v else if v <? 62 then v - 4 else if v =? 62 then 43 else 47.

Definition b64_value (c : Z) : option Z :=
  if (65 <=? c) && (c <=? 90) then Some (c - 65)
  else if (97 <=? c) && (c <=? 122) then Some (c - 71)
  else if (48 <=? c) && (c <=? 57) then Some (c + 4)
  else if c =? 43 then Some 62 else if c =? 47 then Some 63 else None.

(** Three bytes are four characters; the last group is padded. *)
Fixpoint b64_encode (bs : list Z) : list Z :=
  match bs with
  | [] => []
  | [a] => [b64_char (a / 4); b64_char (a mod 4 * 16); pad_char; pad_char]
  | [a; b] => [b64_char (a / 4); b64_char (a mod 4 * 16 + b / 16); b64_char (b mod 16 * 4); pad_char]
  | a :: b :: c :: rest =>
      b64_char (a / 4) :: b64_char (a mod 4 * 16 + b / 16) :: b64_char (b mod 16 * 4 + c / 64)
        :: b64_char (c mod 64) :: b64_encode rest
  end.

Fixpoint b64_groups (cs : list Z) : option (list Z) :=
  match cs with
  | [] => Some []
  | w :: x :: y :: z :: rest =>
      w ← b64_value w; x ← b64_value x;
      if z =? pad_char then
        match rest with
        | [] =>
            if y =? pad_char then Some [w * 4 + x / 16]
            else y ← b64_value y; Some [w * 4 + x / 16; x mod 16 * 16 + y / 4]
        | _ => None
        end
      else
        y ← b64_value y; z ← b64_value z;
        r ← b64_groups rest;
        Some (w * 4 + x / 16 :: x mod 16 * 16 + y / 4 :: y mod 4 * 64 + z :: r)
  | _ => None
  end.

(** Decoding skips line ends. *)
Definition b64_decode (cs : list Z) : option (list Z) := b64_groups (filter (λ c, c ≠ 10 ∧ c ≠ 13) cs).

Example base64_checks :
  string_of_bytes (b64_encode (bytes "light work.")) = "bGlnaHQgd29yay4=" ∧
  b64_decode (bytes "bGlnaHQgd28=") = Some (bytes "light wo") ∧ b64_decode (bytes "bGl") = None ∧
  b64_decode (bytes "bG=h") = None.
Proof. vm_compute. repeat split; reflexivity. Qed.

Lemma b64_char_cases v : 0 ≤ v < 64 →
  b64_value (b64_char v) = Some v ∧ 43 ≤ b64_char v ≤ 122 ∧ b64_char v ≠ pad_char.
Proof.
  intros Hv. unfold b64_char, b64_value, pad_char.
  destruct (Z.ltb_spec v 26); [replace (_ && _) with true by lia; split; [f_equal|]; lia|].
  destruct (Z.ltb_spec v 52).
  { replace ((65 <=? 71 + v) && (71 + v <=? 90)) with false by lia. replace (_ && _) with true by lia. split; [f_equal|]; lia. }
  destruct (Z.ltb_spec v 62).
  { replace ((65 <=? v - 4) && (v - 4 <=? 90)) with false by lia. replace ((97 <=? v - 4) && (v - 4 <=? 122)) with false by lia.
    replace (_ && _) with true by lia. split; [f_equal|]; lia. }
  destruct (Z.eqb_spec v 62) as [->|]; [by split|]. assert (v = 63) as -> by lia. by split.
Qed.

(** An induction principle for groups of three. *)
Lemma three_ind {A} (P : list A → Prop) :
  P [] → (∀ a, P [a]) → (∀ a b, P [a; b]) → (∀ a b c l, P l → P (a :: b :: c :: l)) → ∀ l, P l.
Proof. intros H0 H1 H2 H3. fix IH 1. intros [|a [|b [|c l]]]; [exact H0|apply H1|apply H2|]. apply H3, IH. Qed.

Lemma b64_encode_chars bs : Forall byte_range bs → Forall (λ c, 43 ≤ c ≤ 122) (b64_encode bs).
Proof.
  assert (∀ v, 0 ≤ v < 64 → 43 ≤ b64_char v ≤ 122) as Hc by (intros v Hv; by apply b64_char_cases).
  induction bs as [|a|a b|a b c l IH] using three_ind; intros H; decompose_Forall_hyps; unfold byte_range in *;
    cbn [b64_encode]; repeat (constructor; [first [apply Hc; Z.div_mod_to_equations; lia|done]|]); auto.
Qed.

Ltac bytes_eq := repeat (apply (f_equal2 cons); [Z.div_mod_to_equations; lia|]); done.

Lemma b64_groups_encode bs : Forall byte_range bs → b64_groups (b64_encode bs) = Some bs.
Proof.
  induction bs as [|a|a b|a b c l IH] using three_ind; intros H; [done| | |]; decompose_Forall_hyps; unfold byte_range in *;
    cbn [b64_encode b64_groups].
  - destruct (b64_char_cases (a / 4)) as (-> & _); [Z.div_mod_to_equations; lia|].
    destruct (b64_char_cases (a mod 4 * 16)) as (-> & _); [Z.div_mod_to_equations; lia|].
    cbn. apply f_equal. bytes_eq.
  - destruct (b64_char_cases (a / 4)) as (-> & _); [Z.div_mod_to_equations; lia|].
    destruct (b64_char_cases (a mod 4 * 16 + b / 16)) as (-> & _); [Z.div_mod_to_equations; lia|].
    destruct (b64_char_cases (b mod 16 * 4)) as (Hv & _ & Hp); [Z.div_mod_to_equations; lia|].
    cbn. rewrite Hv. replace (b64_char (b mod 16 * 4) =? pad_char) with false by lia.
    cbn. apply f_equal. bytes_eq.
  - destruct (b64_char_cases (a / 4)) as (-> & _); [Z.div_mod_to_equations; lia|].
    destruct (b64_char_cases (a mod 4 * 16 + b / 16)) as (-> & _); [Z.div_mod_to_equations; lia|].
    destruct (b64_char_cases (b mod 16 * 4 + c / 64)) as (Hv & _); [Z.div_mod_to_equations; lia|].
    destruct (b64_char_cases (c mod 64)) as (Hw & _ & Hp); [Z.div_mod_to_equations; lia|].
    cbn. replace (b64_char (c mod 64) =? pad_char) with false by lia.
    rewrite Hv, Hw, IH by done. cbn. apply f_equal. bytes_eq.
Qed.

Lemma b64_roundtrip bs : Forall byte_range bs → b64_decode (b64_encode bs) = Some bs.
Proof.
  intros H. unfold b64_decode. rewrite filter_all; [by apply b64_groups_encode|].
  eapply Forall_impl; [by apply b64_encode_chars|]. intros c. cbn. lia.
Qed.
