(* ===== verification/Calendar.v ===== *)
(** * Months

    What internal/controlplane/service.go uses of the calendar of package time: the month of a
    clock reading, the first instant of a month, [AddDate(0, 1, 0)] on it, and the layout
    [2006-01] as [time.Parse] and [Format] treat it.  A [time] is nanoseconds since 1 January of
    year 1, UTC, the zero time of Go. *)

From S2P Require Import Prelude GoErrors GoStrings GoTime.

Definition Day : Z := 24 * 60 * Minute.

(** Days before 1 January of a year. *)
Definition days_of_years (y : Z) : Z :=
  let n := y - 1 in 365 * n + n / 4 - n / 100 + n / 400.

Definition leap (y : Z) : bool := (y mod 4 =? 0) && (negb (y mod 100 =? 0) || (y mod 400 =? 0)).

(** Days of the year before the first of a month. *)
Definition month_offset (y m : Z) : Z :=
  let l := if leap y then 1 else 0 in
  if m <=? 1 then 0 else if m =? 2 then 31 else if m =? 3 then 59 + l else if m =? 4 then 90 + l
  else if m =? 5 then 120 + l else if m =? 6 then 151 + l else if m =? 7 then 181 + l
  else if m =? 8 then 212 + l else if m =? 9 then 243 + l else if m =? 10 then 273 + l
  else if m =? 11 then 304 + l else if m =? 12 then 334 + l else 365 + l.

(** Days before the first of a month, from 1 January of year 1. *)
Definition days_before (y m : Z) : Z := days_of_years y + month_offset y m.

(** [time.Date(y, m, 1, 0, 0, 0, 0, time.UTC)]. *)
Definition month_start (ym : Z * Z) : time := days_before ym.1 ym.2 * Day.

(** [AddDate(0, 1, 0)] of the first of a month. *)
Definition next_month (ym : Z * Z) : Z * Z := if ym.2 =? 12 then (ym.1 + 1, 1) else (ym.1, ym.2 + 1).

(** The year of a day: an estimate that is at most one year off, corrected. *)
Definition year_of (d : Z) : Z :=
  let y := d * 400 / 146097 + 1 in
  if days_of_years (y + 1) <=? d then y + 1 else if d <? days_of_years y then y - 1 else y.

(** The month of a day of a year, from its offset. *)
Fixpoint month_from (fuel : nat) (y m doy : Z) : Z :=
  match fuel with
  | O => m
  | S fuel' => if doy <? month_offset y (m + 1) then m else month_from fuel' y (m + 1) doy
  end.

(** [t.Year(), t.Month()]. *)
Definition civil (t : time) : Z * Z :=
  let d := t / Day in
  let y := year_of d in
  (y, month_from 11 y 1 (d - days_of_years y)).

(** ** The layout 2006-01 *)
Definition digit (c : Z) : option Z := if is_digit c then Some (c - 48) else None.

(** [time.Parse("2006-01", s)]: four digits, a hyphen, a month from 01 to 12. *)
Definition parse_month (s : string) : option (Z * Z) :=
  match bytes s with
  | [a; b; c; d; h; e; f] =>
      a ← digit a; b ← digit b; c ← digit c; d ← digit d; e ← digit e; f ← digit f;
      let m := 10 * e + f in
      if (h =? 45) && (1 <=? m) && (m <=? 12) then Some (1000 * a + 100 * b + 10 * c + d, m) else None
  | _ => None
  end.

(** [Format("2006-01")] for a year of at most four digits. *)
Definition two_digits (n : Z) : list Z := [48 + n / 10; 48 + n mod 10].
Definition format_month (ym : Z * Z) : string :=
  string_of_bytes (two_digits (ym.1 / 100) ++ two_digits (ym.1 mod 100) ++ [45] ++ two_digits ym.2).

Example calendar_checks :
  days_before 1 1 = 0 ∧ days_before 1970 1 = 719162 ∧ days_before 2024 3 = days_before 2024 2 + 29 ∧
  days_before 1900 3 = days_before 1900 2 + 28 ∧ civil (month_start (2026, 2)) = (2026, 2) ∧
  civil (month_start (2026, 3) - 1) = (2026, 2) ∧ parse_month "2026-02" = Some (2026, 2) ∧
  parse_month "2026-2" = None ∧ parse_month "2026-13" = None ∧ format_month (2026, 2) = "2026-02".
Proof. vm_compute. repeat split; reflexivity. Qed.

(** ** Every instant lies in its month *)
Lemma div_pred y k : k = 4 ∨ k = 100 ∨ k = 400 → y / k = (y - 1) / k + if y mod k =? 0 then 1 else 0.
Proof.
  intros Hk. destruct (Z.eqb_spec (y mod k) 0); destruct Hk as [->|[->| ->]]; Z.div_mod_to_equations; lia.
Qed.

Lemma days_of_years_step y : days_of_years (y + 1) = days_of_years y + month_offset y 13.
Proof.
  change (month_offset y 13) with (365 + if leap y then 1 else 0). unfold days_of_years, leap.
  replace (y + 1 - 1) with y by lia.
  rewrite (div_pred y 4), (div_pred y 100), (div_pred y 400) by auto.
  destruct (Z.eqb_spec (y mod 4) 0), (Z.eqb_spec (y mod 100) 0), (Z.eqb_spec (y mod 400) 0); cbn [andb orb negb]; try lia;
    exfalso; Z.div_mod_to_equations; lia.
Qed.

Lemma days_of_years_bounds y :
  146097 * (y - 1) - 800 < 400 * days_of_years y < 146097 * (y - 1) + 400.
Proof.
  unfold days_of_years. set (n := y - 1). cbv zeta.
  pose proof (Z.div_mod n 4). pose proof (Z.mod_pos_bound n 4).
  pose proof (Z.div_mod n 100). pose proof (Z.mod_pos_bound n 100).
  pose proof (Z.div_mod n 400). pose proof (Z.mod_pos_bound n 400). lia.
Qed.

Lemma year_of_spec d : days_of_years (year_of d) ≤ d < days_of_years (year_of d + 1).
Proof.
  unfold year_of. set (y := d * 400 / 146097 + 1).
  assert (days_of_years (y - 1) ≤ d < days_of_years (y + 1 + 1)) as H.
  { assert (146097 * (y - 1) ≤ d * 400 < 146097 * y) as Hq
      by (subst y; pose proof (Z.div_mod (d * 400) 146097); pose proof (Z.mod_pos_bound (d * 400) 146097); lia).
    pose proof (days_of_years_bounds (y - 1)). pose proof (days_of_years_bounds (y + 1 + 1)). lia. }
  destruct (Z.leb_spec (days_of_years (y + 1)) d); [lia|].
  destruct (Z.ltb_spec d (days_of_years y)); [|lia]. replace (y - 1 + 1) with y by lia. lia.
Qed.

Lemma month_from_spec fuel y : ∀ m doy,
  1 ≤ m → m + Z.of_nat fuel = 12 → month_offset y m ≤ doy < month_offset y 13 →
  let m' := month_from fuel y m doy in
  m ≤ m' ≤ 12 ∧ month_offset y m' ≤ doy < month_offset y (m' + 1).
Proof.
  induction fuel as [|fuel IH]; intros m doy Hm Hf Hd; cbn [month_from].
  - assert (m = 12) as -> by lia. change (12 + 1) with 13. lia.
  - destruct (Z.ltb_spec doy (month_offset y (m + 1))); [lia|].
    destruct (IH (m + 1) doy) as [H1 H2]; [lia|lia|lia|]. split; [lia|done].
Qed.

Lemma civil_in_month t :
  let ym := civil t in
  1 ≤ ym.2 ≤ 12 ∧ month_start ym ≤ t < month_start (next_month ym).
Proof.
  unfold civil. set (d := t / Day). set (y := year_of d). cbn [fst snd].
  pose proof (year_of_spec d) as Hy. fold y in Hy. rewrite days_of_years_step in Hy.
  destruct (month_from_spec 11 y 1 (d - days_of_years y)) as [Hm Hd]; [lia|lia|unfold month_offset at 1; simpl; lia|].
  set (m := month_from 11 y 1 (d - days_of_years y)) in *. split; [lia|].
  assert (days_before (next_month (y, m)).1 (next_month (y, m)).2 = days_of_years y + month_offset y (m + 1)) as Hn.
  { unfold next_month, days_before. cbn [fst snd]. destruct (Z.eqb_spec m 12) as [->|]; [|done].
    cbn [fst snd]. rewrite days_of_years_step. change (12 + 1) with 13. change (month_offset (y + 1) 1) with 0. lia. }
  unfold month_start. rewrite Hn. unfold days_before. cbn [fst snd].
  assert (d * Day ≤ t < (d + 1) * Day) as Ht by (subst d; unfold Day, Minute, Second, Millisecond; Z.div_mod_to_equations; lia).
  assert (0 < Day) as Hpos by done. nia.
Qed.

(** ** and in no other *)
Lemma month_offset_mono y m m' : 1 ≤ m ≤ m' → m' ≤ 13 → 0 ≤ month_offset y m ≤ month_offset y m'.
Proof.
  intros Hm Hm'. unfold month_offset. destruct (leap y);
    repeat match goal with |- context [if ?b then _ else _] => destruct b eqn:?; cbn [negb] end; bool_lia.
Qed.

Lemma days_of_years_mono y y' : y ≤ y' → days_of_years y ≤ days_of_years y'.
Proof.
  intros H. replace y' with (y + Z.of_nat (Z.to_nat (y' - y))) by lia.
  induction (Z.to_nat (y' - y)) as [|n IH]; [rewrite Z.add_0_r; done|].
  replace (y + Z.of_nat (S n)) with (y + Z.of_nat n + 1) by lia. rewrite days_of_years_step.
  pose proof (month_offset_mono (y + Z.of_nat n) 1 13). lia.
Qed.

Definition month_ok (ym : Z * Z) : Prop := 1 ≤ ym.2 ≤ 12.
Definition month_lt (a b : Z * Z) : Prop := a.1 < b.1 ∨ (a.1 = b.1 ∧ a.2 < b.2).

Lemma month_start_lt a b : month_ok a → month_ok b → month_lt a b → month_start (next_month a) ≤ month_start b.
Proof.
  destruct a as [y m], b as [y' m']. unfold month_ok, month_lt, month_start. cbn [fst snd]. intros Hm Hm' Hlt.
  apply Z.mul_le_mono_nonneg_r; [done|]. unfold next_month, days_before. cbn [fst snd].
  destruct (Z.eqb_spec m 12) as [->|Hne]; cbn [fst snd].
  - destruct Hlt as [Hy|[_ ?]]; [|lia]. pose proof (days_of_years_mono (y + 1) y').
    pose proof (month_offset_mono y' 1 m'). change (month_offset (y + 1) 1) with 0. lia.
  - destruct Hlt as [Hy|[-> Hlt]]; [|pose proof (month_offset_mono y' (m + 1) m'); lia].
    pose proof (days_of_years_mono (y + 1) y'). rewrite days_of_years_step in *.
    pose proof (month_offset_mono y (m + 1) 13). pose proof (month_offset_mono y' 1 m'). lia.
Qed.

(** The months cut the time line: an instant lies in exactly one. *)
Lemma month_of_unique t ym :
  month_ok ym → month_start ym ≤ t < month_start (next_month ym) ↔ ym = civil t.
Proof.
  intros Hok. pose proof (civil_in_month t) as [Hc1 Hc2]. split; [|by intros ->].
  intros Ht. destruct ym as [y m] eqn:E1, (civil t) as [y' m'] eqn:E2.
  assert (¬ month_lt (y, m) (y', m')) as H1.
  { intros Hlt. pose proof (month_start_lt (y, m) (y', m') Hok Hc1 Hlt). lia. }
  assert (¬ month_lt (y', m') (y, m)) as H2.
  { intros Hlt. pose proof (month_start_lt (y', m') (y, m) Hc1 Hok Hlt). lia. }
  unfold month_lt in *. cbn [fst snd] in *. f_equal; lia.
Qed.

Lemma parse_month_ok s ym : parse_month s = Some ym → month_ok ym.
Proof.
  unfold parse_month, month_ok. destruct (bytes s) as [|a [|b [|c [|d [|h [|e [|f [|]]]]]]]]; try done.
  destruct (digit a), (digit b), (digit c), (digit d), (digit e), (digit f); try done. cbn.
  destruct (_ && _) eqn:E; [|done]. intros [= <-]. cbn [fst snd].
  rewrite !andb_true_iff, !Z.leb_le in E. lia.
Qed.
