(* ===== verification/Rfc3339.v ===== *)
(** * Timestamps in the layout time.RFC3339Nano

    How [Time.MarshalJSON] and [Format(time.RFC3339Nano)] write an instant in a zone, and how
    [Time.UnmarshalJSON] reads it.  The zone of a clock reading is its offset from UTC in whole
    minutes (Go keeps seconds, which only historical local times have and RFC3339 drops);
    two texts of the same instant in different zones are read as the same instant. *)

From S2P Require Import Prelude GoErrors GoStrings GoTime Utf8 Calendar.

(** ** Fields of an instant *)
Record fields := mkFields {
  f_Year : Z; f_Month : Z; f_Day : Z; f_Hour : Z; f_Minute : Z; f_Second : Z; f_Nanosecond : Z
}.

Definition days_in (y m : Z) : Z := month_offset y (m + 1) - month_offset y m.

(** The date and time of day an instant shows in UTC. *)
Definition fields_of (t : time) : fields :=
  let ym := civil t in
  let sod := t mod Day in
  mkFields ym.1 ym.2 (t / Day - days_before ym.1 ym.2 + 1)
    (sod / (60 * Minute)) (sod / Minute mod 60) (sod / Second mod 60) (sod mod Second).

(** [time.Date(..., time.UTC)]. *)
Definition time_of (f : fields) : time :=
  (days_before (f_Year f) (f_Month f) + (f_Day f - 1)) * Day +
  f_Hour f * (60 * Minute) + f_Minute f * Minute + f_Second f * Second + f_Nanosecond f.

Definition fields_ok (f : fields) : bool :=
  (1 <=? f_Month f) && (f_Month f <=? 12) && (1 <=? f_Day f) && (f_Day f <=? days_in (f_Year f) (f_Month f)) &&
  (0 <=? f_Hour f) && (f_Hour f <=? 23) && (0 <=? f_Minute f) && (f_Minute f <=? 59) &&
  (0 <=? f_Second f) && (f_Second f <=? 59).

(** ** Writing *)

(** Nine digits without the trailing zeros. *)
Fixpoint fixed_digits (k : nat) (n : Z) : list Z :=
  match k with
  | O => []
  | S k' => 48 + n / 10 ^ Z.of_nat k' mod 10 :: fixed_digits k' n
  end.
Definition trim_zeros (l : list Z) : list Z := reverse (drop_while (λ c, c =? 48) (reverse l)).

Definition format_fraction (ns : Z) : list Z := if ns =? 0 then [] else 46 :: trim_zeros (fixed_digits 9 ns).

Definition format_zone (zone : Z) : list Z :=
  if zone =? 0 then [90]
  else (if zone <? 0 then 45 else 43) :: two_digits (Z.abs zone / 60) ++ [58] ++ two_digits (Z.abs zone mod 60).

Definition format_fields (f : fields) : list Z :=
  two_digits (f_Year f / 100) ++ two_digits (f_Year f mod 100) ++ [45] ++ two_digits (f_Month f) ++ [45] ++
  two_digits (f_Day f) ++ [84] ++ two_digits (f_Hour f) ++ [58] ++ two_digits (f_Minute f) ++ [58] ++ two_digits (f_Second f).

(** [t.Format(time.RFC3339Nano)] in a zone, for a year of four digits. *)
Definition format_time (zone : Z) (t : time) : list Z :=
  let f := fields_of (t + zone * Minute) in
  format_fields f ++ format_fraction (f_Nanosecond f) ++ format_zone zone.

(** [time.RFC3339Nano] in UTC. *)
Definition utc_text (t : time) : string := string_of_bytes (format_time 0 t).

(** [Time.MarshalJSON] refuses years outside 0..9999 and offsets of a day or more. *)
Definition marshal_time (zone : Z) (t : time) : option string :=
  let y := f_Year (fields_of (t + zone * Minute)) in
  if (0 <=? y) && (y <=? 9999) && (Z.abs zone <? 1440) then Some (string_of_bytes (format_time zone t)) else None.

(** ** Reading *)
Definition num2 (a b : Z) : option Z := a ← digit a; b ← digit b; Some (10 * a + b).

(** The leading digits. *)
Fixpoint span_digits (l : list Z) : list Z * list Z :=
  match l with
  | c :: l' => if is_digit c then let '(ds, r) := span_digits l' in (c :: ds, r) else ([], l)
  | [] => ([], [])
  end.

(** The fraction of a second, in nanoseconds; digits after the ninth are dropped. *)
Definition parse_fraction (l : list Z) : option (Z * list Z) :=
  match l with
  | c :: l' =>
      if c =? 46 then
        let '(ds, rest) := span_digits l' in
        match ds with
        | [] => None
        | _ => n ← digits_value (take 9 (ds ++ replicate 9 48)) 0; Some (n, rest)
        end
      else Some (0, l)
  | [] => Some (0, [])
  end.

Definition parse_zone (l : list Z) : option Z :=
  match l with
  | [c] => if c =? 90 then Some 0 else None
  | [s; h1; h2; c; m1; m2] =>
      h ← num2 h1 h2; m ← num2 m1 m2;
      if (c =? 58) && (h <=? 23) && (m <=? 59) then
        if s =? 43 then Some (h * 60 + m) else if s =? 45 then Some (- (h * 60 + m)) else None
      else None
  | _ => None
  end.

(** [Time.UnmarshalJSON] on the text between the quotes. *)
Definition parse_time (l : list Z) : option time :=
  match l with
  | y1 :: y2 :: y3 :: y4 :: p1 :: m1 :: m2 :: p2 :: d1 :: d2 :: p3 :: h1 :: h2 :: p4 :: i1 :: i2 :: p5 :: s1 :: s2 :: rest =>
      ya ← num2 y1 y2; yb ← num2 y3 y4; mo ← num2 m1 m2; d ← num2 d1 d2; h ← num2 h1 h2; mi ← num2 i1 i2; s ← num2 s1 s2;
      if (p1 =? 45) && (p2 =? 45) && (p3 =? 84) && (p4 =? 58) && (p5 =? 58) then
        '(ns, rest) ← parse_fraction rest;
        zone ← parse_zone rest;
        let f := mkFields (100 * ya + yb) mo d h mi s ns in
        if fields_ok f then Some (time_of f - zone * Minute) else None
      else None
  | _ => None
  end.

Definition unmarshal_time (s : string) : option time := parse_time (bytes s).

Example rfc3339_checks :
  string_of_bytes (format_time 0 0) = "0001-01-01T00:00:00Z" ∧
  option_map (format_time 0) (unmarshal_time "2026-02-28T23:59:59.120+01:30") = Some (bytes "2026-02-28T22:29:59.12Z") ∧
  unmarshal_time "2026-02-29T00:00:00Z" = None ∧ is_Some (unmarshal_time "2024-02-29T00:00:00Z") ∧
  unmarshal_time "2026-01-01T24:00:00Z" = None ∧ unmarshal_time "2026-01-01 00:00:00Z" = None.
Proof. vm_compute. repeat split; try reflexivity. by eexists. Qed.

(** ** Fields and instants *)
Lemma days_before_next ym : 1 ≤ ym.2 ≤ 12 →
  days_before (next_month ym).1 (next_month ym).2 = days_before ym.1 ym.2 + days_in ym.1 ym.2.
Proof.
  destruct ym as [y m]. intros Hm. unfold next_month, days_before, days_in. cbn [fst snd] in *.
  destruct (Z.eqb_spec m 12) as [->|]; cbn [fst snd]; [|lia].
  rewrite days_of_years_step. change (12 + 1) with 13. change (month_offset (y + 1) 1) with 0. lia.
Qed.

Lemma day_of_month t : let ym := civil t in
  1 ≤ ym.2 ≤ 12 ∧ 1 ≤ t / Day - days_before ym.1 ym.2 + 1 ≤ days_in ym.1 ym.2.
Proof.
  intros ym. destruct (civil_in_month t) as [Hm Ht]. fold ym in Hm, Ht. split; [done|].
  unfold month_start in Ht. rewrite days_before_next in Ht by done.
  set (a := days_before ym.1 ym.2) in *. set (n := days_in ym.1 ym.2) in *. clearbody a n.
  unfold Day, Minute, Second, Millisecond in *. Z.div_mod_to_equations; lia.
Qed.

Lemma time_of_fields t : time_of (fields_of t) = t.
Proof.
  unfold time_of, fields_of. cbn [f_Year f_Month f_Day f_Hour f_Minute f_Second f_Nanosecond].
  generalize (days_before (civil t).1 (civil t).2). intros a.
  unfold Day, Minute, Second, Millisecond. Z.div_mod_to_equations; lia.
Qed.

Lemma fields_of_ok t : let f := fields_of t in
  fields_ok f = true ∧ 0 ≤ f_Nanosecond f < 1000000000.
Proof.
  intros f. destruct (day_of_month t) as [Hm Hd]. unfold fields_ok.
  change (f_Month f) with (civil t).2. change (f_Year f) with (civil t).1.
  change (f_Day f) with (t / Day - days_before (civil t).1 (civil t).2 + 1).
  assert (0 ≤ f_Hour f ≤ 23 ∧ 0 ≤ f_Minute f ≤ 59 ∧ 0 ≤ f_Second f ≤ 59 ∧ 0 ≤ f_Nanosecond f < 1000000000) as Hf.
  { subst f. cbn [f_Hour f_Minute f_Second f_Nanosecond fields_of]. unfold Day, Minute, Second, Millisecond.
    Z.div_mod_to_equations; lia. }
  lia.
Qed.

(** ** Digits *)
Lemma two_digits_num n rest : 0 ≤ n < 100 →
  ∃ a b, two_digits n ++ rest = a :: b :: rest ∧ num2 a b = Some n.
Proof.
  intros Hn. eexists _, _. split; [reflexivity|]. unfold num2, digit, is_digit.
  replace (_ && _) with true by (Z.div_mod_to_equations; lia). cbn.
  replace (_ && _) with true by (Z.div_mod_to_equations; lia). cbn. f_equal. Z.div_mod_to_equations; lia.
Qed.

Lemma fixed_digits_digits k n : Forall (λ c, is_digit c = true) (fixed_digits k n).
Proof.
  induction k as [|k IH]; [constructor|]. constructor; [|done]. unfold is_digit.
  pose proof (Z.mod_pos_bound (n / 10 ^ Z.of_nat k) 10). lia.
Qed.

Lemma length_fixed_digits k n : length (fixed_digits k n) = k.
Proof. induction k; simpl; auto. Qed.

Lemma digits_value_fixed k n a rest : 0 ≤ n →
  digits_value (fixed_digits k n ++ rest) a = digits_value rest (a * 10 ^ Z.of_nat k + n mod 10 ^ Z.of_nat k).
Proof.
  intros Hn. revert a. induction k as [|k IH]; intros a; cbn [fixed_digits app digits_value].
  - change (Z.of_nat 0) with 0. rewrite Z.pow_0_r, Z.mod_1_r. f_equal. lia.
  - pose proof (Z.mod_pos_bound (n / 10 ^ Z.of_nat k) 10) as Hb.
    replace (is_digit _) with true by (unfold is_digit; lia). rewrite IH. f_equal.
    rewrite Nat2Z.inj_succ, Z.pow_succ_r by lia. set (p := 10 ^ Z.of_nat k) in *.
    assert (0 < p) by (apply Z.pow_pos_nonneg; lia).
    rewrite (Z.mul_comm 10 p), Z.rem_mul_r by lia. lia.
Qed.

(** Trimming zeros from the right and padding with zeros. *)
Lemma drop_while_split {A} (f : A → bool) l : ∃ pre, l = pre ++ drop_while f l ∧ Forall (λ x, f x = true) pre.
Proof.
  induction l as [|x l (pre & IH & Hp)]; [by exists []|]. cbn. destruct (f x) eqn:E.
  - exists (x :: pre). split; [cbn; by f_equal|by constructor].
  - by exists [].
Qed.

Lemma trim_zeros_pad l : ∃ k, l = trim_zeros l ++ replicate k 48.
Proof.
  unfold trim_zeros. destruct (drop_while_split (λ c, c =? 48) (reverse l)) as (pre & Hp & Hz).
  exists (length pre). rewrite <- (reverse_involutive l) at 1. rewrite Hp at 1. rewrite reverse_app. f_equal.
  clear Hp. induction Hz as [|c pre Hc _ IH]; [done|]. rewrite reverse_cons, IH. assert (c = 48) as -> by lia.
  cbn [length]. by rewrite <- replicate_S_end.
Qed.

Lemma span_digits_app ds rest : Forall (λ c, is_digit c = true) ds →
  match rest with c :: _ => is_digit c = false | [] => True end → span_digits (ds ++ rest) = (ds, rest).
Proof.
  intros Hds Hrest. induction Hds as [|c ds Hc _ IH]; cbn.
  - destruct rest; cbn; [done|by rewrite Hrest].
  - by rewrite Hc, IH.
Qed.

(** ** Reading inverts writing *)
Lemma fraction_read ns rest : 0 ≤ ns < 1000000000 →
  match rest with c :: _ => is_digit c = false ∧ c ≠ 46 | [] => True end →
  parse_fraction (format_fraction ns ++ rest) = Some (ns, rest).
Proof.
  intros Hns Hrest. unfold format_fraction. destruct (Z.eqb_spec ns 0) as [->|Hne].
  { cbn [app]. unfold parse_fraction. destruct rest as [|c rest]; [done|]. destruct Hrest. by replace (c =? 46) with false by lia. }
  cbn [app parse_fraction]. set (l := fixed_digits 9 ns). destruct (trim_zeros_pad l) as [k Hk].
  assert (Forall (λ c, is_digit c = true) (trim_zeros l)) as Hd.
  { pose proof (fixed_digits_digits 9 ns) as H. fold l in H. rewrite Hk in H. by apply Forall_app in H as [? _]. }
  rewrite span_digits_app; [|done|destruct rest; naive_solver].
  assert (digits_value l 0 = Some ns) as Hval.
  { rewrite <- (app_nil_r l). unfold l. rewrite digits_value_fixed by lia. cbn. f_equal. Z.div_mod_to_equations; lia. }
  assert (length l = 9%nat) as Hlen by apply length_fixed_digits.
  assert (take 9 (trim_zeros l ++ replicate 9 48) = l) as Htake.
  { rewrite Hk at 2. rewrite take_app_ge by (rewrite Hk, length_app in Hlen; lia). f_equal.
    rewrite take_replicate. f_equal. rewrite Hk, length_app, length_replicate in Hlen. lia. }
  destruct (trim_zeros l) as [|c ds] eqn:E; [|by rewrite Htake, Hval].
  exfalso. rewrite Hk in Hval. apply Hne. cbn in Hval. clear -Hval.
  assert (∀ k, digits_value (replicate k 48) 0 = Some 0) as H by (intros k'; induction k'; done).
  rewrite H in Hval. congruence.
Qed.

Lemma zone_read zone : Z.abs zone < 1440 → parse_zone (format_zone zone) = Some zone.
Proof.
  intros Hz. unfold format_zone. destruct (Z.eqb_spec zone 0) as [->|Hne]; [done|].
  destruct (two_digits_num (Z.abs zone / 60) ([58] ++ two_digits (Z.abs zone mod 60))) as (a & b & Hab & Ha);
    [Z.div_mod_to_equations; lia|].
  destruct (two_digits_num (Z.abs zone mod 60) []) as (c & d & Hcd & Hc); [Z.div_mod_to_equations; lia|].
  rewrite app_nil_r in Hcd. rewrite Hab, Hcd. cbn [app parse_zone]. rewrite Ha, Hc. cbn [mbind option_bind].
  replace (_ && _) with true by (Z.div_mod_to_equations; lia).
  destruct (Z.ltb_spec zone 0); cbn; f_equal; Z.div_mod_to_equations; lia.
Qed.

Lemma format_zone_head zone : match format_zone zone with c :: _ => is_digit c = false ∧ c ≠ 46 | [] => True end.
Proof. unfold format_zone. destruct (zone =? 0); [done|]. by destruct (zone <? 0). Qed.

Lemma parse_format_time zone t : let y := f_Year (fields_of (t + zone * Minute)) in
  0 ≤ y ≤ 9999 → Z.abs zone < 1440 → parse_time (format_time zone t) = Some t.
Proof.
  intros y Hy Hz. unfold format_time. destruct (fields_of_ok (t + zone * Minute)) as [Hok Hns].
  pose proof (time_of_fields (t + zone * Minute)) as Htime. set (f := fields_of (t + zone * Minute)) in *.
  pose proof Hok as Hok'. unfold fields_ok in Hok'.
  assert (days_in (f_Year f) (f_Month f) ≤ 31) as Hdays.
  { unfold days_in, month_offset. destruct (leap (f_Year f)); repeat case_match; lia. }
  unfold format_fields. rewrite <- !app_assoc.
  repeat match goal with
  | |- context [two_digits ?n ++ ?rest] =>
      let a := fresh "a" in let b := fresh "b" in let E := fresh "E" in let Hn := fresh "Hn" in
      destruct (two_digits_num n rest) as (a & b & E & Hn); [Z.div_mod_to_equations; lia|]; rewrite E; clear E
  end.
  cbn [app parse_time]. repeat match goal with H : num2 _ _ = Some _ |- _ => rewrite H; clear H end. cbn [mbind option_bind].
  rewrite !Z.eqb_refl. cbn [andb]. rewrite fraction_read; [|exact Hns|apply format_zone_head]. cbn [mbind option_bind].
  rewrite zone_read by done. cbn [mbind option_bind].
  replace (100 * (f_Year f / 100) + f_Year f mod 100) with (f_Year f) by (Z.div_mod_to_equations; lia).
  destruct f as [fy fm fd fh fmi fs fn]. cbn [f_Year f_Month f_Day f_Hour f_Minute f_Second f_Nanosecond] in *.
  rewrite Hok. f_equal. lia.
Qed.
