(* ===== verification/JsonCodec.v ===== *)
(** * Go values in JSON: how encoding/json maps structs, slices, maps, bytes and times

    A decoder takes the JSON value and the Go value it is decoded into, since [json.Unmarshal]
    keeps what the text does not mention: null leaves strings, numbers and structs alone, objects
    update the fields they name, matched without regard to case.  [None] is a type error; Go goes
    on after it but returns an error in the end. *)

From S2P Require Import Prelude GoStrings GoTime Utf8 Decimal Json Base64 Calendar Rfc3339 AgentFunc.

Definition decoder (A : Type) : Type := json → A → option A.

(** [foldName]: upper case, and the two non-ASCII runes that fold to ASCII letters. *)
Definition fold_rune (r : Z) : Z :=
  if (97 <=? r) && (r <=? 122) then r - 32 else if r =? 383 then 83 else if r =? 8490 then 75 else r.
Definition fold_name (s : string) : list Z := fold_rune <$> runes_of_string s.
Definition is_field (name key : string) : bool := bool_decide (fold_name key = fold_name name).

(** ** Decoding *)
Definition dec_string : decoder string := λ v old,
  match v with JString s => Some s | JNull => Some old | _ => None end.

Definition dec_int : decoder Z := λ v old,
  match v with JNumber l => Atoi l | JNull => Some old | _ => None end.

(** A byte of an array of numbers. *)
Definition dec_byte (v : json) : option Z :=
  match v with
  | JNumber l => n ← Atoi l; if (0 <=? n) && (n <=? 255) then Some n else None
  | JNull => Some 0
  | _ => None
  end.

Definition dec_bytes : decoder slice := λ v _,
  match v with
  | JString s => bs ← b64_decode (bytes s); Some (Some (string_of_bytes bs))
  | JArray l => bs ← mapM dec_byte l; Some (Some (string_of_bytes bs))
  | JNull => Some None
  | _ => None
  end.

(** A [map[string]string]: entries are added to the map that is there. *)
Definition dec_map : decoder metadata := λ v old,
  match v with
  | JObject ms =>
      m ← foldl (λ acc kv, m ← acc; x ← dec_string kv.2 ""; Some (<[kv.1 := x]> m)) (Some (default ∅ old)) ms;
      Some (Some m)
  | JNull => Some None
  | _ => None
  end.

Definition dec_time : decoder time := λ v old,
  match v with JString s => unmarshal_time s | JNull => Some old | _ => None end.

(** The i-th element is decoded into the i-th element that is there. *)
Fixpoint dec_elements {A} (dec : decoder A) (zero : A) (l : list json) (old : list A) : option (list A) :=
  match l with
  | [] => Some []
  | v :: l' => x ← dec v (default zero (head old)); xs ← dec_elements dec zero l' (tail old); Some (x :: xs)
  end.
Definition dec_list {A} (dec : decoder A) (zero : A) : decoder (list A) := λ v old,
  match v with JArray l => dec_elements dec zero l old | JNull => Some [] | _ => None end.

(** The fields of a struct, with the update each one makes. *)
Definition field_of {S A} (name : string) (get : S → A) (set : A → S → S) (dec : decoder A) :
    string * (json → S → option S) :=
  (name, λ v s, x ← dec v (get s); Some (set x s)).

Definition dec_member {S} (fs : list (string * (json → S → option S))) (s : S) (key : string) (v : json) : option S :=
  match List.find (λ f, is_field f.1 key) fs with
  | Some f => f.2 v s
  | None => Some s
  end.

Definition dec_struct {S} (fs : list (string * (json → S → option S))) : decoder S := λ v old,
  match v with
  | JObject ms => foldl (λ acc kv, s ← acc; dec_member fs s kv.1 kv.2) (Some old) ms
  | JNull => Some old
  | _ => None
  end.

Lemma dec_struct_done {S} (fs : list (string * (json → S → option S))) s : dec_struct fs (JObject []) s = Some s.
Proof. done. Qed.

(** The next member is a known field. *)
Lemma dec_struct_field {S A} (fs : list (string * (json → S → option S))) s key v ms name get set (dec : decoder A) x :
  List.find (λ f, is_field f.1 key) fs = Some (field_of name get set dec) → dec v (get s) = Some x →
  dec_struct fs (JObject ((key, v) :: ms)) s = dec_struct fs (JObject ms) (set x s).
Proof.
  intros Hf Hx. assert (dec_member fs s key v = Some (set x s)) as Hm.
  { unfold dec_member. rewrite Hf. unfold field_of. cbn [snd]. by rewrite Hx. }
  unfold dec_struct. cbn [foldl mbind option_bind fst snd]. by rewrite Hm.
Qed.

(** [json.Unmarshal]: [None] is an error. *)
Definition Unmarshal {A} (dec : decoder A) (text : string) (old : A) : option A := v ← parse text; dec v old.

(** ** Encoding *)
Definition enc_int (z : Z) : json := JNumber (Itoa z).

Definition enc_bytes (s : slice) : json :=
  match s with None => JNull | Some b => JString (string_of_bytes (b64_encode (bytes b))) end.

(** Maps are written with their keys in order. *)
Definition enc_map (m : metadata) : json :=
  match m with
  | None => JNull
  | Some m => JObject ((λ kv, (kv.1, JString kv.2)) <$> sort_by String.le fst (map_to_list m))
  end.

(** ** Strings and numbers *)
Lemma ascii_valid bs : Forall (λ c, 0 ≤ c < 128) bs → valid_utf8 (string_of_bytes bs) = true.
Proof.
  intros H. unfold valid_utf8. rewrite bytes_string_of_bytes by (eapply Forall_impl; [exact H|]; unfold byte_range; intros; lia).
  induction H as [|c bs Hc _ IH]; [done|]. cbn [decode]. replace (c <? 128) with true by lia. cbn [forallb fst snd length].
  rewrite IH. unfold RuneError. lia.
Qed.

Lemma num_digits n ds : Forall (λ c, is_digit c = true) ds → n = N1 ∨ (n = N0 ∧ ds = []) →
  ∃ n', foldl (λ o c, o ≫= λ n, num_step n c) (Some n) ds = Some n' ∧ num_final n' = true.
Proof.
  intros Hds Hn. revert n Hn. induction Hds as [|c ds Hc _ IH]; intros n Hn.
  - exists n. split; [done|]. by destruct Hn as [->|[-> _]].
  - destruct Hn as [->|[_ ?]]; [|done]. cbn. unfold is_dig. unfold is_digit in Hc. rewrite Hc. apply IH. by left.
Qed.

Lemma number_ok_Itoa z : number_ok (Itoa z) = true.
Proof.
  destruct (Itoa_bytes z) as (ds & Hne & [Hall _] & Hnz & Hz & Hb). unfold number_ok. rewrite Hb.
  destruct (Z.eq_dec z 0) as [->|Hz0]; [by rewrite Hz|]. destruct (Hnz Hz0) as (c & ds' & -> & Hc).
  inversion Hall as [|? ? Hd Hds]; subst. unfold is_digit in Hd.
  destruct (num_digits N1 ds' Hds) as (n' & Hn' & Hf); [by left|].
  destruct (Z.ltb_spec z 0).
  - cbn [num_start Z.eqb Pos.eqb foldl mbind option_bind num_step]. unfold is_dig. rewrite Hd.
    replace (c =? 48) with false by lia. by rewrite Hn'.
  - unfold num_start, is_dig. rewrite Hd. replace (c =? 48) with false by lia. replace (c =? 45) with false by lia.
    by rewrite Hn'.
Qed.

Lemma dec_enc_int z old : int64_range z → dec_int (enc_int z) old = Some z.
Proof. apply Atoi_Itoa. Qed.

(** ** Bytes, maps, times *)
Lemma dec_enc_bytes s old : dec_bytes (enc_bytes s) old = Some s.
Proof.
  destruct s as [b|]; [|done]. cbn. rewrite bytes_string_of_bytes.
  - rewrite b64_roundtrip by apply bytes_range. cbn. by rewrite string_of_bytes_bytes.
  - eapply Forall_impl; [apply b64_encode_chars, bytes_range|]. intros c. cbn. unfold byte_range. lia.
Qed.

Lemma enc_bytes_ok s : json_ok (enc_bytes s) = true ∧ json_depth (enc_bytes s) = 0%nat.
Proof.
  destruct s as [b|]; [|done]. split; [|done]. cbn. apply ascii_valid.
  eapply Forall_impl; [apply b64_encode_chars, bytes_range|]. intros c. cbn. lia.
Qed.

Definition map_ok (m : metadata) : Prop :=
  ∀ m' k v, m = Some m' → m' !! k = Some v → valid_utf8 k = true ∧ valid_utf8 v = true.

Lemma dec_map_list (l : list (string * string)) (m : gmap string string) : NoDup (l.*1) → (∀ k, k ∈ l.*1 → m !! k = None) →
  foldl (λ acc kv, m ← acc; x ← dec_string kv.2 ""; Some (<[kv.1 := x]> m)) (Some m) ((λ kv, (kv.1, JString kv.2)) <$> l)
  = Some (list_to_map l ∪ m).
Proof.
  revert m. induction l as [|[k v] l IH]; intros m Hnd Hm; cbn; [by rewrite map_empty_union|].
  apply NoDup_cons in Hnd as [Hk Hnd]. rewrite IH; [|done|].
  - f_equal. rewrite <- insert_union_l, insert_union_r; [done|]. by apply not_elem_of_list_to_map_1.
  - intros k' Hk'. rewrite lookup_insert_ne by (intros ->; done). apply Hm. by right.
Qed.

Lemma dec_enc_map m : dec_map (enc_map m) None = Some m.
Proof.
  destruct m as [m|]; [|done]. unfold enc_map, dec_map. cbn [default].
  assert (sort_by String.le fst (map_to_list m) ≡ₚ map_to_list m) as Hp by apply sort_by_perm.
  assert (NoDup ((sort_by String.le fst (map_to_list m)).*1)) as Hnd by (rewrite Hp; apply NoDup_fst_map_to_list).
  rewrite dec_map_list; [|done|intros; apply lookup_empty]. cbn [mbind option_bind]. rewrite map_union_empty.
  do 2 f_equal. rewrite (list_to_map_proper _ _ Hnd Hp). apply list_to_map_to_list.
Qed.

Lemma enc_map_ok m : map_ok m → json_ok (enc_map m) = true.
Proof.
  destruct m as [m|]; [|done]. intros Hm. cbn. apply forallb_forall. intros [k v] Hin%list_elem_of_In.
  apply list_elem_of_fmap in Hin as ([k' s] & [= -> ->] & Hin). rewrite sort_by_elem_of in Hin.
  apply elem_of_map_to_list in Hin. destruct (Hm m k' s eq_refl Hin) as [Hk Hs]. cbn [fst snd json_ok]. by rewrite Hk, Hs.
Qed.

Lemma enc_map_depth m : (json_depth (enc_map m) ≤ 1)%nat.
Proof.
  destruct m as [m|]; [|cbn; lia]. cbn. apply le_n_S. induction (sort_by _ _ _); cbn; lia.
Qed.

Lemma format_time_ascii zone t : Z.abs zone < 1440 → 0 ≤ f_Year (fields_of (t + zone * Minute)) ≤ 9999 →
  Forall (λ c, 0 ≤ c < 128) (format_time zone t).
Proof.
  intros Hz Hy. unfold format_time. destruct (fields_of_ok (t + zone * Minute)) as [Hok Hns].
  set (f := fields_of (t + zone * Minute)) in *. unfold fields_ok in Hok.
  assert (days_in (f_Year f) (f_Month f) ≤ 31) as Hdays.
  { unfold days_in, month_offset. destruct (leap (f_Year f)); repeat case_match; lia. }
  assert (∀ n, 0 ≤ n < 100 → Forall (λ c, 0 ≤ c < 128) (two_digits n)) as H2.
  { intros n Hn. repeat constructor; Z.div_mod_to_equations; lia. }
  assert (∀ c l, 0 ≤ c < 128 → Forall (λ c, 0 ≤ c < 128) l → Forall (λ c, 0 ≤ c < 128) (c :: l)) as Hc by (by constructor).
  apply Forall_app. split; [|apply Forall_app; split].
  - unfold format_fields. repeat first [apply Forall_app; split | apply Hc; [lia|] | apply H2; Z.div_mod_to_equations; lia | constructor].
  - unfold format_fraction. case_match; [constructor|]. constructor; [lia|].
    destruct (trim_zeros_pad (fixed_digits 9 (f_Nanosecond f))) as [k Hk].
    pose proof (fixed_digits_digits 9 (f_Nanosecond f)) as Hd. rewrite Hk in Hd. apply Forall_app in Hd as [Hd _].
    eapply Forall_impl; [exact Hd|]. intros c. cbn. unfold is_digit. lia.
  - unfold format_zone. case_match; [by repeat constructor|]. apply Hc; [case_match; lia|].
    apply Forall_app. split; [apply H2; Z.div_mod_to_equations; lia|]. apply Hc; [lia|]. apply H2; Z.div_mod_to_equations; lia.
Qed.

Lemma marshal_time_inv zone t s : marshal_time zone t = Some s →
  valid_utf8 s = true ∧ unmarshal_time s = Some t.
Proof.
  unfold marshal_time. case_match eqn:E; [|done]. intros [= <-].
  assert (Forall (λ c, 0 ≤ c < 128) (format_time zone t)) as Ha by (apply format_time_ascii; lia).
  split; [by apply ascii_valid|]. unfold unmarshal_time. rewrite bytes_string_of_bytes.
  - apply parse_format_time; lia.
  - eapply Forall_impl; [exact Ha|]. intros c. cbn. unfold byte_range. lia.
Qed.

(** ** What decoders give is well formed *)

(** A decoder keeps a property of the Go value it decodes into. *)
Definition decodes {A} (dec : decoder A) (P : A → Prop) : Prop :=
  ∀ v a b, json_ok v = true → P a → dec v a = Some b → P b.

Lemma decodes_any {A} (dec : decoder A) : decodes dec (λ _, True).
Proof. by intros v a b. Qed.

Lemma decodes_string : decodes dec_string (λ s, valid_utf8 s = true).
Proof. intros [|?|?|s|?|?] a res Hv Ha; cbn; try done; intros [= <-]; done. Qed.

Lemma decodes_int : decodes dec_int int64_range.
Proof. intros [|?|l|?|?|?] a res Hv Ha; cbn; try done; [by intros [= <-]|apply Atoi_int64]. Qed.

Lemma decodes_map : decodes dec_map map_ok.
Proof.
  intros [|?|?|?|?|ms] old res Hv Ha; cbn [dec_map]; try done; [intros [= <-]; by intros m' k v|].
  assert (∀ acc m : gmap string string, (∀ k v, acc !! k = Some v → valid_utf8 k = true ∧ valid_utf8 v = true) →
    foldl (λ acc kv, m ← acc; x ← dec_string kv.2 ""; Some (<[kv.1 := x]> m)) (Some acc) ms = Some m →
    ∀ k v, m !! k = Some v → valid_utf8 k = true ∧ valid_utf8 v = true) as Hfold.
  { cbn in Hv. clear -Hv. revert Hv. induction ms as [|[k x] ms IH]; intros Hv acc m Hacc.
    { intros [= <-]. exact Hacc. }
    cbn in Hv. apply andb_true_iff in Hv as [[Hk Hx]%andb_true_iff Hv]. cbn [foldl mbind option_bind fst snd].
    destruct (dec_string x "") as [y|] eqn:Ey; cbn [mbind option_bind].
    2: { clear. intros H. exfalso. revert H. induction ms as [|z ms IH]; [done|]. exact IH. }
    apply IH; [done|]. intros k' v'. rewrite lookup_insert_Some. intros [[<- <-]|[_ H]]; [|by apply Hacc].
    split; [done|]. by apply (decodes_string x "" y). }
  destruct (foldl _ _ ms) as [m|] eqn:E; [|done]. intros [= <-] m' k v [= <-]. eapply Hfold; [|exact E].
  intros k' v'. destruct old as [m0|]; [by apply Ha|]. cbn. by rewrite lookup_empty.
Qed.

Lemma decodes_list {A} (dec : decoder A) zero P : decodes dec P → P zero → decodes (dec_list dec zero) (Forall P).
Proof.
  intros Hd Hz [|?|?|?|l|?] old res Hv Ha; cbn [dec_list]; try done; [by intros [= <-]|]. cbn in Hv.
  revert old res Hv Ha. induction l as [|v l IH]; intros old res Hv Ha; cbn [dec_elements]; [by intros [= <-]|].
  cbn in Hv. apply andb_true_iff in Hv as [Hv Hl]. destruct (dec v _) as [x|] eqn:Ex; [|done]. cbn [mbind option_bind].
  destruct (dec_elements dec zero l (tail old)) as [xs|] eqn:Exs; [|done]. intros [= <-]. constructor.
  - eapply Hd; [exact Hv| |exact Ex]. destruct Ha; done.
  - eapply IH; [done| |exact Exs]. by destruct Ha.
Qed.

(** A field keeps a property of the struct. *)
Definition field_keeps {S} (P : S → Prop) (f : string * (json → S → option S)) : Prop :=
  ∀ v s s', json_ok v = true → P s → f.2 v s = Some s' → P s'.

Lemma field_of_keeps {S A} (P : S → Prop) (Q : A → Prop) name get set (dec : decoder A) :
  decodes dec Q → (∀ s, P s → Q (get s)) → (∀ s x, P s → Q x → P (set x s)) → field_keeps P (field_of name get set dec).
Proof.
  intros Hd Hg Hs v s s' Hv Hp. cbn. destruct (dec v (get s)) as [x|] eqn:E; [|done]. intros [= <-].
  apply Hs; [done|]. by eapply Hd; [|apply Hg|].
Qed.

Lemma decodes_struct {S} (fs : list (string * (json → S → option S))) P : Forall (field_keeps P) fs → decodes (dec_struct fs) P.
Proof.
  intros Hfs [|?|?|?|?|ms] st st' Hv Hp; cbn [dec_struct]; try done; [by intros [= <-]|]. cbn in Hv. revert st Hv Hp.
  induction ms as [|[k v] ms IH]; intros st Hv Hp; [by intros [= <-]|]. cbn in Hv.
  apply andb_true_iff in Hv as [[_ Hv]%andb_true_iff Hms]. cbn [foldl mbind option_bind fst snd].
  destruct (dec_member fs st k v) as [s1|] eqn:E.
  2: { clear. intros H. exfalso. revert H. induction ms as [|z ms IH]; [done|]. exact IH. }
  apply IH; [done|]. unfold dec_member in E. destruct (List.find _ fs) as [f|] eqn:Ef; [|by injection E as <-].
  apply List.find_some in Ef as [Hin%list_elem_of_In _]. rewrite Forall_forall in Hfs. by apply (Hfs f Hin v st).
Qed.
