(* ===== verification/JsonAny.v ===== *)
(** * JSON decoded into [any] and encoded again

    [json.Unmarshal] into an interface gives maps, slices, float64 numbers, strings and booleans;
    [json.Marshal] writes maps with their keys in order.  Together they normalise a value: of
    members with the same key the last one stays, keys are sorted, numbers are those of a
    float64. *)

From Stdlib Require Import SpecFloat.
From S2P Require Import Prelude GoStrings GoTime Utf8 Decimal GoFloat Json JsonCodec.

(** The members of a map, sorted by key. *)
Definition sorted_members (m : gmap string json) : list (string * json) := sort_by String.le fst (map_to_list m).

Definition map_of (ms : list (string * json)) : gmap string json := foldl (λ m kv, <[kv.1 := kv.2]> m) ∅ ms.

(** What [json.Marshal] gives on a [map[string]any]: keys in order. *)
Definition any_map (ms : list (string * json)) : json := JObject (sorted_members (map_of ms)).

(** [None]: a number is out of the range of float64. *)
Fixpoint through_any (v : json) : option json :=
  match v with
  | JNull | JBool _ | JString _ => Some v
  | JNumber l => JNumber <$> reformat l
  | JArray l => JArray <$> mapM through_any l
  | JObject ms =>
      ms' ← mapM (λ kv, y ← through_any kv.2; Some (kv.1, y)) ms;
      Some (JObject (sorted_members (map_of ms')))
  end.

(** ** Numbers written are JSON numbers *)
#[local] Abbreviation nrun st chars := (foldl (λ acc c, acc ≫= λ n, num_step n c) st chars).
Definition all_digits (l : list Z) : Prop := Forall (λ c, is_digit c = true) l.

(** The state after a digit. *)
Definition after_digit (n : numstate) : numstate :=
  match n with NDot | NDot0 => NDot0 | NE | NESign | NE0 => NE0 | _ => N1 end.

Lemma num_step_digit n c : is_digit c = true → n ≠ N0 → n ≠ NNeg → num_step n c = Some (after_digit n).
Proof.
  unfold is_digit. intros Hc H0 Hn. unfold num_step, is_dig. rewrite Hc.
  destruct n; try done. by replace ((c =? 43) || (c =? 45)) with false by lia.
Qed.

Lemma nrun_digits n l : all_digits l → n = N1 ∨ n = NDot0 ∨ n = NE0 → nrun (Some n) l = Some n.
Proof.
  intros Hl Hn. induction Hl as [|c l Hc _ IH]; [done|]. cbn [foldl mbind option_bind].
  rewrite num_step_digit by (done || naive_solver). destruct Hn as [->|[->| ->]]; apply IH.
Qed.

Lemma nrun_first n n' c l : all_digits (c :: l) → n = NDot ∧ n' = NDot0 ∨ (n = NE ∨ n = NESign) ∧ n' = NE0 →
  nrun (Some n) (c :: l) = Some n'.
Proof.
  intros Hl Hn. inversion Hl as [|? ? Hc Hl']; subst. cbn [foldl mbind option_bind].
  rewrite num_step_digit by (done || naive_solver).
  destruct Hn as [[-> ->]|[[->| ->] ->]]; apply nrun_digits; auto.
Qed.

(** A JSON number without its sign. *)
Definition unsigned (l : list Z) : Prop :=
  ∃ c cs n, l = c :: cs ∧ is_digit c = true ∧ num_final n = true ∧
    nrun (Some (if c =? 48 then N0 else N1)) cs = Some n.

Lemma unsigned_ok l (neg : bool) : Forall byte_range l → unsigned l →
  number_ok (string_of_bytes ((if neg then [45] else []) ++ l)) = true.
Proof.
  intros Hb (c & cs & n & -> & Hc & Hf & Hn). eapply (num_run_ok _ n); [|done]. unfold is_digit in Hc.
  destruct neg; cbn; unfold num_start, is_dig; [|rewrite Hc; replace (c =? 45) with false by lia];
    destruct (c =? 48); cbn; try done. by rewrite Hc.
Qed.

(** The digits of a positive number. *)
Lemma dec_digits_pos d : 0 < d → ∃ c ds, dec_digits d = c :: ds ∧ all_digits (c :: ds) ∧ c ≠ 48.
Proof.
  intros Hd. destruct (Itoa_bytes d) as (l & _ & [Hall _] & Hnz & _ & Hb). unfold dec_digits. rewrite Hb.
  replace (d <? 0) with false by lia. destruct Hnz as (c & ds & -> & Hc); [lia|]. eauto.
Qed.

Lemma replicate_digits k : all_digits (replicate k 48).
Proof. by apply Forall_replicate. Qed.

Lemma digits_range l : all_digits l → Forall byte_range l.
Proof. intros H. eapply Forall_impl; [exact H|]. intros c. cbn. unfold is_digit, byte_range. lia. Qed.

Lemma plain_unsigned d k : 0 < d → Forall byte_range (plain_digits d k) ∧ unsigned (plain_digits d k).
Proof.
  intros Hd. destruct (dec_digits_pos d Hd) as (c & ds & E & Hall & Hc). unfold plain_digits. rewrite E.
  inversion Hall as [|? ? Hcd Hds]; subst. assert ((c =? 48) = false) as Hc48 by lia.
  destruct (0 <=? k) eqn:Ek.
  { assert (all_digits (ds ++ replicate (Z.to_nat k) 48)) as Hr by (apply Forall_app; split; [done|apply replicate_digits]).
    split; [apply digits_range; by constructor|]. exists c, (ds ++ replicate (Z.to_nat k) 48), N1.
    rewrite Hc48. split; [done|]. split; [done|]. split; [done|]. apply nrun_digits; auto. }
  set (n := Z.of_nat (length (c :: ds))). destruct (- k <? n) eqn:En.
  - set (i := Z.to_nat (n + k)). assert (0 < i < length (c :: ds))%nat as Hi by (unfold i, n in *; lia).
    assert (all_digits (take i (c :: ds)) ∧ all_digits (drop i (c :: ds))) as [Ht Hdr].
    { split; [by apply Forall_take|by apply Forall_drop]. }
    destruct i as [|i]; [lia|]. cbn [take drop] in *. inversion Ht as [|? ? _ Ht']; subst.
    destruct (drop i ds) as [|x xs] eqn:Ed; [apply (f_equal length) in Ed; rewrite length_drop in Ed; simpl in *; lia|].
    split; [apply digits_range in Ht', Hdr; apply Forall_app; split;
      [constructor; [unfold is_digit, byte_range in *; lia|done]|constructor; [done|done]]|].
    exists c, (take i ds ++ [46] ++ x :: xs), NDot0. rewrite Hc48. split; [done|]. split; [done|]. split; [done|].
    rewrite foldl_app, nrun_digits by auto. change (nrun (Some N1) ([46] ++ x :: xs)) with (nrun (Some NDot) (x :: xs)).
    apply nrun_first; auto.
  - set (z := replicate _ 48). assert (all_digits (z ++ c :: ds)) as Hz by (apply Forall_app; split; [apply replicate_digits|done]).
    split; [apply Forall_app; split; [by repeat constructor|by apply digits_range]|].
    exists 48, (46 :: z ++ c :: ds), NDot0. split; [done|]. split; [done|]. split; [done|].
    change (nrun (Some (if 48 =? 48 then N0 else N1)) (46 :: z ++ c :: ds)) with (nrun (Some NDot) (z ++ c :: ds)).
    destruct (z ++ c :: ds) as [|x xs] eqn:Ez; [by destruct z|]. apply nrun_first; auto.
Qed.

Lemma exponent_digits x : 0 ≤ x → ∃ c ds, dec_digits x = c :: ds ∧ all_digits (c :: ds).
Proof.
  intros Hx. destruct (Z.eq_dec x 0) as [->|]; [by exists 48, []; split; [|repeat constructor]|].
  destruct (dec_digits_pos x) as (c & ds & ? & ? & _); [lia|eauto].
Qed.

Lemma scientific_unsigned d k : 0 < d → Forall byte_range (scientific d k) ∧ unsigned (scientific d k).
Proof.
  intros Hd. destruct (dec_digits_pos d Hd) as (c & ds & E & Hall & Hc). unfold scientific. rewrite E.
  inversion Hall as [|? ? Hcd Hds]; subst. assert ((c =? 48) = false) as Hc48 by lia.
  set (x := k + _ - 1). cbn [take drop].
  set (tail := if x <? 0 then _ else _).
  assert (Forall byte_range tail ∧ nrun (Some NE) tail = Some NE0) as [Hbt Hnt].
  { unfold tail. destruct (Z.ltb_spec x 0).
    - destruct (exponent_digits (- x)) as (y & ys & -> & Hy); [lia|]. split; [constructor; [done|by apply digits_range]|].
      change (nrun (Some NE) (45 :: y :: ys)) with (nrun (Some NESign) (y :: ys)). apply nrun_first; auto.
    - destruct (exponent_digits x) as (y & ys & -> & Hy); [lia|].
      assert (all_digits (48 :: y :: ys)) as Hy' by (by constructor).
      destruct (x <? 10); (split; [constructor; [done|by apply digits_range]|]).
      + change (nrun (Some NE) (43 :: 48 :: y :: ys)) with (nrun (Some NESign) (48 :: y :: ys)). apply nrun_first; auto.
      + change (nrun (Some NE) (43 :: y :: ys)) with (nrun (Some NESign) (y :: ys)). apply nrun_first; auto. }
  assert (byte_range c) as Hbc by (unfold is_digit, byte_range in *; lia).
  destruct ds as [|y ys].
  - split; [cbn [app]; constructor; [done|]; by constructor|]. exists c, (101 :: tail), NE0. rewrite Hc48. repeat split; try done.
  - split; [cbn [app]; constructor; [done|]; constructor; [done|]; apply (Forall_app _ (y :: ys)); split;
      [by apply digits_range|constructor; [done|done]]|].
    exists c, (46 :: (y :: ys) ++ 101 :: tail), NE0. rewrite Hc48. split; [done|]. split; [done|]. split; [done|].
    change (nrun (Some N1) (46 :: (y :: ys) ++ 101 :: tail)) with (nrun (Some NDot) ((y :: ys) ++ 101 :: tail)).
    rewrite foldl_app, (nrun_first NDot NDot0) by auto.
    change (nrun (Some NDot0) (101 :: tail)) with (nrun (Some NE) tail). done.
Qed.

Lemma json_float_ok f t : json_float f = Some t → number_ok t = true.
Proof.
  destruct f as [s| | |s m e]; cbn [json_float]; [intros [= <-]; by destruct s|done|done|].
  destruct (shortest s m e) as [[d k]|] eqn:E; [|done]. apply shortest_inv in E as [Hd _]. intros [= <-].
  destruct (_ || _); [destruct (scientific_unsigned d k)|destruct (plain_unsigned d k)]; try done; by apply unsigned_ok.
Qed.

(** ** Numbers written are read back *)
Lemma dec_digits_of x : 0 ≤ x → digits_of x (dec_digits x).
Proof.
  intros Hx. destruct (Itoa_bytes x) as (l & _ & Hl & _ & _ & Hb). unfold dec_digits. rewrite Hb.
  replace (x <? 0) with false by lia. by rewrite Z.abs_eq in Hl.
Qed.

Lemma number_of_digits x l : digits_of x l → number_of l = x.
Proof. intros [_ H]. unfold number_of. rewrite <- (app_nil_r l), H. cbn. lia. Qed.

Lemma digits_of_zeros k : digits_of 0 (replicate k 48).
Proof.
  split; [apply replicate_digits|]. induction k as [|k IH]; intros rest a; cbn [replicate app digits_value length].
  - f_equal. lia.
  - replace (is_digit 48) with true by done. rewrite IH. f_equal. rewrite Nat2Z.inj_succ, Z.pow_succ_r by lia. lia.
Qed.

Lemma digits_of_app x y a b : digits_of x a → digits_of y b → digits_of (x * 10 ^ Z.of_nat (length b) + y) (a ++ b).
Proof.
  intros [Ha Hx] [Hb Hy]. split; [by apply Forall_app|]. intros rest acc. rewrite <- app_assoc, Hx, Hy. f_equal.
  rewrite length_app, Nat2Z.inj_add, Z.pow_add_r by lia. lia.
Qed.

Lemma take_digits_app a r : all_digits a → (∀ c r', r = c :: r' → is_digit c = false) → take_digits (a ++ r) = (a, r).
Proof.
  intros Ha Hr. induction Ha as [|c a Hc _ IH]; cbn.
  - destruct r as [|c r]; [done|]. cbn. by rewrite (Hr c r eq_refl).
  - by rewrite Hc, IH.
Qed.

(** The exponent a text ends with. *)
Definition exponent_of (l : list Z) : Z :=
  match l with
  | c :: 45 :: l => - number_of l
  | c :: 43 :: l => number_of l
  | c :: l => number_of l
  | [] => 0
  end.

Lemma ParseFloat_text (neg : bool) c ip fp xt s m e x : all_digits (c :: ip) → all_digits fp →
  xt = [] ∨ (∃ xt', xt = 101 :: xt') → Forall byte_range xt →
  digits_of x ((c :: ip) ++ fp) → float_of_decimal neg x (exponent_of xt - Z.of_nat (length fp)) = S754_finite s m e →
  ParseFloat (string_of_bytes ((if neg then [45] else []) ++ (c :: ip) ++ match fp with [] => [] | _ => 46 :: fp end ++ xt)) =
    Some (S754_finite s m e).
Proof.
  intros Hip Hfp Hxt Hb Hx Hf. unfold ParseFloat. rewrite bytes_string_of_bytes.
  2: { apply Forall_app. split; [destruct neg; by repeat constructor|]. apply Forall_app. split; [by apply digits_range|].
       apply Forall_app. split; [|done]. destruct fp; [done|]. constructor; [done|]. by apply digits_range. }
  set (rest := (c :: ip) ++ _).
  replace (match (if neg then [45] else []) ++ rest with 45 :: l => (true, l) | l => (false, l) end) with (neg, rest).
  2: { destruct neg; [done|]. unfold rest. cbn. inversion Hip as [|? ? Hc _]; subst. unfold is_digit in Hc.
       repeat (case_match; try done; try lia). }
  assert (∀ y ys, xt = y :: ys → is_digit y = false) as Hend.
  { intros y ys ->. destruct Hxt as [?|[? [= -> _]]]; done. }
  unfold rest. rewrite take_digits_app; [|done|].
  2: { intros y ys. destruct fp; cbn; [apply Hend|]. intros [= <- _]. done. }
  destruct fp as [|d fp].
  - replace (match [] ++ xt with 46 :: l => take_digits l | _ => ([], [] ++ xt) end) with (@nil Z, xt)
      by (destruct Hxt as [->|[? ->]]; done).
    fold (exponent_of xt). rewrite (number_of_digits x) by done. by rewrite Hf.
  - change ((46 :: d :: fp) ++ xt) with (46 :: ((d :: fp) ++ xt)). cbv iota. rewrite (take_digits_app (d :: fp)) by done.
    fold (exponent_of xt). rewrite (number_of_digits x) by done. by rewrite Hf.
Qed.

Lemma plain_read s m e d k : 0 < d → float_of_decimal s d k = S754_finite s m e →
  ParseFloat (string_of_bytes ((if s then [45] else []) ++ plain_digits d k)) = Some (S754_finite s m e).
Proof.
  intros Hd Hf. destruct (dec_digits_pos d Hd) as (c & ds & Ed & Hall & Hc). pose proof (dec_digits_of d ltac:(lia)) as Hval.
  unfold plain_digits. rewrite Ed in Hval |- *. destruct (0 <=? k) eqn:Ek.
  - pose proof (ParseFloat_text s c (ds ++ replicate (Z.to_nat k) 48) [] [] s m e (d * 10 ^ k)) as H.
    rewrite !app_nil_r in H. apply H; [|constructor|by left|constructor| |].
    + apply (Forall_app _ (c :: ds)). split; [done|apply replicate_digits].
    + pose proof (digits_of_app _ _ _ _ Hval (digits_of_zeros (Z.to_nat k))) as Ha.
      rewrite length_replicate, Z2Nat.id, Z.add_0_r in Ha by lia. exact Ha.
    + revert Hf. unfold float_of_decimal. rewrite Ek. cbn. by rewrite Z.mul_1_r.
  - set (n := Z.of_nat (length (c :: ds))). destruct (- k <? n) eqn:En.
    + set (i := Z.to_nat (n + k)). assert (0 < i < length (c :: ds))%nat as Hi by (unfold i, n in *; lia).
      assert (Z.of_nat (length (drop i (c :: ds))) = - k) as Hlen by (rewrite length_drop; unfold i, n in *; lia).
      assert (drop i (c :: ds) ≠ []) as Hne by (intros H; rewrite H in Hlen; cbn in Hlen; lia).
      pose proof (ParseFloat_text s c (take (pred i) ds) (drop i (c :: ds)) [] s m e d) as H.
      replace (c :: take (pred i) ds) with (take i (c :: ds)) in H by (by destruct i; [lia|]).
      rewrite take_drop, Hlen, app_nil_r in H.
      destruct (drop i (c :: ds)) eqn:Edr; [done|]. rewrite <- Edr in *. apply H; auto.
      * by apply Forall_take.
      * by apply Forall_drop.
      * rewrite <- Hf. f_equal. cbn. lia.
    + pose proof (ParseFloat_text s 48 [] (replicate (Z.to_nat (- k - n)) 48 ++ c :: ds) [] s m e d) as H.
      destruct (replicate (Z.to_nat (- k - n)) 48 ++ c :: ds) eqn:Er; [by destruct (replicate _ _)|]. rewrite <- Er in *.
      rewrite app_nil_r in H. apply H; auto.
      * by repeat constructor.
      * apply Forall_app. split; [apply replicate_digits|done].
      * pose proof (digits_of_app _ _ _ _ (digits_of_zeros (S (Z.to_nat (- k - n)))) Hval) as Ha. exact Ha.
      * rewrite <- Hf. f_equal. rewrite length_app, length_replicate. cbn [exponent_of]. unfold n in *. lia.
Qed.

Lemma exponent_text x : exponent_of (101 :: (if x <? 0 then 45 :: dec_digits (- x)
   else 43 :: (if x <? 10 then 48 :: dec_digits x else dec_digits x))) = x.
Proof.
  destruct (Z.ltb_spec x 0).
  - cbn [exponent_of]. rewrite (number_of_digits (- x)) by (apply dec_digits_of; lia). lia.
  - pose proof (dec_digits_of x ltac:(lia)) as Hx. cbn [exponent_of]. destruct (x <? 10); apply number_of_digits; [|done].
    apply (digits_of_app 0 x [48]); [apply (digits_of_zeros 1)|done].
Qed.

Lemma scientific_read s m e d k : 0 < d → float_of_decimal s d k = S754_finite s m e →
  ParseFloat (string_of_bytes ((if s then [45] else []) ++ scientific d k)) = Some (S754_finite s m e).
Proof.
  intros Hd Hf. pose proof (scientific_unsigned d k Hd) as [Hb _].
  destruct (dec_digits_pos d Hd) as (c & ds & Ed & Hall & Hc). pose proof (dec_digits_of d ltac:(lia)) as Hval.
  unfold scientific in *. rewrite Ed in Hval, Hb |- *. cbn [take drop] in *. set (x := k + _ - 1) in *.
  pose proof (exponent_text x) as Hx. cbn [app] in *. set (xt := 101 :: _) in *. 
  inversion Hall as [|? ? Hc1 Hds]; subst.
  rewrite take_0, drop_0 in *. cbn [app] in *.
  replace (match ds with [] => [] | z :: l => 46 :: z :: l end) with (match ds with [] => [] | _ => 46 :: ds end) in *
    by (by destruct ds).
  apply (ParseFloat_text s c [] ds xt s m e d); auto.
  - by repeat constructor.
  - right. by eexists.
  - apply Forall_cons in Hb as [_ Hb]. by apply Forall_app in Hb as [_ Hb].
  - rewrite <- Hf. f_equal. rewrite Hx. unfold x. cbn [length]. lia.
Qed.

Lemma json_float_read f t : json_float f = Some t → ParseFloat t = Some f.
Proof.
  destruct f as [s| | |s m e]; cbn [json_float]; [intros [= <-]; by destruct s|done|done|].
  destruct (shortest s m e) as [[d k]|] eqn:E; [|done]. apply shortest_inv in E as [Hd Hf]. intros [= <-].
  pose proof (dec_digits_of d ltac:(lia)) as Hval. destruct (_ || _).
  - by apply scientific_read.
  - by apply plain_read.
Qed.

(** ** Normalised values can be printed *)
Lemma map_of_lookup ms k v : map_of ms !! k = Some v → (k, v) ∈ ms.
Proof.
  unfold map_of. induction ms as [|kv ms IH] using rev_ind; [done|]. rewrite foldl_app. cbn.
  rewrite lookup_insert_Some. intros [[<- <-]|[_ H]]; [|apply IH in H]; rewrite elem_of_app.
  - right. destruct kv. by left.
  - by left.
Qed.

Lemma sorted_members_elem m k v : (k, v) ∈ sorted_members m ↔ m !! k = Some v.
Proof. unfold sorted_members. by rewrite sort_by_elem_of, elem_of_map_to_list. Qed.

Lemma map_of_key ms k v : (k, v) ∈ ms → is_Some (map_of ms !! k).
Proof.
  unfold map_of. induction ms as [|kv ms IH] using rev_ind; [by intros ?%elem_of_nil|]. rewrite foldl_app. cbn.
  rewrite elem_of_app, list_elem_of_singleton, lookup_insert_is_Some. destruct (decide (kv.1 = k)); [by left|].
  intros [H|Heq]; [right; by split; [|apply IH]|]. subst kv. done.
Qed.

Lemma map_of_sorted m : map_of (sorted_members m) = m.
Proof.
  apply map_eq. intros k. apply option_eq. intros v. split.
  - by intros H%map_of_lookup%sorted_members_elem.
  - intros H. apply sorted_members_elem in H as H'. destruct (map_of_key _ _ _ H') as [v' Hv']. rewrite Hv'.
    apply map_of_lookup, sorted_members_elem in Hv'. congruence.
Qed.

Lemma through_any_printable v w : through_any v = Some w → json_ok v = true →
  json_ok w = true ∧ (json_depth w ≤ json_depth v)%nat.
Proof.
  revert w. induction v as [| |l|s|l IH|ms IH] using json_ind; intros w Hw Hok; cbn in Hw; simplify_eq; try done.
  - destruct (reformat l) as [t|] eqn:E; [|done]. injection Hw as <-. split; [|done]. cbn.
    unfold reformat in E. destruct (ParseFloat l) as [f|]; [|done]. by eapply json_float_ok.
  - destruct (mapM through_any l) as [r|] eqn:E; [|done]. injection Hw as <-. apply mapM_Some in E.
    cbn [json_ok json_depth] in *. revert Hok. induction E as [|x y l r Hxy _ IHl]; intros Hok; [done|].
    inversion IH as [|? ? Hx Hl]; subst. cbn in Hok. apply andb_true_iff in Hok as [Hok1 Hok2].
    destruct (Hx _ Hxy Hok1) as [H1 H2], (IHl Hl Hok2) as [H3 H4]. cbn. rewrite H1, H3. split; [done|lia].
  - destruct (mapM _ ms) as [r|] eqn:E; [|done]. injection Hw as <-. apply mapM_Some in E.
    assert (Forall (λ m, valid_utf8 m.1 && json_ok m.2 = true ∧ (json_depth m.2 ≤ foldr (λ m d, json_depth m.2 `max` d) 0 ms)%nat) r)
      as Hr.
    { clear -E IH Hok. cbn [json_ok] in Hok. revert Hok. induction E as [|x y ms r Hxy _ IHm]; intros Hok; [constructor|].
      inversion IH as [|? ? Hx Hl]; subst. cbn in Hok. apply andb_true_iff in Hok as [[Hk Hok1]%andb_true_iff Hok2].
      destruct (through_any x.2) as [y'|] eqn:Ey; [|done]. injection Hxy as <-. destruct (Hx _ Ey Hok1) as [H1 H2].
      constructor; [cbn; rewrite Hk, H1; split; [done|lia]|]. eapply Forall_impl; [apply (IHm Hl Hok2)|].
      intros m [Hm1 Hm2]. split; [done|]. cbn. lia. }
    assert (∀ k x, (k, x) ∈ sorted_members (map_of r) → (k, x) ∈ r) as Hin.
    { intros k x H%sorted_members_elem. by apply map_of_lookup. }
    rewrite Forall_forall in Hr. cbn [json_ok json_depth]. split.
    + apply forallb_forall. intros [k x] H%list_elem_of_In. by apply (Hr (k, x)), Hin.
    + apply le_n_S, foldr_max_bound, Forall_forall. intros [k x] H. by apply (Hr (k, x)), Hin.
Qed.

(** ** Normalising is idempotent *)
Lemma mapM_fixed {A} (f : A → option A) l : Forall (λ x, f x = Some x) l → mapM f l = Some l.
Proof. intros H. apply mapM_Some. induction H; by constructor. Qed.

Lemma reformat_idem l t : reformat l = Some t → reformat t = Some t.
Proof.
  unfold reformat. destruct (ParseFloat l) as [f|]; [|done]. cbn. intros H. by rewrite (json_float_read _ _ H).
Qed.

Lemma through_any_idem v w : through_any v = Some w → through_any w = Some w.
Proof.
  revert w. induction v as [| |l|s|l IH|ms IH] using json_ind; intros w Hw; cbn in Hw; simplify_eq; try done.
  - destruct (reformat l) as [t|] eqn:E; [|done]. injection Hw as <-. cbn. by rewrite (reformat_idem _ _ E).
  - destruct (mapM through_any l) as [r|] eqn:E; [|done]. injection Hw as <-. apply mapM_Some in E.
    cbn [through_any]. rewrite mapM_fixed; [done|]. clear -E IH.
    induction E as [|x y l r Hxy _ IHl]; inversion IH; subst; constructor; auto.
  - destruct (mapM _ ms) as [r|] eqn:E; [|done]. injection Hw as <-. apply mapM_Some in E.
    assert (Forall (λ kv, through_any kv.2 = Some kv.2) r) as Hr.
    { clear -E IH. induction E as [|x y ms r Hxy _ IHm]; inversion IH as [|? ? Hx Hms]; subst; constructor; auto.
      destruct (through_any x.2) as [y'|] eqn:Ey; [|done]. injection Hxy as <-. cbn. by apply Hx. }
    cbn [through_any]. rewrite mapM_fixed; [cbn; by rewrite map_of_sorted|]. apply Forall_forall. intros [k x] Hx.
    apply sorted_members_elem, map_of_lookup in Hx. rewrite Forall_forall in Hr. by rewrite (Hr _ Hx).
Qed.

(** Members of an object written by [any_map] are read back. *)
Lemma any_map_member ms k v : NoDup ms.*1 → (k, v) ∈ ms → (k, v) ∈ sorted_members (map_of ms).
Proof.
  intros Hnd Hin. apply sorted_members_elem. destruct (map_of_key _ _ _ Hin) as [v' Hv']. rewrite Hv'.
  apply map_of_lookup, (elem_of_list_to_map_1 (M:=gmap string)) in Hv'; [|done].
  apply (elem_of_list_to_map_1 (M:=gmap string)) in Hin; [|done]. congruence.
Qed.

Lemma any_map_numbers ms : forallb (λ m, numbers_ok m.2) ms = true → numbers_ok (any_map ms) = true.
Proof.
  intros H. cbn. apply forallb_forall. intros [k v] Hin%list_elem_of_In%sorted_members_elem%map_of_lookup.
  rewrite forallb_forall in H. by apply H, list_elem_of_In.
Qed.

Lemma any_map_depth ms n : Forall (λ m, json_depth m.2 ≤ n)%nat ms → (json_depth (any_map ms) ≤ S n)%nat.
Proof.
  intros H. cbn. apply le_n_S, (foldr_max_bound (λ m : string * json, json_depth m.2)), Forall_forall.
  intros [k v] Hin%sorted_members_elem%map_of_lookup. rewrite Forall_forall in H. by apply (H (k, v)).
Qed.
