(* ===== verification/JsonStream.v ===== *)
(** * Reading the first JSON value of a stream: json.Decoder

    A handler decodes one value from a request body; what follows it is not read. *)

From S2P Require Import Prelude GoStrings Utf8 Json JsonCodec.

(** [json.NewDecoder(r.Body).Decode]: the first value of the body; what follows it is not read. *)
Fixpoint first_value (st : state) (rs : list Z) : option json :=
  match rs with
  | [] => match settle st with Some (v, []) => Some v | _ => None end
  | c :: rs' =>
      match st with
      | EndValue v [] | InLiteral [] v [] => Some v
      | InNumber n chars [] =>
          match num_step n c with
          | Some _ => first_value (step st c) rs'
          | None => if num_final n then Some (JNumber (string_of_bytes (reverse chars))) else None
          end
      | _ => first_value (step st c) rs'
      end
  end.

Definition Decode {A} (dec : decoder A) (body : string) (old : A) : option A :=
  v ← first_value (BeginValue []) (runes_of_string body); dec v old.

Lemma foldl_step_invalid rs : foldl step Invalid rs = Invalid.
Proof. induction rs; [done|]. exact IHrs. Qed.

Lemma foldl_step_end v rs : settle (foldl step (EndValue v []) rs) = Some (v, []) ∨ foldl step (EndValue v []) rs = Invalid.
Proof.
  induction rs as [|c rs IH]; [by left|]. cbn [foldl step]. unfold end_value. destruct (is_ws c); [exact IH|].
  right. apply foldl_step_invalid.
Qed.

(** The first value of a text that starts with a whole value other than a number is that value. *)
Lemma first_value_app st rs rest v : settle (foldl step st rs) = Some (v, []) → (∀ l, v ≠ JNumber l) →
  first_value st (rs ++ rest) = Some v.
Proof.
  intros Hs Hn. revert st Hs. induction rs as [|c rs IH]; intros st Hs.
  - cbn in Hs. destruct rest as [|c rest]; cbn [app first_value]; [by rewrite Hs|].
    destruct st as [| | | | |n chars k|lit v0 k|v0 k|]; cbn in Hs; try done.
    + destruct (num_final n); [|done]. injection Hs as <- _. by edestruct Hn.
    + destruct lit; [|done]. by injection Hs as -> ->.
    + by injection Hs as -> ->.
  - cbn [foldl] in Hs. cbn [app first_value].
    assert (∀ v0, settle (foldl step (end_value v0 [] c) rs) = Some (v, []) → v0 = v) as Hend.
    { intros v0. unfold end_value. destruct (is_ws c); [|by rewrite foldl_step_invalid].
      destruct (foldl_step_end v0 rs) as [->| ->]; [by intros [= ->]|done]. }
    destruct st as [| | | | |n chars k|lit v0 k|v0 k|]; try (by apply IH).
    + destruct k as [|f k]; [|by apply IH]. cbn [step] in Hs |- *. destruct (num_step n c) as [n'|] eqn:En; [by apply IH|].
      destruct (num_final n); [|by rewrite foldl_step_invalid in Hs]. apply Hend in Hs as <-. done.
    + destruct lit as [|x lit], k as [|f k]; try (by apply IH). f_equal. by apply Hend.
    + destruct k as [|f k]; [|by apply IH]. f_equal. by apply Hend.
Qed.

Lemma Decode_Marshal {A} (dec : decoder A) v rest old : printable v → (∀ l, v ≠ JNumber l) →
  Decode dec (Marshal v +:+ rest) old = dec v old.
Proof.
  intros Hp Hn. pose proof (parse_Marshal v Hp) as H. unfold parse, parse_runes in H.
  assert (settle (foldl step (BeginValue []) (runes_of_string (Marshal v))) = Some (v, [])) as Hs.
  { destruct (settle _) as [[w [|f k]]|]; try done. by injection H as ->. }
  unfold Decode. unfold runes_of_string in *. rewrite bytes_app.
  assert (runes (bytes (Marshal v) ++ bytes rest) = runes (bytes (Marshal v)) ++ runes (bytes rest)) as ->.
  { unfold Marshal, string_of_runes. rewrite bytes_string_of_bytes by apply encode_runes_range.
    assert (Forall (λ r, scalar r = true) (compact v)) as Hsc
      by (apply print_scalars; [by repeat constructor|constructor|apply (printable_writable v Hp)]).
    rewrite (runes_encode _ (bytes rest)) by done. f_equal. rewrite <- (app_nil_r (encode_runes _)), runes_encode by done.
    by rewrite app_nil_r. }
  by rewrite (first_value_app _ _ _ v).
Qed.

(** Whatever a stream holds, the value that is decoded is well formed. *)
Lemma first_value_printable st rs v : state_ok st → Forall (λ c, scalar c = true) rs → first_value st rs = Some v → printable v.
Proof.
  intros Hst Hrs. revert st Hst. induction Hrs as [|c rs Hc _ IH]; intros st Hst; cbn [first_value].
  - destruct (settle st) as [[v' [|]]|] eqn:E; try done. intros [= <-]. by eapply settle_printable.
  - pose proof (step_ok st c Hst Hc) as Hst'. pose proof (λ v, settle_printable st v Hst) as Hs.
    destruct st as [| | | | |n chars [|]|[|] v0 [|]|v0 [|]|]; try (by apply IH).
    + destruct (num_step n c); [by apply IH|]. destruct (num_final n) eqn:Ef; [|done]. intros [= <-]. apply Hs. cbn. by rewrite Ef.
    + intros [= <-]. by apply Hs.
    + intros [= <-]. by apply Hs.
Qed.

Lemma Decode_decodes {A} (dec : decoder A) (P : A → Prop) body old a :
  decodes dec P → P old → Decode dec body old = Some a → P a.
Proof.
  intros Hd Ho. unfold Decode. destruct (first_value _ _) as [v|] eqn:E; [|done]. cbn.
  apply first_value_printable in E as [Hv _]; [|done|apply runes_scalar]. by apply Hd.
Qed.
