(* ===== verification/Os.v ===== *)
(** * What the program uses of the operating system's files

    The operating system is a parameter: operations on a state of files, each of which can fail,
    and the laws of the operations that succeed.  The laws speak of files under the name they are
    used with, so they assume that different names are not the same file and that nobody else
    writes them.  A map from paths to contents is an instance. *)

From S2P Require Import Prelude GoErrors.

Class FileSystem (FS : Type) := {
  ReadFile : FS → string → result error string;
  (** [os.WriteFile], which creates or truncates. *)
  WriteFile : FS → string → string → FS * option error;
  (** [os.OpenFile] with [O_CREATE|O_APPEND|O_WRONLY], and [Write] to the file it opens. *)
  OpenAppend : FS → string → FS * option error;
  AppendFile : FS → string → string → FS * option error;
  MkdirAll : FS → string → FS * option error
}.

Class FileSystemLaws (FS : Type) `{!FileSystem FS} := {
  read_write fs fs' path text : WriteFile fs path text = (fs', None) → ReadFile fs' path = Ok text;
  read_write_other fs fs' path text path' : WriteFile fs path text = (fs', None) → path' ≠ path →
    ReadFile fs' path' = ReadFile fs path';
  read_open fs fs' path : OpenAppend fs path = (fs', None) →
    ReadFile fs' path = Ok (match ReadFile fs path with Ok old => old | Err _ => "" end);
  read_append fs fs' path text old : AppendFile fs path text = (fs', None) →
    ReadFile fs path = Ok old → ReadFile fs' path = Ok (old +:+ text);
  read_mkdir fs fs' err dir path : MkdirAll fs dir = (fs', err) → ReadFile fs' path = ReadFile fs path
}.

(** Files in a map; nothing fails but reading a file that is not there. *)
Definition ErrNotExist : error := ErrorString (Some 22%N) "file does not exist".

#[export] Instance map_files : FileSystem (gmap string string) := {|
  ReadFile fs path := match fs !! path with Some b => Ok b | None => Err ErrNotExist end;
  WriteFile fs path b := (<[path := b]> fs, None);
  OpenAppend fs path := (<[path := default "" (fs !! path)]> fs, None);
  AppendFile fs path b := (<[path := default "" (fs !! path) +:+ b]> fs, None);
  MkdirAll fs _ := (fs, None)
|}.

#[export] Instance map_files_laws : FileSystemLaws (gmap string string).
Proof.
  split; cbn.
  - intros fs fs' path text [= <-]. by rewrite lookup_insert_eq.
  - intros fs fs' path text path' [= <-] Hne. by rewrite lookup_insert_ne.
  - intros fs fs' path [= <-]. rewrite lookup_insert_eq. by destruct (fs !! path).
  - intros fs fs' path text old [= <-]. rewrite lookup_insert_eq. by destruct (fs !! path) as [b|]; intros [= <-].
  - by intros fs fs' err dir path [= <- _].
Qed.
