(* ===== verification/Trace.v ===== *)
(** * Execution traces: internal/trace

    [Trace] holds the records of trace.go, the recorder of recorder.go, the comparison of
    debug.go and the replayer of replay.go.  Trace files (io.go) are in [TraceFile], the
    exporter is in [AstraGraph], the OpenTelemetry setup in [Helpers]. *)

From S2P Require Import Prelude GoErrors GoStrings Utf8 Sha256 AgentFunc.

(** ** trace.go *)
Record Step := mkStep {
  st_InvocationID : string;
  st_AgentID : string;
  st_RequestID : string;
  st_Input : AgentInput;
  st_Output : AgentOutput;
  st_Error : string;
  st_Duration : Z;
  st_Attempt : Z
}.

(** The zero [Step], which reading an absent key of a map gives. *)
Definition Step_zero : Step := mkStep "" "" "" AgentInput_zero AgentOutput_zero "" 0 0.

Record ExecutionTrace := mkExecutionTrace {
  tr_TaskID : string;
  tr_Steps : list Step;
  tr_StartTime : time;
  tr_EndTime : time;
  tr_TotalLatency : Z
}.

(** ** recorder.go *)

(** [append([]byte(nil), b...)] for a non-nil [b]: an empty slice becomes the nil slice. *)
Definition clone_bytes (s : slice) : slice :=
  match s with
  | None => None
  | Some b => if decide (b = "") then None else Some b
  end.

Definition cloneInput (i : AgentInput) : AgentInput :=
  mkAgentInput (in_TaskID i) (in_RequestID i) (clone_bytes (in_Payload i)) (in_Metadata i)
    (in_Timestamp i).

Definition cloneOutput (o : AgentOutput) : AgentOutput :=
  mkAgentOutput (out_RequestID o) (clone_bytes (out_Payload o)) (out_Metadata o) (out_Duration o).

(** The recorder's trace; [EndTime] and [TotalLatency] stay zero until [Finalize]. *)
Definition NewRecorder (taskID : string) (start : time) : ExecutionTrace :=
  mkExecutionTrace taskID [] start zero_time 0.

Definition AddStep (r : ExecutionTrace) (step : Step) : ExecutionTrace :=
  let step := mkStep (st_InvocationID step) (st_AgentID step) (st_RequestID step)
    (cloneInput (st_Input step)) (cloneOutput (st_Output step)) (st_Error step)
    (st_Duration step) (st_Attempt step) in
  mkExecutionTrace (tr_TaskID r) (tr_Steps r ++ [step]) (tr_StartTime r) (tr_EndTime r)
    (tr_TotalLatency r).

(** The order of [Finalize]: invocation, then attempt, then request. *)
Definition step_key (s : Step) : string * (Z * string) :=
  (st_InvocationID s, (st_Attempt s, st_RequestID s)).
Definition step_key_le : relation (string * (Z * string)) :=
  lex_le String.le (lex_le Z.le String.le).

Definition Finalize (r : ExecutionTrace) (endt : time) : ExecutionTrace :=
  mkExecutionTrace (tr_TaskID r) (sort_by step_key_le step_key (tr_Steps r)) (tr_StartTime r)
    endt (Sub endt (tr_StartTime r)).

(** ** debug.go *)
Record Divergence := mkDivergence {
  div_InvocationID : string;
  div_Field : string;
  div_Expected : string;
  div_Actual : string
}.

(** The loop body of [latestByInvocation] and of [ReplayAndCompare]'s first loop. *)
Definition keep_latest (m : gmap string Step) (s : Step) : gmap string Step :=
  match m !! st_InvocationID s with
  | Some prev =>
      if st_Attempt prev <=? st_Attempt s then <[st_InvocationID s := s]> m else m
  | None => <[st_InvocationID s := s]> m
  end.

Definition latestByInvocation (tr : ExecutionTrace) : gmap string Step :=
  foldl keep_latest ∅ (tr_Steps tr).

Definition payloadHash (b : slice) : string := EncodeToString (Sum256 (bytes (bytes_of b))).

(** The body of [Compare]'s last loop, for one invocation. *)
Definition compare_one (expMap actMap : gmap string Step) (id : string) : list Divergence :=
  match expMap !! id, actMap !! id with
  | None, a => [mkDivergence id "missing_expected" "" (from_option st_AgentID "" a)]
  | Some e, None => [mkDivergence id "missing_actual" (st_AgentID e) ""]
  | Some e, Some a =>
      (if decide (st_AgentID e = st_AgentID a) then []
       else [mkDivergence id "agent_id" (st_AgentID e) (st_AgentID a)]) ++
      (if decide (st_Error e = st_Error a) then []
       else [mkDivergence id "error" (st_Error e) (st_Error a)]) ++
      (if decide (out_RequestID (st_Output e) = out_RequestID (st_Output a)) then []
       else [mkDivergence id "request_id" (out_RequestID (st_Output e)) (out_RequestID (st_Output a))]) ++
      (let ep := payloadHash (out_Payload (st_Output e)) in
       let ap := payloadHash (out_Payload (st_Output a)) in
       if decide (ep = ap) then [] else [mkDivergence id "payload_hash" ep ap])
  end.

(** [Compare]: the identifiers of both traces, sorted, and the fields they differ in. *)
Definition Compare (expected actual : ExecutionTrace) : list Divergence :=
  let expMap := latestByInvocation expected in
  let actMap := latestByInvocation actual in
  let seen := (map_to_list expMap).*1 in
  let ids := seen ++ filter (λ id, id ∉ seen) ((map_to_list actMap).*1) in
  concat (compare_one expMap actMap <$> sort_strings ids).

Definition newline : string := string_of_bytes [10].

Definition FormatDivergence (div : list Divergence) : string :=
  match div with
  | [] => "no divergence detected"
  | _ =>
      foldl (λ msg d, msg +:+ "- invocation=" +:+ div_InvocationID d +:+ " field=" +:+ div_Field d
               +:+ " expected=" +:+ Quote (div_Expected d) +:+ " actual=" +:+ Quote (div_Actual d)
               +:+ newline)
        ("trace divergence detected:" +:+ newline) div
  end.

(** ** replay.go *)

(** [safeCall] of replay.go. *)
Definition replay_safeCall (o : outcome) : AgentOutput * option error :=
  match o with
  | Returned out err => (out, err)
  | Panicked r => (AgentOutput_zero, Some (Errorf ("agent panic: " +:+ r)))
  end.

Section Replay.
(** The agent functions and the state their calls act on; [invoke f timeout input w] is
    one call of [f] under a context with that timeout. *)
Context {F W : Type} (invoke : F → Z → AgentInput → W → W * outcome).

(** The comparison of one replayed invocation with the recorded one: the error returned
    from the loop, [None] when it goes on. *)
Definition replay_check (invID : string) (expected : Step) (o : outcome) : option error :=
  let '(actualOut, actualErr) := replay_safeCall o in
  if decide (st_Error expected = "") then
    match actualErr with
    | Some e => Some (Errorf ("trace replay: invocation " +:+ invID +:+ " unexpected error: " +:+ Error e))
    | None =>
        if decide (out_RequestID actualOut = out_RequestID (st_Output expected)) then
          if decide (bytes_of (out_Payload actualOut) = bytes_of (out_Payload (st_Output expected)))
          then None
          else Some (Errorf ("trace replay: invocation " +:+ invID +:+ " payload mismatch"))
        else Some (Errorf ("trace replay: invocation " +:+ invID +:+ " request_id mismatch: got "
               +:+ Quote (out_RequestID actualOut) +:+ " want "
               +:+ Quote (out_RequestID (st_Output expected))))
    end
  else
    match actualErr with
    | None => Some (Errorf ("trace replay: invocation " +:+ invID +:+ " expected error "
                +:+ Quote (st_Error expected) +:+ " but got nil"))
    | Some e =>
        if decide (Error e = st_Error expected) then None
        else Some (Errorf ("trace replay: invocation " +:+ invID +:+ " error mismatch: got "
               +:+ Quote (Error e) +:+ " want " +:+ Quote (st_Error expected)))
    end.

(** The second loop of [ReplayAndCompare], over the sorted identifiers. *)
Fixpoint replay_loop (resolve : string → option F) (timeout : Z)
    (expectedByInvocation : gmap string Step) (ids : list string) (w : W) : W * option error :=
  match ids with
  | [] => (w, None)
  | invID :: ids' =>
      let expected := default Step_zero (expectedByInvocation !! invID) in
      match resolve (st_AgentID expected) with
      | None => (w, Some (Errorf ("trace replay: agent not found: " +:+ st_AgentID expected)))
      | Some fn =>
          let '(w', o) := invoke fn timeout (st_Input expected) w in
          match replay_check invID expected o with
          | Some err => (w', Some err)
          | None => replay_loop resolve timeout expectedByInvocation ids' w'
          end
      end
  end.

Definition ReplayAndCompare (tr : ExecutionTrace) (timeout : Z) (resolve : string → option F)
    (w : W) : W * option error :=
  match tr_Steps tr with
  | [] => (w, Some (Errorf "trace replay: no steps to replay"))
  | _ =>
      let timeout := if timeout <=? 0 then 30 * Second else timeout in
      let expectedByInvocation := latestByInvocation tr in
      let invocationIDs := sort_strings ((map_to_list expectedByInvocation).*1) in
      replay_loop resolve timeout expectedByInvocation invocationIDs w
  end.
End Replay.

(** ** The recorder *)

(** The recorder stores copies of the steps it is given. *)
Definition clone_step (s : Step) : Step :=
  mkStep (st_InvocationID s) (st_AgentID s) (st_RequestID s) (cloneInput (st_Input s))
    (cloneOutput (st_Output s)) (st_Error s) (st_Duration s) (st_Attempt s).

Lemma AddStep_steps r s : tr_Steps (AddStep r s) = tr_Steps r ++ [clone_step s].
Proof. done. Qed.

(** What a recorder holds after a sequence of calls. *)
Lemma AddStep_all r ss : tr_TaskID (foldl AddStep r ss) = tr_TaskID r ∧
  tr_StartTime (foldl AddStep r ss) = tr_StartTime r ∧ tr_Steps (foldl AddStep r ss) = tr_Steps r ++ (clone_step <$> ss).
Proof.
  revert r. induction ss as [|s ss IH]; intros r; simpl; [by rewrite app_nil_r|].
  destruct (IH (AddStep r s)) as (-> & -> & ->). by rewrite AddStep_steps, <- app_assoc.
Qed.

(** A step comes before another one: by invocation, then by attempt. *)
Definition step_before (s t : Step) : Prop :=
  (String.le (st_InvocationID s) (st_InvocationID t) ∧ st_InvocationID s ≠ st_InvocationID t) ∨
  (st_InvocationID s = st_InvocationID t ∧ st_Attempt s < st_Attempt t).

Definition attempt_of (s : Step) : string * Z := (st_InvocationID s, st_Attempt s).

Lemma sorted_before l : NoDup (attempt_of <$> l) → StronglySorted (key_le step_key_le step_key) l → StronglySorted step_before l.
Proof.
  induction l as [|s l IH]; [constructor|]. rewrite fmap_cons, NoDup_cons. intros [Hni Hnd] [Hs Hf]%StronglySorted_inv.
  constructor; [by apply IH|]. rewrite Forall_forall in Hf |- *. intros t Ht. specialize (Hf t Ht).
  destruct Hf as [[H1 H2]|[H1 [[H2 H3]|[H2 _]]]]; cbn in *.
  - left. done.
  - right. split; [done|lia].
  - destruct Hni. apply list_elem_of_fmap. exists t. split; [|done]. unfold attempt_of. congruence.
Qed.

(** C23: a finalized trace does not depend on the order in which concurrent
    goroutines appended their steps: when no two steps agree on invocation and attempt, any two
    orders of appending them to a new recorder finalize to the same trace, which has copies of
    exactly those steps, ordered by invocation and then by attempt, the task, the start and end
    times and the time between them. *)
Theorem Finalize_deterministic taskID start endt ss ss' :
  ss ≡ₚ ss' → NoDup (attempt_of <$> ss) →
  let tr := Finalize (foldl AddStep (NewRecorder taskID start) ss) endt in
  tr = Finalize (foldl AddStep (NewRecorder taskID start) ss') endt ∧
  tr_Steps tr ≡ₚ clone_step <$> ss ∧ StronglySorted step_before (tr_Steps tr) ∧
  tr_TaskID tr = taskID ∧ tr_StartTime tr = start ∧ tr_EndTime tr = endt ∧ tr_TotalLatency tr = Sub endt start.
Proof.
  intros Hp Hnd tr. unfold tr, Finalize.
  destruct (AddStep_all (NewRecorder taskID start) ss) as (-> & -> & ->).
  destruct (AddStep_all (NewRecorder taskID start) ss') as (-> & -> & ->). cbn [NewRecorder tr_TaskID tr_StartTime tr_Steps app].
  assert (NoDup (attempt_of <$> (clone_step <$> ss))) as Hnd'.
  { rewrite <- list_fmap_compose. exact Hnd. }
  split; [|split; [apply sort_by_perm|split; [|done]]].
  - f_equal. apply sort_by_proper; try apply _; [|by rewrite Hp]. apply NoDup_fmap_1 with (f := λ k : string * (Z * string), (k.1, k.2.1)).
    rewrite <- list_fmap_compose. exact Hnd'.
  - apply sorted_before; [by rewrite sort_by_perm|apply sort_by_sorted; apply _].
Qed.

Lemma Finalize_deterministic_witness :
  let s1 := mkStep "b" "x" "r" AgentInput_zero AgentOutput_zero "" 0 1 in
  let s2 := mkStep "b" "x" "q" AgentInput_zero AgentOutput_zero "" 0 2 in
  tr_Steps (Finalize (foldl AddStep (NewRecorder "t" 5) [s2; s1]) 9) = [s1; s2] ∧
  Finalize (foldl AddStep (NewRecorder "t" 5) [s1; s2]) 9 = Finalize (foldl AddStep (NewRecorder "t" 5) [s2; s1]) 9.
Proof.
  split; [vm_compute; reflexivity|].
  apply Finalize_deterministic; [apply Permutation_swap|].
  repeat constructor; vm_compute; set_solver.
Defined.

(** ** The latest step of an invocation *)

(** [s] is the step [latestByInvocation] keeps for [id] among [steps]: the last one with the
    greatest attempt number. *)
Definition is_latest (steps : list Step) (id : string) (s : Step) : Prop :=
  ∃ l1 l2, steps = l1 ++ s :: l2 ∧ st_InvocationID s = id ∧
    Forall (λ x, st_InvocationID x = id → st_Attempt x ≤ st_Attempt s) l1 ∧
    Forall (λ x, st_InvocationID x = id → st_Attempt x < st_Attempt s) l2.

Lemma latest_snoc tr s :
  foldl keep_latest ∅ (tr ++ [s]) = keep_latest (foldl keep_latest ∅ tr) s.
Proof. by rewrite foldl_app. Qed.

Lemma keep_latest_other m s id : st_InvocationID s ≠ id → keep_latest m s !! id = m !! id.
Proof. intros. unfold keep_latest. repeat case_match; by rewrite ?lookup_insert_ne. Qed.

Lemma keep_latest_same m s :
  keep_latest m s !! st_InvocationID s =
  match m !! st_InvocationID s with
  | Some prev => if st_Attempt prev <=? st_Attempt s then Some s else Some prev
  | None => Some s
  end.
Proof. unfold keep_latest. repeat case_match; rewrite ?lookup_insert_eq; congruence. Qed.

Lemma latest_None steps id :
  foldl keep_latest ∅ steps !! id = None ↔ Forall (λ x, st_InvocationID x ≠ id) steps.
Proof.
  induction steps as [|s steps IH] using rev_ind; [simpl; by rewrite lookup_empty, Forall_nil|].
  rewrite latest_snoc, Forall_app, Forall_singleton.
  destruct (decide (st_InvocationID s = id)) as [<-|Hne].
  - rewrite keep_latest_same. split; [by repeat case_match|naive_solver].
  - rewrite keep_latest_other, IH by done. naive_solver.
Qed.

Lemma latest_Some steps id s : foldl keep_latest ∅ steps !! id = Some s → is_latest steps id s.
Proof.
  revert s. induction steps as [|x steps IH] using rev_ind; intros s; [done|].
  rewrite latest_snoc. destruct (decide (st_InvocationID x = id)) as [<-|Hne].
  - rewrite keep_latest_same. destruct (_ !! _) as [prev|] eqn:Hprev.
    + destruct (IH _ eq_refl) as (l1 & l2 & -> & Hid & H1 & H2).
      destruct (Z.leb_spec (st_Attempt prev) (st_Attempt x)).
      * intros [= <-]. exists (l1 ++ prev :: l2), [].
        split; [done|]. split; [done|]. split; [|done].
        apply Forall_app; split; [|apply Forall_cons; split]; [|lia|];
          eapply Forall_impl; eauto; simpl; intros y Hy Hyid; specialize (Hy Hyid); lia.
      * intros [= <-]. exists l1, (l2 ++ [x]).
        split; [by rewrite <- app_assoc|]. split; [done|]. split; [done|].
        apply Forall_app; split; [done|]. by apply Forall_singleton.
    + intros [= <-]. exists steps, [].
      split; [done|]. split; [done|]. split; [|done].
      apply latest_None in Hprev. eapply Forall_impl; [exact Hprev|]. simpl. congruence.
  - rewrite keep_latest_other by done. intros (l1 & l2 & -> & Hid & H1 & H2)%IH.
    exists l1, (l2 ++ [x]). split; [by rewrite <- app_assoc|]. split; [done|]. split; [done|].
    apply Forall_app; split; [done|]. rewrite Forall_singleton. congruence.
Qed.

(** Only one step of a trace can be the latest of its invocation. *)
Lemma is_latest_unique steps id s s' : is_latest steps id s → is_latest steps id s' → s = s'.
Proof.
  intros (l1 & l2 & -> & Hid & H1 & H2) (m1 & m2 & He & Hid' & G1 & G2).
  rewrite Forall_forall in H1, H2, G1, G2.
  apply app_eq_inv in He as [(k & -> & He)|(k & -> & He)]; destruct k as [|y k];
    simpl in He; injection He as <- ->; try done.
  - assert (st_Attempt s' ≤ st_Attempt s) by (apply H1; [set_solver|congruence]).
    assert (st_Attempt s < st_Attempt s'); [|lia]. apply G2; [set_solver|congruence].
  - assert (st_Attempt s ≤ st_Attempt s') by (apply G1; [set_solver|congruence]).
    assert (st_Attempt s' < st_Attempt s); [|lia]. apply H2; [set_solver|congruence].
Qed.

Lemma latest_lookup tr id s :
  latestByInvocation tr !! id = Some s ↔ is_latest (tr_Steps tr) id s.
Proof.
  split; [apply latest_Some|]. intros Hl. unfold latestByInvocation.
  destruct (foldl keep_latest ∅ (tr_Steps tr) !! id) as [s'|] eqn:E.
  - f_equal. eapply is_latest_unique; [by apply latest_Some|done].
  - apply latest_None in E. destruct Hl as (l1 & l2 & Heq & Hid & _).
    rewrite Heq in E. rewrite Forall_app, Forall_cons in E. naive_solver.
Qed.

(** ** Comparing traces *)

(** The divergences of two lists of steps: an invocation only one of them has, or a field in which
    the latest steps of an invocation differ; payloads differ in their SHA-256 digests. *)
Inductive diverges (expected actual : list Step) : Divergence → Prop :=
| not_expected id a : is_latest actual id a → Forall (λ s, st_InvocationID s ≠ id) expected →
    diverges expected actual (mkDivergence id "missing_expected" "" (st_AgentID a))
| not_actual id e : is_latest expected id e → Forall (λ s, st_InvocationID s ≠ id) actual →
    diverges expected actual (mkDivergence id "missing_actual" (st_AgentID e) "")
| other_agent id e a : is_latest expected id e → is_latest actual id a → st_AgentID e ≠ st_AgentID a →
    diverges expected actual (mkDivergence id "agent_id" (st_AgentID e) (st_AgentID a))
| other_error id e a : is_latest expected id e → is_latest actual id a → st_Error e ≠ st_Error a →
    diverges expected actual (mkDivergence id "error" (st_Error e) (st_Error a))
| other_request id e a : is_latest expected id e → is_latest actual id a →
    out_RequestID (st_Output e) ≠ out_RequestID (st_Output a) →
    diverges expected actual (mkDivergence id "request_id" (out_RequestID (st_Output e)) (out_RequestID (st_Output a)))
| other_payload id e a ep ap : is_latest expected id e → is_latest actual id a →
    ep = EncodeToString (Sum256 (bytes (bytes_of (out_Payload (st_Output e))))) →
    ap = EncodeToString (Sum256 (bytes (bytes_of (out_Payload (st_Output a))))) → ep ≠ ap →
    diverges expected actual (mkDivergence id "payload_hash" ep ap).

Lemma elem_of_map_keys {V} (m : gmap string V) id : id ∈ (map_to_list m).*1 ↔ is_Some (m !! id).
Proof.
  rewrite list_elem_of_fmap. split.
  - intros ([k v] & -> & Hkv). apply elem_of_map_to_list in Hkv. by exists v.
  - intros [v Hv]. exists (id, v). split; [done|]. by apply elem_of_map_to_list.
Qed.

Lemma Compare_ids (m m' : gmap string Step) id :
  id ∈ (map_to_list m).*1 ++ filter (λ id, id ∉ (map_to_list m).*1) ((map_to_list m').*1) ↔
  is_Some (m !! id) ∨ is_Some (m' !! id).
Proof.
  rewrite elem_of_app, list_elem_of_filter, !elem_of_map_keys.
  destruct (m !! id); naive_solver.
Qed.

Lemma Compare_ids_NoDup (m m' : gmap string Step) :
  NoDup ((map_to_list m).*1 ++ filter (λ id, id ∉ (map_to_list m).*1) ((map_to_list m').*1)).
Proof.
  apply NoDup_app. split; [apply NoDup_fst_map_to_list|]. split.
  - intros id Hid [Hn _]%list_elem_of_filter. done.
  - apply NoDup_filter, NoDup_fst_map_to_list.
Qed.

Lemma elem_of_guarded `{Decision P} {A} (x y : A) : x ∈ (if decide P then [] else [y]) ↔ ¬ P ∧ x = y.
Proof. case_decide; [split; [by intros ?%elem_of_nil|naive_solver]|]. rewrite list_elem_of_singleton. naive_solver. Qed.

(** The latest step of an invocation is the one the map has. *)
#[local] Ltac latest :=
  repeat match goal with
  | H : is_latest (tr_Steps ?tr) _ _, E : latestByInvocation ?tr !! _ = Some _ |- _ =>
      apply latest_lookup in H; rewrite E in H; injection H as <-
  end; subst.

(** The entries of one invocation. *)
Lemma compare_one_diverges expected actual id d :
  is_Some (latestByInvocation expected !! id) ∨ is_Some (latestByInvocation actual !! id) →
  d ∈ compare_one (latestByInvocation expected) (latestByInvocation actual) id ↔
  div_InvocationID d = id ∧ diverges (tr_Steps expected) (tr_Steps actual) d.
Proof.
  unfold compare_one. intros Hdom.
  assert (∀ tr e, is_latest (tr_Steps tr) id e → latestByInvocation tr !! id = None → False) as Hnone.
  { intros tr e He%latest_lookup He'. congruence. }
  assert (∀ tr e, Forall (λ s, st_InvocationID s ≠ id) (tr_Steps tr) → latestByInvocation tr !! id = Some e → False) as Hno.
  { intros tr e He%latest_None He'. unfold latestByInvocation in He'. congruence. }
  destruct (latestByInvocation expected !! id) as [e|] eqn:Ee, (latestByInvocation actual !! id) as [a|] eqn:Ea;
    [| | |by destruct Hdom as [[]|[]]].
  - rewrite !elem_of_app, !elem_of_guarded. unfold payloadHash. split.
    + apply latest_lookup in Ee, Ea. intros [[? ->]|[[? ->]|[[? ->]|[? ->]]]]; (split; [done|]); econstructor; done.
    + intros [<- Hd]. destruct Hd; cbn in *; try (exfalso; by eauto); latest; tauto.
  - rewrite list_elem_of_singleton. split.
    + intros ->. split; [done|]. apply not_actual; [by apply latest_lookup|by apply latest_None].
    + intros [<- Hd]. destruct Hd; cbn in *; try (exfalso; by eauto). by latest.
  - rewrite list_elem_of_singleton. split.
    + intros ->. split; [done|]. apply not_expected; [by apply latest_lookup|by apply latest_None].
    + intros [<- Hd]. destruct Hd; cbn in *; try (exfalso; by eauto). by latest.
Qed.

Lemma compare_one_id m m' id d : d ∈ compare_one m m' id → div_InvocationID d = id.
Proof.
  unfold compare_one. destruct (m !! id), (m' !! id); rewrite ?elem_of_app, ?elem_of_guarded, ?list_elem_of_singleton; naive_solver.
Qed.

Lemma compare_one_NoDup m m' id : NoDup (compare_one m m' id).
Proof.
  unfold compare_one. destruct (m !! id), (m' !! id); try apply NoDup_singleton.
  repeat case_decide; cbn; repeat (apply NoDup_cons; split; [rewrite ?elem_of_cons, elem_of_nil; naive_solver|]); constructor.
Qed.

Lemma elem_of_concat {A B} (f : A → list B) l y : y ∈ concat (f <$> l) ↔ ∃ x, x ∈ l ∧ y ∈ f x.
Proof.
  rewrite list_elem_of_In, in_concat. setoid_rewrite <- list_elem_of_In. setoid_rewrite list_elem_of_fmap. naive_solver.
Qed.

(** The lists of the identifiers one after the other. *)
Lemma concat_by_id (f : string → list Divergence) ids :
  (∀ id d, d ∈ f id → div_InvocationID d = id) → (∀ id, NoDup (f id)) → NoDup ids → StronglySorted String.le ids →
  NoDup (concat (f <$> ids)) ∧ StronglySorted String.le (div_InvocationID <$> concat (f <$> ids)).
Proof.
  intros Hid Hnd. induction ids as [|id ids IH]; [split; constructor|].
  rewrite NoDup_cons. intros [Hni Hnd'] [Hs Hle]%StronglySorted_inv. destruct (IH Hnd' Hs) as [IH1 IH2]. cbn.
  assert (∀ d, d ∈ concat (f <$> ids) → div_InvocationID d ∈ ids) as Hin.
  { intros d (id' & Hid' & Hd)%elem_of_concat. by rewrite (Hid _ _ Hd). }
  split.
  - apply NoDup_app. split; [done|]. split; [|done]. intros d Hd Hd'. apply Hni. rewrite <- (Hid _ _ Hd). by apply Hin.
  - rewrite fmap_app. apply StronglySorted_app. split; [|split; [|done]].
    + intros x y (d & -> & Hd)%list_elem_of_fmap (d' & -> & Hd')%list_elem_of_fmap.
      rewrite (Hid _ _ Hd). rewrite Forall_forall in Hle. by apply Hle, Hin.
    + pose proof (Hid id) as Hfid. clear -Hfid. induction (f id) as [|d l IH]; [constructor|].
      rewrite fmap_cons. constructor; [apply IH; intros; apply Hfid; by right|].
      apply Forall_fmap, Forall_forall. intros d' Hd'. cbn.
      rewrite (Hfid d), (Hfid d') by (by constructor). reflexivity.
Qed.

(** A message about divergences starts with another line. *)
Lemma FormatDivergence_none div : FormatDivergence div = "no divergence detected" ↔ div = [].
Proof.
  split; [|by intros ->]. destruct div as [|d div]; [done|]. intros H. exfalso. revert H.
  unfold FormatDivergence. set (step := λ msg d, _).
  assert (∀ l msg, ∃ rest, foldl step msg l = msg +:+ rest) as Hf.
  { induction l as [|x l IH]; intros msg; cbn [foldl]; [exists ""; by rewrite string_app_nil_r|].
    destruct (IH (step msg x)) as [rest ->]. eexists. unfold step. by rewrite <- string_app_assoc. }
  destruct (Hf (d :: div) ("trace divergence detected:" +:+ newline)) as [rest ->]. done.
Qed.

(** C26: comparing two traces lists exactly their divergences (the invocations
    only one trace has, and for the others every one of agent, error text, output request
    identifier and SHA-256 digest of the output payload in which the latest steps differ, with
    the two values), each once and ordered by the invocation; the printed message says that there
    is none exactly when there is none. *)
Theorem Compare_exact expected actual :
  (∀ d, d ∈ Compare expected actual ↔ diverges (tr_Steps expected) (tr_Steps actual) d) ∧
  NoDup (Compare expected actual) ∧
  StronglySorted String.le (div_InvocationID <$> Compare expected actual) ∧
  (FormatDivergence (Compare expected actual) = "no divergence detected" ↔
   ∀ d, ¬ diverges (tr_Steps expected) (tr_Steps actual) d).
Proof.
  assert (∀ d, d ∈ Compare expected actual ↔ diverges (tr_Steps expected) (tr_Steps actual) d) as Hd.
  { intros d. unfold Compare. cbv zeta. rewrite elem_of_concat. split.
    - intros (id & Hid & Hd). apply elem_of_sort_strings, Compare_ids in Hid.
      by apply compare_one_diverges in Hd as [_ ?].
    - intros Hd. assert (is_Some (latestByInvocation expected !! div_InvocationID d) ∨
        is_Some (latestByInvocation actual !! div_InvocationID d)) as Hid.
      { destruct Hd; [right|left..]; eexists; by apply latest_lookup. }
      eexists. split; [by apply elem_of_sort_strings, Compare_ids|by apply compare_one_diverges]. }
  split; [done|].
  destruct (concat_by_id (compare_one (latestByInvocation expected) (latestByInvocation actual))
    (sort_strings ((map_to_list (latestByInvocation expected)).*1 ++
       filter (λ id, id ∉ (map_to_list (latestByInvocation expected)).*1) ((map_to_list (latestByInvocation actual)).*1))))
    as [Hnd Hs]; [apply compare_one_id|apply compare_one_NoDup|apply sort_strings_NoDup, Compare_ids_NoDup|apply sort_strings_sorted|].
  split; [exact Hnd|]. split; [exact Hs|]. rewrite FormatDivergence_none. setoid_rewrite <- Hd. split.
  - intros -> d. apply not_elem_of_nil.
  - intros Hno. destruct (Compare expected actual) as [|d l]; [done|]. destruct (Hno d). by left.
Qed.

(** ** Replaying *)
Definition replay_matches (s : Step) (o : outcome) : Prop :=
  let '(out, err) := replay_safeCall o in
  match err with
  | Some e => st_Error s ≠ "" ∧ Error e = st_Error s
  | None => st_Error s = "" ∧ out_RequestID out = out_RequestID (st_Output s) ∧
      bytes_of (out_Payload out) = bytes_of (out_Payload (st_Output s))
  end.

Lemma replay_check_None id s o : replay_check id s o = None ↔ replay_matches s o.
Proof.
  unfold replay_check, replay_matches. destruct (replay_safeCall o) as [out [e|]];
    repeat case_decide; split; (done || tauto || naive_solver).
Qed.

Section Replay_pure.
Context {F W : Type} (call : F → AgentInput → outcome) (resolve : string → option F).

(** Calls that leave no state behind. *)
Definition pure_invoke : F → Z → AgentInput → W → W * outcome := λ f _ i w, (w, call f i).

Lemma replay_loop_pure timeout m ids w :
  (replay_loop pure_invoke resolve timeout m ids w).2 = None ↔
  Forall (λ id, let s := default Step_zero (m !! id) in
    ∃ f, resolve (st_AgentID s) = Some f ∧ replay_matches s (call f (st_Input s))) ids.
Proof.
  revert w. induction ids as [|id ids IH]; intros w; [by rewrite Forall_nil|].
  rewrite Forall_cons. cbn [replay_loop]. destruct (resolve _) as [f|]; [|naive_solver].
  unfold pure_invoke at 1. destruct (replay_check _ _ _) eqn:E.
  - split; [done|]. intros [(f' & [= <-] & Hm%(replay_check_None id)) _]. congruence.
  - apply replay_check_None in E. rewrite IH. naive_solver.
Qed.

End Replay_pure.
