(* ===== verification/TraceFile.v ===== *)
(** * Trace files: internal/trace/io.go

    [SaveToFile] writes a trace as indented JSON, [LoadFromFile] reads it back.  The structs
    have no JSON tags, so members are named after the fields. *)

From S2P Require Import Prelude GoErrors GoStrings GoTime Utf8 Json Rfc3339 JsonCodec AgentFunc Trace Os.

Section Codec.
(** The offset from UTC, in whole minutes, of the zone an instant is kept in. *)
Context (zone : time → Z).

(** ** Encoding; [None] when a time cannot be marshalled *)
Definition enc_time (t : time) : option json := JString <$> marshal_time (zone t) t.

Definition enc_input (i : AgentInput) : option json :=
  ts ← enc_time (in_Timestamp i);
  Some (JObject [("TaskID", JString (in_TaskID i)); ("RequestID", JString (in_RequestID i));
    ("Payload", enc_bytes (in_Payload i)); ("Metadata", enc_map (in_Metadata i)); ("Timestamp", ts)]).

Definition enc_output (o : AgentOutput) : json :=
  JObject [("RequestID", JString (out_RequestID o)); ("Payload", enc_bytes (out_Payload o));
    ("Metadata", enc_map (out_Metadata o)); ("Duration", enc_int (out_Duration o))].

Definition enc_step (s : Step) : option json :=
  i ← enc_input (st_Input s);
  Some (JObject [("InvocationID", JString (st_InvocationID s)); ("AgentID", JString (st_AgentID s));
    ("RequestID", JString (st_RequestID s)); ("Input", i); ("Output", enc_output (st_Output s));
    ("Error", JString (st_Error s)); ("Duration", enc_int (st_Duration s)); ("Attempt", enc_int (st_Attempt s))]).

(** The steps of a finalized trace are a nil slice when there are none. *)
Definition enc_steps (l : list Step) : option json :=
  match l with [] => Some JNull | _ => JArray <$> mapM enc_step l end.

Definition enc_trace (tr : ExecutionTrace) : option json :=
  steps ← enc_steps (tr_Steps tr);
  t0 ← enc_time (tr_StartTime tr);
  t1 ← enc_time (tr_EndTime tr);
  Some (JObject [("TaskID", JString (tr_TaskID tr)); ("Steps", steps); ("StartTime", t0); ("EndTime", t1);
    ("TotalLatency", enc_int (tr_TotalLatency tr))]).
End Codec.

(** ** Decoding *)
Definition input_fields : list (string * (json → AgentInput → option AgentInput)) := [
  field_of "TaskID" in_TaskID (λ x i, mkAgentInput x (in_RequestID i) (in_Payload i) (in_Metadata i) (in_Timestamp i)) dec_string;
  field_of "RequestID" in_RequestID (λ x i, mkAgentInput (in_TaskID i) x (in_Payload i) (in_Metadata i) (in_Timestamp i)) dec_string;
  field_of "Payload" in_Payload (λ x i, mkAgentInput (in_TaskID i) (in_RequestID i) x (in_Metadata i) (in_Timestamp i)) dec_bytes;
  field_of "Metadata" in_Metadata (λ x i, mkAgentInput (in_TaskID i) (in_RequestID i) (in_Payload i) x (in_Timestamp i)) dec_map;
  field_of "Timestamp" in_Timestamp (λ x i, mkAgentInput (in_TaskID i) (in_RequestID i) (in_Payload i) (in_Metadata i) x) dec_time].

Definition output_fields : list (string * (json → AgentOutput → option AgentOutput)) := [
  field_of "RequestID" out_RequestID (λ x o, mkAgentOutput x (out_Payload o) (out_Metadata o) (out_Duration o)) dec_string;
  field_of "Payload" out_Payload (λ x o, mkAgentOutput (out_RequestID o) x (out_Metadata o) (out_Duration o)) dec_bytes;
  field_of "Metadata" out_Metadata (λ x o, mkAgentOutput (out_RequestID o) (out_Payload o) x (out_Duration o)) dec_map;
  field_of "Duration" out_Duration (λ x o, mkAgentOutput (out_RequestID o) (out_Payload o) (out_Metadata o) x) dec_int].

Definition step_fields : list (string * (json → Step → option Step)) := [
  field_of "InvocationID" st_InvocationID (λ x s, mkStep x (st_AgentID s) (st_RequestID s) (st_Input s) (st_Output s) (st_Error s) (st_Duration s) (st_Attempt s)) dec_string;
  field_of "AgentID" st_AgentID (λ x s, mkStep (st_InvocationID s) x (st_RequestID s) (st_Input s) (st_Output s) (st_Error s) (st_Duration s) (st_Attempt s)) dec_string;
  field_of "RequestID" st_RequestID (λ x s, mkStep (st_InvocationID s) (st_AgentID s) x (st_Input s) (st_Output s) (st_Error s) (st_Duration s) (st_Attempt s)) dec_string;
  field_of "Input" st_Input (λ x s, mkStep (st_InvocationID s) (st_AgentID s) (st_RequestID s) x (st_Output s) (st_Error s) (st_Duration s) (st_Attempt s)) (dec_struct input_fields);
  field_of "Output" st_Output (λ x s, mkStep (st_InvocationID s) (st_AgentID s) (st_RequestID s) (st_Input s) x (st_Error s) (st_Duration s) (st_Attempt s)) (dec_struct output_fields);
  field_of "Error" st_Error (λ x s, mkStep (st_InvocationID s) (st_AgentID s) (st_RequestID s) (st_Input s) (st_Output s) x (st_Duration s) (st_Attempt s)) dec_string;
  field_of "Duration" st_Duration (λ x s, mkStep (st_InvocationID s) (st_AgentID s) (st_RequestID s) (st_Input s) (st_Output s) (st_Error s) x (st_Attempt s)) dec_int;
  field_of "Attempt" st_Attempt (λ x s, mkStep (st_InvocationID s) (st_AgentID s) (st_RequestID s) (st_Input s) (st_Output s) (st_Error s) (st_Duration s) x) dec_int].

Definition ExecutionTrace_zero : ExecutionTrace := mkExecutionTrace "" [] zero_time zero_time 0.

Definition trace_fields : list (string * (json → ExecutionTrace → option ExecutionTrace)) := [
  field_of "TaskID" tr_TaskID (λ x t, mkExecutionTrace x (tr_Steps t) (tr_StartTime t) (tr_EndTime t) (tr_TotalLatency t)) dec_string;
  field_of "Steps" tr_Steps (λ x t, mkExecutionTrace (tr_TaskID t) x (tr_StartTime t) (tr_EndTime t) (tr_TotalLatency t)) (dec_list (dec_struct step_fields) Step_zero);
  field_of "StartTime" tr_StartTime (λ x t, mkExecutionTrace (tr_TaskID t) (tr_Steps t) x (tr_EndTime t) (tr_TotalLatency t)) dec_time;
  field_of "EndTime" tr_EndTime (λ x t, mkExecutionTrace (tr_TaskID t) (tr_Steps t) (tr_StartTime t) x (tr_TotalLatency t)) dec_time;
  field_of "TotalLatency" tr_TotalLatency (λ x t, mkExecutionTrace (tr_TaskID t) (tr_Steps t) (tr_StartTime t) (tr_EndTime t) x) dec_int].

(** ** The two operations *)
Section Files.
Context {FS : Type} `{!FileSystem FS} (zone : time → Z).
(** The errors of [json.MarshalIndent] on a trace and of [json.Unmarshal] on a text. *)
Context (marshal_error : ExecutionTrace → error) (unmarshal_error : string → error).

Definition SaveToFile (fs : FS) (path : string) (tr : ExecutionTrace) : FS * option error :=
  match enc_trace zone tr with
  | None => let err := marshal_error tr in (fs, Some (Errorf_w ("trace: marshal: " +:+ Error err) err))
  | Some v =>
      match WriteFile fs path (MarshalIndent v) with
      | (fs', Some err) => (fs', Some (Errorf_w ("trace: write " +:+ Quote path +:+ ": " +:+ Error err) err))
      | (fs', None) => (fs', None)
      end
  end.

Definition LoadFromFile (fs : FS) (path : string) : result error ExecutionTrace :=
  match ReadFile fs path with
  | Err err => Err (Errorf_w ("trace: read " +:+ Quote path +:+ ": " +:+ Error err) err)
  | Ok b =>
      match Unmarshal (dec_struct trace_fields) b ExecutionTrace_zero with
      | None => let err := unmarshal_error b in
                Err (Errorf_w ("trace: unmarshal " +:+ Quote path +:+ ": " +:+ Error err) err)
      | Some tr => Ok tr
      end
  end.
End Files.

(** ** Saving and loading *)
Definition strings_ok (l : list string) : bool := forallb valid_utf8 l.

(** Strings are valid UTF-8 and integers fit their types. *)
Record input_ok (i : AgentInput) : Prop := {
  io_strings : strings_ok [in_TaskID i; in_RequestID i] = true;
  io_metadata : map_ok (in_Metadata i)
}.
Record output_ok (o : AgentOutput) : Prop := {
  oo_strings : valid_utf8 (out_RequestID o) = true;
  oo_metadata : map_ok (out_Metadata o);
  oo_duration : int64_range (out_Duration o)
}.
Record saved_step_ok (s : Step) : Prop := {
  so_strings : strings_ok [st_InvocationID s; st_AgentID s; st_RequestID s; st_Error s] = true;
  so_input : input_ok (st_Input s);
  so_output : output_ok (st_Output s);
  so_duration : int64_range (st_Duration s);
  so_attempt : int64_range (st_Attempt s)
}.
Record trace_ok (tr : ExecutionTrace) : Prop := {
  to_task : valid_utf8 (tr_TaskID tr) = true;
  to_steps : Forall saved_step_ok (tr_Steps tr);
  to_latency : int64_range (tr_TotalLatency tr)
}.

(** The same, decided. *)
Definition int64_okb (n : Z) : bool := (min_int64 <=? n) && (n <=? max_int64).
Definition map_okb (m : metadata) : bool :=
  forallb (λ kv, valid_utf8 kv.1 && valid_utf8 kv.2) (map_to_list (default ∅ m)).
Definition step_okb (s : Step) : bool :=
  strings_ok [st_InvocationID s; st_AgentID s; st_RequestID s; st_Error s] &&
  strings_ok [in_TaskID (st_Input s); in_RequestID (st_Input s); out_RequestID (st_Output s)] &&
  map_okb (in_Metadata (st_Input s)) && map_okb (out_Metadata (st_Output s)) &&
  int64_okb (out_Duration (st_Output s)) && int64_okb (st_Duration s) && int64_okb (st_Attempt s).
Definition trace_okb (tr : ExecutionTrace) : bool :=
  valid_utf8 (tr_TaskID tr) && forallb step_okb (tr_Steps tr) && int64_okb (tr_TotalLatency tr).

Lemma int64_okb_ok n : int64_okb n = true → int64_range n.
Proof. unfold int64_okb, int64_range. lia. Qed.

Lemma map_okb_ok m : map_okb m = true → map_ok m.
Proof.
  unfold map_okb. intros H m' k v -> Hk. rewrite forallb_forall in H.
  apply andb_true_iff, (H (k, v)), list_elem_of_In, elem_of_map_to_list, Hk.
Qed.

Lemma step_okb_ok s : step_okb s = true → saved_step_ok s.
Proof.
  unfold step_okb. rewrite !andb_true_iff. intros ((((((H1 & H2) & H3) & H4) & H5) & H6) & H7).
  unfold strings_ok in H2. cbn [forallb] in H2. rewrite !andb_true_iff in H2. destruct H2 as (Ha & Hb & Hc & _).
  split; [done| | |by apply int64_okb_ok..].
  - split; [unfold strings_ok; cbn [forallb]; by rewrite Ha, Hb|by apply map_okb_ok].
  - split; [done|by apply map_okb_ok|by apply int64_okb_ok].
Qed.

Lemma trace_okb_ok tr : trace_okb tr = true → trace_ok tr.
Proof.
  unfold trace_okb. rewrite !andb_true_iff. intros ((H1 & H2) & H3). split; [done| |by apply int64_okb_ok].
  apply Forall_forall. intros s Hs%list_elem_of_In. rewrite forallb_forall in H2. by apply step_okb_ok, H2.
Qed.

(** Decodes the members of an object one after the other. *)
Ltac dec_fields :=
  unfold AgentInput_zero, AgentOutput_zero, Step_zero, ExecutionTrace_zero;
  repeat (erewrite dec_struct_field;
    [cbn [in_TaskID in_RequestID in_Payload in_Metadata in_Timestamp out_RequestID out_Payload out_Metadata out_Duration
          st_InvocationID st_AgentID st_RequestID st_Input st_Output st_Error st_Duration st_Attempt
          tr_TaskID tr_Steps tr_StartTime tr_EndTime tr_TotalLatency]
    |reflexivity|first [reflexivity|apply dec_enc_bytes|apply dec_enc_map|apply dec_enc_int; assumption|eassumption
                        |match goal with H : ∀ old, dec_time _ old = _ |- _ => apply H end]]);
  rewrite dec_struct_done; apply f_equal.

Lemma enc_time_inv zone t v : enc_time zone t = Some v →
  json_ok v = true ∧ json_depth v = 0%nat ∧ ∀ old, dec_time v old = Some t.
Proof.
  unfold enc_time. destruct (marshal_time (zone t) t) as [s|] eqn:E; [|done]. intros [= <-].
  apply marshal_time_inv in E as [Hv Hu]. by cbn.
Qed.

Lemma input_roundtrip zone i v : enc_input zone i = Some v → input_ok i →
  json_ok v = true ∧ (json_depth v ≤ 2)%nat ∧ dec_struct input_fields v AgentInput_zero = Some i.
Proof.
  unfold enc_input. destruct (enc_time zone (in_Timestamp i)) as [ts|] eqn:E; [|done]. intros [= <-] [Hs Hm].
  apply enc_time_inv in E as (Htv & Htd & Hdt). destruct (enc_bytes_ok (in_Payload i)) as [Hbv Hbd].
  split; [|split].
  - unfold strings_ok in Hs. cbn [forallb] in Hs. rewrite !andb_true_iff in Hs. destruct Hs as (H1 & H2 & _).
    cbn [json_ok forallb fst snd]. by rewrite H1, H2, Hbv, Htv, enc_map_ok.
  - cbn [json_depth foldr fst snd]. rewrite Hbd, Htd. pose proof (enc_map_depth (in_Metadata i)). lia.
  - dec_fields. by destruct i.
Qed.

Lemma output_roundtrip o : output_ok o →
  json_ok (enc_output o) = true ∧ (json_depth (enc_output o) ≤ 2)%nat ∧
  dec_struct output_fields (enc_output o) AgentOutput_zero = Some o.
Proof.
  intros [Hs Hm Hd]. destruct (enc_bytes_ok (out_Payload o)) as [Hbv Hbd]. unfold enc_output. split; [|split].
  - cbn [json_ok forallb fst snd enc_int]. by rewrite Hbv, Hs, enc_map_ok, number_ok_Itoa.
  - cbn [json_depth foldr fst snd enc_int]. rewrite Hbd. pose proof (enc_map_depth (out_Metadata o)). lia.
  - dec_fields. by destruct o.
Qed.

Lemma step_roundtrip zone s v : enc_step zone s = Some v → saved_step_ok s →
  json_ok v = true ∧ (json_depth v ≤ 3)%nat ∧ dec_struct step_fields v Step_zero = Some s.
Proof.
  unfold enc_step. destruct (enc_input zone (st_Input s)) as [i|] eqn:E; [|done]. intros [= <-] [Hs Hi Ho Hd Ha].
  destruct (input_roundtrip _ _ _ E Hi) as (Hiv & Hid & Hii). destruct (output_roundtrip _ Ho) as (Hov & Hod & Hoo).
  split; [|split].
  - unfold strings_ok in Hs. cbn [forallb] in Hs. rewrite !andb_true_iff in Hs. destruct Hs as (H1 & H2 & H3 & H4 & _).
    cbn [json_ok forallb fst snd enc_int]. by rewrite H1, H2, H3, H4, Hiv, Hov, !number_ok_Itoa.
  - cbn [json_depth foldr fst snd enc_int]. set (d := json_depth (enc_output (st_Output s))) in *. lia.
  - dec_fields. destruct s. reflexivity.
Qed.

Lemma steps_roundtrip zone l v : enc_steps zone l = Some v → Forall saved_step_ok l →
  json_ok v = true ∧ (json_depth v ≤ 4)%nat ∧ dec_list (dec_struct step_fields) Step_zero v [] = Some l.
Proof.
  destruct l as [|s l]; [intros [= <-] _; cbn; split; [done|split; [lia|done]]|]. unfold enc_steps. remember (s :: l) as ls eqn:Els. clear.
  destruct (mapM (enc_step zone) ls) as [vs|] eqn:E; [|done]. intros [= <-] Hok. apply mapM_Some in E.
  cbn [json_ok json_depth dec_list].
  induction E as [|s v ls vs Hs _ IH]; [cbn; split; [done|split; [lia|done]]|]. inversion Hok as [|? ? Hs1 Hs2]; subst.
  destruct (IH Hs2) as (Hv & Hd & Hl). destruct (step_roundtrip _ _ _ Hs Hs1) as (Hv' & Hd' & Hl').
  cbn [forallb foldr dec_elements head tail default from_option]. rewrite Hv', Hl'. split; [done|]. split; [lia|].
  cbn [mbind option_bind]. by rewrite Hl.
Qed.

Lemma trace_roundtrip zone tr v : enc_trace zone tr = Some v → trace_ok tr →
  printable v ∧ dec_struct trace_fields v ExecutionTrace_zero = Some tr.
Proof.
  unfold enc_trace. destruct (enc_steps zone (tr_Steps tr)) as [steps|] eqn:Es; [|done]. cbn [mbind option_bind].
  destruct (enc_time zone (tr_StartTime tr)) as [t0|] eqn:E0; [|done]. cbn [mbind option_bind].
  destruct (enc_time zone (tr_EndTime tr)) as [t1|] eqn:E1; [|done]. cbn [mbind option_bind].
  intros [= <-] [Ht Hs Hl]. apply enc_time_inv in E0 as (Hv0 & Hd0 & H0), E1 as (Hv1 & Hd1 & H1).
  destruct (steps_roundtrip _ _ _ Es Hs) as (Hsv & Hsd & Hss). split; [split|].
  - cbn [json_ok forallb fst snd enc_int]. by rewrite Ht, Hsv, Hv0, Hv1, number_ok_Itoa.
  - cbn [json_depth foldr fst snd enc_int]. unfold maxNestingDepth. rewrite Hd0, Hd1. lia.
  - dec_fields. by destruct tr.
Qed.

(** A trace whose times can be written is written. *)
Lemma enc_time_some zone t : 0 ≤ f_Year (fields_of (t + zone t * Minute)) ≤ 9999 → Z.abs (zone t) < 1440 →
  is_Some (enc_time zone t).
Proof. intros Hy Hz. unfold enc_time, marshal_time. replace (_ && _) with true by lia. by eexists. Qed.

Lemma saved_trace_loads {FS} `{FileSystemLaws FS} zone merr uerr (fs fs' : FS) path tr :
  trace_ok tr → SaveToFile zone merr fs path tr = (fs', None) → LoadFromFile uerr fs' path = Ok tr.
Proof.
  intros Hok. unfold SaveToFile, LoadFromFile. destruct (enc_trace zone tr) as [v|] eqn:E; [|done].
  destruct (trace_roundtrip _ _ _ E Hok) as [Hp Hd].
  destruct (WriteFile fs path (MarshalIndent v)) as [fs1 [err|]] eqn:Ew; [done|]. intros [= <-].
  rewrite (read_write _ _ _ _ Ew). unfold Unmarshal. rewrite parse_MarshalIndent by done. cbn. by rewrite Hd.
Qed.

(** C28: a trace whose strings are valid UTF-8 and whose integers fit their
    types, saved to a file without an error, is loaded from that file unchanged: all steps, byte
    payloads (empty and nil ones kept apart), metadata and instants, whatever zones of whole
    minutes these are written in. *)
Theorem trace_file_roundtrip {FS} `{FileSystemLaws FS} zone merr uerr (fs fs' : FS) path tr :
  trace_ok tr → SaveToFile zone merr fs path tr = (fs', None) →
  LoadFromFile uerr fs' path = Ok tr.
Proof. apply saved_trace_loads. Qed.

(** ** A saved trace *)
Definition sample_step : Step :=
  mkStep "0001_a" "a" "req" (mkAgentInput "t" "req" (Some "x<y") (Some {[ "k" := "v" ]}) 63000000000000000000)
    (mkAgentOutput "req" None None 5) "" 7 1.
Definition sample_trace : ExecutionTrace :=
  mkExecutionTrace "t" [sample_step] 63000000000000000001 63000000000000000009 8.

Lemma sample_trace_ok : trace_ok sample_trace.
Proof. apply trace_okb_ok. vm_compute. reflexivity. Qed.

Lemma trace_file_roundtrip_witness :
  let no_err := λ {A} (_ : A), Errorf "json" in
  let r := SaveToFile (λ _, 90) no_err (∅ : gmap string string) "trace.json" sample_trace in
  r.2 = None ∧ LoadFromFile no_err r.1 "trace.json" = Ok sample_trace.
Proof.
  intros ne r. assert (r.2 = None) as Hr by (vm_compute; reflexivity). split; [exact Hr|].
  apply (trace_file_roundtrip (λ _, 90) (ne _) (ne _) ∅ r.1 "trace.json" sample_trace sample_trace_ok).
  unfold r in *. destruct (SaveToFile _ _ _ _ _) as [fs' err]. cbn in *. by rewrite Hr.
Defined.

(** ** What a file gives is well formed *)
#[local] Abbreviation valid s := (valid_utf8 s = true).
Definition input_typed (i : AgentInput) : Prop := valid (in_TaskID i) ∧ valid (in_RequestID i) ∧ map_ok (in_Metadata i).
Definition output_typed (o : AgentOutput) : Prop := valid (out_RequestID o) ∧ map_ok (out_Metadata o) ∧ int64_range (out_Duration o).
Definition step_typed (s : Step) : Prop :=
  valid (st_InvocationID s) ∧ valid (st_AgentID s) ∧ valid (st_RequestID s) ∧ valid (st_Error s) ∧
  input_typed (st_Input s) ∧ output_typed (st_Output s) ∧ int64_range (st_Duration s) ∧ int64_range (st_Attempt s).
Definition trace_typed (tr : ExecutionTrace) : Prop :=
  valid (tr_TaskID tr) ∧ Forall step_typed (tr_Steps tr) ∧ int64_range (tr_TotalLatency tr).

Lemma trace_typed_ok tr : trace_typed tr → trace_ok tr.
Proof.
  intros (H1 & H2 & H3). split; [done| |done]. eapply Forall_impl; [exact H2|].
  intros s (Ha & Hb & Hc & Hd & (Hi1 & Hi2 & Hi3) & (Ho1 & Ho2 & Ho3) & He & Hf). split; try done.
  - unfold strings_ok. cbn [forallb]. by rewrite Ha, Hb, Hc, Hd.
  - split; [unfold strings_ok; cbn [forallb]; by rewrite Hi1, Hi2|done].
Qed.

(** Each field keeps the record well formed, by the decoder of its type. *)
Ltac keeps_fields :=
  apply decodes_struct;
  repeat (apply Forall_cons; split;
    [eapply field_of_keeps; [first [apply decodes_string|apply decodes_int|apply decodes_map|eassumption|apply decodes_any]
      |intros ? ?; cbn; tauto|intros ? ? ? ?; cbn; cbn in *; tauto]|]); apply Forall_nil_2.

Lemma decodes_input : decodes (dec_struct input_fields) input_typed.
Proof. unfold input_typed, input_fields. keeps_fields. Qed.

Lemma decodes_output : decodes (dec_struct output_fields) output_typed.
Proof. unfold output_typed, output_fields. keeps_fields. Qed.

Lemma decodes_step : decodes (dec_struct step_fields) step_typed.
Proof. pose proof decodes_input. pose proof decodes_output. unfold step_typed, step_fields. keeps_fields. Qed.

Lemma zero_typed : input_typed AgentInput_zero ∧ output_typed AgentOutput_zero ∧ step_typed Step_zero ∧ trace_typed ExecutionTrace_zero.
Proof.
  assert (map_ok None) as Hm by (by intros m k v). assert (int64_range 0) as H0 by (by split).
  assert (valid "") as Hv by done. unfold trace_typed, step_typed, input_typed, output_typed. cbn. repeat split; done || constructor.
Qed.

Lemma decodes_trace : decodes (dec_struct trace_fields) trace_typed.
Proof.
  pose proof (decodes_list (dec_struct step_fields) Step_zero step_typed decodes_step ltac:(apply zero_typed)) as Hsteps.
  unfold trace_typed, trace_fields. keeps_fields.
Qed.

(** C29: every trace that loads from a file, whatever wrote the file, is well formed
    (strings are valid UTF-8, integers fit their types), so that saving it again without an
    error and loading the result gives the same trace. *)
Theorem loaded_trace_typed {FS} `{FileSystemLaws FS} uerr (fs : FS) path tr :
  LoadFromFile uerr fs path = Ok tr →
  trace_ok tr ∧ ∀ zone merr fs1 fs2 path', SaveToFile zone merr fs1 path' tr = (fs2, None) → LoadFromFile uerr fs2 path' = Ok tr.
Proof.
  unfold LoadFromFile at 1. destruct (ReadFile fs path) as [b|]; [|done]. unfold Unmarshal.
  destruct (parse b) as [v|] eqn:Ep; [|done]. cbn [mbind option_bind].
  destruct (dec_struct trace_fields v ExecutionTrace_zero) as [tr'|] eqn:Ed; [|done]. intros [= ->].
  assert (trace_ok tr) as Hok.
  { apply trace_typed_ok. eapply decodes_trace; [|apply zero_typed|exact Ed]. by apply parse_printable in Ep as [? _]. }
  split; [done|]. intros zone merr fs1 fs2 path'. by apply saved_trace_loads.
Qed.

Lemma loaded_trace_typed_witness :
  let fs := {[ "t.json" := dq "{'taskid':'a','Steps':[{'AgentID':'x','Attempt':2,'Extra':[1]}]}" ]} : gmap string string in
  match LoadFromFile Errorf fs "t.json" with
  | Ok tr => st_AgentID <$> tr_Steps tr = ["x"] ∧ trace_ok tr
  | Err _ => False
  end.
Proof.
  intros fs. destruct (LoadFromFile Errorf fs "t.json") as [tr|e] eqn:E; [|vm_compute in E; discriminate E].
  split; [vm_compute in E; injection E as <-; reflexivity|]. exact (proj1 (loaded_trace_typed Errorf fs "t.json" tr E)).
Defined.
