(* ===== verification/AstraGraph.v ===== *)
(** * The AstraGraph exporter: internal/trace/astragraph_exporter.go

    [buildAstraGraphEntries] turns the steps of a trace into audit entries, [ExportAstraGraphAudit]
    writes them to a file and posts them.  The arguments of an entry are JSON text. *)

From S2P Require Import Prelude GoErrors GoStrings GoTime Utf8 Json JsonCodec JsonAny Rfc3339 GoPath AgentFunc Trace Os.

Record AstraGraphAuditEntry := mkEntry {
  ae_WorkflowID : string;
  ae_AgentID : string;
  ae_ToolName : string;
  ae_Arguments : string;
  ae_Status : string;
  ae_DeviationScore : Z;
  ae_Timestamp : string
}.

(** [json.Unmarshal(text, &v)] for [v] of type any. *)
Definition unmarshal_any (text : string) : option json := parse text ≫= through_any.

Definition normalizePayload (payload : slice) : string :=
  let trimmed := TrimSpace (bytes_of payload) in
  if decide (trimmed = "") then Marshal (JObject [])
  else match unmarshal_any trimmed with
       | Some (JObject ms) => Marshal (JObject ms)
       | _ => Marshal (JObject [("payload", JString trimmed)])
       end.

(** The namespace is added to the arguments unless they have one. *)
Definition with_namespace (arguments namespace : string) : string :=
  match unmarshal_any arguments with
  | Some (JObject ms) =>
      let parsed := map_of ms in
      let parsed := match parsed !! "namespace" with
                    | Some _ => parsed
                    | None => <["namespace" := JString namespace]> parsed
                    end in
      Marshal (JObject (sorted_members parsed))
  | _ => arguments
  end.

(** One step; [now] is the clock, read when the step has no timestamp. *)
Definition step_entry (taskID namespace : string) (now : time) (step : Step) : AstraGraphAuditEntry :=
  let input := st_Input step in
  let toolName := default "" (m ← in_Metadata input; m !! "tool_name") in
  let toolName := if decide (toolName = "") then st_AgentID step else toolName in
  let toolName := if decide (toolName = "") then "unknown_tool" else toolName in
  let arguments := normalizePayload (in_Payload input) in
  let arguments :=
    if bool_decide (is_Some (in_Metadata input)) && negb (bool_decide (namespace = ""))
    then with_namespace arguments namespace else arguments in
  let '(status, score) := if decide (TrimSpace (st_Error step) = "") then ("allowed", 0) else ("blocked", 1) in
  let ts := utc_text (in_Timestamp input) in
  let ts := if decide (ts = "0001-01-01T00:00:00Z") then utc_text now else ts in
  mkEntry taskID (st_AgentID step) toolName arguments status score ts.

Definition buildAstraGraphEntries (execTrace : ExecutionTrace) (namespace : string) (now : time) :
    list AstraGraphAuditEntry :=
  step_entry (tr_TaskID execTrace) namespace now <$> tr_Steps execTrace.

(** ** File names *)
Definition is_plain (r : Z) : bool := ((97 <=? r) && (r <=? 122)) || ((48 <=? r) && (r <=? 57)).

Fixpoint safe_runes (lastUnderscore : bool) (rs : list Z) : list Z :=
  match rs with
  | [] => []
  | r :: rs' =>
      if is_plain r then r :: safe_runes false rs'
      else if lastUnderscore then safe_runes true rs'
      else 95 :: safe_runes true rs'
  end.

Definition safeFilePart (s : string) : string :=
  if decide (s = "") then "trace"
  else
    let out := string_of_bytes (trim_both 95 (safe_runes false (runes_of_string (ToLower s)))) in
    if decide (out = "") then "trace" else out.

(** ** Exporting *)
Definition entry_json (e : AstraGraphAuditEntry) : json :=
  JObject [("workflow_id", JString (ae_WorkflowID e)); ("agent_id", JString (ae_AgentID e));
    ("tool_name", JString (ae_ToolName e)); ("arguments", default JNull (parse (ae_Arguments e)));
    ("status", JString (ae_Status e)); ("deviation_score", JNumber (Itoa (ae_DeviationScore e)));
    ("timestamp", JString (ae_Timestamp e))].

Section Exporting.
Context {FS : Type} `{!FileSystem FS}.
(** [http.NewRequest] on an endpoint, and the status an endpoint answers a POST with. *)
Context (new_request_error : string → option error).
Context (post : string → list (string * string) → string → result error Z).

Definition post_entries (getenv : string → string) (endpoint : string) (entries : list AstraGraphAuditEntry) : option error :=
  match new_request_error endpoint with
  | Some err => Some (Errorf_w ("astragraph export request: " +:+ Error err) err)
  | None =>
      let token := TrimSpace (getenv "ASTRAGRAPH_TOKEN") in
      let headers := ("Content-Type", "application/json") ::
        (if decide (token = "") then [] else [("Authorization", "Bearer " +:+ token)]) in
      match post endpoint headers (Marshal (JArray (entry_json <$> entries))) with
      | Err err => Some (Errorf_w ("astragraph export post: " +:+ Error err) err)
      | Ok status =>
          if (status <? 200) || (300 <=? status)
          then Some (Errorf ("astragraph export post failed: status=" +:+ Itoa status)) else None
      end
  end.

Definition write_entries (fs : FS) (resolvedPath : string) (entries : list AstraGraphAuditEntry) : FS * option error :=
  match MkdirAll fs (Dir resolvedPath) with
  | (fs1, Some err) => (fs1, Some (Errorf_w ("astragraph export mkdir: " +:+ Error err) err))
  | (fs1, None) =>
      (* indenting scans the text, and refuses what is nested too deeply *)
      if maxNestingDepth <? Z.of_nat (json_depth (JArray (entry_json <$> entries)))
      then (fs1, Some (Errorf_w "astragraph export marshal: exceeded max depth" (Errorf "exceeded max depth")))
      else
        match WriteFile fs1 resolvedPath (MarshalIndent (JArray (entry_json <$> entries))) with
        | (fs2, Some err) => (fs2, Some (Errorf_w ("astragraph export write: " +:+ Error err) err))
        | (fs2, None) => (fs2, None)
        end
  end.

Definition ExportAstraGraphAudit (getenv : string → string) (fs : FS) (execTrace : ExecutionTrace) (namespace : string)
    (now : time) : FS * (string * option error) :=
  let entries := buildAstraGraphEntries execTrace namespace now in
  match entries with
  | [] => (fs, ("", None))
  | _ =>
      let auditPath := TrimSpace (getenv "ASTRAGRAPH_AUDIT_PATH") in
      let endpoint := TrimSpace (getenv "ASTRAGRAPH_AUDIT_ENDPOINT") in
      let finish fs resolvedPath :=
        (fs, (resolvedPath, if decide (endpoint = "") then None else post_entries getenv endpoint entries)) in
      if decide (auditPath = "") then finish fs ""
      else
        let resolvedPath := ReplaceAll auditPath "{task_id}" (safeFilePart (tr_TaskID execTrace)) in
        let resolvedPath := if IsAbs resolvedPath then resolvedPath else Clean resolvedPath in
        match write_entries fs resolvedPath entries with
        | (fs', Some err) => (fs', ("", Some err))
        | (fs', None) => finish fs' resolvedPath
        end
  end.
End Exporting.

Example astragraph_checks :
  normalizePayload (Some (dq " {'b':1.0,'a':[2e2,'x'],'b':7} ")) = dq "{'a':[200,'x'],'b':7}" ∧
  normalizePayload (Some "plain") = dq "{'payload':'plain'}" ∧ normalizePayload None = "{}" ∧
  with_namespace (dq "{'a':1}") "ns" = dq "{'a':1,'namespace':'ns'}" ∧
  with_namespace (dq "{'namespace':'x'}") "ns" = dq "{'namespace':'x'}" ∧
  safeFilePart "Acme/../Task #7!" = "acme_task_7" ∧ safeFilePart "///" = "trace".
Proof. vm_compute. repeat split; reflexivity. Qed.

(** ** Arguments are always a JSON object *)
Definition is_object (text : string) (ms : list (string * json)) : Prop := parse text = Some (JObject ms).

Lemma unmarshal_any_printable text v : unmarshal_any text = Some v → printable v.
Proof.
  unfold unmarshal_any. destruct (parse text) as [u|] eqn:E; [|done]. intros Hv. apply parse_printable in E as [Hok Hd].
  destruct (through_any_printable u v Hv Hok) as [H1 H2]. split; [done|]. lia.
Qed.

Lemma normalizePayload_object payload : ∃ ms, is_object (normalizePayload payload) ms ∧ printable (JObject ms) ∧
  is_Some (through_any (JObject ms)).
Proof.
  unfold normalizePayload. case_decide; [exists []; repeat split; by try eexists|].
  set (raw := Marshal _). assert (∃ ms, is_object raw ms ∧ printable (JObject ms) ∧ is_Some (through_any (JObject ms))) as Hraw.
  { assert (writable (JObject [("payload", JString (TrimSpace (bytes_of payload)))])) as Hw by done.
    eexists. unfold is_object, raw. rewrite parse_Marshal_clean by done. split; [reflexivity|].
    split; [apply (clean_printable _ Hw)|by eexists]. }
  destruct (unmarshal_any _) as [[| | | | |ms]|] eqn:E; try done. exists ms. pose proof (unmarshal_any_printable _ _ E) as Hp.
  split; [by apply parse_Marshal|]. split; [done|]. unfold unmarshal_any in E. destruct (parse _) as [v|]; [|done].
  rewrite (through_any_idem _ _ E). by eexists.
Qed.

(** Adding the namespace to an object gives an object with that key. *)
Lemma with_namespace_object arguments namespace ms : is_object arguments ms → printable (JObject ms) →
  ∃ ms', is_object (with_namespace arguments namespace) ms' ∧ printable (JObject ms') ∧
    (is_Some (through_any (JObject ms)) → ∃ v, ("namespace", v) ∈ ms').
Proof.
  intros Ho Hp. unfold with_namespace, unmarshal_any. rewrite Ho. cbn [mbind option_bind].
  destruct (through_any (JObject ms)) as [w|] eqn:E; [|exists ms; split; [done|split; [done|by intros [? ?]]]].
  pose proof (through_any_printable _ _ E (proj1 Hp)) as [Hw1 Hw2].
  assert (∃ ms1, w = JObject ms1) as [ms1 ->].
  { cbn in E. destruct (mapM _ ms); [|done]. injection E as <-. by eexists. }
  set (parsed := match map_of ms1 !! "namespace" with Some _ => _ | None => _ end).
  assert (∀ k x, (k, x) ∈ sorted_members parsed → (k, x) ∈ ms1 ∨ x = JString namespace) as Hin.
  { intros k x Hx%sorted_members_elem. revert Hx. unfold parsed.
    destruct (map_of ms1 !! "namespace"); [intros H; left; by apply map_of_lookup|].
    rewrite lookup_insert_Some. intros [[_ <-]|[_ H]]; [by right|left; by apply map_of_lookup]. }
  assert (writable (JObject (sorted_members parsed))) as Hwr.
  { cbn in Hw1. rewrite forallb_forall in Hw1. split.
    - cbn. apply forallb_forall. intros [k x] H%list_elem_of_In. destruct (Hin _ _ H) as [Hx| ->]; [|done].
      apply (list_elem_of_In _ _), Hw1, andb_true_iff in Hx as [_ Hx]. by apply clean_id.
    - destruct Hp as [_ Hp]. cbn in Hw2, Hp |- *.
      assert (foldr (λ m d, json_depth m.2 `max` d) 0 (sorted_members parsed) ≤ foldr (λ m d, json_depth m.2 `max` d) 0 ms1)%nat; [|lia].
      apply (foldr_max_bound (λ m : string * json, json_depth m.2)), Forall_forall. intros [k x] H.
      destruct (Hin _ _ H) as [Hx| ->]; [|cbn; lia]. apply (foldr_max_le (λ m : string * json, json_depth m.2) _ _ Hx). }
  eexists. unfold is_object. rewrite parse_Marshal_clean by done. split; [reflexivity|].
  split; [apply (clean_printable _ Hwr)|]. intros _.
  assert (is_Some (parsed !! "namespace")) as [v Hv].
  { unfold parsed. destruct (map_of ms1 !! "namespace") eqn:En; [rewrite En; by eexists|]. rewrite lookup_insert_eq. by eexists. }
  exists (clean v). apply sorted_members_elem in Hv. apply list_elem_of_fmap. by exists ("namespace", v).
Qed.

(** ** Safe names *)

(** Lower-case letters and digits in words separated by single underscores. *)
Definition single (c : Z) (l : list Z) : Prop := ∀ i, l !! i = Some c → l !! S i ≠ Some c.
Record slug (l : list Z) : Prop := {
  slug_chars : Forall (λ c, is_plain c || (c =? 95) = true) l;
  slug_single : single 95 l;
  slug_head : head l ≠ Some 95;
  slug_last : last l ≠ Some 95
}.

Lemma safe_runes_spec u rs :
  Forall (λ c, is_plain c || (c =? 95) = true) (safe_runes u rs) ∧ single 95 (safe_runes u rs) ∧
  (u = true → head (safe_runes u rs) ≠ Some 95).
Proof.
  revert u. induction rs as [|r rs IH]; intros u; cbn; [by repeat split; [constructor|intros i|]|].
  destruct (is_plain r) eqn:Er.
  - destruct (IH false) as (H1 & H2 & _). split; [constructor; [by rewrite Er|done]|]. split.
    + intros [|i]; [|apply H2]. intros [= ->]. done.
    + intros _ [= ->]. done.
  - destruct (IH true) as (H1 & H2 & H3). destruct u; [by split|]. split; [by constructor|]. split; [|done].
    intros [|i]; [|apply H2]. intros _. rewrite lookup_cons. cbn. rewrite <- head_lookup. by apply H3.
Qed.

Lemma trim_slug u rs : slug (trim_both 95 (safe_runes u rs)).
Proof.
  destruct (safe_runes_spec u rs) as (H1 & H2 & _). unfold trim_both.
  destruct (trim_infix (λ x, x =? 95) (safe_runes u rs)) as (a & b & E). set (t := trim _ _) in *. split.
  - rewrite E, !Forall_app in H1. tauto.
  - intros i Hi Hi'. rewrite E in H2. apply (H2 (length a + i)%nat).
    + rewrite lookup_app_r, lookup_app_l by (try (apply lookup_lt_Some in Hi); lia). by replace (length a + i - length a)%nat with i by lia.
    + rewrite lookup_app_r, lookup_app_l by (try (apply lookup_lt_Some in Hi'); lia).
      by replace (S (length a + i) - length a)%nat with (S i) by lia.
  - intros H. discriminate (trim_ends (λ x, x =? 95) (safe_runes u rs) 95 (or_introl H)).
  - intros H. discriminate (trim_ends (λ x, x =? 95) (safe_runes u rs) 95 (or_intror H)).
Qed.

(** The part of a file name made from a task id is never empty and is words of
    lower-case letters and digits joined by single underscores, so it has no separator, no dot
    and nothing that leaves the directory. *)
Theorem safeFilePart_slug s : bytes (safeFilePart s) ≠ [] ∧ slug (bytes (safeFilePart s)).
Proof.
  assert (bytes "trace" ≠ [] ∧ slug (bytes "trace")) as Htrace.
  { split; [done|]. split; [by repeat constructor| |done|done]. intros i Hi. by do 6 (destruct i as [|i]; [done|]). }
  unfold safeFilePart. case_decide; [done|]. case_decide as Hout; [done|].
  set (l := trim_both 95 _) in *. assert (slug l) as Hl by apply trim_slug. clearbody l.
  assert (Forall byte_range l) as Hb.
  { eapply Forall_impl; [exact (slug_chars _ Hl)|]. intros c. cbn. unfold is_plain, byte_range. lia. }
  rewrite bytes_string_of_bytes by done. split; [|done]. by intros ->.
Qed.

(** ** What an entry says of its step *)
Definition entry_of (taskID namespace : string) (step : Step) (e : AstraGraphAuditEntry) : Prop :=
  ae_WorkflowID e = taskID ∧ ae_AgentID e = st_AgentID step ∧ ae_ToolName e ≠ "" ∧
  (TrimSpace (st_Error step) = "" ∧ ae_Status e = "allowed" ∧ ae_DeviationScore e = 0 ∨
   TrimSpace (st_Error step) ≠ "" ∧ ae_Status e = "blocked" ∧ ae_DeviationScore e = 1) ∧
  ∃ ms, is_object (ae_Arguments e) ms ∧ printable (JObject ms) ∧
    (is_Some (in_Metadata (st_Input step)) → namespace ≠ "" → ∃ v, ("namespace", v) ∈ ms).

Lemma step_entry_of taskID namespace now step : entry_of taskID namespace step (step_entry taskID namespace now step).
Proof.
  unfold step_entry. destruct (normalizePayload_object (in_Payload (st_Input step))) as (ms & Ho & Hp & Ht).
  set (args := if _ && _ then _ else _).
  assert (∃ ms, is_object args ms ∧ printable (JObject ms) ∧
    (is_Some (in_Metadata (st_Input step)) → namespace ≠ "" → ∃ v, ("namespace", v) ∈ ms)) as Hargs.
  { unfold args. destruct (_ && _) eqn:E.
    - destruct (with_namespace_object _ namespace _ Ho Hp) as (ms' & ? & ? & Hn). exists ms'. auto.
    - exists ms. split; [done|]. split; [done|]. intros Hm Hns. rewrite !bool_decide_true in E by done.
      by rewrite bool_decide_false in E. }
  unfold entry_of. destruct (decide (TrimSpace (st_Error step) = "")); cbn;
    (split; [done|split; [done|split; [by repeat case_decide|]]]); (split; [auto|done]).
Qed.

(** The exported entries are one per step of the trace, in its order; each
    names the trace's task and the step's agent, has a tool name, is blocked with score 1 exactly
    when the step's error is not blank, and its arguments are a JSON object whatever the payload
    was, with a namespace whenever the input has metadata and the run has a namespace. *)
Lemma astragraph_entries execTrace namespace now :
  Forall2 (entry_of (tr_TaskID execTrace) namespace) (tr_Steps execTrace)
    (buildAstraGraphEntries execTrace namespace now).
Proof. unfold buildAstraGraphEntries. apply Forall2_fmap_r, Forall_Forall2_diag, Forall_forall. intros step _. apply step_entry_of. Qed.

(** ** The exported file *)
Lemma entry_json_numbers taskID namespace step e : entry_of taskID namespace step e → numbers_ok (entry_json e) = true.
Proof.
  intros (_ & _ & _ & _ & ms & Ho & Hp & _). unfold entry_json. rewrite Ho. destruct (printable_writable _ Hp) as [_ [Hn _]].
  cbn [numbers_ok forallb fst snd default from_option id] in *. by rewrite Hn, number_ok_Itoa.
Qed.

Lemma entries_numbers execTrace namespace now :
  numbers_ok (JArray (entry_json <$> buildAstraGraphEntries execTrace namespace now)) = true.
Proof.
  cbn. apply forallb_forall. intros v (e & <- & He)%in_map_iff. unfold buildAstraGraphEntries in He.
  apply in_map_iff in He as (step & <- & _). by eapply entry_json_numbers, step_entry_of.
Qed.

Lemma write_entries_read {FS} `{FileSystemLaws FS} (fs fs' : FS) path entries :
  numbers_ok (JArray (entry_json <$> entries)) = true → write_entries fs path entries = (fs', None) →
  ∃ text, ReadFile fs' path = Ok text ∧ parse text = Some (JArray ((λ e, clean (entry_json e)) <$> entries)).
Proof.
  intros Hnum. unfold write_entries.
  destruct (MkdirAll fs (Dir path)) as [fs1 [err|]] eqn:Em; [done|]. destruct (Z.ltb_spec maxNestingDepth
    (Z.of_nat (json_depth (JArray (entry_json <$> entries))))) as [|Hd]; [done|].
  destruct (WriteFile fs1 path _) as [fs2 [err|]] eqn:Ew; [done|]. intros [= <-]. eexists. split; [by eapply read_write|].
  rewrite parse_MarshalIndent_clean by done. cbn. by rewrite <- list_fmap_compose.
Qed.

(** C31: when an audit path is configured and the trace has a step, an export
    that reports success has written, at the path it returns, a JSON array that reads back as one
    entry per step of the trace, in its order.  Each entry names the trace's task and the step's
    agent, has a tool name, is blocked with score 1 exactly when the step's error is not blank,
    and its arguments are a JSON object whatever the payload was, with a namespace whenever the
    input has metadata and the run has a namespace. *)
Theorem astragraph_export_file {FS} `{FileSystemLaws FS} req post getenv (fs fs' : FS) execTrace namespace now path :
  TrimSpace (getenv "ASTRAGRAPH_AUDIT_PATH") ≠ "" → tr_Steps execTrace ≠ [] →
  ExportAstraGraphAudit req post getenv fs execTrace namespace now = (fs', (path, None)) →
  ∃ text entries, ReadFile fs' path = Ok text ∧ parse text = Some (JArray ((λ e, clean (entry_json e)) <$> entries)) ∧
    Forall2 (entry_of (tr_TaskID execTrace) namespace) (tr_Steps execTrace) entries.
Proof.
  intros Hpath Hsteps. unfold ExportAstraGraphAudit. pose proof (entries_numbers execTrace namespace now) as Hnum.
  pose proof (astragraph_entries execTrace namespace now) as Hall. set (entries := buildAstraGraphEntries _ _ _) in *.
  destruct entries as [|e0 es] eqn:Ee; [by apply Forall2_nil_inv_r in Hall|]. rewrite <- Ee in *. clear e0 es Ee.
  rewrite decide_False by done. set (rp := if IsAbs _ then _ else _).
  destruct (write_entries fs rp entries) as [fs1 [err|]] eqn:Ew; [done|]. intros [= <- <- _].
  destruct (write_entries_read fs fs1 rp entries Hnum Ew) as (text & Hr & Hp). by exists text, entries.
Qed.

Definition sample_export :=
  ExportAstraGraphAudit (λ _, None) (λ _ _ _, Err (Errorf "offline"))
    (λ k, if decide (k = "ASTRAGRAPH_AUDIT_PATH") then " out/../audit/{task_id}.json " else "")
    (∅ : gmap string string)
    (mkExecutionTrace "Task/1" [mkStep "0001_a" "a" "r" (mkAgentInput "Task/1" "r" (Some "hi") (Some ∅) 0)
      (mkAgentOutput "r" None None 0) "boom" 0 1] 0 0 0) "acme" 0.

Lemma astragraph_export_file_witness :
  sample_export.2 = ("audit/task_1.json", None) ∧
  ∃ text, ReadFile sample_export.1 "audit/task_1.json" = Ok text ∧ is_Some (parse text).
Proof.
  assert (sample_export.2 = ("audit/task_1.json", None)) as Hr by (vm_compute; reflexivity). split; [exact Hr|].
  remember sample_export as r eqn:Er. destruct r as [fs' res]. cbn in Hr. subst res. symmetry in Er.
  unfold sample_export in Er.
  apply astragraph_export_file in Er as (text & entries & H1 & H2 & _); [|vm_compute; discriminate|discriminate].
  exists text. split; [exact H1|]. rewrite H2. by eexists.
Defined.
