(* ===== verification/AuditLog.v ===== *)
(** * The audit log: internal/audit

    [Logger.Write] appends one line of JSON per event, [ExportJSONLToCSV] turns such a file into
    CSV.  The file system is a parameter; the mutex makes the writes of one process a sequence. *)

From S2P Require Import Prelude GoErrors GoStrings GoTime Utf8 Json Calendar Rfc3339 JsonCodec GoPath Os.

Record Event := mkEvent {
  ev_Timestamp : string;
  ev_Actor : string;
  ev_Action : string;
  ev_Resource : string;
  ev_Status : string;
  ev_Error : string
}.

Record Logger := mkLogger { lg_path : string }.

Definition NewLogger (path : string) : option Logger := Some (mkLogger path).

(** The receiver can be nil. *)
Definition Enabled (l : option Logger) : bool :=
  match l with Some lg => negb (bool_decide (lg_path lg = "")) | None => false end.

(** An empty error is omitted. *)
Definition enc_event (ev : Event) : json :=
  JObject ([("ts", JString (ev_Timestamp ev)); ("actor", JString (ev_Actor ev)); ("action", JString (ev_Action ev));
            ("resource", JString (ev_Resource ev)); ("status", JString (ev_Status ev))] ++
           (if decide (ev_Error ev = "") then [] else [("error", JString (ev_Error ev))])).

Definition Event_zero : Event := mkEvent "" "" "" "" "" "".
Definition event_fields : list (string * (json → Event → option Event)) := [
  field_of "ts" ev_Timestamp (λ x e, mkEvent x (ev_Actor e) (ev_Action e) (ev_Resource e) (ev_Status e) (ev_Error e)) dec_string;
  field_of "actor" ev_Actor (λ x e, mkEvent (ev_Timestamp e) x (ev_Action e) (ev_Resource e) (ev_Status e) (ev_Error e)) dec_string;
  field_of "action" ev_Action (λ x e, mkEvent (ev_Timestamp e) (ev_Actor e) x (ev_Resource e) (ev_Status e) (ev_Error e)) dec_string;
  field_of "resource" ev_Resource (λ x e, mkEvent (ev_Timestamp e) (ev_Actor e) (ev_Action e) x (ev_Status e) (ev_Error e)) dec_string;
  field_of "status" ev_Status (λ x e, mkEvent (ev_Timestamp e) (ev_Actor e) (ev_Action e) (ev_Resource e) x (ev_Error e)) dec_string;
  field_of "error" ev_Error (λ x e, mkEvent (ev_Timestamp e) (ev_Actor e) (ev_Action e) (ev_Resource e) (ev_Status e) x) dec_string].

(** The event of one call of [Write]. *)
Definition new_event (now : time) (actor action resource status : string) (err : option error) : Event :=
  mkEvent (utc_text now) actor action resource status (match err with Some e => Error e | None => "" end).

(** ** Lines and rows *)
Definition line_feed : Z := 10.
Definition comma : Z := 44.
Definition quote_char : Z := 34.
Definition MaxScanTokenSize : nat := Z.to_nat 65536.
Definition ErrTooLong : error := ErrorString (Some 23%N) "bufio.Scanner: token too long".

Definition dropCR (line : list Z) : list Z :=
  match last line with Some 13 => removelast line | _ => line end.

(** The tokens [bufio.Scanner] gives: a line that does not fit its buffer stops it. *)
Fixpoint scan (lines : list (list Z)) : list (list Z) * option error :=
  match lines with
  | [] | [[]] => ([], None)
  | line :: lines' =>
      if (MaxScanTokenSize <=? length line)%nat then ([], Some ErrTooLong)
      else let '(tokens, err) := scan lines' in (dropCR line :: tokens, err)
  end.

(** encoding/csv. *)
Definition fieldNeedsQuotes (field : list Z) : bool :=
  match field with
  | [] => false
  | _ =>
      bool_decide (field = bytes "\.") ||
      existsb (λ c, (c =? line_feed) || (c =? 13) || (c =? quote_char) || (c =? comma)) field ||
      match decode field with (r, _) :: _ => rune_IsSpace r | [] => false end
  end.

Definition csv_field (s : string) : list Z :=
  let field := bytes s in
  if fieldNeedsQuotes field
  then [quote_char] ++ concat ((λ c, if c =? quote_char then [quote_char; quote_char] else [c]) <$> field) ++ [quote_char]
  else field.

Definition csv_row (fields : list string) : list Z := join_with [comma] (csv_field <$> fields) ++ [line_feed].

Definition csv_header : list string := ["ts"; "actor"; "action"; "resource"; "status"; "error"].
Definition event_row (ev : Event) : list string :=
  [ev_Timestamp ev; ev_Actor ev; ev_Action ev; ev_Resource ev; ev_Status ev; ev_Error ev].

Section Files.
Context {FS : Type} `{!FileSystem FS}.
(** The error of [json.Unmarshal] on a text. *)
Context (unmarshal_error : string → error).

(** Marshalling a struct of strings does not fail. *)
Definition Write (l : option Logger) (fs : FS) (now : time) (actor action resource status : string) (err : option error) :
    FS * option error :=
  match l with
  | Some lg =>
      if negb (Enabled l) then (fs, None)
      else
        let b := Marshal (enc_event (new_event now actor action resource status err)) in
        match MkdirAll fs (Dir (lg_path lg)) with
        | (fs1, Some mkErr) => (fs1, Some (Errorf_w ("audit mkdir: " +:+ Error mkErr) mkErr))
        | (fs1, None) =>
            match OpenAppend fs1 (lg_path lg) with
            | (fs2, Some openErr) => (fs2, Some (Errorf_w ("audit open: " +:+ Error openErr) openErr))
            | (fs2, None) =>
                match AppendFile fs2 (lg_path lg) (b +:+ string_of_bytes [line_feed]) with
                | (fs3, Some wErr) => (fs3, Some (Errorf_w ("audit write: " +:+ Error wErr) wErr))
                | (fs3, None) => (fs3, None)
                end
            end
        end
  | None => (fs, None)
  end.

(** The rows of the tokens scanned, up to the first that is not an event. *)
Fixpoint export_lines (tokens : list (list Z)) : list Z * option error :=
  match tokens with
  | [] => ([], None)
  | line :: tokens' =>
      match line with
      | [] => export_lines tokens'
      | _ =>
          let text := string_of_bytes line in
          match Unmarshal (dec_struct event_fields) text Event_zero with
          | None => let err := unmarshal_error text in ([], Some (Errorf_w ("parse audit line: " +:+ Error err) err))
          | Some ev => let '(rows, err) := export_lines tokens' in (csv_row (event_row ev) ++ rows, err)
          end
      end
  end.

(** The output is created before the input is read; the rows are written when the function
    returns, by a deferred flush whose error is dropped. *)
Definition ExportJSONLToCSV (fs : FS) (inputPath outputPath : string) : FS * option error :=
  match ReadFile fs inputPath with
  | Err err => (fs, Some (Errorf_w ("open input audit log: " +:+ Error err) err))
  | Ok _ =>
      match WriteFile fs outputPath "" with
      | (fs1, Some err) => (fs1, Some (Errorf_w ("create output csv: " +:+ Error err) err))
      | (fs1, None) =>
          let input := match ReadFile fs1 inputPath with Ok b => bytes b | Err _ => [] end in
          let '(tokens, scan_err) := scan (split_on line_feed input) in
          let '(rows, err) := export_lines tokens in
          let err := match err, scan_err with
                     | Some err, _ => Some err
                     | None, Some err => Some (Errorf_w ("scan audit log: " +:+ Error err) err)
                     | None, None => None
                     end in
          ((WriteFile fs1 outputPath (string_of_bytes (csv_row csv_header ++ rows))).1, err)
      end
  end.
End Files.

Example audit_checks :
  let fs := (Write (NewLogger "log/a.jsonl") (∅ : gmap string string) 0 "bob" "run" (dq "a,'b'") "ok" None).1 in
  let fs := (Write (NewLogger "log/a.jsonl") fs 0 "eve" "run" "x" "fail" (Some (Errorf "no"))).1 in
  fs !! "log/a.jsonl" = Some (dq "{'ts':'0001-01-01T00:00:00Z','actor':'bob','action':'run','resource':'a,\'b\'','status':'ok'}
{'ts':'0001-01-01T00:00:00Z','actor':'eve','action':'run','resource':'x','status':'fail','error':'no'}
") ∧
  (ExportJSONLToCSV Errorf fs "log/a.jsonl" "a.csv").1 !! "a.csv" = Some (dq "ts,actor,action,resource,status,error
0001-01-01T00:00:00Z,bob,run,'a,''b''',ok,
0001-01-01T00:00:00Z,eve,run,x,fail,no
").
Proof. vm_compute. repeat split; reflexivity. Qed.

(** ** A JSON text without white space is one line *)
Definition visible (l : list Z) : Prop := Forall (λ c, 32 ≤ c) l.

Lemma visible_app a b : visible (a ++ b) ↔ visible a ∧ visible b.
Proof. apply Forall_app. Qed.

Lemma visible_concat ls : Forall visible ls → visible (concat ls).
Proof. induction 1; cbn; [constructor|]. by apply visible_app. Qed.

Lemma encode_runes_visible rs : visible rs → visible (encode_runes rs).
Proof.
  intros H. apply visible_concat, Forall_fmap. eapply Forall_impl; [exact H|]. intros r Hr. cbn in *.
  unfold encode_rune. assert (∀ b, 0 ≤ low6 b) as Hl by (intros b; rewrite low6_mod; by apply Z.mod_pos_bound).
  pose proof (Hl r). pose proof (Hl (Z.shiftr r 6)). pose proof (Hl (Z.shiftr r 12)).
  assert (∀ n, 0 ≤ Z.shiftr r n) as Hsh by (intros; apply Z.shiftr_nonneg; lia).
  pose proof (Hsh 6). pose proof (Hsh 12). pose proof (Hsh 18).
  repeat case_match; repeat constructor; cbn; lia.
Qed.

Lemma escape_rune_visible rb : decoded rb → visible (escape_rune rb).
Proof.
  destruct rb as [r bs]. intros [Hs _]. cbn in Hs. assert (0 ≤ r) as Hr by (unfold scalar in Hs; lia). clear Hs. unfold escape_rune.
  assert (∀ b, 0 ≤ b → visible (hex2 b)) as Hhex.
  { intros b Hb. unfold hex2, hex_digit. assert (0 ≤ Z.shiftr b 4) by (by apply Z.shiftr_nonneg).
    assert (0 ≤ Z.land b 15) by (apply Z.land_nonneg; lia). repeat case_match; repeat constructor; lia. }
  destruct (_ && _); [by repeat constructor|]. destruct (_ || _) eqn:E1; [constructor; [done|]; constructor; [lia|constructor]|].
  do 5 (case_match; [by repeat constructor|]).
  case_match; [apply visible_app; split; [by repeat constructor|apply Hhex; lia]|].
  case_match; [apply visible_app; split; [by repeat constructor|apply Hhex; lia]|].
  constructor; [lia|constructor].
Qed.

Lemma quote_json_visible s : visible (quote_json s).
Proof.
  unfold quote_json. rewrite !visible_app. split; [by repeat constructor|]. split; [|by repeat constructor].
  apply visible_concat, Forall_fmap. eapply Forall_impl; [apply decode_decoded, bytes_range|]. apply escape_rune_visible.
Qed.

Lemma commas_visible ls : Forall visible ls → visible (commas ls).
Proof.
  induction 1 as [|x ls Hx Hls IH]; [constructor|]. destruct ls; [done|]. cbn [commas]. rewrite !visible_app.
  by repeat split; [|repeat constructor|].
Qed.

Lemma event_compact_visible ev : visible (compact (enc_event ev)).
Proof.
  assert (∀ ms, Forall (λ m, ∃ s, m.2 = JString s) ms → visible (compact (JObject ms))) as H.
  { intros ms Hms. destruct ms as [|m ms]; [by repeat constructor|]. unfold compact. cbn [print]. remember (m :: ms) as l. clear Heql.
    rewrite !visible_app. split; [by repeat constructor|]. split; [|by repeat constructor]. apply commas_visible.
    apply Forall_fmap. eapply Forall_impl; [exact Hms|]. intros [k v] [s Hs]. cbn in Hs. subst v. unfold compose. cbn [fst snd print].
    rewrite !visible_app. split; [constructor|]. split; [apply quote_json_visible|]. split; [by repeat constructor|].
    split; [constructor|]. apply quote_json_visible. }
  apply H. repeat (constructor; [by eexists|]). case_decide; repeat constructor. by eexists.
Qed.

Lemma event_text_visible ev : visible (bytes (Marshal (enc_event ev))).
Proof.
  unfold Marshal, string_of_runes. rewrite bytes_string_of_bytes by apply encode_runes_range.
  apply encode_runes_visible, event_compact_visible.
Qed.

(** ** Lines are read as they were written *)
Lemma split_on_line c line rest : Forall (λ x, x ≠ c) line →
  split_on c (line ++ c :: rest) = line :: split_on c rest.
Proof.
  induction 1 as [|x line Hx _ IH]; cbn; [by rewrite Z.eqb_refl|]. rewrite IH.
  by replace (x =? c) with false by lia.
Qed.

Lemma dropCR_visible line : visible line → dropCR line = line.
Proof.
  intros H. unfold dropCR. destruct (last line) as [c|] eqn:E; [|done]. apply last_Some_elem_of in E.
  unfold visible in H. rewrite Forall_forall in H. apply H in E.
  repeat (case_match; try done; try lia).
Qed.

Lemma split_lines line lines : visible line →
  split_on line_feed (concat ((λ l, l ++ [line_feed]) <$> line :: lines)) =
  line :: split_on line_feed (concat ((λ l, l ++ [line_feed]) <$> lines)) ∧
  split_on line_feed (concat ((λ l, l ++ [line_feed]) <$> lines)) ≠ [].
Proof.
  intros Hv. split.
  - cbn. rewrite <- app_assoc. apply split_on_line. eapply Forall_impl; [done|]. cbn. unfold line_feed. lia.
  - destruct (concat _) as [|x l]; [done|]. cbn. case_match; [done|]. by case_match.
Qed.

(** The scanner gives the lines up to the first that is too long for it. *)
Lemma scan_lines lines rest : Forall visible (lines ++ rest) → Forall (λ l, length l < MaxScanTokenSize)%nat lines →
  (match rest with [] => True | l :: _ => MaxScanTokenSize ≤ length l end)%nat →
  scan (split_on line_feed (concat ((λ l, l ++ [line_feed]) <$> lines ++ rest))) =
  (lines, match rest with [] => None | _ => Some ErrTooLong end).
Proof.
  intros Hv Hl Hr. induction lines as [|line lines IH].
  - destruct rest as [|line rest]; [done|]. inversion Hv; subst. cbn [app].
    destruct (split_lines line rest) as [-> Hne]; [done|]. cbn [scan].
    destruct (split_on _ _) as [|w ws] eqn:E; [done|].
    replace (MaxScanTokenSize <=? length line)%nat with true by (symmetry; by apply Nat.leb_le).
    by destruct line.
  - inversion Hv; inversion Hl; subst. cbn [app]. destruct (split_lines line (lines ++ rest)) as [-> Hne]; [done|].
    cbn [scan]. rewrite IH by done. destruct (split_on _ _) as [|w ws] eqn:E; [done|].
    replace (MaxScanTokenSize <=? length line)%nat with false by (symmetry; apply Nat.leb_gt; lia).
    rewrite dropCR_visible by done. by destruct line.
Qed.

(** The event read from the line of an event: invalid bytes are replaced. *)
Definition clean_event (ev : Event) : Event :=
  mkEvent (clean_string (ev_Timestamp ev)) (clean_string (ev_Actor ev)) (clean_string (ev_Action ev))
    (clean_string (ev_Resource ev)) (clean_string (ev_Status ev)) (clean_string (ev_Error ev)).

Lemma event_read ev : Unmarshal (dec_struct event_fields) (Marshal (enc_event ev)) Event_zero = Some (clean_event ev).
Proof.
  assert (writable (enc_event ev)) as Hw by (unfold enc_event; case_decide; done).
  unfold Unmarshal. rewrite parse_Marshal_clean by done. cbn [mbind option_bind]. unfold enc_event.
  unfold clean_event, Event_zero.
  destruct (decide (ev_Error ev = "")) as [E|E]; cbn [app clean map fst snd];
    repeat (erewrite dec_struct_field;
      [cbn [ev_Timestamp ev_Actor ev_Action ev_Resource ev_Status ev_Error]|reflexivity|reflexivity]); rewrite dec_struct_done; [|done].
  by rewrite E.
Qed.

(** ** A sequence of writes *)
Record audit_call := mkCall {
  c_now : time; c_actor : string; c_action : string; c_resource : string; c_status : string; c_err : option error
}.
Definition call_event (c : audit_call) : Event :=
  new_event (c_now c) (c_actor c) (c_action c) (c_resource c) (c_status c) (c_err c).

Section Laws.
Context {FS : Type} `{FileSystemLaws FS}.

Fixpoint write_all (l : option Logger) (fs : FS) (cs : list audit_call) : FS * option error :=
  match cs with
  | [] => (fs, None)
  | c :: cs' =>
      match Write l fs (c_now c) (c_actor c) (c_action c) (c_resource c) (c_status c) (c_err c) with
      | (fs', None) => write_all l fs' cs'
      | r => r
      end
  end.

Definition contents (fs : FS) (path : string) : list Z := match ReadFile fs path with Ok b => bytes b | Err _ => [] end.

Definition event_line (ev : Event) : list Z := bytes (Marshal (enc_event ev)) ++ [line_feed].

Lemma write_line path fs fs' now actor action resource status err : path ≠ "" →
  Write (NewLogger path) fs now actor action resource status err = (fs', None) →
  ∃ text, ReadFile fs' path = Ok text ∧
    bytes text = contents fs path ++ event_line (new_event now actor action resource status err).
Proof.
  intros Hp. unfold Write, NewLogger. cbn [Enabled lg_path]. rewrite bool_decide_false by done. cbn [negb].
  destruct (MkdirAll fs (Dir path)) as [fs1 [?|]] eqn:Em; [done|]. destruct (OpenAppend fs1 path) as [fs2 [?|]] eqn:Eo; [done|].
  destruct (AppendFile fs2 path _) as [fs3 [?|]] eqn:Ea; [done|]. intros [= <-].
  apply read_open in Eo. rewrite (read_mkdir _ _ _ _ path Em) in Eo. eexists. split; [by eapply read_append|].
  rewrite !bytes_app. unfold contents, event_line. by destruct (ReadFile fs path).
Qed.

Lemma write_all_lines path cs : path ≠ "" → ∀ fs fs', write_all (NewLogger path) fs cs = (fs', None) →
  contents fs' path = contents fs path ++ concat ((λ c, event_line (call_event c)) <$> cs) ∧
  (cs ≠ [] → is_ok (ReadFile fs' path) = true).
Proof.
  intros Hp. induction cs as [|c cs IH]; intros fs fs'; cbn [write_all].
  { intros [= <-]. by rewrite app_nil_r. }
  destruct (Write _ _ _ _ _ _ _ _) as [fs1 [e|]] eqn:E; [done|]. intros Hall.
  apply write_line in E as (text & Hr & Ht); [|done]. destruct (IH _ _ Hall) as [Hc Hok]. split.
  - rewrite Hc. unfold contents at 1. rewrite Hr, Ht. cbn [fmap list_fmap concat]. by rewrite <- app_assoc.
  - intros _. destruct cs as [|c' cs]; [|by apply Hok]. cbn in Hall. injection Hall as <-. by rewrite Hr.
Qed.

Lemma export_event_lines uerr evs :
  export_lines uerr ((λ ev, bytes (Marshal (enc_event ev))) <$> evs) =
  (concat ((λ ev, csv_row (event_row (clean_event ev))) <$> evs), None).
Proof.
  induction evs as [|ev evs IH]; [done|]. cbn [fmap list_fmap export_lines concat]. rewrite IH, string_of_bytes_bytes, event_read.
  destruct (bytes (Marshal (enc_event ev))) eqn:E; [|done]. pose proof (event_read ev) as Hr.
  rewrite <- (string_of_bytes_bytes (Marshal _)), E in Hr. done.
Qed.

(** The length of the line of a call, without its line feed. *)
Definition line_length (c : audit_call) : nat := length (bytes (Marshal (enc_event (call_event c)))).

(** C30: writing a non-empty sequence of events to a new log and exporting it to another
    file, both of which can be written, gives the header and one row per event, in the order of
    the writes, with the event's fields (invalid UTF-8 replaced), up to the first event whose line
    has 65536 bytes or more: without such an event the export succeeds with all rows, with one it
    fails with bufio.ErrTooLong. *)
Theorem audit_export_csv uerr path outputPath cs long (fs fs' : FS) :
  path ≠ "" → outputPath ≠ path → cs ++ long ≠ [] → contents fs path = [] →
  write_all (NewLogger path) fs (cs ++ long) = (fs', None) →
  Forall (λ c, line_length c < MaxScanTokenSize)%nat cs →
  (match long with [] => True | c :: _ => MaxScanTokenSize ≤ line_length c end)%nat →
  (∀ fs text, (WriteFile fs outputPath text).2 = None) →
  let '(fs'', err) := ExportJSONLToCSV uerr fs' path outputPath in
  ReadFile fs'' outputPath =
    Ok (string_of_bytes (concat (csv_row <$> csv_header :: ((λ c, event_row (clean_event (call_event c))) <$> cs)))) ∧
  match long with
  | [] => err = None
  | _ => ∃ e, err = Some e ∧ errors_Is e ErrTooLong = true
  end.
Proof.
  intros Hp Hout Hcs Hnew Hall Hlen Hlong Hw. apply write_all_lines in Hall as [Hc Hok]; [|done]. specialize (Hok Hcs).
  unfold ExportJSONLToCSV. destruct (ReadFile fs' path) as [b|] eqn:Er; [|done].
  destruct (WriteFile fs' outputPath "") as [fs1 e1] eqn:E1. pose proof (Hw fs' "") as H1. rewrite E1 in H1. cbn in H1. subst e1.
  rewrite (read_write_other _ _ _ _ path E1) by done. rewrite Er. unfold contents in Hc at 1. rewrite Er, Hnew in Hc. rewrite Hc.
  set (text c := bytes (Marshal (enc_event (call_event c)))).
  assert (concat ((λ c, event_line (call_event c)) <$> cs ++ long) =
    concat ((λ l, l ++ [line_feed]) <$> (text <$> cs) ++ (text <$> long))) as -> by (by rewrite <- fmap_app, <- list_fmap_compose).
  rewrite app_nil_l, scan_lines.
  2: { rewrite <- fmap_app. apply Forall_fmap, Forall_forall. intros c _. apply event_text_visible. }
  2: { by apply Forall_fmap. }
  2: { by destruct long. }
  replace (text <$> cs) with ((λ ev, bytes (Marshal (enc_event ev))) <$> (call_event <$> cs)) by (by rewrite <- list_fmap_compose).
  rewrite export_event_lines.
  set (csv := string_of_bytes (csv_row csv_header ++ _)). destruct (WriteFile fs1 outputPath csv) as [fs2 e2] eqn:E2.
  pose proof (Hw fs1 csv) as H2. rewrite E2 in H2. cbn in H2. subst e2. cbn [fst]. rewrite (read_write _ _ _ _ E2). split.
  - unfold csv. cbn [fmap list_fmap concat]. rewrite <- !list_fmap_compose. unfold compose. reflexivity.
  - destruct long; [done|]. by eexists.
Qed.
End Laws.

Definition sample_calls : list audit_call :=
  [mkCall 0 "bob" "run" "a,b" "ok" None; mkCall 0 "eve" "run" "x" "fail" (Some (Errorf "no"))].

(** Two short lines, and one that is too long. *)
Definition long_call : audit_call := mkCall 0 (string_of_bytes (replicate MaxScanTokenSize 97)) "run" "x" "ok" None.

Lemma long_call_long : (MaxScanTokenSize ≤ line_length long_call)%nat.
Proof. apply Nat.leb_le. vm_compute. reflexivity. Qed.

Lemma audit_export_csv_witness :
  let r := write_all (NewLogger "a.jsonl") (∅ : gmap string string) (sample_calls ++ [long_call]) in
  let '(fs'', err) := ExportJSONLToCSV Errorf r.1 "a.jsonl" "a.csv" in
  ReadFile fs'' "a.csv" = Ok (dq "ts,actor,action,resource,status,error
0001-01-01T00:00:00Z,bob,run,'a,b',ok,
0001-01-01T00:00:00Z,eve,run,x,fail,no
") ∧ ∃ e, err = Some e ∧ errors_Is e ErrTooLong = true.
Proof.
  intros r. assert (r.2 = None) as Hr by (vm_compute; reflexivity). destruct r as [fs' e] eqn:E. cbn [fst snd] in *. subst e.
  pose proof (audit_export_csv Errorf "a.jsonl" "a.csv" sample_calls [long_call] (∅ : gmap string string) fs' ltac:(done) ltac:(done)
    ltac:(done) ltac:(done) E) as H.
  destruct (ExportJSONLToCSV Errorf fs' "a.jsonl" "a.csv") as [fs'' err].
  destruct H as [H1 H2]; [|exact long_call_long|done|].
  - apply Forall_cons; split; [|apply Forall_singleton]; apply Nat.ltb_lt; vm_compute; reflexivity.
  - split; [rewrite H1; vm_compute; reflexivity|exact H2].
Defined.
