(* ===== verification/Metrics.v ===== *)
(** * Runtime metrics: internal/metrics/metrics.go and multi.go

    The [Recorder] interface, its no-op, in-memory and fan-out implementations.  The
    Prometheus recorder is in [Prometheus]. *)

From S2P Require Import Prelude.

(** The interface [metrics.Recorder]: each hook updates the recorder. *)
Class Recorder (M : Type) := {
  ObserveInvocation : M → string → string → Z → M;
  ObserveRetry : M → string → M;
  ObserveCircuitOpen : M → string → M
}.

(** [NoopRecorder]. *)
#[global] Instance NoopRecorder : Recorder unit := {|
  ObserveInvocation _ _ _ _ := tt;
  ObserveRetry _ _ := tt;
  ObserveCircuitOpen _ _ := tt
|}.

(** The counters are of type [int] and wrap around, like the sum of the durations. *)
Record AgentStats := mkAgentStats {
  Successes : Z;
  Errors : Z;
  Retries : Z;
  st_CircuitOpens : Z;
  TotalDuration : Z
}.
Definition AgentStats_zero : AgentStats := mkAgentStats 0 0 0 0 0.

Record InMemoryRecorder := mkInMemoryRecorder {
  byAgent : gmap string AgentStats;
  total : Z;
  errors : Z;
  retries : Z;
  opens : Z
}.

Record Snapshot := mkSnapshot {
  TotalInvocations : Z;
  ErrorInvocations : Z;
  RetryAttempts : Z;
  CircuitOpens : Z;
  ByAgent : gmap string AgentStats
}.

Definition NewInMemoryRecorder : InMemoryRecorder := mkInMemoryRecorder ∅ 0 0 0 0.

Definition stats_of (m : gmap string AgentStats) (agentID : string) : AgentStats :=
  default AgentStats_zero (m !! agentID).

Definition mem_ObserveInvocation (r : InMemoryRecorder) (agentID status : string) (duration : Z) :
    InMemoryRecorder :=
  let s := stats_of (byAgent r) agentID in
  let ok := bool_decide (status = "success") in
  let s' := mkAgentStats (if ok then wrap64 (Successes s + 1) else Successes s)
    (if ok then Errors s else wrap64 (Errors s + 1))
    (Retries s) (st_CircuitOpens s) (wrap64 (TotalDuration s + duration)) in
  mkInMemoryRecorder (<[agentID := s']> (byAgent r)) (wrap64 (total r + 1))
    (if ok then errors r else wrap64 (errors r + 1)) (retries r) (opens r).

Definition mem_ObserveRetry (r : InMemoryRecorder) (agentID : string) : InMemoryRecorder :=
  let s := stats_of (byAgent r) agentID in
  let s' := mkAgentStats (Successes s) (Errors s) (wrap64 (Retries s + 1)) (st_CircuitOpens s) (TotalDuration s) in
  mkInMemoryRecorder (<[agentID := s']> (byAgent r)) (total r) (errors r) (wrap64 (retries r + 1)) (opens r).

Definition mem_ObserveCircuitOpen (r : InMemoryRecorder) (agentID : string) : InMemoryRecorder :=
  let s := stats_of (byAgent r) agentID in
  let s' := mkAgentStats (Successes s) (Errors s) (Retries s) (wrap64 (st_CircuitOpens s + 1)) (TotalDuration s) in
  mkInMemoryRecorder (<[agentID := s']> (byAgent r)) (total r) (errors r) (retries r) (wrap64 (opens r + 1)).

#[global] Instance InMemory_recorder : Recorder InMemoryRecorder := {|
  ObserveInvocation := mem_ObserveInvocation;
  ObserveRetry := mem_ObserveRetry;
  ObserveCircuitOpen := mem_ObserveCircuitOpen
|}.

(** [InMemoryRecorder.Snapshot]. *)
Definition mem_Snapshot (r : InMemoryRecorder) : Snapshot :=
  mkSnapshot (total r) (errors r) (retries r) (opens r) (byAgent r).

(** [MultiRecorder]: the recorders of the constructor's arguments that are not nil, each
    given every observation. *)
Definition NewMultiRecorder {M} (recorders : list (option M)) : list M := omap id recorders.

#[global] Instance MultiRecorder {M} `{!Recorder M} : Recorder (list M) := {|
  ObserveInvocation ms a st d := (λ m, ObserveInvocation m a st d) <$> ms;
  ObserveRetry ms a := (λ m, ObserveRetry m a) <$> ms;
  ObserveCircuitOpen ms a := (λ m, ObserveCircuitOpen m a) <$> ms
|}.

(** ** Observations as data *)
Inductive observation : Type :=
| ObsInvocation (agentID status : string) (duration : Z)
| ObsRetry (agentID : string)
| ObsCircuitOpen (agentID : string).

Definition observe {M} `{!Recorder M} (m : M) (o : observation) : M :=
  match o with
  | ObsInvocation a st d => ObserveInvocation m a st d
  | ObsRetry a => ObserveRetry m a
  | ObsCircuitOpen a => ObserveCircuitOpen m a
  end.

Definition observe_all {M} `{!Recorder M} (m : M) (os : list observation) : M := foldl observe m os.

(** The number of observations that satisfy a test. *)
Definition count (f : observation → bool) (os : list observation) : Z :=
  Z.of_nat (length (filter (λ o, f o = true) os)).

Definition is_invocation (o : observation) : bool :=
  match o with ObsInvocation _ _ _ => true | _ => false end.
Definition is_error (o : observation) : bool :=
  match o with ObsInvocation _ st _ => bool_decide (st ≠ "success") | _ => false end.
Definition is_success (o : observation) : bool :=
  match o with ObsInvocation _ st _ => bool_decide (st = "success") | _ => false end.
Definition is_retry (o : observation) : bool := match o with ObsRetry _ => true | _ => false end.
Definition is_open (o : observation) : bool := match o with ObsCircuitOpen _ => true | _ => false end.
Definition of_agent (a : string) (o : observation) : bool :=
  match o with ObsInvocation b _ _ | ObsRetry b | ObsCircuitOpen b => bool_decide (a = b) end.

(** Sum of a counter over all agents. *)
Definition sum_by (f : AgentStats → Z) (m : gmap string AgentStats) : Z :=
  map_fold (λ _ s acc, f s + acc) 0 m.

(** ** Counting lemmas *)
Lemma count_snoc f os o : count f (os ++ [o]) = count f os + if f o then 1 else 0.
Proof.
  unfold count. rewrite filter_app, length_app.
  destruct (f o) eqn:E; simpl.
  - rewrite filter_cons_True by done. simpl. lia.
  - rewrite filter_cons_False by congruence. simpl. lia.
Qed.

Lemma sum_by_insert_new f (m : gmap string AgentStats) a s :
  m !! a = None → sum_by f (<[a := s]> m) = f s + sum_by f m.
Proof. intros Hm. unfold sum_by. rewrite map_fold_insert_L; [done| |done]. intros. lia. Qed.

Lemma sum_by_insert f m a s :
  f AgentStats_zero = 0 → sum_by f (<[a := s]> m) = sum_by f m - f (stats_of m a) + f s.
Proof.
  intros Hz. unfold stats_of. destruct (m !! a) as [s0|] eqn:E; simpl.
  - assert (sum_by f m = f s0 + sum_by f (delete a m)) as ->.
    { rewrite <- (insert_delete_id m a s0 E) at 1. apply sum_by_insert_new, lookup_delete_eq. }
    rewrite <- (insert_delete_eq m a s), sum_by_insert_new by apply lookup_delete_eq. lia.
  - rewrite sum_by_insert_new by done. lia.
Qed.

Lemma observe_all_snoc {M} `{!Recorder M} (m : M) os o :
  observe_all m (os ++ [o]) = observe (observe_all m os) o.
Proof. unfold observe_all. by rewrite foldl_app. Qed.

(** The sum of the durations observed for an agent. *)
Definition durations (a : string) (os : list observation) : Z :=
  foldr (λ o acc, match o with ObsInvocation b _ d => if decide (b = a) then d + acc else acc | _ => acc end) 0 os.

Definition observed_agent (o : observation) : string :=
  match o with ObsInvocation a _ _ | ObsRetry a | ObsCircuitOpen a => a end.

(** The statistics of an agent, from its observations. *)
Definition agent_tally (a : string) (os : list observation) : AgentStats :=
  mkAgentStats (wrap64 (count (λ o, of_agent a o && is_success o) os))
    (wrap64 (count (λ o, of_agent a o && is_error o) os)) (wrap64 (count (λ o, of_agent a o && is_retry o) os))
    (wrap64 (count (λ o, of_agent a o && is_open o) os)) (wrap64 (durations a os)).

(** The snapshot agrees with the list of observations made. *)
Record tallies (s : Snapshot) (os : list observation) : Prop := {
  ty_total : TotalInvocations s = wrap64 (count is_invocation os);
  ty_errors : ErrorInvocations s = wrap64 (count is_error os);
  ty_retries : RetryAttempts s = wrap64 (count is_retry os);
  ty_opens : CircuitOpens s = wrap64 (count is_open os);
  ty_agents : dom (ByAgent s) = list_to_set (observed_agent <$> os);
  ty_stats a st : ByAgent s !! a = Some st → st = agent_tally a os;
  ty_sum_total : wrap64 (sum_by (λ st, Successes st + Errors st) (ByAgent s)) = TotalInvocations s;
  ty_sum_errors : wrap64 (sum_by Errors (ByAgent s)) = ErrorInvocations s;
  ty_sum_retries : wrap64 (sum_by Retries (ByAgent s)) = RetryAttempts s;
  ty_sum_opens : wrap64 (sum_by st_CircuitOpens (ByAgent s)) = CircuitOpens s
}.

Lemma durations_snoc a os o :
  durations a (os ++ [o]) = durations a os + match o with ObsInvocation b _ d => if decide (b = a) then d else 0 | _ => 0 end.
Proof.
  induction os as [|x os IH]; cbn [durations foldr app] in *.
  - destruct o; [case_decide|..]; lia.
  - unfold durations in IH. destruct x; rewrite IH; [case_decide|..]; lia.
Qed.

(** The statistics of every agent, entries or not. *)
Lemma agent_tally_fresh a os : a ∉ observed_agent <$> os → agent_tally a os = AgentStats_zero.
Proof.
  intros Ha. assert (∀ f, count (λ o, of_agent a o && f o) os = 0) as Hc.
  { intros f. unfold count. rewrite filter_none; [done|]. apply Forall_forall. intros o Ho H.
    apply andb_true_iff in H as [H _]. apply Ha, list_elem_of_fmap. exists o. split; [|done].
    by destruct o; cbn in *; apply bool_decide_eq_true in H. }
  unfold agent_tally. rewrite !Hc. f_equal. clear Hc. induction os as [|o os IH]; [done|].
  rewrite fmap_cons, not_elem_of_cons in Ha. destruct Ha as [Hne Ha]. specialize (IH Ha).
  unfold durations in *. cbn [foldr]. destruct o; [|done..]. cbn in Hne. by rewrite decide_False.
Qed.

Lemma stats_of_insert m a b s :
  stats_of (<[a := s]> m) b = if decide (a = b) then s else stats_of m b.
Proof. unfold stats_of. rewrite lookup_insert. by case_decide. Qed.

(** One counter changes by [d] inside a sum. *)
Lemma wrap64_replace x a d : wrap64 (x - a + wrap64 (a + d)) = wrap64 (x + d).
Proof. rewrite wrap64_add_r. f_equal. lia. Qed.

Lemma wrap64_replace_l x a b d : wrap64 (x - (a + b) + (wrap64 (a + d) + b)) = wrap64 (x + d).
Proof. rewrite <- (wrap64_replace x a d). f_equal. lia. Qed.
Lemma wrap64_replace_r x a b d : wrap64 (x - (a + b) + (a + wrap64 (b + d))) = wrap64 (x + d).
Proof. rewrite <- (wrap64_replace x b d). f_equal. lia. Qed.

(** An agent's entry is its tally, whether it exists or not. *)
Lemma tallies_stats s os a : tallies s os → stats_of (ByAgent s) a = agent_tally a os.
Proof.
  intros H. unfold stats_of. destruct (ByAgent s !! a) as [st|] eqn:E; [by apply (ty_stats _ _ H)|].
  symmetry. apply agent_tally_fresh. apply not_elem_of_dom in E. rewrite (ty_agents _ _ H) in E. set_solver.
Qed.

(** The change of one agent's entry and of the totals. *)
Lemma agent_tally_snoc a os o : agent_tally a (os ++ [o]) =
  let st := agent_tally a os in
  if decide (observed_agent o = a) then
    match o with
    | ObsInvocation _ status d =>
        let ok := bool_decide (status = "success") in
        mkAgentStats (if ok then wrap64 (Successes st + 1) else Successes st)
          (if ok then Errors st else wrap64 (Errors st + 1)) (Retries st) (st_CircuitOpens st) (wrap64 (TotalDuration st + d))
    | ObsRetry _ => mkAgentStats (Successes st) (Errors st) (wrap64 (Retries st + 1)) (st_CircuitOpens st) (TotalDuration st)
    | ObsCircuitOpen _ => mkAgentStats (Successes st) (Errors st) (Retries st) (wrap64 (st_CircuitOpens st + 1)) (TotalDuration st)
    end
  else st.
Proof.
  unfold agent_tally. rewrite !count_snoc, durations_snoc. cbv zeta. cbn [Successes Errors Retries st_CircuitOpens TotalDuration].
  rewrite !wrap64_add_l. destruct o as [b st d|b|b]; cbn [observed_agent of_agent is_success is_error is_retry is_open];
    destruct (decide (b = a)) as [->|Hne]; rewrite ?(bool_decide_true (a = a)), ?(bool_decide_false (a = b)) by done; cbn [andb];
    rewrite ?Z.add_0_r; try done.
  rewrite bool_decide_not. by destruct (bool_decide (st = "success")); cbn [negb]; rewrite ?Z.add_0_r, ?wrap64_add_l.
Qed.

Lemma ByAgent_observe m o : byAgent (observe m o) =
  <[observed_agent o := let s := stats_of (byAgent m) (observed_agent o) in
    match o with
    | ObsInvocation _ status d =>
        let ok := bool_decide (status = "success") in
        mkAgentStats (if ok then wrap64 (Successes s + 1) else Successes s)
          (if ok then Errors s else wrap64 (Errors s + 1)) (Retries s) (st_CircuitOpens s) (wrap64 (TotalDuration s + d))
    | ObsRetry _ => mkAgentStats (Successes s) (Errors s) (wrap64 (Retries s + 1)) (st_CircuitOpens s) (TotalDuration s)
    | ObsCircuitOpen _ => mkAgentStats (Successes s) (Errors s) (Retries s) (wrap64 (st_CircuitOpens s + 1)) (TotalDuration s)
    end]> (byAgent m).
Proof. by destruct o. Qed.

Lemma tallies_step m os o : tallies (mem_Snapshot m) os → tallies (mem_Snapshot (observe m o)) (os ++ [o]).
Proof.
  intros H. pose proof (λ a, tallies_stats _ _ a H) as Hst. destruct H as [Ht He Hr Ho Ha Hs S1 S2 S3 S4].
  cbn [mem_Snapshot TotalInvocations ErrorInvocations RetryAttempts CircuitOpens ByAgent] in *.
  split; cbn [mem_Snapshot TotalInvocations ErrorInvocations RetryAttempts CircuitOpens ByAgent]; rewrite ?count_snoc.
  1-4: rewrite <- wrap64_add_l, <- ?Ht, <- ?He, <- ?Hr, <- ?Ho; destruct o as [b st d|b|b]; cbn -[wrap64 bool_decide];
    rewrite ?bool_decide_not; try (by destruct (bool_decide (st = "success")); cbn; rewrite ?Z.add_0_r, ?Ht, ?He, ?Hr, ?Ho, ?wrap64_idem);
    by rewrite ?Z.add_0_r, ?Ht, ?He, ?Hr, ?Ho, ?wrap64_idem.
  - rewrite ByAgent_observe, dom_insert_L, Ha, fmap_app, list_to_set_app_L. set_solver.
  - intros a st. rewrite ByAgent_observe, lookup_insert, agent_tally_snoc. cbv zeta. case_decide as Hab.
    + intros [= <-]. by rewrite Hst, Hab.
    + intros Hm. by rewrite (Hs _ _ Hm).
  - rewrite ByAgent_observe, sum_by_insert by done. cbv zeta. destruct o as [b st d|b|b]; cbn -[wrap64 bool_decide sum_by stats_of].
    + rewrite <- S1, wrap64_add_l. destruct (bool_decide (st = "success")); [apply wrap64_replace_l|apply wrap64_replace_r].
    + rewrite <- S1. f_equal. lia.
    + rewrite <- S1. f_equal. lia.
  - rewrite ByAgent_observe, sum_by_insert by done. cbv zeta. destruct o as [b st d|b|b]; cbn -[wrap64 bool_decide sum_by stats_of].
    + rewrite <- S2. destruct (bool_decide (st = "success")); [f_equal; lia|]. by rewrite wrap64_add_l, wrap64_replace.
    + rewrite <- S2. f_equal. lia.
    + rewrite <- S2. f_equal. lia.
  - rewrite ByAgent_observe, sum_by_insert by done. cbv zeta. destruct o as [b st d|b|b]; cbn -[wrap64 bool_decide sum_by stats_of];
      rewrite <- S3; [f_equal; lia|by rewrite wrap64_add_l, wrap64_replace|f_equal; lia].
  - rewrite ByAgent_observe, sum_by_insert by done. cbv zeta. destruct o as [b st d|b|b]; cbn -[wrap64 bool_decide sum_by stats_of];
      rewrite <- S4; [f_equal; lia|f_equal; lia|by rewrite wrap64_add_l, wrap64_replace].
Qed.

(** C27: after any sequence of observations the snapshot of the in-memory recorder counts
    exactly those observations, as ints: invocations, non-success invocations, retries and circuit
    opens, in total and for each of the agents observed, with the sum of each agent's durations;
    and every total is the sum over the agents. *)
Theorem metrics_tally os : tallies (mem_Snapshot (observe_all NewInMemoryRecorder os)) os.
Proof.
  induction os as [|o os IH] using rev_ind.
  - split; try done.
  - rewrite observe_all_snoc. by apply tallies_step.
Qed.

(** A fan-out recorder built from recorders some of which are nil gives
    every remaining recorder exactly the observations it received. *)
Theorem multi_recorder_fans_out {M} `{!Recorder M} (recorders : list (option M)) os :
  observe_all (NewMultiRecorder recorders) os =
  (λ m, observe_all m os) <$> NewMultiRecorder recorders.
Proof.
  induction os as [|o os IH] using rev_ind; [by rewrite list_fmap_id|].
  rewrite observe_all_snoc, IH. destruct o; simpl; rewrite <- list_fmap_compose;
    apply list_fmap_ext; intros; simpl; by rewrite observe_all_snoc.
Qed.
