(* ===== verification/Prometheus.v ===== *)
(** * The Prometheus recorder: internal/metrics/prometheus.go

    The client library is a parameter: counters and histograms with labels, and a registry.  The
    recorder is an instance of [Recorder], and its counters are those of the in-memory recorder.
    The endpoints that serve them are in Server. *)

From Stdlib Require Import SpecFloat.
From S2P Require Import Prelude GoErrors GoStrings Utf8 GoFloat Metrics.

(** What the recorder uses of the client library.  [Inc] and [Observe] are
    [WithLabelValues(...).Inc()] and [WithLabelValues(...).Observe(x)]. *)
Class PromClient (Counter Histogram Registry : Type) := {
  NewCounterVec : string → list string → Counter;
  NewHistogramVec : string → list string → Histogram;
  Inc : Counter → list string → Counter;
  Observe : Histogram → list string → spec_float → Histogram;
  (** [Register] of the collector of a name. *)
  prom_Register : Registry → string → Registry * option error;
  (** What the library exposes: the labels a vector was declared with, the value of a counter and
      the number of observations for values of the labels. *)
  counter_labels : Counter → list string;
  histogram_labels : Histogram → list string;
  value : Counter → list string → Z;
  observations : Histogram → list string → Z
}.

(** The label values [WithLabelValues] takes: one valid UTF-8 string per declared label.  With
    others it panics, and the laws say nothing. *)
Definition label_values (labels values : list string) : Prop :=
  length values = length labels ∧ Forall (λ v, valid_utf8 v = true) values.

(** A counter is a float64, exact below 2^53. *)
Definition exact_count (n : Z) : Prop := n < 9007199254740992.

Class PromLaws (Counter Histogram Registry : Type) `{!PromClient Counter Histogram Registry} := {
  labels_new name labels : counter_labels (NewCounterVec name labels) = labels;
  labels_inc c ls : counter_labels (Inc c ls) = counter_labels c;
  value_new name labels ls : value (NewCounterVec name labels) ls = 0;
  value_inc c ls ls' : label_values (counter_labels c) ls → exact_count (value c ls) →
    value (Inc c ls) ls' = value c ls' + (if decide (ls = ls') then 1 else 0);
  hlabels_new name labels : histogram_labels (NewHistogramVec name labels) = labels;
  hlabels_observe h ls x : histogram_labels (Observe h ls x) = histogram_labels h;
  observations_new name labels ls : observations (NewHistogramVec name labels) ls = 0;
  observations_observe h ls x ls' : label_values (histogram_labels h) ls → exact_count (observations h ls) →
    observations (Observe h ls x) ls' = observations h ls' + (if decide (ls = ls') then 1 else 0)
}.

(** [Duration.Seconds]: float64(d / Second) + float64(d % Second) / 1e9. *)
Definition float_of_Z (z : Z) : spec_float := float_of_ratio (z <? 0) (Z.abs z) 1.
Definition Seconds (d : Z) : spec_float :=
  SFadd 53 1024 (float_of_Z (Z.quot d 1000000000)) (SFdiv 53 1024 (float_of_Z (Z.rem d 1000000000)) (float_of_Z 1000000000)).

Section Recorder.
Context {Counter Histogram Registry : Type} `{!PromClient Counter Histogram Registry}.

Record PrometheusRecorder := mkPrometheusRecorder {
  pm_invocations : Counter;
  pm_durations : Histogram;
  pm_retries : Counter;
  pm_circuitOpen : Counter
}.

(** The collectors are registered in order; the first error ends it. *)
Fixpoint register_all (registry : Registry) (names : list string) : Registry * option error :=
  match names with
  | [] => (registry, None)
  | name :: names' =>
      match prom_Register registry name with
      | (registry', Some err) => (registry', Some (Errorf_w ("register collector: " +:+ Error err) err))
      | (registry', None) => register_all registry' names'
      end
  end.

Definition collectors : list string :=
  ["fluxroute_invocations_total"; "fluxroute_invocation_duration_seconds"; "fluxroute_retry_attempts_total";
   "fluxroute_circuit_breaks_total"].

Definition fresh_recorder : PrometheusRecorder :=
  mkPrometheusRecorder (NewCounterVec "fluxroute_invocations_total" ["agent_id"; "status"])
    (NewHistogramVec "fluxroute_invocation_duration_seconds" ["agent_id"])
    (NewCounterVec "fluxroute_retry_attempts_total" ["agent_id"])
    (NewCounterVec "fluxroute_circuit_breaks_total" ["agent_id"]).

Definition NewPrometheusRecorder (registry : option Registry) : option Registry * result error PrometheusRecorder :=
  match registry with
  | None => (None, Err (Errorf "prometheus registry is nil"))
  | Some registry =>
      match register_all registry collectors with
      | (registry', Some err) => (Some registry', Err err)
      | (registry', None) => (Some registry', Ok fresh_recorder)
      end
  end.

Definition prom_ObserveInvocation (r : PrometheusRecorder) (agentID status : string) (duration : Z) : PrometheusRecorder :=
  mkPrometheusRecorder (Inc (pm_invocations r) [agentID; status]) (Observe (pm_durations r) [agentID] (Seconds duration))
    (pm_retries r) (pm_circuitOpen r).
Definition prom_ObserveRetry (r : PrometheusRecorder) (agentID : string) : PrometheusRecorder :=
  mkPrometheusRecorder (pm_invocations r) (pm_durations r) (Inc (pm_retries r) [agentID]) (pm_circuitOpen r).
Definition prom_ObserveCircuitOpen (r : PrometheusRecorder) (agentID : string) : PrometheusRecorder :=
  mkPrometheusRecorder (pm_invocations r) (pm_durations r) (pm_retries r) (Inc (pm_circuitOpen r) [agentID]).

#[global] Instance Prometheus_recorder : Recorder PrometheusRecorder := {|
  ObserveInvocation := prom_ObserveInvocation;
  ObserveRetry := prom_ObserveRetry;
  ObserveCircuitOpen := prom_ObserveCircuitOpen
|}.

(** ** The counters are those of the in-memory recorder *)

(** The observations the engine makes: its statuses, and agents named in valid UTF-8. *)
Definition engine_observation (o : observation) : Prop :=
  valid_utf8 (observed_agent o) = true ∧
  match o with ObsInvocation _ st _ => st ∈ ["success"; "error"; "circuit_open"] | _ => True end.

Definition agrees (p : PrometheusRecorder) (m : InMemoryRecorder) : Prop := ∀ a,
  let s := stats_of (byAgent m) a in
  value (pm_invocations p) [a; "success"] = Successes s ∧
  value (pm_invocations p) [a; "error"] + value (pm_invocations p) [a; "circuit_open"] = Errors s ∧
  observations (pm_durations p) [a] = Successes s + Errors s ∧
  value (pm_retries p) [a] = Retries s ∧ value (pm_circuitOpen p) [a] = st_CircuitOpens s.

(** The labels the vectors have, and a bound on every count. *)
Record counts_ok (p : PrometheusRecorder) (n : Z) : Prop := {
  co_invocations : length (counter_labels (pm_invocations p)) = 2%nat;
  co_durations : length (histogram_labels (pm_durations p)) = 1%nat;
  co_retries : length (counter_labels (pm_retries p)) = 1%nat;
  co_opens : length (counter_labels (pm_circuitOpen p)) = 1%nat;
  co_bound ls : 0 ≤ value (pm_invocations p) ls ≤ n ∧ 0 ≤ observations (pm_durations p) ls ≤ n ∧
    0 ≤ value (pm_retries p) ls ≤ n ∧ 0 ≤ value (pm_circuitOpen p) ls ≤ n
}.

Context `{!PromLaws Counter Histogram Registry}.

Lemma agrees_fresh : agrees fresh_recorder NewInMemoryRecorder ∧ counts_ok fresh_recorder 0.
Proof.
  split.
  - intros a. unfold fresh_recorder. cbn. by rewrite !value_new, !observations_new.
  - split; intros; unfold fresh_recorder; cbn; by rewrite ?labels_new, ?hlabels_new, ?value_new, ?observations_new.
Qed.

Lemma status_utf8 st : st ∈ ["success"; "error"; "circuit_open"] → valid_utf8 st = true.
Proof. by intros [->|[->|[->|[]%elem_of_nil]%elem_of_cons]%elem_of_cons]%elem_of_cons. Qed.

(** What one observation does to the counters. *)
Lemma prom_step p n o : engine_observation o → counts_ok p n → exact_count n →
  counts_ok (observe p o) (n + 1) ∧
  (∀ ls, value (pm_invocations (observe p o)) ls = value (pm_invocations p) ls +
     match o with ObsInvocation a st _ => if decide ([a; st] = ls) then 1 else 0 | _ => 0 end) ∧
  (∀ ls, observations (pm_durations (observe p o)) ls = observations (pm_durations p) ls +
     match o with ObsInvocation a _ _ => if decide ([a] = ls) then 1 else 0 | _ => 0 end) ∧
  (∀ ls, value (pm_retries (observe p o)) ls = value (pm_retries p) ls +
     match o with ObsRetry a => if decide ([a] = ls) then 1 else 0 | _ => 0 end) ∧
  (∀ ls, value (pm_circuitOpen (observe p o)) ls = value (pm_circuitOpen p) ls +
     match o with ObsCircuitOpen a => if decide ([a] = ls) then 1 else 0 | _ => 0 end).
Proof.
  intros [Ha Ho] [C1 C2 C3 C4 Cb] Hn. unfold exact_count in Hn.
  assert (∀ st, valid_utf8 st = true → ∀ b ls, length ls = 2%nat → valid_utf8 b = true → label_values ls [b; st]) as L2
    by (intros st Hst b ls Hl Hb; split; [done|by repeat constructor]).
  assert (∀ b ls, length ls = 1%nat → valid_utf8 b = true → label_values ls [b]) as L1
    by (intros b ls Hl Hb; split; [done|by repeat constructor]).
  set (p' := observe p o).
  assert ((∀ ls, value (pm_invocations p') ls = value (pm_invocations p) ls +
     match o with ObsInvocation a st _ => if decide ([a; st] = ls) then 1 else 0 | _ => 0 end) ∧
  (∀ ls, observations (pm_durations p') ls = observations (pm_durations p) ls +
     match o with ObsInvocation a _ _ => if decide ([a] = ls) then 1 else 0 | _ => 0 end) ∧
  (∀ ls, value (pm_retries p') ls = value (pm_retries p) ls +
     match o with ObsRetry a => if decide ([a] = ls) then 1 else 0 | _ => 0 end) ∧
  (∀ ls, value (pm_circuitOpen p') ls = value (pm_circuitOpen p) ls +
     match o with ObsCircuitOpen a => if decide ([a] = ls) then 1 else 0 | _ => 0 end)) as (V1 & V2 & V3 & V4).
  { subst p'. destruct o as [a st d|a|a]; cbn [observed_agent] in Ha; cbn; split_and!; intros ls; rewrite ?Z.add_0_r; try done.
    - apply value_inc; [apply L2; [by apply status_utf8|done|done]|unfold exact_count; destruct (Cb [a; st]); lia].
    - apply observations_observe; [by apply L1|unfold exact_count; destruct (Cb [a]); lia].
    - apply value_inc; [by apply L1|unfold exact_count; destruct (Cb [a]); lia].
    - apply value_inc; [by apply L1|unfold exact_count; destruct (Cb [a]); lia]. }
  split; [|done]. split; [by subst p'; destruct o; cbn; rewrite ?labels_inc, ?hlabels_observe..|].
  intros ls. rewrite V1, V2, V3, V4. destruct (Cb ls) as (B1 & B2 & B3 & B4). destruct o; repeat case_decide; lia.
Qed.

Lemma agrees_observe p m o n : engine_observation o → counts_ok p n → exact_count n → agrees p m → agrees (observe p o) (observe m o).
Proof.
  intros Ho Hc Hn H a. destruct (H a) as (H1 & H2 & H3 & H4 & H5). destruct (prom_step p n o Ho Hc Hn) as (_ & V1 & V2 & V3 & V4).
  cbv zeta. rewrite V1, (V1 [a; "error"]), (V1 [a; "circuit_open"]), V2, V3, V4, ByAgent_observe, stats_of_insert.
  destruct (co_bound _ _ Hc [a; "success"]) as [B1 _]. destruct (co_bound _ _ Hc [a; "error"]) as [B2 _].
  destruct (co_bound _ _ Hc [a; "circuit_open"]) as [B3 _]. destruct (co_bound _ _ Hc [a]) as (_ & _ & B4 & B5).
  unfold exact_count in Hn. destruct Ho as [_ Ho]. destruct o as [b st d|b|b]; cbn [observed_agent]; destruct (decide (b = a)) as [->|Hab].
  - cbv zeta. cbn [Successes Errors Retries st_CircuitOpens]. rewrite (decide_True (P := [a] = [a])) by done.
    apply elem_of_cons in Ho as [->|[->|[->|[]%elem_of_nil]%elem_of_cons]%elem_of_cons];
      repeat (case_decide; simplify_eq); rewrite ?bool_decide_true, ?bool_decide_false by done; split_and!; wrap_lia.
  - repeat (case_decide; simplify_eq); split_and!; lia.
  - rewrite decide_True by done. cbv zeta. cbn [Successes Errors Retries st_CircuitOpens]. split_and!; wrap_lia.
  - rewrite decide_False by (by intros [= ?]). split_and!; lia.
  - rewrite decide_True by done. cbv zeta. cbn [Successes Errors Retries st_CircuitOpens]. split_and!; wrap_lia.
  - rewrite decide_False by (by intros [= ?]). split_and!; lia.
Qed.

(** C34: a recorder that NewPrometheusRecorder returned, after fewer than 2^53
    observations of the engine, in any order, of agents with valid UTF-8 names, has for every
    agent the counters of the in-memory recorder given the same observations: successes, errors
    (failed or refused), retries and circuit openings, and one duration per invocation. *)
Theorem prometheus_agrees registry registry' p os :
  NewPrometheusRecorder registry = (registry', Ok p) →
  Forall engine_observation os → exact_count (Z.of_nat (length os)) →
  agrees (observe_all p os) (observe_all NewInMemoryRecorder os).
Proof.
  intros Hnew Hos Hn. assert (p = fresh_recorder) as ->.
  { unfold NewPrometheusRecorder in Hnew. destruct registry as [r|]; [|done]. destruct (register_all _ _) as [r' [err|]]; [done|].
    by injection Hnew as _ <-. }
  destruct agrees_fresh as [Ha Hc]. unfold observe_all. revert Ha Hc Hn.
  cut (∀ (p : PrometheusRecorder) m k, agrees p m → counts_ok p k → exact_count (k + Z.of_nat (length os)) →
    agrees (foldl observe p os) (foldl observe m os)); [intros H ? ? ?; by apply (H _ _ 0)|].
  induction Hos as [|o os Ho _ IH]; intros p m k Ha Hc Hn; [done|]. cbn [foldl]. rewrite length_cons in Hn. unfold exact_count in *.
  assert (exact_count k) as Hk by (unfold exact_count; lia).
  apply (IH _ _ (k + 1)); [by apply (agrees_observe _ _ _ k)|by apply prom_step|lia].
Qed.
End Recorder.

(** A library that counts in maps, and does nothing where the client panics. *)
Definition counted (v : list string * gmap (list string) Z) (ls : list string) : list string * gmap (list string) Z :=
  if decide (length ls = length v.1) then (v.1, <[ls := default 0 (v.2 !! ls) + 1]> v.2) else v.

#[export] Instance map_prom : PromClient (list string * gmap (list string) Z) (list string * gmap (list string) Z) (gset string) := {|
  NewCounterVec _ labels := (labels, ∅);
  NewHistogramVec _ labels := (labels, ∅);
  Inc := counted;
  Observe h ls _ := counted h ls;
  prom_Register r name := if decide (name ∈ r) then (r, Some (Errorf "duplicate metrics collector registration attempted")) else ({[name]} ∪ r, None);
  counter_labels := fst;
  histogram_labels := fst;
  value c ls := default 0 (c.2 !! ls);
  observations h ls := default 0 (h.2 !! ls)
|}.

Lemma counted_labels v ls : (counted v ls).1 = v.1.
Proof. unfold counted. by case_decide. Qed.
Lemma counted_value v ls ls' : length ls = length v.1 →
  default 0 ((counted v ls).2 !! ls') = default 0 (v.2 !! ls') + (if decide (ls = ls') then 1 else 0).
Proof.
  intros Hl. unfold counted. rewrite decide_True by done. cbn [snd]. case_decide; subst;
    [rewrite lookup_insert_eq; cbn; lia|rewrite lookup_insert_ne by done; lia].
Qed.

#[export] Instance map_prom_laws : PromLaws (list string * gmap (list string) Z) (list string * gmap (list string) Z) (gset string).
Proof.
  split; cbn; intros; try done; try apply counted_labels; apply counted_value; by match goal with H : label_values _ _ |- _ => destruct H end.
Qed.

Lemma prometheus_agrees_witness :
  match NewPrometheusRecorder (Counter:=list string * gmap (list string) Z) (Histogram:=list string * gmap (list string) Z) (Some (∅ : gset string)) with
  | (_, Ok p) => value (pm_invocations (observe_all p [ObsInvocation "a" "success" 5; ObsInvocation "a" "success" 7])) ["a"; "success"] = 2
  | _ => False
  end.
Proof.
  destruct (NewPrometheusRecorder _) as [r' [p|err]] eqn:E; [|apply (f_equal (λ x, is_ok x.2)) in E; vm_compute in E; discriminate E].
  pose proof (prometheus_agrees _ _ _ [ObsInvocation "a" "success" 5; ObsInvocation "a" "success" 7] E) as H.
  destruct (H ltac:(repeat constructor) ltac:(vm_compute; reflexivity) "a") as (H1 & _). rewrite H1. vm_compute. reflexivity.
Defined.
