(* ===== verification/Kahn.v ===== *)
(** * Kahn's algorithm

    internal/router/router.go ([buildGraph]) and internal/config/manifest.go
    ([OrderedPipeline]) both sort a dependency graph with in-degree counts and child lists.
    This file holds the loop body they share and the invariant it maintains; the two clients
    instantiate it with a queue of levels and with a single queue. *)

From S2P Require Import Prelude.

(** ** The shared loop body *)

Definition degree (inDegree : gmap string Z) (n : string) : Z := default 0 (inDegree !! n).
Definition children_of (children : gmap string (list string)) (n : string) : list string :=
  default [] (children !! n).

(** [inDegree[child]--; if inDegree[child] == 0 { next = append(next, child) }] *)
Definition relax1 (st : gmap string Z * list string) (child : string) :
    gmap string Z * list string :=
  let d := wrap64 (degree st.1 child - 1) in
  (<[child := d]> st.1, if d =? 0 then st.2 ++ [child] else st.2).

(** [for _, child := range children[curr] { ... }] *)
Definition relax (children : gmap string (list string)) (st : gmap string Z * list string)
    (curr : string) : gmap string Z * list string :=
  foldl relax1 st (children_of children curr).

(** ** Occurrences *)
Definition occ (n : string) (l : list string) : Z := Z.of_nat (length (filter (λ x, x = n) l)).

Lemma occ_cons n x l : occ n (x :: l) = (if decide (x = n) then 1 else 0) + occ n l.
Proof.
  unfold occ. destruct (decide (x = n)) as [->|Hne].
  - rewrite filter_cons_True by done. simpl. lia.
  - by rewrite filter_cons_False.
Qed.

Lemma occ_nonneg n l : 0 ≤ occ n l.
Proof. unfold occ. lia. Qed.

Lemma occ_zero n l : occ n l = 0 ↔ n ∉ l.
Proof.
  induction l as [|x l IH]; [split; [set_solver|done]|].
  rewrite occ_cons, not_elem_of_cons. pose proof (occ_nonneg n l). case_decide; naive_solver lia.
Qed.

Lemma degree_insert m a b d : degree (<[a := d]> m) b = if decide (a = b) then d else degree m b.
Proof. unfold degree. rewrite lookup_insert. by case_decide. Qed.

(** ** Decrementing along a list of children *)
Lemma relax_fold cs : ∀ inDeg,
  (∀ n, occ n cs ≤ degree inDeg n < max_int64) →
  ∃ inDeg' new, (∀ acc, foldl relax1 (inDeg, acc) cs = (inDeg', acc ++ new)) ∧
    (∀ n, degree inDeg' n = degree inDeg n - occ n cs) ∧
    NoDup new ∧ (∀ n, n ∈ new ↔ n ∈ cs ∧ occ n cs = degree inDeg n).
Proof.
  induction cs as [|c cs IH]; intros inDeg Hle; simpl.
  { exists inDeg, []. split; [intros acc; by rewrite app_nil_r|]. split; [intros n; unfold occ; simpl; lia|].
    split; [constructor|set_solver]. }
  set (d := wrap64 (degree inDeg c - 1)).
  assert (d = degree inDeg c - 1) as Hd.
  { pose proof (Hle c) as Hc. rewrite occ_cons, decide_True in Hc by done.
    pose proof (occ_nonneg c cs). subst d. wrap_lia. }
  destruct (IH (<[c := d]> inDeg)) as (inDeg' & new & Hf & Hdeg & Hnd & Hnew).
  { intros n. rewrite degree_insert. specialize (Hle n). rewrite occ_cons in Hle.
    case_decide; subst; lia. }
  exists inDeg', (if d =? 0 then c :: new else new).
  assert (∀ acc, foldl relax1 (relax1 (inDeg, acc) c) cs =
    (inDeg', (if d =? 0 then acc ++ [c] else acc) ++ new)) as Hf' by (intros acc; apply Hf).
  assert (∀ n, degree inDeg' n = degree inDeg n - occ n (c :: cs)) as Hdeg'.
  { intros n. rewrite Hdeg, degree_insert, occ_cons. case_decide; subst; lia. }
  assert (∀ n, n ∈ new ↔ n ∈ cs ∧ occ n (c :: cs) = degree inDeg n) as Hnew'.
  { intros n. rewrite Hnew, degree_insert, occ_cons. case_decide; subst; intuition lia. }
  destruct (Z.eqb_spec d 0) as [Hz|Hz].
  - assert (occ c cs = 0) as Hocc.
    { specialize (Hle c). rewrite occ_cons, decide_True in Hle by done. pose proof (occ_nonneg c cs). lia. }
    apply occ_zero in Hocc as Hnin.
    split; [intros acc; by rewrite Hf', <- app_assoc|]. split; [done|]. split.
    + constructor; [|done]. rewrite Hnew. tauto.
    + intros n. rewrite elem_of_cons, Hnew', elem_of_cons. split; [|tauto].
      intros [->|[? ?]]; [|tauto]. split; [by left|]. rewrite occ_cons, decide_True by done. lia.
  - split; [done|]. split; [done|]. split; [done|].
    intros n. rewrite Hnew', elem_of_cons. split; [tauto|]. intros [[->|Hin] He]; [|tauto].
    split; [|done]. rewrite occ_cons, decide_True in He by done.
    destruct (decide (c ∈ cs)) as [|Hnin]; [done|]. apply occ_zero in Hnin. lia.
Qed.

(** ** The invariant *)

(** Every node of [order] comes after the nodes it has an edge from. *)
Definition topological (E : list (string * string)) (order : list string) : Prop :=
  ∀ l1 n l2, order = l1 ++ n :: l2 → ∀ d, (d, n) ∈ E → d ∈ l1.

Section invariant.
(** [V]: the nodes; [E]: the edges (dependency, dependent), with multiplicity. *)
Context (V : list string) (E : list (string * string)) (children : gmap string (list string)).

(** The edges into [n] whose source is not in [D]. *)
Definition pending (D : list string) (n : string) : Z :=
  Z.of_nat (length (filter (λ e, e.2 = n ∧ e.1 ∉ D) E)).

(** [D]: the nodes processed so far, in order; [Q]: those in the queue. *)
Record kahn_inv (D Q : list string) (inDeg : gmap string Z) : Prop := {
  k_degree n : degree inDeg n = pending D n;
  k_nodup : NoDup (D ++ Q);
  k_ready n : n ∈ D ++ Q ↔ n ∈ V ∧ pending D n = 0;
  k_topological : topological E D
}.

Lemma pending_nonneg D n : 0 ≤ pending D n.
Proof. unfold pending. lia. Qed.

Lemma pending_zero D n d : pending D n = 0 → (d, n) ∈ E → d ∈ D.
Proof.
  unfold pending. intros Hp Hd. destruct (decide (d ∈ D)) as [|Hn]; [done|].
  assert ((d, n) ∈ filter (λ e, e.2 = n ∧ e.1 ∉ D) E) as Hin by (by rewrite list_elem_of_filter).
  destruct (filter _ E); [set_solver|simpl in Hp; lia].
Qed.

Lemma zero_pending D n : (∀ d, (d, n) ∈ E → d ∈ D) → pending D n = 0.
Proof.
  intros H. unfold pending. destruct (filter _ E) as [|[d m] l] eqn:Ef; [done|].
  assert ((d, m) ∈ filter (λ e, e.2 = n ∧ e.1 ∉ D) E) as Hin by (rewrite Ef; by left).
  rewrite list_elem_of_filter in Hin. simpl in Hin. naive_solver.
Qed.

Lemma pending_le D n : pending D n ≤ Z.of_nat (length E).
Proof. unfold pending. pose proof (length_filter (λ e : string * string, e.2 = n ∧ e.1 ∉ D) E). lia. Qed.

(** Processing [c] removes the edges out of [c]. *)
Lemma pending_snoc D c n :
  c ∉ D → pending (D ++ [c]) n = pending D n - occ n ((filter (λ e, e.1 = c) E).*2).
Proof.
  intros Hc. unfold pending. induction E as [|[d m] E' IH]; [done|].
  rewrite !filter_cons. cbn [fst snd].
  destruct (decide (d = c)) as [->|Hdc]; rewrite ?fmap_cons, ?occ_cons; cbn [snd].
  - rewrite (decide_False (P := m = n ∧ c ∉ D ++ [c])) by set_solver.
    destruct (decide (m = n)).
    + rewrite (decide_True (P := m = n ∧ c ∉ D)) by tauto. cbn [length]. lia.
    + rewrite (decide_False (P := m = n ∧ c ∉ D)) by tauto. lia.
  - destruct (decide (m = n ∧ d ∉ D)) as [[-> Hd]|Hn].
    + rewrite (decide_True (P := n = n ∧ d ∉ D ++ [c])) by set_solver. cbn [length]. lia.
    + rewrite (decide_False (P := m = n ∧ d ∉ D ++ [c])) by set_solver. lia.
Qed.

Context (Hchildren : ∀ d, children_of children d = (filter (λ e, e.1 = d) E).*2).
Context (HE : ∀ d n, (d, n) ∈ E → d ∈ V ∧ n ∈ V).
Context (Hsmall : Z.of_nat (length E) < max_int64).

Lemma kahn_inv_perm D Q Q' inDeg : Q ≡ₚ Q' → kahn_inv D Q inDeg → kahn_inv D Q' inDeg.
Proof. intros Hp []. split; [done| |setoid_rewrite <- Hp|]; try done. by rewrite <- Hp. Qed.

Lemma topological_snoc D c : topological E D → (∀ d, (d, c) ∈ E → d ∈ D) → topological E (D ++ [c]).
Proof.
  intros HD Hc l1 n l2 Heq d Hd. destruct l2 as [|x l2 _] using rev_ind.
  - apply app_inj_tail in Heq as [-> ->]. eauto.
  - rewrite app_comm_cons, app_assoc in Heq. apply app_inj_tail in Heq as [-> ->]. eauto.
Qed.

(** One iteration: the head of the queue is processed. *)
Lemma kahn_step D c Q inDeg :
  kahn_inv D (c :: Q) inDeg →
  ∃ inDeg' new, (∀ acc, relax children (inDeg, acc) c = (inDeg', acc ++ new)) ∧
    kahn_inv (D ++ [c]) (Q ++ new) inDeg'.
Proof.
  intros [Hdeg Hnd Hready Htopo]. unfold relax. rewrite Hchildren. set (cs := (filter _ E).*2).
  assert (c ∉ D) as HcD by (apply NoDup_app in Hnd as (_ & Hnd & _); set_solver).
  assert (∀ n, pending (D ++ [c]) n = pending D n - occ n cs) as Hpend by (intros; by apply pending_snoc).
  destruct (relax_fold cs inDeg) as (inDeg' & new & Hf & Hdeg' & Hndn & Hnew).
  { intros n. rewrite Hdeg. pose proof (pending_nonneg (D ++ [c]) n). pose proof (pending_le D n).
    rewrite Hpend in *. lia. }
  assert (∀ n, n ∈ cs → occ n cs > 0) as Hpos.
  { intros n Hn. pose proof (occ_nonneg n cs). destruct (decide (occ n cs = 0)) as [H0|]; [|lia].
    by apply occ_zero in H0. }
  assert (∀ n, n ∈ cs → n ∈ V) as HcsV.
  { intros n. subst cs. rewrite list_elem_of_fmap. intros ([d m] & -> & Hin).
    rewrite list_elem_of_filter in Hin. apply (HE d m). tauto. }
  exists inDeg', new. split; [done|].
  assert ((D ++ [c]) ++ Q ++ new = (D ++ c :: Q) ++ new) as Hassoc by (by rewrite <- !app_assoc).
  split.
  - intros n. by rewrite Hdeg', Hpend, Hdeg.
  - rewrite Hassoc. apply NoDup_app. split; [done|]. split; [|done].
    intros n [_ H0]%Hready [Hin Ho]%Hnew. specialize (Hpos n Hin). rewrite Hdeg in Ho. lia.
  - intros n. rewrite Hassoc, elem_of_app, Hready, Hnew, Hdeg, Hpend.
    pose proof (occ_nonneg n cs). pose proof (pending_nonneg (D ++ [c]) n) as Hp0. rewrite Hpend in Hp0.
    split; [intros [[? ?]|[? ?]]; split; [done|lia|auto|lia]|].
    intros [HnV H0]. destruct (decide (pending D n = 0)); [by left|right].
    split; [|lia]. destruct (decide (n ∈ cs)) as [|Hn]; [done|]. apply occ_zero in Hn. lia.
  - apply topological_snoc; [done|]. intros d. apply pending_zero. apply (Hready c). set_solver.
Qed.

(** A whole level: its nodes are processed while the next level is collected. *)
Lemma kahn_level level : ∀ D acc inDeg,
  kahn_inv D (level ++ acc) inDeg →
  ∃ inDeg' next, foldl (relax children) (inDeg, acc) level = (inDeg', next) ∧
    kahn_inv (D ++ level) next inDeg'.
Proof.
  induction level as [|c level IH]; intros D acc inDeg Hinv; simpl.
  { exists inDeg, acc. by rewrite app_nil_r. }
  destruct (kahn_step _ _ _ _ Hinv) as (inDeg1 & new & Hf & Hinv1). rewrite Hf.
  destruct (IH (D ++ [c]) (acc ++ new) inDeg1) as (inDeg' & next & Hn & Hinv'); [by rewrite app_assoc|].
  exists inDeg', next. split; [done|]. by rewrite <- app_assoc in Hinv'.
Qed.

Lemma kahn_bound D Q inDeg : kahn_inv D Q inDeg → (length (D ++ Q) ≤ length V)%nat.
Proof. intros []. apply submseteq_length, NoDup_submseteq; [done|]. intros n [? _]%k_ready0. done. Qed.

(** When the queue is empty and every node was counted, the order is complete. *)
Lemma kahn_complete D inDeg :
  kahn_inv D [] inDeg → length D = length V → D ≡ₚ V.
Proof.
  intros [] Hlen. rewrite app_nil_r in *. apply submseteq_length_Permutation; [|lia].
  apply NoDup_submseteq; [done|]. intros n [? _]%k_ready0. done.
Qed.

(** If the edges are ranked, the algorithm reaches every node. *)
Lemma kahn_reaches_all D inDeg (rank : string → nat) :
  kahn_inv D [] inDeg → (∀ d n, (d, n) ∈ E → (rank d < rank n)%nat) → ∀ n, n ∈ V → n ∈ D.
Proof.
  intros [_ _ Hready _] Hrank. setoid_rewrite app_nil_r in Hready.
  assert (∀ k n, (rank n < k)%nat → n ∈ V → n ∈ D) as Hk.
  { induction k as [|k IH]; intros n Hn HV; [lia|]. apply Hready. split; [done|].
    apply zero_pending. intros d Hd. apply IH; [specialize (Hrank d n Hd); lia|by apply (HE d n)]. }
  intros n. apply (Hk (S (rank n))). lia.
Qed.
End invariant.

(** A complete topological order ranks the edges. *)
Lemma index_of_split (l1 l2 : list string) n :
  n ∉ l1 → list_find (λ x, x = n) (l1 ++ n :: l2) = Some (length l1, n).
Proof.
  intros Hn. apply list_find_Some. split; [by rewrite lookup_app_r, Nat.sub_diag by lia|].
  split; [done|]. intros j y Hj Hlt ->. rewrite lookup_app_l in Hj by lia.
  apply Hn, list_elem_of_lookup. eauto.
Qed.

Lemma topological_ranked E order :
  topological E order → NoDup order → (∀ d n, (d, n) ∈ E → n ∈ order) →
  ∃ rank : string → nat, ∀ d n, (d, n) ∈ E → (rank d < rank n)%nat.
Proof.
  intros Ht Hnd Hin. exists (λ x, from_option fst O (list_find (λ y, y = x) order)).
  intros d n He. destruct (list_elem_of_split order n (Hin d n He)) as (l1 & l2 & Heq).
  specialize (Ht l1 n l2 Heq d He) as Hd.
  destruct (list_elem_of_split l1 d Hd) as (k1 & k2 & ->).
  rewrite Heq in Hnd. rewrite <- app_assoc in Heq, Hnd. simpl in Heq, Hnd. subst order.
  assert (d ∉ k1) by (apply NoDup_app in Hnd; set_solver).
  rewrite (index_of_split k1 _ d) by done. simpl.
  assert (n ∉ k1 ++ d :: k2).
  { replace (k1 ++ d :: k2 ++ n :: l2) with ((k1 ++ d :: k2) ++ n :: l2) in Hnd by (by rewrite <- app_assoc).
    apply NoDup_app in Hnd. set_solver. }
  replace (k1 ++ d :: k2 ++ n :: l2) with ((k1 ++ d :: k2) ++ n :: l2) by (by rewrite <- app_assoc).
  rewrite index_of_split by done. simpl. rewrite length_app. simpl. lia.
Qed.
