(* ===== verification/PlanGraph.v ===== *)
(** * Execution plans: the data and [buildGraph] of internal/router/router.go

    The plan records, the dependency graph the engine runs and its levels.  The theorems
    show that [buildGraph] accepts exactly the well-formed acyclic plans and that its levels
    are a layering: every node once, after everything it depends on. *)

From S2P Require Import Prelude GoErrors GoStrings AgentFunc Kahn.

(** ** Data *)
Record AgentInvocation := mkAgentInvocation {
  inv_ID : string;
  inv_AgentID : string;
  inv_Input : AgentInput
}.

Record PlanNode := mkPlanNode {
  Invocation : AgentInvocation;
  DependsOn : list string;
  pn_RetryPolicy : RetryPolicy;
  pn_CircuitBreakerPolicy : CircuitBreakerPolicy
}.

Record ExecutionPlan := mkExecutionPlan {
  plan_TaskID : string;
  plan_Nodes : list PlanNode
}.

Record planGraph := mkPlanGraph {
  g_nodes : list PlanNode;
  g_nodesByID : gmap string PlanNode;
  g_levels : list (list string)
}.

Definition node_id (n : PlanNode) : string := inv_ID (Invocation n).

(** ** buildGraph *)

(** The first loop: index the nodes and their in-degrees. *)
Fixpoint index_nodes (nodes : list PlanNode) (nodesByID : gmap string PlanNode)
    (inDegree : gmap string Z) : result error (gmap string PlanNode * gmap string Z) :=
  match nodes with
  | [] => Ok (nodesByID, inDegree)
  | n :: rest =>
      if decide (node_id n = "") then
        Err (Errorf "execution plan has node with empty invocation id")
      else match nodesByID !! node_id n with
      | Some _ => Err (Errorf ("execution plan has duplicate invocation id " +:+ Quote (node_id n)))
      | None => index_nodes rest (<[node_id n := n]> nodesByID)
                  (<[node_id n := Z.of_nat (length (DependsOn n))]> inDegree)
      end
  end.

(** The second loop: the dependencies of one node, then those of every node. *)
Fixpoint add_children (nodesByID : gmap string PlanNode) (id : string) (deps : list string)
    (children : gmap string (list string)) : result error (gmap string (list string)) :=
  match deps with
  | [] => Ok children
  | depID :: rest =>
      match nodesByID !! depID with
      | None => Err (Errorf ("execution plan node " +:+ Quote id +:+
                  " depends on unknown invocation " +:+ Quote depID))
      | Some _ =>
          if decide (depID = id) then
            Err (Errorf ("execution plan node " +:+ Quote id +:+ " depends on itself"))
          else add_children nodesByID id rest
                 (<[depID := children_of children depID ++ [id]]> children)
      end
  end.

Fixpoint add_edges (nodesByID : gmap string PlanNode) (nodes : list PlanNode)
    (children : gmap string (list string)) : result error (gmap string (list string)) :=
  match nodes with
  | [] => Ok children
  | n :: rest =>
      children' ← add_children nodesByID (node_id n) (DependsOn n) children;
      add_edges nodesByID rest children'
  end.

(** The main loop: [None] when the fuel runs out before the queue is empty. *)
Fixpoint levels_loop (fuel : nat) (children : gmap string (list string)) (inDegree : gmap string Z)
    (queue : list string) : option (list (list string)) :=
  match queue with
  | [] => Some []
  | _ =>
      match fuel with
      | O => None
      | S fuel' =>
          let '(inDegree', next) := foldl (relax children) (inDegree, []) queue in
          cons queue <$> levels_loop fuel' children inDegree' (sort_strings next)
      end
  end.

(** Every iteration of the main loop takes a non-empty queue of nodes that were not in an
    earlier one, so [length nodes] iterations are enough ([levels_loop_enough]). *)
Definition buildGraph (plan : ExecutionPlan) : result error planGraph :=
  let nodes := plan_Nodes plan in
  match nodes with
  | [] => Err (Errorf "execution plan has no nodes")
  | _ =>
      '(nodesByID, inDegree) ← index_nodes nodes ∅ ∅;
      children ← add_edges nodesByID nodes ∅;
      let queue := sort_strings (filter (λ id, degree inDegree id = 0) (node_id <$> nodes)) in
      match levels_loop (length nodes) children inDegree queue with
      | None => Err (Errorf "out of fuel")
      | Some levels =>
          let visited := length (concat levels) in
          if decide (visited = length nodes) then Ok (mkPlanGraph nodes nodesByID levels)
          else Err (Errorf "execution plan contains cycle")
      end
  end.

(** ** Specification *)

(** The edges (dependency, dependent) in the order the second loop meets them. *)
Definition plan_edges (nodes : list PlanNode) : list (string * string) :=
  concat ((λ n, (λ d, (d, node_id n)) <$> DependsOn n) <$> nodes).

(** What the checks of the first two loops ask for. *)
Definition plan_wf (plan : ExecutionPlan) : Prop :=
  plan_Nodes plan ≠ [] ∧ NoDup (node_id <$> plan_Nodes plan) ∧
  (∀ n, n ∈ plan_Nodes plan → node_id n ≠ "") ∧
  (∀ d n, (d, n) ∈ plan_edges (plan_Nodes plan) → d ∈ node_id <$> plan_Nodes plan).

(** The dependencies are acyclic: they can be ranked. *)
Definition plan_acyclic (plan : ExecutionPlan) : Prop :=
  ∃ rank : string → nat, ∀ d n, (d, n) ∈ plan_edges (plan_Nodes plan) → (rank d < rank n)%nat.

(** The plan's edges can be counted in an [int]. *)
Definition plan_fits (plan : ExecutionPlan) : Prop :=
  Z.of_nat (length (plan_edges (plan_Nodes plan))) < max_int64.

(** [levels] after the nodes of [D] are done: every level is non-empty and sorted, and the
    dependencies of its nodes lie in [D] and the levels before it. *)
Definition layered (E : list (string * string)) (D : list string) (levels : list (list string)) : Prop :=
  ∀ before level after, levels = before ++ level :: after →
    level ≠ [] ∧ StronglySorted String.le level ∧
    ∀ n, n ∈ level → ∀ d, (d, n) ∈ E → d ∈ D ++ concat before.

(** ** The indexing loops *)
Lemma index_nodes_ok nodes : ∀ byID inDeg,
  (∃ r, index_nodes nodes byID inDeg = Ok r) ↔
  NoDup (node_id <$> nodes) ∧ ∀ n, n ∈ nodes → node_id n ≠ "" ∧ byID !! node_id n = None.
Proof.
  induction nodes as [|n nodes IH]; intros byID inDeg; simpl.
  { split; [intros _; split; [constructor|set_solver]|eauto]. }
  rewrite NoDup_cons. destruct (decide (node_id n = "")) as [He|Hne].
  { split; [by intros [? ?]|]. intros [_ H]. destruct (H n) as [? _]; [by left|done]. }
  destruct (byID !! node_id n) eqn:Hl.
  { split; [by intros [? ?]|]. intros [_ H]. destruct (H n) as [_ ?]; [by left|congruence]. }
  rewrite IH. split.
  - intros [Hnd H]. split; [split; [|done]|].
    + intros (m & Hm & Hin)%list_elem_of_fmap. destruct (H m Hin) as [_ Hm'].
      by rewrite <- Hm, lookup_insert_eq in Hm'.
    + intros m [->|Hin]%elem_of_cons; [done|]. destruct (H m Hin) as [? Hm].
      split; [done|]. apply lookup_insert_None in Hm. naive_solver.
  - intros [[Hn Hnd] H]. split; [done|]. intros m Hm. destruct (H m) as [? ?]; [by right|].
    split; [done|]. rewrite lookup_insert_ne; [done|]. intros Heq. apply Hn.
    rewrite Heq. apply list_elem_of_fmap. eauto.
Qed.

Lemma index_nodes_lookup nodes : ∀ byID inDeg byID' inDeg',
  index_nodes nodes byID inDeg = Ok (byID', inDeg') →
  (∀ n, n ∈ nodes → byID' !! node_id n = Some n ∧
     degree inDeg' (node_id n) = Z.of_nat (length (DependsOn n))) ∧
  (∀ id, id ∉ node_id <$> nodes → byID' !! id = byID !! id ∧ degree inDeg' id = degree inDeg id).
Proof.
  induction nodes as [|n nodes IH]; intros byID inDeg byID' inDeg' Hi; simpl in Hi.
  { simplify_eq. split; [set_solver|done]. }
  assert (NoDup (node_id <$> n :: nodes)) as Hnd by (apply (index_nodes_ok (n :: nodes) byID inDeg); eauto).
  apply NoDup_cons in Hnd as [Hn _]. case_decide; [done|]. case_match; [done|].
  destruct (IH _ _ _ _ Hi) as [H1 H2]. split.
  - intros m [->|Hm]%elem_of_cons; [|auto]. destruct (H2 _ Hn) as [-> ->].
    rewrite degree_insert, decide_True, lookup_insert_eq by done. done.
  - intros id [Hne Hid]%not_elem_of_cons. destruct (H2 _ Hid) as [-> ->].
    by rewrite degree_insert, decide_False, lookup_insert_ne by congruence.
Qed.

Lemma children_of_insert ch a b l :
  children_of (<[a := l]> ch) b = if decide (a = b) then l else children_of ch b.
Proof. unfold children_of. rewrite lookup_insert. by case_decide. Qed.

Lemma add_children_ok byID id deps : ∀ ch,
  (∃ ch', add_children byID id deps ch = Ok ch') ↔ ∀ d, d ∈ deps → is_Some (byID !! d) ∧ d ≠ id.
Proof.
  induction deps as [|d deps IH]; intros ch; simpl; [split; [set_solver|eauto]|].
  destruct (byID !! d) eqn:Hl.
  - case_decide; [subst|rewrite IH]; [|set_solver]. split; [by intros [? ?]|].
    intros H. by destruct (H id) as [_ ?]; [left|].
  - split; [by intros [? ?]|]. intros H. destruct (H d) as [[? ?] _]; [by left|congruence].
Qed.

Lemma add_children_spec byID id deps : ∀ ch ch',
  add_children byID id deps ch = Ok ch' →
  ∀ x, children_of ch' x = children_of ch x ++ (filter (λ e, e.1 = x) ((λ d, (d, id)) <$> deps)).*2.
Proof.
  induction deps as [|d deps IH]; intros ch ch' Ha x; simpl in Ha.
  { simplify_eq. simpl. by rewrite app_nil_r. }
  case_match; [|done]. case_decide; [done|]. rewrite (IH _ _ Ha), children_of_insert, fmap_cons, filter_cons.
  cbn [fst]. case_decide; [|done]. subst. rewrite fmap_cons. by rewrite <- app_assoc.
Qed.

Lemma plan_edges_cons n nodes :
  plan_edges (n :: nodes) = ((λ d, (d, node_id n)) <$> DependsOn n) ++ plan_edges nodes.
Proof. done. Qed.

Lemma elem_of_plan_edges nodes d id :
  (d, id) ∈ plan_edges nodes ↔ ∃ n, n ∈ nodes ∧ node_id n = id ∧ d ∈ DependsOn n.
Proof.
  induction nodes as [|n nodes IH]; [set_solver|].
  rewrite plan_edges_cons, elem_of_app, IH, list_elem_of_fmap. set_solver.
Qed.

Lemma add_edges_ok byID nodes : ∀ ch,
  (∃ ch', add_edges byID nodes ch = Ok ch') ↔
  ∀ d id, (d, id) ∈ plan_edges nodes → is_Some (byID !! d) ∧ d ≠ id.
Proof.
  induction nodes as [|n nodes IH]; intros ch; simpl; [split; [set_solver|eauto]|].
  setoid_rewrite plan_edges_cons. setoid_rewrite elem_of_app. setoid_rewrite list_elem_of_fmap.
  destruct (add_children byID (node_id n) (DependsOn n) ch) as [ch1|e] eqn:Hc; simpl.
  - rewrite IH. assert (∀ d, d ∈ DependsOn n → is_Some (byID !! d) ∧ d ≠ node_id n) as Hd
      by (apply (add_children_ok byID _ _ ch); eauto). naive_solver.
  - split; [by intros [? ?]|]. intros H.
    destruct (proj2 (add_children_ok byID (node_id n) (DependsOn n) ch)) as [? ?]; [|congruence].
    intros d Hd. apply H. left. eauto.
Qed.

Lemma add_edges_spec byID nodes : ∀ ch ch',
  add_edges byID nodes ch = Ok ch' →
  ∀ x, children_of ch' x = children_of ch x ++ (filter (λ e, e.1 = x) (plan_edges nodes)).*2.
Proof.
  induction nodes as [|n nodes IH]; intros ch ch' Ha x; simpl in Ha.
  { simplify_eq. simpl. by rewrite app_nil_r. }
  destruct (add_children _ _ _ _) as [ch1|] eqn:Hc; [|done]. simpl in Ha.
  rewrite (IH _ _ Ha), (add_children_spec _ _ _ _ _ Hc), plan_edges_cons, filter_app, fmap_app.
  by rewrite app_assoc.
Qed.

(** The in-degree a node starts with is the number of edges into it. *)
Lemma pending_app E1 E2 D id : pending (E1 ++ E2) D id = pending E1 D id + pending E2 D id.
Proof. unfold pending. rewrite filter_app, length_app. lia. Qed.

Lemma pending_own deps id id' :
  pending ((λ d, (d, id)) <$> deps) [] id' = if decide (id = id') then Z.of_nat (length deps) else 0.
Proof.
  unfold pending. induction deps as [|d deps IH]; [by case_decide|].
  rewrite fmap_cons, filter_cons. cbn [fst snd]. case_decide as Hd; subst.
  - rewrite (decide_True (P := id' = id' ∧ d ∉ [])) by set_solver. cbn [length]. lia.
  - by rewrite (decide_False (P := id = id' ∧ d ∉ [])) by tauto.
Qed.

Lemma pending_absent nodes id : id ∉ node_id <$> nodes → pending (plan_edges nodes) [] id = 0.
Proof.
  intros Hid. apply zero_pending. intros d (n & Hn & <- & _)%elem_of_plan_edges.
  destruct Hid. apply list_elem_of_fmap. eauto.
Qed.

Lemma pending_node nodes n :
  NoDup (node_id <$> nodes) → n ∈ nodes →
  pending (plan_edges nodes) [] (node_id n) = Z.of_nat (length (DependsOn n)).
Proof.
  induction nodes as [|m nodes IH]; intros Hnd Hn; [set_solver|].
  rewrite fmap_cons, NoDup_cons in Hnd. destruct Hnd as [Hm Hnd].
  rewrite plan_edges_cons, pending_app, pending_own. apply elem_of_cons in Hn as [->|Hn].
  - rewrite decide_True, pending_absent by done. lia.
  - rewrite decide_False, IH by (done || (intros He; apply Hm; rewrite He; apply list_elem_of_fmap; eauto)).
    lia.
Qed.

(** ** The main loop *)
Lemma layered_cons E D Q ls :
  Q ≠ [] → StronglySorted String.le Q → (∀ n, n ∈ Q → ∀ d, (d, n) ∈ E → d ∈ D) →
  layered E (D ++ Q) ls → layered E D (Q :: ls).
Proof.
  intros HQ Hs Hdep Hls before level after Heq. destruct before as [|b before]; simplify_eq/=.
  - rewrite app_nil_r. eauto.
  - rewrite app_assoc. by apply (Hls before level after).
Qed.

Section loop.
Context (V : list string) (E : list (string * string)) (children : gmap string (list string)).
Context (Hchildren : ∀ d, children_of children d = (filter (λ e, e.1 = d) E).*2).
Context (HE : ∀ d n, (d, n) ∈ E → d ∈ V ∧ n ∈ V).
Context (Hsmall : Z.of_nat (length E) < max_int64).

(** With as much fuel as there are unprocessed nodes the loop finishes. *)
Lemma levels_loop_enough fuel : ∀ D Q inDeg,
  kahn_inv V E D Q inDeg → StronglySorted String.le Q → (length V ≤ fuel + length D)%nat →
  ∃ ls inDeg', levels_loop fuel children inDeg Q = Some ls ∧
    kahn_inv V E (D ++ concat ls) [] inDeg' ∧ layered E D ls.
Proof.
  induction fuel as [|fuel IH]; intros D Q inDeg Hinv Hs Hfuel; destruct Q as [|q Q].
  1, 3: exists [], inDeg; split; [done|]; rewrite app_nil_r; split; [done|]; by intros [].
  - pose proof (kahn_bound _ _ _ _ _ Hinv) as Hb. rewrite length_app in Hb. simpl in Hb. lia.
  - destruct (kahn_level V E children Hchildren HE Hsmall (q :: Q) D [] inDeg)
      as (inDeg1 & next & Hf & Hinv1); [by rewrite app_nil_r|].
    apply (kahn_inv_perm _ _ _ _ (sort_strings next)) in Hinv1; [|symmetry; apply sort_strings_perm].
    destruct (IH (D ++ q :: Q) (sort_strings next) inDeg1) as (ls & inDeg' & Hl & Hinv' & Hlay);
      [done|auto with flux|rewrite length_app; simpl; lia|].
    exists ((q :: Q) :: ls), inDeg'. cbn [levels_loop]. rewrite Hf, Hl. split; [done|].
    split; [by rewrite concat_cons, app_assoc|]. apply layered_cons; try done.
    intros n Hn d Hd. apply (pending_zero E D n); [|done]. apply (k_ready _ _ _ _ _ Hinv n). set_solver.
Qed.
End loop.

(** ** buildGraph *)
Definition graph_ok (plan : ExecutionPlan) (g : planGraph) : Prop :=
  g_nodes g = plan_Nodes plan ∧
  (∀ id n, g_nodesByID g !! id = Some n ↔ n ∈ plan_Nodes plan ∧ node_id n = id) ∧
  concat (g_levels g) ≡ₚ node_id <$> plan_Nodes plan ∧
  layered (plan_edges (plan_Nodes plan)) [] (g_levels g).

(** The state after the indexing loops satisfies the invariant. *)
Lemma initial_inv nodes byID inDeg :
  NoDup (node_id <$> nodes) → index_nodes nodes ∅ ∅ = Ok (byID, inDeg) →
  kahn_inv (node_id <$> nodes) (plan_edges nodes) []
    (sort_strings (filter (λ id, degree inDeg id = 0) (node_id <$> nodes))) inDeg.
Proof.
  intros Hnd Hi. destruct (index_nodes_lookup _ _ _ _ _ Hi) as [H1 H2].
  assert (∀ id, degree inDeg id = pending (plan_edges nodes) [] id) as Hdeg.
  { intros id. destruct (decide (id ∈ node_id <$> nodes)) as [(n & -> & Hn)%list_elem_of_fmap|Hid].
    - rewrite pending_node by done. by apply H1.
    - destruct (H2 id Hid) as [_ ->]. by rewrite pending_absent. }
  split; simpl; [done|by apply sort_strings_NoDup, NoDup_filter| |by intros []].
  intros n. rewrite elem_of_sort_strings, list_elem_of_filter, Hdeg. tauto.
Qed.

Lemma buildGraph_run plan :
  plan_fits plan → plan_wf plan →
  (∀ d, (d, d) ∉ plan_edges (plan_Nodes plan)) →
  ∃ byID levels inDeg,
    buildGraph plan = (if decide (length (concat levels) = length (plan_Nodes plan))
      then Ok (mkPlanGraph (plan_Nodes plan) byID levels)
      else Err (Errorf "execution plan contains cycle")) ∧
    kahn_inv (node_id <$> plan_Nodes plan) (plan_edges (plan_Nodes plan)) (concat levels) [] inDeg ∧
    (∀ id n, byID !! id = Some n ↔ n ∈ plan_Nodes plan ∧ node_id n = id) ∧
    layered (plan_edges (plan_Nodes plan)) [] levels.
Proof.
  intros Hfits (Hne & Hnd & Hid & Hdeps) Hself. unfold buildGraph.
  set (nodes := plan_Nodes plan) in *. destruct nodes as [|n0 ns] eqn:Hn; [done|]. rewrite <- Hn in *. clear Hn.
  destruct (proj2 (index_nodes_ok nodes ∅ ∅)) as [[byID inDeg] Hi].
  { split; [done|]. intros n Hnn. split; [by apply Hid|apply lookup_empty]. }
  rewrite Hi. simpl. destruct (index_nodes_lookup _ _ _ _ _ Hi) as [Hl1 Hl2].
  destruct (proj2 (add_edges_ok byID nodes ∅)) as [children Hch].
  { intros d id He. split; [|intros ->; by apply (Hself id)].
    apply Hdeps in He. apply list_elem_of_fmap in He as (n & -> & Hnn). destruct (Hl1 n Hnn) as [-> _]. done. }
  rewrite Hch. simpl.
  destruct (levels_loop_enough (node_id <$> nodes) (plan_edges nodes) children) with
    (fuel := length nodes) (D := @nil string) (inDeg := inDeg)
    (Q := sort_strings (filter (λ id, degree inDeg id = 0) (node_id <$> nodes)))
    as (ls & inDeg' & Hloop & Hinv & Hlay).
  - intros d. rewrite (add_edges_spec _ _ _ _ Hch). done.
  - intros d n He. split; [eauto|]. apply elem_of_plan_edges in He as (m & Hm & <- & _).
    apply list_elem_of_fmap. eauto.
  - done.
  - by eapply initial_inv.
  - apply sort_strings_sorted.
  - rewrite length_fmap. lia.
  - rewrite Hloop. exists byID, ls, inDeg'. split; [done|]. split; [done|]. split; [|done].
    intros id n. split.
    + intros Hb. destruct (decide (id ∈ node_id <$> nodes)) as [(m & -> & Hm)%list_elem_of_fmap|Hni].
      * destruct (Hl1 m Hm) as [Hm' _]. split; congruence.
      * destruct (Hl2 id Hni) as [Hm' _]. rewrite lookup_empty in Hm'. congruence.
    + intros [Hnn <-]. by apply Hl1.
Qed.

Lemma buildGraph_Ok_wf plan g :
  buildGraph plan = Ok g → plan_wf plan ∧ ∀ d, (d, d) ∉ plan_edges (plan_Nodes plan).
Proof.
  unfold buildGraph, plan_wf. set (nodes := plan_Nodes plan).
  destruct nodes as [|n0 ns] eqn:Hn; [done|]. rewrite <- Hn.
  assert (nodes ≠ []) as Hne by (by rewrite Hn). clear Hn.
  destruct (index_nodes nodes ∅ ∅) as [[byID inDeg]|] eqn:Hi; [|done]. simpl.
  destruct (add_edges byID nodes ∅) as [children|] eqn:Hch; [|done]. intros _.
  destruct (proj1 (index_nodes_ok nodes ∅ ∅)) as [Hnd Hid]; [eauto|].
  pose proof (proj1 (add_edges_ok byID nodes ∅) (ex_intro _ _ Hch)) as Hed.
  destruct (index_nodes_lookup _ _ _ _ _ Hi) as [_ Hl2].
  split; [|intros d Hd; by destruct (Hed d d Hd)]. split; [done|].
  split; [done|]. split; [intros n Hnn; by apply Hid|].
  intros d n He. destruct (Hed d n He) as [Hs _].
  destruct (decide (d ∈ node_id <$> nodes)) as [|Hni]; [done|].
  destruct (Hl2 d Hni) as [Hm' _]. rewrite Hm', lookup_empty in Hs. by destruct Hs.
Qed.

Lemma buildGraph_Ok_graph plan g : plan_fits plan → buildGraph plan = Ok g → graph_ok plan g.
Proof.
  intros Hfits Hb. destruct (buildGraph_Ok_wf _ _ Hb) as [Hwf Hself].
  destruct (buildGraph_run plan Hfits Hwf Hself) as (byID & levels & inDeg & He & Hinv & Hbyid & Hlay).
  rewrite Hb in He. case_decide as Hlen; [|done]. simplify_eq.
  split; [done|]. split; [done|]. split; [|done]. simpl.
  eapply kahn_complete; [done|]. by rewrite length_fmap.
Qed.

Lemma no_self_edge plan : plan_acyclic plan → ∀ d, (d, d) ∉ plan_edges (plan_Nodes plan).
Proof. intros [rank Hrank] d Hd. specialize (Hrank d d Hd). lia. Qed.

Lemma plan_edges_targets plan d n :
  (d, n) ∈ plan_edges (plan_Nodes plan) → n ∈ node_id <$> plan_Nodes plan.
Proof. intros (m & Hm & <- & _)%elem_of_plan_edges. apply list_elem_of_fmap. eauto. Qed.

Lemma buildGraph_Ok_iff plan :
  plan_fits plan → (∃ g, buildGraph plan = Ok g) ↔ plan_wf plan ∧ plan_acyclic plan.
Proof.
  intros Hfits. split.
  - intros [g Hb]. destruct (buildGraph_Ok_wf _ _ Hb) as [Hwf Hself]. split; [done|].
    destruct (buildGraph_run plan Hfits Hwf Hself) as (byID & levels & inDeg & He & Hinv & _).
    rewrite Hb in He. case_decide as Hlen; [|done].
    assert (concat levels ≡ₚ node_id <$> plan_Nodes plan) as Hp
      by (eapply kahn_complete; [done|]; by rewrite length_fmap).
    apply (topological_ranked _ (concat levels)); [apply Hinv|rewrite Hp; apply Hwf|].
    intros d n Hd. rewrite Hp. by eapply plan_edges_targets.
  - intros [Hwf Hac]. pose proof (no_self_edge _ Hac) as Hself. destruct Hac as [rank Hrank].
    destruct (buildGraph_run plan Hfits Hwf Hself) as (byID & levels & inDeg & He & Hinv & _).
    rewrite decide_True in He; [eauto|]. rewrite <- (length_fmap node_id (plan_Nodes plan)).
    apply Permutation_length, NoDup_Permutation; [|apply Hwf|].
    + pose proof (k_nodup _ _ _ _ _ Hinv) as Hnd. by rewrite app_nil_r in Hnd.
    + intros n. split.
      * intros Hn. apply (k_ready _ _ _ _ _ Hinv n). by rewrite app_nil_r.
      * eapply kahn_reaches_all; [|exact Hinv|exact Hrank]. intros d m Hd.
        split; [apply (proj2 (proj2 (proj2 Hwf)) d m Hd)|by eapply plan_edges_targets].
Qed.

(** A sample plan: [b] and [c] depend on [a]; [d] on both. *)
Definition sample_node (id : string) (deps : list string) : PlanNode :=
  mkPlanNode (mkAgentInvocation id id AgentInput_zero) deps RetryPolicy_zero CircuitBreakerPolicy_zero.
Definition sample_plan : ExecutionPlan :=
  mkExecutionPlan "task" [sample_node "d" ["b"; "c"]; sample_node "b" ["a"]; sample_node "c" ["a"];
    sample_node "a" []].

(** C3: for a plan whose edges can be counted in an [int], [buildGraph]
    succeeds exactly when the plan has nodes, their identifiers are non-empty and distinct, every
    dependency names a node, and the dependencies are acyclic. *)
Theorem buildGraph_accepts_iff plan :
  plan_fits plan → (∃ g, buildGraph plan = Ok g) ↔ plan_wf plan ∧ plan_acyclic plan.
Proof. apply buildGraph_Ok_iff. Qed.

Lemma buildGraph_accepts_iff_witness :
  plan_fits sample_plan ∧ plan_wf sample_plan ∧ plan_acyclic sample_plan.
Proof.
  split; [vm_compute; reflexivity|].
  apply (buildGraph_accepts_iff sample_plan); [vm_compute; reflexivity|].
  eexists. vm_compute. reflexivity.
Defined.

(** C4: a graph that [buildGraph] returns indexes exactly the plan's nodes, its
    levels hold every node exactly once, each level is non-empty and sorted, and every dependency
    of a node lies in an earlier level. *)
Theorem buildGraph_layers plan g :
  plan_fits plan → buildGraph plan = Ok g →
  (∀ id n, g_nodesByID g !! id = Some n ↔ n ∈ plan_Nodes plan ∧ node_id n = id) ∧
  concat (g_levels g) ≡ₚ node_id <$> plan_Nodes plan ∧ NoDup (concat (g_levels g)) ∧
  ∀ before level after, g_levels g = before ++ level :: after →
    level ≠ [] ∧ StronglySorted String.le level ∧
    ∀ n, n ∈ plan_Nodes plan → node_id n ∈ level → ∀ d, d ∈ DependsOn n → d ∈ concat before.
Proof.
  intros Hfits Hb. destruct (buildGraph_Ok_graph _ _ Hfits Hb) as (_ & Hby & Hp & Hlay).
  split; [done|]. split; [done|]. split.
  { rewrite Hp. apply (buildGraph_Ok_wf _ _ Hb). }
  intros before level after Heq. destruct (Hlay _ _ _ Heq) as (H1 & H2 & H3). split; [done|]. split; [done|].
  intros n Hn Hl d Hd. apply (H3 _ Hl). apply elem_of_plan_edges. eauto.
Qed.

Lemma buildGraph_layers_witness :
  (g_levels <$> match buildGraph sample_plan with Ok g => Some g | Err _ => None end)
    = Some [["a"]; ["b"; "c"]; ["d"]] ∧
  ∃ g, buildGraph sample_plan = Ok g ∧ NoDup (concat (g_levels g)).
Proof.
  split; [vm_compute; reflexivity|].
  destruct (buildGraph sample_plan) as [g|e] eqn:E; [|vm_compute in E; discriminate E].
  exists g. split; [reflexivity|].
  apply (buildGraph_layers sample_plan g); [vm_compute; reflexivity|exact E].
Defined.
