(* ===== verification/Engine.v ===== *)
(** * The execution engine: internal/router/router.go

    [executeNode] is written as a program over the engine's effects (clock, registry, circuit
    breaker, metrics, trace recorder, tracer, agent calls, waiting), so that one definition is
    run sequentially by a handler and interleaved with the other goroutines of a level.
    [executeLevel] and [RunPlan] are given for every interleaving (a step relation on a pool of
    goroutines bounded by the worker semaphore) and as an executable schedule. *)

From S2P Require Import Prelude GoErrors GoStrings AgentFunc Retry CircuitBreaker Registry.
From S2P Require Import Metrics Trace PlanGraph.

(** ** Results and configuration *)
Record AgentResult := mkAgentResult {
  res_Invocation : AgentInvocation;
  res_Output : AgentOutput;
  res_Err : option error
}.

Definition AgentInvocation_zero : AgentInvocation := mkAgentInvocation "" "" AgentInput_zero.
Definition AgentResult_zero : AgentResult := mkAgentResult AgentInvocation_zero AgentOutput_zero None.

(** The configuration [NewEngine] stores. *)
Definition NewEngine_cfg (cfg : RouterConfig) : RouterConfig :=
  let rp := rc_RetryPolicy cfg in
  let cb := rc_CircuitBreaker cfg in
  mkRouterConfig
    (if WorkerPoolSize cfg <=? 0 then 1 else WorkerPoolSize cfg)
    (if ChannelBuffer cfg <=? 0 then 1 else ChannelBuffer cfg)
    (if DefaultTimeout cfg <=? 0 then 30 * Second else DefaultTimeout cfg)
    (mkRetryPolicy (if MaxAttempts rp <=? 0 then 1 else MaxAttempts rp)
       (if decide (Backoff rp = "") then BackoffLinear else Backoff rp) (RetryableErrs rp))
    (mkCircuitBreakerPolicy (if FailureThreshold cb <? 0 then 0 else FailureThreshold cb)
       (if ResetTimeout cb <=? 0 then 60 * Second else ResetTimeout cb)
       (if ProbeTimeout cb <=? 0 then 5 * Second else ProbeTimeout cb)).

(** The policies [executeNode] works with: the node's, else the engine's, with defaults. *)
Definition effective_retry (cfg : RouterConfig) (node : PlanNode) : RetryPolicy :=
  let policy := if MaxAttempts (pn_RetryPolicy node) <=? 0 then rc_RetryPolicy cfg
                else pn_RetryPolicy node in
  mkRetryPolicy (if MaxAttempts policy <=? 0 then 1 else MaxAttempts policy)
    (if decide (Backoff policy = "") then BackoffLinear else Backoff policy) (RetryableErrs policy).

Definition effective_breaker (cfg : RouterConfig) (node : PlanNode) : CircuitBreakerPolicy :=
  let p := if FailureThreshold (pn_CircuitBreakerPolicy node) <=? 0 then rc_CircuitBreaker cfg
           else pn_CircuitBreakerPolicy node in
  mkCircuitBreakerPolicy (FailureThreshold p)
    (if ResetTimeout p <=? 0 then 60 * Second else ResetTimeout p)
    (if ProbeTimeout p <=? 0 then 5 * Second else ProbeTimeout p).

(** ** Errors of an invocation *)

(** [safeCall]: a panic becomes a non-retryable error. *)
Definition safeCall (o : outcome) : AgentOutput * option error :=
  match o with
  | Returned out err => (out, err)
  | Panicked r =>
      (AgentOutput_zero,
       NonRetryable (Some (Errorf_w (Error ErrAgentPanic +:+ ": " +:+ r) ErrAgentPanic)))
  end.

Definition normalizeInvocationError (err : option error) : option error :=
  match err with
  | None => None
  | Some e =>
      if errors_Is e context_DeadlineExceeded
      then Some (Errorf_w (Error ErrAgentTimeout +:+ ": " +:+ Error e) ErrAgentTimeout)
      else Some e
  end.

Definition shouldRetry (err : option error) (policy : RetryPolicy) : bool :=
  match err with
  | None => false
  | Some e =>
      match errors_As_AgentError e with
      | Some (_, retryable) => retryable
      | None =>
          if errors_Is e context_Canceled then false
          else match RetryableErrs policy with
               | [] => true
               | targets => existsb (errors_Is e) targets
               end
      end
  end.

(** [dependencyError]: the first dependency without a good result. *)
Fixpoint dependency_loop (deps : list string) (nodesByID : gmap string PlanNode)
    (results : gmap string AgentResult) : option error :=
  match deps with
  | [] => None
  | depID :: rest =>
      match results !! depID with
      | None => Some (Errorf ("dependency result missing: " +:+ depID))
      | Some r =>
          match res_Err r with
          | Some e => Some (Errorf ("dependency failed: " +:+ depID +:+ ": " +:+ Error e))
          | None =>
              match nodesByID !! depID with
              | None => Some (Errorf ("dependency missing in graph: " +:+ depID))
              | Some _ => dependency_loop rest nodesByID results
              end
          end
      end
  end.

Definition dependencyError (node : PlanNode) (graph : planGraph)
    (results : gmap string AgentResult) : option error :=
  dependency_loop (DependsOn node) (g_nodesByID graph) results.

(** ** Programs over the engine's effects *)
Section Programs.
(** Agent functions, as the registry stores them. *)
Context {F : Type}.

Inductive eff : Type :=
| ENow                                                          (* time.Now() *)
| EGet (agentID : string)                                       (* e.registry.Get *)
| EAllow (agentID : string) (p : CircuitBreakerPolicy) (now : time)
| ERecordSuccess (agentID : string)
| ERecordFailure (agentID : string) (p : CircuitBreakerPolicy) (now : time)
| EObserve (o : observation)                                    (* e.metrics *)
| EAddStep (s : Step)                                           (* recorder.AddStep *)
| ESpanStart (taskID requestID invocationID agentID : string) (attempt : Z)
| ESpanEnd (err : option error)                                 (* status, then span.End *)
| ECall (fn : F) (timeout : Z) (input : AgentInput)             (* fn(runCtx, input) *)
| ESelect (d : Z).                                              (* ctx.Done() or time.After *)

(** What each effect answers; [ESelect] gives [ctx.Err()] when the context is done. *)
Definition resp (e : eff) : Type :=
  match e with
  | ENow => time
  | EGet _ => option F
  | EAllow _ _ _ => bool * bool
  | ECall _ _ _ => outcome
  | ESelect _ => option error
  | _ => unit
  end.

Inductive prog (A : Type) : Type :=
| Ret (a : A)
| Vis (e : eff) (k : resp e → prog A).
Arguments Ret {A} a.
Arguments Vis {A} e k.

Fixpoint prog_bind {A B} (f : A → prog B) (p : prog A) : prog B :=
  match p with
  | Ret a => f a
  | Vis e k => Vis e (λ x, prog_bind f (k x))
  end.

#[global] Instance prog_mret : MRet prog := λ A a, Ret a.
#[global] Instance prog_mbind : MBind prog := λ A B f p, prog_bind f p.

(** Performs one effect. *)
Definition call (e : eff) : prog (resp e) := Vis e Ret.

(** ** executeNode *)

(** The step records of one node. *)
Definition node_step (node : PlanNode) (out : AgentOutput) (err : string) (duration attempt : Z) : Step :=
  let inv := Invocation node in
  mkStep (inv_ID inv) (inv_AgentID inv) (in_RequestID (inv_Input inv)) (inv_Input inv) out err
    duration attempt.

Definition circuit_error (agentID : string) : error :=
  AgentError (Some (Errorf_w (Error ErrCircuitOpen +:+ ": " +:+ agentID) ErrCircuitOpen)) false.

(** The timeout of a call: the half-open probe has its own, if it is shorter. *)
Definition call_timeout (cfg : RouterConfig) (cb : CircuitBreakerPolicy) (halfOpenProbe : bool) : Z :=
  if halfOpenProbe && (0 <? ProbeTimeout cb) && (ProbeTimeout cb <? DefaultTimeout cfg)
  then ProbeTimeout cb else DefaultTimeout cfg.

(** The loop over attempts, from [attempt], with [remaining] attempts left. *)
Fixpoint attempt_loop (cfg : RouterConfig) (node : PlanNode) (policy : RetryPolicy)
    (cbPolicy : CircuitBreakerPolicy) (fn : F) (remaining : nat) (attempt : Z)
    (lastErr : option error) : prog AgentResult :=
  let inv := Invocation node in
  let agentID := inv_AgentID inv in
  match remaining with
  | O => Ret (mkAgentResult inv AgentOutput_zero lastErr)
  | S remaining' =>
      now ← call ENow;
      allowed ← call (EAllow agentID cbPolicy now);
      if negb (allowed : bool * bool).1 then
        let err := circuit_error agentID in
        _ ← call (EObserve (ObsInvocation agentID "circuit_open" 0));
        _ ← call (EObserve (ObsCircuitOpen agentID));
        _ ← call (EAddStep (node_step node AgentOutput_zero (Error err) 0 attempt));
        Ret (mkAgentResult inv AgentOutput_zero (Some err))
      else
        let timeout := call_timeout cfg cbPolicy allowed.2 in
        _ ← call (ESpanStart (in_TaskID (inv_Input inv)) (in_RequestID (inv_Input inv))
                    (inv_ID inv) agentID attempt);
        started ← call ENow;
        o ← call (ECall fn timeout (inv_Input inv));
        finished ← call ENow;
        let '(out, err0) := safeCall o in
        let duration := Sub finished started in
        match normalizeInvocationError err0 with
        | None =>
            let out := if out_Duration out =? 0
                       then mkAgentOutput (out_RequestID out) (out_Payload out) (out_Metadata out) duration
                       else out in
            _ ← call (ERecordSuccess agentID);
            _ ← call (EObserve (ObsInvocation agentID "success" (out_Duration out)));
            _ ← call (EAddStep (node_step node out "" duration attempt));
            _ ← call (ESpanEnd None);
            Ret (mkAgentResult inv out None)
        | Some err =>
            failed ← call ENow;
            _ ← call (ERecordFailure agentID cbPolicy failed);
            _ ← call (EObserve (ObsInvocation agentID "error" duration));
            _ ← call (EAddStep (node_step node out (Error err) duration attempt));
            _ ← call (ESpanEnd (Some err));
            if (attempt =? MaxAttempts policy) || negb (shouldRetry (Some err) policy) then
              Ret (mkAgentResult inv AgentOutput_zero (Some err))
            else
              _ ← call (EObserve (ObsRetry agentID));
              ctxErr ← call (ESelect (BackoffDuration (Backoff policy) attempt));
              match (ctxErr : option error) with
              | Some e => Ret (mkAgentResult inv AgentOutput_zero (Some e))
              | None => attempt_loop cfg node policy cbPolicy fn remaining' (attempt + 1) (Some err)
              end
        end
  end.

Definition executeNode (cfg : RouterConfig) (node : PlanNode) : prog AgentResult :=
  let policy := effective_retry cfg node in
  let cbPolicy := effective_breaker cfg node in
  let inv := Invocation node in
  fn ← call (EGet (inv_AgentID inv));
  match (fn : option F) with
  | None =>
      let err := Errorf ("agent not registered: " +:+ inv_AgentID inv) in
      _ ← call (EObserve (ObsInvocation (inv_AgentID inv) "error" 0));
      _ ← call (EAddStep (node_step node AgentOutput_zero (Error err) 0 1));
      Ret (mkAgentResult inv AgentOutput_zero (Some err))
  | Some fn =>
      attempt_loop cfg node policy cbPolicy fn (Z.to_nat (MaxAttempts policy)) 1 None
  end.
End Programs.
Arguments eff F : clear implicits.
Arguments prog F A : clear implicits.
Arguments Ret {F A} a.
Arguments Vis {F A} e k.

(** ** Logs: what a program may do, whatever the other goroutines do

    An effect's answer depends on state shared with other goroutines, so a program is
    specified by the event sequences it can produce for arbitrary answers. *)
Inductive event : Type :=
| EvAllow (granted probe : bool)
| EvSuccess
| EvFailure
| EvObserve (o : observation)
| EvStep (s : Step)
| EvSpanStart (attempt : Z)
| EvSpanEnd
| EvCall (timeout : Z) (o : outcome)
| EvWait (d : Z) (ctxErr : option error).

Section Logs.
Context {F : Type}.

Definition event_of (e : eff F) : resp e → list event :=
  match e with
  | ENow => λ _, []
  | EGet _ => λ _, []
  | EAllow _ _ _ => λ x, [EvAllow x.1 x.2]
  | ERecordSuccess _ => λ _, [EvSuccess]
  | ERecordFailure _ _ _ => λ _, [EvFailure]
  | EObserve o => λ _, [EvObserve o]
  | EAddStep s => λ _, [EvStep s]
  | ESpanStart _ _ _ _ n => λ _, [EvSpanStart n]
  | ESpanEnd _ => λ _, [EvSpanEnd]
  | ECall _ t _ => λ o, [EvCall t o]
  | ESelect d => λ x, [EvWait d x]
  end.

(** [logs p l a]: with some answers, [p] produces the events [l] and returns [a]. *)
Fixpoint logs {A} (p : prog F A) (l : list event) (a : A) : Prop :=
  match p with
  | Ret a' => l = [] ∧ a = a'
  | Vis e k => ∃ x l', l = event_of e x ++ l' ∧ logs (k x) l' a
  end.

(** The specification of the attempts of a node, attempt by attempt. *)
Context (cfg : RouterConfig) (node : PlanNode) (policy : RetryPolicy) (cb : CircuitBreakerPolicy).
Let inv := Invocation node.
Let agentID := inv_AgentID (Invocation node).

Definition refused_events (attempt : Z) (probe : bool) : list event :=
  [EvAllow false probe; EvObserve (ObsInvocation agentID "circuit_open" 0);
   EvObserve (ObsCircuitOpen agentID);
   EvStep (node_step node AgentOutput_zero (Error (circuit_error agentID)) 0 attempt)].

Definition try_events (attempt : Z) (probe : bool) (o : outcome) : list event :=
  [EvAllow true probe; EvSpanStart attempt; EvCall (call_timeout cfg cb probe) o].

(** A successful output carries the measured duration unless the agent set one. *)
Definition with_duration (out : AgentOutput) (d : Z) : AgentOutput :=
  if out_Duration out =? 0
  then mkAgentOutput (out_RequestID out) (out_Payload out) (out_Metadata out) d else out.

Definition success_events (attempt : Z) (out : AgentOutput) (d : Z) : list event :=
  [EvSuccess; EvObserve (ObsInvocation agentID "success" (out_Duration out));
   EvStep (node_step node out "" d attempt); EvSpanEnd].

Definition failure_events (attempt : Z) (out : AgentOutput) (err : error) (d : Z) : list event :=
  [EvFailure; EvObserve (ObsInvocation agentID "error" d);
   EvStep (node_step node out (Error err) d attempt); EvSpanEnd].

Definition retry_events (attempt : Z) (ctxErr : option error) : list event :=
  [EvObserve (ObsRetry agentID); EvWait (BackoffDuration (Backoff policy) attempt) ctxErr].

Inductive attempts : nat → Z → list event → AgentResult → Prop :=
| at_exhausted a last : attempts 0 a [] (mkAgentResult inv AgentOutput_zero last)
| at_refused n a probe :
    attempts (S n) a (refused_events a probe)
      (mkAgentResult inv AgentOutput_zero (Some (circuit_error agentID)))
| at_success n a probe o d :
    normalizeInvocationError (safeCall o).2 = None →
    attempts (S n) a (try_events a probe o ++ success_events a (with_duration (safeCall o).1 d) d)
      (mkAgentResult inv (with_duration (safeCall o).1 d) None)
| at_stopped n a probe o err d :
    normalizeInvocationError (safeCall o).2 = Some err →
    (a =? MaxAttempts policy) || negb (shouldRetry (Some err) policy) = true →
    attempts (S n) a (try_events a probe o ++ failure_events a (safeCall o).1 err d)
      (mkAgentResult inv AgentOutput_zero (Some err))
| at_cancelled n a probe o err d ctxErr :
    normalizeInvocationError (safeCall o).2 = Some err →
    (a =? MaxAttempts policy) || negb (shouldRetry (Some err) policy) = false →
    attempts (S n) a (try_events a probe o ++ failure_events a (safeCall o).1 err d ++
                      retry_events a (Some ctxErr))
      (mkAgentResult inv AgentOutput_zero (Some ctxErr))
| at_retried n a probe o err d l r :
    normalizeInvocationError (safeCall o).2 = Some err →
    (a =? MaxAttempts policy) || negb (shouldRetry (Some err) policy) = false →
    attempts n (a + 1) l r →
    attempts (S n) a (try_events a probe o ++ failure_events a (safeCall o).1 err d ++
                      retry_events a None ++ l) r.

#[local] Arguments shouldRetry : simpl never.
#[local] Arguments normalizeInvocationError : simpl never.
#[local] Arguments safeCall : simpl never.

Lemma attempt_loop_logs fn n : ∀ a last l r,
  logs (attempt_loop cfg node policy cb fn n a last) l r → attempts n a l r.
Proof.
  induction n as [|n IH]; intros a last l r; simpl; [intros [-> ->]; constructor|].
  intros (now & l1 & -> & [granted probe] & l2 & -> & H). simpl in *.
  destruct granted; simpl in H; [|by destruct H as (? & ? & -> & ? & ? & -> & ? & ? & -> & -> & ->); constructor].
  destruct H as (? & ? & -> & started & ? & -> & o & ? & -> & finished & ? & -> & H). simpl in *.
  destruct (safeCall o) as [out err0] eqn:Eo.
  destruct (normalizeInvocationError err0) as [err|] eqn:En; simpl in H.
  - destruct H as (failed & ? & -> & ? & ? & -> & ? & ? & -> & ? & ? & -> & ? & ? & -> & H). simpl in *.
    destruct ((a =? MaxAttempts policy) || negb (shouldRetry (Some err) policy)) eqn:Es; simpl in H.
    + destruct H as [-> ->].
      pose proof (at_stopped n a probe o err (Sub finished started)) as Ha. rewrite Eo in Ha. by apply Ha.
    + destruct H as (? & ? & -> & ctxErr & ? & -> & H). simpl in *. destruct ctxErr as [e|].
      * destruct H as [-> ->].
        pose proof (at_cancelled n a probe o err (Sub finished started) e) as Ha. rewrite Eo in Ha. by apply Ha.
      * pose proof (at_retried n a probe o err (Sub finished started)) as Ha. rewrite Eo in Ha.
        apply Ha; [done..|]. by eapply IH.
  - destruct H as (? & ? & -> & ? & ? & -> & ? & ? & -> & ? & ? & -> & -> & ->).
    pose proof (at_success n a probe o (Sub finished started)) as Ha. rewrite Eo in Ha. by apply Ha.
Qed.
End Logs.

(** ** What every run of a node satisfies *)

Definition steps_of (l : list event) : list Step :=
  omap (λ ev, match ev with EvStep s => Some s | _ => None end) l.
Definition calls_of (l : list event) : list outcome :=
  omap (λ ev, match ev with EvCall _ o => Some o | _ => None end) l.

Lemma steps_of_app l1 l2 : steps_of (l1 ++ l2) = steps_of l1 ++ steps_of l2.
Proof. apply omap_app. Qed.
Lemma calls_of_app l1 l2 : calls_of (l1 ++ l2) = calls_of l1 ++ calls_of l2.
Proof. apply omap_app. Qed.

(** The step belongs to the node's invocation. *)
Definition step_for (node : PlanNode) (s : Step) : Prop :=
  st_InvocationID s = inv_ID (Invocation node) ∧ st_AgentID s = inv_AgentID (Invocation node) ∧
  st_RequestID s = in_RequestID (inv_Input (Invocation node)) ∧ st_Input s = inv_Input (Invocation node).

(** The recorded steps are numbered from [a], at most [n], and all of the node. *)
Definition numbered (node : PlanNode) (n : nat) (a : Z) (l : list event) : Prop :=
  let k := length (steps_of l) in
  (1 ≤ k ≤ n)%nat ∧ st_Attempt <$> steps_of l = seqZ a (Z.of_nat k) ∧
  Forall (step_for node) (steps_of l) ∧ (length (calls_of l) ≤ k)%nat.

(** The order of breaker calls, agent calls and reports. *)
Inductive phase : Type := Idle | Granted | Called | Refused.

Definition protocol_step (ph : phase) (ev : event) : option phase :=
  match ph, ev with
  | Idle, EvAllow true _ => Some Granted
  | Idle, EvAllow false _ => Some Refused
  | Granted, EvCall _ _ => Some Called
  | Called, EvSuccess | Called, EvFailure => Some Idle
  | Idle, EvWait _ _ => Some Idle
  | _, EvObserve _ | _, EvStep _ | _, EvSpanStart _ | _, EvSpanEnd => Some ph
  | _, _ => None
  end.

Fixpoint protocol (ph : phase) (l : list event) : option phase :=
  match l with
  | [] => Some ph
  | ev :: l' => protocol_step ph ev ≫= λ ph', protocol ph' l'
  end.

(** How the returned result relates to what was recorded. *)
Definition result_ok (node : PlanNode) (l : list event) (r : AgentResult) : Prop :=
  res_Invocation r = Invocation node ∧
  match res_Err r with
  | None => (EvSuccess ∈ l) ∧
      ∃ s, last (steps_of l) = Some s ∧ st_Error s = "" ∧ st_Output s = res_Output r
  | Some e => (EvSuccess ∉ l) ∧ res_Output r = AgentOutput_zero ∧
      ((∃ s, last (steps_of l) = Some s ∧ st_Error s = Error e) ∨
       (∃ d, last l = Some (EvWait d (Some e))))
  end.

(** The mark of an error: [Retryable] of the first [AgentError] in its chain, if any. *)
Inductive marked : error → bool → Prop :=
| marked_here c r : marked (AgentError c r) r
| marked_wrapped a msg e r : marked e r → marked (WrapError a msg e) r.

(** The allow-list of a policy admits an error: it is empty, or the error matches an entry. *)
Definition listed (policy : RetryPolicy) (e : error) : Prop :=
  RetryableErrs policy = [] ∨ ∃ t, t ∈ RetryableErrs policy ∧ errors_Is e t = true.

(** A call is followed by another one only if it returned an error that is not marked as not
    retryable and, unless it is marked as retryable, is not context.Canceled and is admitted by
    the allow-list.  An error that matches context.DeadlineExceeded is taken for ErrAgentTimeout,
    its mark included, so for it only the allow-list counts. *)
Definition retries_allowed (policy : RetryPolicy) (l : list event) : Prop :=
  ∀ l1 t o l2, l = l1 ++ EvCall t o :: l2 → calls_of l2 ≠ [] →
    ∃ out e, o = Returned out (Some e) ∧
      (errors_Is e context_DeadlineExceeded = true → listed policy ErrAgentTimeout) ∧
      (errors_Is e context_DeadlineExceeded = false → ¬ marked e false ∧
        (¬ marked e true → errors_Is e context_Canceled = false ∧ listed policy e)).

(** After a call, not the last attempt, that returned an unmarked error which is neither of the
    context's and which the allow-list admits, the node waits the backoff of that attempt and, if
    the wait is not cut short, asks the breaker again. *)
Definition retries_made (policy : RetryPolicy) (a : Z) (l : list event) : Prop :=
  ∀ l1 t out e l2, l = l1 ++ EvCall t (Returned out (Some e)) :: l2 →
    (∀ b, ¬ marked e b) → errors_Is e context_DeadlineExceeded = false →
    errors_Is e context_Canceled = false → listed policy e →
    let i := a + Z.of_nat (length (calls_of l1)) in i < MaxAttempts policy →
    ∃ mid ctxErr rest, l2 = mid ++ EvWait (BackoffDuration (Backoff policy) i) ctxErr :: rest ∧
      calls_of mid = [] ∧
      match ctxErr with Some _ => rest = [] | None => ∃ g probe, EvAllow g probe ∈ rest end.

Lemma As_marked e : match errors_As_AgentError e with
  | Some (_, r) => marked e r ∧ ¬ marked e (negb r)
  | None => ∀ b, ¬ marked e b end.
Proof.
  induction e as [a m|a m e IH|c r]; simpl.
  - intros b. inversion 1.
  - destruct (errors_As_AgentError e) as [[c r]|].
    + destruct IH as [H1 H2]. split; [by constructor|]. intros H. by inversion H.
    + intros b H. inversion H. by eapply IH.
  - split; [constructor|]. intros H. inversion H as [c' r' Heq|]. by destruct r.
Qed.

Lemma listed_existsb policy e :
  match RetryableErrs policy with [] => true | targets => existsb (errors_Is e) targets end = true ↔
  listed policy e.
Proof.
  unfold listed. destruct (RetryableErrs policy) as [|t ts]; [naive_solver|]. rewrite existsb_exists.
  split.
  - intros (x & Hx & Hm). right. exists x. by rewrite list_elem_of_In.
  - intros [H|(x & Hx & Hm)]; [done|]. exists x. by rewrite <- list_elem_of_In.
Qed.

Lemma shouldRetry_unmarked e policy : (∀ b, ¬ marked e b) →
  shouldRetry (Some e) policy = true ↔ errors_Is e context_Canceled = false ∧ listed policy e.
Proof.
  intros Hm. unfold shouldRetry. pose proof (As_marked e) as HA.
  destruct (errors_As_AgentError e) as [[c r]|]; [by destruct (Hm r); destruct HA|].
  rewrite <- listed_existsb. destruct (errors_Is e context_Canceled); naive_solver.
Qed.

Lemma shouldRetry_marked e policy : shouldRetry (Some e) policy = true → ¬ marked e false.
Proof.
  unfold shouldRetry. pose proof (As_marked e) as HA. destruct (errors_As_AgentError e) as [[c r]|].
  - intros ->. by destruct HA.
  - intros _. apply HA.
Qed.

(** What a retried outcome was. *)
Lemma retried_outcome o err policy :
  normalizeInvocationError (safeCall o).2 = Some err → shouldRetry (Some err) policy = true →
  ∃ out e, o = Returned out (Some e) ∧
    (errors_Is e context_DeadlineExceeded = true → listed policy ErrAgentTimeout) ∧
    (errors_Is e context_DeadlineExceeded = false → ¬ marked e false ∧
      (¬ marked e true → errors_Is e context_Canceled = false ∧ listed policy e)).
Proof.
  destruct o as [out [e|]|s]; simpl.
  - intros Hn Hs. exists out, e. split; [done|].
    destruct (errors_Is e context_DeadlineExceeded) eqn:E; injection Hn as <-; split; try done; intros _.
    + apply shouldRetry_unmarked in Hs as [_ Hs].
      2: { intros b Hb. inversion Hb as [|? ? ? ? Hb']. inversion Hb'. }
      destruct Hs as [Hs|(t & Ht & Hs)]; [by left|right]. exists t. split; [done|].
      by destruct t.
    + pose proof (shouldRetry_marked _ _ Hs) as Hm. split; [done|]. intros Ht.
      apply shouldRetry_unmarked; [|done]. by intros [|].
  - done.
  - intros [= <-]. done.
Qed.

Section Node_facts.
Context (cfg : RouterConfig) (node : PlanNode) (policy : RetryPolicy) (cb : CircuitBreakerPolicy).

Lemma retried_not_last n a :
  (a =? MaxAttempts policy) = false → a + Z.of_nat (S n) = MaxAttempts policy + 1 →
  a + 1 + Z.of_nat n = MaxAttempts policy + 1 ∧ n ≠ 0%nat.
Proof. intros Ha Hn. apply Z.eqb_neq in Ha. lia. Qed.

Lemma attempts_numbered n a l r :
  attempts cfg node policy cb n a l r → n ≠ 0%nat → a + Z.of_nat n = MaxAttempts policy + 1 →
  numbered node n a l.
Proof.
  intros Hat. induction Hat as [| | | |n a probe o err d ctxErr|n a probe o err d l r He Hs Hat IH];
    intros Hn Ha; [done|..];
    try (unfold numbered; simpl; repeat split; try lia; repeat constructor; done).
  apply orb_false_iff in Hs as [Hs _]. destruct (retried_not_last n a Hs Ha) as [Ha' Hn'].
  destruct (IH Hn' Ha') as (Hk & Hseq & Hfor & Hcalls).
  unfold numbered. rewrite !steps_of_app, !calls_of_app.
  change (steps_of (try_events cfg cb a probe o)) with (@nil Step).
  change (steps_of (failure_events node a (safeCall o).1 err d))
    with [node_step node (safeCall o).1 (Error err) d a].
  change (steps_of (retry_events node policy a None)) with (@nil Step).
  change (calls_of (try_events cfg cb a probe o)) with [o].
  change (calls_of (failure_events node a (safeCall o).1 err d)) with (@nil outcome).
  change (calls_of (retry_events node policy a None)) with (@nil outcome).
  cbn [app length]. split; [lia|]. split; [|split; [by repeat constructor|lia]].
  rewrite fmap_cons, Hseq, (seqZ_cons a) by lia. f_equal. f_equal; lia.
Qed.

Lemma attempts_protocol n a l r :
  attempts cfg node policy cb n a l r → protocol Idle l = Some Idle ∨ protocol Idle l = Some Refused.
Proof. induction 1; auto. Qed.

Lemma last_app_some {A} (l1 l2 : list A) x : last l2 = Some x → last (l1 ++ l2) = Some x.
Proof. intros H. by rewrite last_app, H. Qed.

Lemma attempts_result n a l r :
  attempts cfg node policy cb n a l r → n ≠ 0%nat → a + Z.of_nat n = MaxAttempts policy + 1 →
  result_ok node l r.
Proof.
  intros Hat. induction Hat as [|n a probe|n a probe o d He|n a probe o err d He Hs
    |n a probe o err d ctxErr He Hs|n a probe o err d l r He Hs Hat IH]; intros Hn Ha; [done|..].
  - split; [done|]. simpl. split; [set_solver|]. split; [done|]. left. by eexists.
  - split; [done|]. simpl. split; [set_solver|]. by eexists.
  - split; [done|]. simpl. split; [set_solver|]. split; [done|]. left. by eexists.
  - split; [done|]. simpl. split; [set_solver|]. split; [done|]. right. by eexists.
  - apply orb_false_iff in Hs as [Hs _]. destruct (retried_not_last n a Hs Ha) as [Ha' Hn'].
    destruct (IH Hn' Ha') as [Hinv Hres]. split; [done|]. rewrite !steps_of_app.
    assert (EvSuccess ∈ l ↔ EvSuccess ∈ try_events cfg cb a probe o ++
      failure_events node a (safeCall o).1 err d ++ retry_events node policy a None ++ l) as Hiff.
    { rewrite !elem_of_app. unfold try_events, failure_events, retry_events. set_solver. }
    destruct (res_Err r) as [e|].
    + destruct Hres as (Hns & Hout & Hlast). rewrite <- Hiff. split; [done|]. split; [done|].
      destruct Hlast as [(s & Hl & Hs')|(d' & Hl)].
      * left. exists s. split; [|done]. by repeat apply last_app_some.
      * right. exists d'. by repeat apply last_app_some.
    + destruct Hres as (Hns & s & Hl & Hrest). rewrite <- Hiff. split; [done|]. exists s.
      split; [|done]. by repeat apply last_app_some.
Qed.

(** A call found after the first one lies in the rest of the log. *)
Lemma split_first_call prefix t0 o0 mid l l1 t o l2 :
  calls_of prefix = [] → calls_of mid = [] →
  prefix ++ EvCall t0 o0 :: mid ++ l = l1 ++ EvCall t o :: l2 →
  (o = o0 ∧ l1 = prefix ∧ l2 = mid ++ l) ∨
  ∃ l1', l = l1' ++ EvCall t o :: l2 ∧ l1 = prefix ++ EvCall t0 o0 :: mid ++ l1'.
Proof.
  intros Hp Hm Heq. apply app_eq_inv in Heq as [(k & -> & Heq)|(k & -> & Heq)];
    destruct k as [|x k]; cbn [app] in Heq; injection Heq.
  - intros -> -> ->. left. by rewrite app_nil_r.
  - intros Heq' <-. by rewrite calls_of_app in Hp; apply app_nil in Hp as [_ Hp].
  - intros -> -> ->. left. by rewrite app_nil_r.
  - intros Heq' <-. right. apply app_eq_inv in Heq' as [(k' & -> & Heq')|(k' & -> & Heq')].
    + destruct k' as [|y k']; cbn [app] in Heq'; [exists []; simplify_eq/=; by rewrite !app_nil_r|injection Heq'].
      intros _ <-. by rewrite calls_of_app in Hm; apply app_nil in Hm as [_ Hm].
    + eauto.
Qed.

Lemma single_call_retries l : (length (calls_of l) ≤ 1)%nat → retries_allowed policy l.
Proof.
  intros Hl l1 t o l2 -> Hc. rewrite calls_of_app in Hl. change (EvCall t o :: l2) with ([EvCall t o] ++ l2) in Hl.
  rewrite calls_of_app, !length_app in Hl. simpl in Hl. destruct (calls_of l2); [done|simpl in Hl; lia].
Qed.

Lemma attempts_retries n a l r : attempts cfg node policy cb n a l r → retries_allowed policy l.
Proof.
  induction 1 as [|n a probe|n a probe o d He|n a probe o err d He Hs
    |n a probe o err d ctxErr He Hs|n a probe o err d l r He Hs Hat IH];
    try (apply single_call_retries; simpl; lia).
  intros l1 t o' l2 Heq Hc.
  destruct (split_first_call [EvAllow true probe; EvSpanStart a] (call_timeout cfg cb probe) o
    (failure_events node a (safeCall o).1 err d ++ retry_events node policy a None) l l1 t o' l2)
    as [(-> & _ & ->)|(l1' & -> & _)]; [done|done|by rewrite <- app_assoc| |].
  - apply orb_false_iff in Hs as [_ Hs]. apply negb_false_iff in Hs. by eapply retried_outcome.
  - by apply (IH l1' t o' l2).
Qed.

(** An outcome after which the node must retry is not one at which it stops. *)
Lemma must_retry a out e err : normalizeInvocationError (safeCall (Returned out (Some e))).2 = Some err →
  (∀ b, ¬ marked e b) → errors_Is e context_DeadlineExceeded = false →
  errors_Is e context_Canceled = false → listed policy e → a < MaxAttempts policy →
  (a =? MaxAttempts policy) || negb (shouldRetry (Some err) policy) = false.
Proof.
  intros Hn Hm Hd Hc Hl Ha. simpl in Hn. rewrite Hd in Hn. injection Hn as <-.
  apply orb_false_iff. split; [apply Z.eqb_neq; lia|].
  apply negb_false_iff. by apply shouldRetry_unmarked.
Qed.

Lemma attempts_asks n a l r : attempts cfg node policy cb (S n) a l r → ∃ g probe, EvAllow g probe ∈ l.
Proof. inversion 1; eexists _, _; unfold refused_events, try_events; simpl; apply list_elem_of_here. Qed.

Lemma attempts_retries_made n a l r : attempts cfg node policy cb n a l r →
  a + Z.of_nat n = MaxAttempts policy + 1 → retries_made policy a l.
Proof.
  intros Hat. induction Hat as [|n a probe|n a probe o d He|n a probe o err d He Hs
    |n a probe o err d ctxErr He Hs|n a probe o err d l r He Hs Hat IH];
    intros Hn l1 t out e l2 Heq Hm Hd Hc Hl i Hi.
  - by destruct l1.
  - unfold refused_events in Heq. do 4 (destruct l1 as [|? l1]; [done|injection Heq as _ Heq]). by destruct l1.
  - destruct (split_first_call [EvAllow true probe; EvSpanStart a] (call_timeout cfg cb probe) o
      (success_events node a (with_duration (safeCall o).1 d) d) [] l1 t (Returned out (Some e)) l2)
      as [(<- & _)|([] & ? & _)]; [done|done|by rewrite app_nil_r| |done|done].
    simpl in He. by rewrite Hd in He.
  - destruct (split_first_call [EvAllow true probe; EvSpanStart a] (call_timeout cfg cb probe) o
      (failure_events node a (safeCall o).1 err d) [] l1 t (Returned out (Some e)) l2)
      as [(<- & -> & _)|([] & ? & _)]; [done|done|by rewrite app_nil_r| |done|done].
    rewrite (must_retry a out e err) in Hs; [done..|]. subst i. simpl in Hi. lia.
  - destruct (split_first_call [EvAllow true probe; EvSpanStart a] (call_timeout cfg cb probe) o
      (failure_events node a (safeCall o).1 err d ++ retry_events node policy a (Some ctxErr)) []
      l1 t (Returned out (Some e)) l2)
      as [(<- & -> & ->)|([] & ? & _)]; [done|done|by rewrite app_nil_r| |done|done].
    exists (failure_events node a out err d ++ [EvObserve (ObsRetry (inv_AgentID (Invocation node)))]), (Some ctxErr), [].
    subst i. simpl. by rewrite Z.add_0_r.
  - apply orb_false_iff in Hs as [Hs _]. destruct (retried_not_last n a Hs Hn) as [Hn' Hn0].
    destruct (split_first_call [EvAllow true probe; EvSpanStart a] (call_timeout cfg cb probe) o
      (failure_events node a (safeCall o).1 err d ++ retry_events node policy a None) l
      l1 t (Returned out (Some e)) l2)
      as [(<- & -> & ->)|(l1' & -> & ->)]; [done|done|by rewrite <- app_assoc| |].
    + exists (failure_events node a out err d ++ [EvObserve (ObsRetry (inv_AgentID (Invocation node)))]), None, l.
      subst i. simpl. rewrite Z.add_0_r. split; [done|]. split; [done|].
      destruct n as [|n]; [done|]. by eapply attempts_asks.
    + assert (i = a + 1 + Z.of_nat (length (calls_of l1'))) as ->.
      { subst i. change (EvCall ?t ?o :: ?x) with ([EvCall t o] ++ x). rewrite !calls_of_app, !length_app. simpl. lia. }
      by eapply (IH Hn' l1' t out e l2).
Qed.
End Node_facts.

(** ** Running a program with a handler *)
Section Interp.
Context {F St : Type} (h : ∀ e : eff F, St → resp e * St).

(** Runs [p] to its result; the events of the run are logged. *)
Fixpoint interp {A} (p : prog F A) (s : St) : A * list event * St :=
  match p with
  | Ret a => (a, [], s)
  | Vis e k =>
      let '(x, s1) := h e s in
      let '(a, l, s2) := interp (k x) s1 in
      (a, event_of e x ++ l, s2)
  end.

Lemma interp_logs {A} (p : prog F A) : ∀ s, logs p (interp p s).1.2 (interp p s).1.1.
Proof.
  induction p as [a|e k IH]; intros s; simpl; [done|].
  destruct (h e s) as [x s1]. specialize (IH x s1).
  destruct (interp (k x) s1) as [[a l] s2]. eauto.
Qed.
End Interp.

(** ** Every run of executeNode *)
Section Execute_node.
Context {F : Type} (cfg : RouterConfig) (node : PlanNode).
Let policy := effective_retry cfg node.
Let cb := effective_breaker cfg node.

Definition not_registered (node : PlanNode) : error :=
  Errorf ("agent not registered: " +:+ inv_AgentID (Invocation node)).

Lemma effective_retry_attempts : 1 ≤ MaxAttempts policy.
Proof. subst policy. unfold effective_retry. cbn [MaxAttempts]. case_match; lia. Qed.

(** The node's log: a single step for an unknown agent, else its attempts from 1. *)
Lemma executeNode_logs l r :
  logs (executeNode (F:=F) cfg node) l r →
  (l = [EvObserve (ObsInvocation (inv_AgentID (Invocation node)) "error" 0);
        EvStep (node_step node AgentOutput_zero (Error (not_registered node)) 0 1)] ∧
   r = mkAgentResult (Invocation node) AgentOutput_zero (Some (not_registered node))) ∨
  attempts cfg node policy cb (Z.to_nat (MaxAttempts policy)) 1 l r.
Proof.
  intros ([fn|] & l' & -> & H).
  - right. by apply attempt_loop_logs in H.
  - left. by destruct H as (? & ? & -> & ? & ? & -> & -> & ->).
Qed.

Lemma executeNode_fuel : Z.to_nat (MaxAttempts policy) ≠ 0%nat ∧
  1 + Z.of_nat (Z.to_nat (MaxAttempts policy)) = MaxAttempts policy + 1.
Proof. pose proof effective_retry_attempts. lia. Qed.

Lemma executeNode_numbered l r :
  logs (executeNode (F:=F) cfg node) l r → numbered node (Z.to_nat (MaxAttempts policy)) 1 l.
Proof.
  destruct executeNode_fuel as [Hf1 Hf2].
  intros [[-> ->]|H]%executeNode_logs; [|by apply (attempts_numbered _ _ _ _ _ _ _ _ H)].
  unfold numbered. cbn [steps_of calls_of omap list_omap length]. fold policy.
  split; [lia|]. split; [done|]. split; [by repeat constructor|lia].
Qed.

Lemma executeNode_result_ok l r :
  logs (executeNode (F:=F) cfg node) l r → result_ok node l r.
Proof.
  destruct executeNode_fuel as [Hf1 Hf2].
  intros [[-> ->]|H]%executeNode_logs; [|by apply (attempts_result _ _ _ _ _ _ _ _ H)].
  split; [done|]. simpl. split; [set_solver|]. split; [done|]. left. by eexists.
Qed.
End Execute_node.

(** The error of a recovered panic. *)
Definition panic_error (s : string) : error :=
  AgentError (Some (Errorf_w (Error ErrAgentPanic +:+ ": " +:+ s) ErrAgentPanic)) false.

Lemma panic_normalized s : normalizeInvocationError (safeCall (Panicked s)).2 = Some (panic_error s).
Proof. done. Qed.
Lemma panic_not_retried s policy : shouldRetry (Some (panic_error s)) policy = false.
Proof. done. Qed.

Lemma attempts_panic cfg node policy cb n a l r t s :
  attempts cfg node policy cb n a l r → EvCall t (Panicked s) ∈ l →
  ∃ l1 l2, l = l1 ++ EvCall t (Panicked s) :: l2 ∧ calls_of l2 = [] ∧ EvFailure ∈ l2 ∧
    res_Err r = Some (panic_error s).
Proof.
  intros Hat. induction Hat as [|n a probe|n a probe o d He|n a probe o err d He Hs
    |n a probe o err d ctxErr He Hs|n a probe o err d l r He Hs Hat IH]; intros Hin.
  - set_solver.
  - unfold refused_events in Hin. set_solver.
  - assert (o = Panicked s) as -> by (unfold try_events, success_events in Hin; set_solver). done.
  - assert (o = Panicked s ∧ t = call_timeout cfg cb probe) as [-> ->]
      by (unfold try_events, failure_events in Hin; set_solver).
    exists [EvAllow true probe; EvSpanStart a], (failure_events node a AgentOutput_zero err d).
    split_and!; [done|done|set_solver|]. simpl. by simplify_eq.
  - assert (o = Panicked s) as -> by (unfold try_events, failure_events, retry_events in Hin; set_solver).
    rewrite panic_normalized in He. simplify_eq. by rewrite panic_not_retried, orb_true_r in Hs.
  - rewrite !app_assoc, elem_of_app in Hin. destruct Hin as [Hin|Hin].
    + assert (o = Panicked s) as -> by (unfold try_events, failure_events, retry_events in Hin; set_solver).
      rewrite panic_normalized in He. simplify_eq. by rewrite panic_not_retried, orb_true_r in Hs.
    + destruct (IH Hin) as (l1 & l2 & -> & Hrest). rewrite !app_assoc. by eexists _, l2.
Qed.

(** ** Properties of a node's execution *)

(** C8: however the other goroutines interleave, a node's execution records
    between one and MaxAttempts steps (MaxAttempts of the node's policy, else of the engine's,
    else one), numbered 1, 2, 3, ... without gaps, all of them naming the node's invocation,
    agent, request and input, and it calls the agent at most once per recorded step. *)
Theorem executeNode_attempts {F} (cfg : RouterConfig) (node : PlanNode) l r :
  logs (executeNode (F:=F) cfg node) l r →
  let k := length (steps_of l) in
  (1 ≤ k ≤ Z.to_nat (MaxAttempts (effective_retry cfg node)))%nat ∧
  st_Attempt <$> steps_of l = seqZ 1 (Z.of_nat k) ∧
  Forall (step_for node) (steps_of l) ∧
  (length (calls_of l) ≤ k)%nat.
Proof. apply executeNode_numbered. Qed.

(** C7: a node asks the circuit breaker before every agent call,
    calls the agent exactly once for every grant and reports exactly one success or failure for
    that call before it asks again, waits or returns; after a refusal it does not call the agent,
    report or ask again (metrics and one step are still recorded). *)
Theorem executeNode_breaker_protocol {F} (cfg : RouterConfig) (node : PlanNode) l r :
  logs (executeNode (F:=F) cfg node) l r →
  protocol Idle l = Some Idle ∨ protocol Idle l = Some Refused.
Proof. intros [[-> ->]|H]%executeNode_logs; [by left|by eapply attempts_protocol]. Qed.

(** C24: the result names the node's invocation; it has no error exactly when
    a success was reported to the breaker, and then its output is the one the last recorded step
    carries; otherwise its output is empty and its error is the one of the last recorded step, or
    the context's error when the wait before a retry was cut short. *)
Theorem executeNode_result {F} (cfg : RouterConfig) (node : PlanNode) l r :
  logs (executeNode (F:=F) cfg node) l r → result_ok node l r.
Proof. apply executeNode_result_ok. Qed.


(** An error the agent marked with NonRetryable is retried all
    the same when its cause is context.DeadlineExceeded, under a policy that lists no retryable
    errors or lists ErrAgentTimeout: the normalisation to ErrAgentTimeout drops the mark. *)
Theorem nonretryable_timeout_retried (e : error) (policy : RetryPolicy) :
  errors_Is e context_DeadlineExceeded = true →
  RetryableErrs policy = [] ∨ ErrAgentTimeout ∈ RetryableErrs policy →
  shouldRetry (NonRetryable (Some e)) policy = false ∧
  shouldRetry (normalizeInvocationError (NonRetryable (Some e))) policy = true.
Proof.
  intros He Hp. split; [done|]. unfold normalizeInvocationError, NonRetryable.
  rewrite (errors_Is_agent e false _ He). unfold shouldRetry. cbn [errors_As_AgentError Errorf_w ErrAgentTimeout].
  replace (errors_Is _ context_Canceled) with false by done.
  destruct Hp as [->|Hin]; [done|]. destruct (RetryableErrs policy) as [|t ts] eqn:Et; [done|].
  apply existsb_exists. exists ErrAgentTimeout. split; [by apply list_elem_of_In|done].
Qed.

(** *** Witnesses *)

(** An environment that follows a script of agent outcomes; the breaker always grants. *)
Definition scripted (e : eff unit) : list outcome → resp e * list outcome :=
  match e with
  | ENow => λ s, (0, s)
  | EGet _ => λ s, (Some tt, s)
  | EAllow _ _ _ => λ s, ((true, false), s)
  | ECall _ _ _ => λ s, (hd (Panicked "script ended") s, tl s)
  | ESelect _ => λ s, (None, s)
  | _ => λ s, (tt, s)
  end.

Definition sample_cfg : RouterConfig :=
  NewEngine_cfg (mkRouterConfig 2 0 0 (mkRetryPolicy 3 "" []) (mkCircuitBreakerPolicy 5 0 0)).
Definition flaky_run :=
  interp scripted (executeNode sample_cfg (sample_node "a" []))
    [Returned AgentOutput_zero (Some (Errorf "boom")); Panicked "bad"].
Definition flaky_log : list event := flaky_run.1.2.
Definition flaky_result : AgentResult := flaky_run.1.1.

Lemma flaky_logs : logs (executeNode (F:=unit) sample_cfg (sample_node "a" [])) flaky_log flaky_result.
Proof. apply (interp_logs scripted). Qed.

Lemma executeNode_attempts_witness :
  (1 ≤ length (steps_of flaky_log) ≤ 3)%nat ∧ st_Attempt <$> steps_of flaky_log = [1; 2].
Proof. destruct (executeNode_attempts _ _ _ _ flaky_logs) as (Hk & Hseq & _). by split. Defined.

Lemma executeNode_breaker_protocol_witness :
  length (calls_of flaky_log) = 2%nat ∧
  (protocol Idle flaky_log = Some Idle ∨ protocol Idle flaky_log = Some Refused).
Proof. split; [done|]. apply (executeNode_breaker_protocol _ _ _ _ flaky_logs). Defined.

Lemma executeNode_result_witness :
  result_ok (sample_node "a" []) flaky_log flaky_result ∧ is_Some (res_Err flaky_result).
Proof. split; [apply (executeNode_result _ _ _ _ flaky_logs)|by eexists]. Defined.


Lemma nonretryable_timeout_retried_witness :
  shouldRetry (normalizeInvocationError (NonRetryable (Some context_DeadlineExceeded)))
    (mkRetryPolicy 3 "" []) = true.
Proof. apply nonretryable_timeout_retried; [done|by left]. Defined.
