(* ===== verification/Scheduler.v ===== *)
(** * The scheduler: executeLevel, RunPlan and Run of internal/router/router.go

    The goroutines of a level share the registry, the circuit breaker, the metrics recorder and
    the trace recorder.  Each of those is behind a mutex, so one method call is one atomic step;
    the clock, the agents and the cancellation of the context are unconstrained.  A level is a
    transition system: the loop that starts the goroutines, the worker semaphore, the buffered
    result channel.  The theorems hold for every schedule; an executable schedule is given too. *)

From stdpp Require Import relations.
From S2P Require Import Prelude GoErrors GoStrings AgentFunc Retry CircuitBreaker Registry.
From S2P Require Import Metrics Trace Kahn PlanGraph Engine.
#[local] Open Scope Z_scope.

Definition PlanNode_zero : PlanNode :=
  mkPlanNode AgentInvocation_zero [] RetryPolicy_zero CircuitBreakerPolicy_zero.

(** [graph.nodesByID[id]]. *)
Definition graph_node (graph : planGraph) (id : string) : PlanNode :=
  default PlanNode_zero (g_nodesByID graph !! id).

Definition result_id (r : AgentResult) : string := inv_ID (res_Invocation r).
Definition sort_results : list AgentResult → list AgentResult := sort_by String.le result_id.

(** What executeLevel reports for a node whose dependency has no good result. *)
Definition skipped_result (node : PlanNode) (err : error) : AgentResult :=
  mkAgentResult (Invocation node) AgentOutput_zero (Some err).
Definition skipped_step (node : PlanNode) (err : error) : Step :=
  node_step node AgentOutput_zero (Error err) 0 0.

Definition inferTaskID (invocations : list AgentInvocation) : string :=
  match invocations with
  | [] => ""
  | inv :: _ => if decide (in_TaskID (inv_Input inv) = "") then "task_default" else in_TaskID (inv_Input inv)
  end.

Section Scheduler.
Context {F M : Type} `{!Recorder M}.

(** ** The shared state *)
Record world := mkWorld {
  w_registry : gmap string F;
  w_breaker : gmap string circuitState;
  w_metrics : M;
  w_recorder : ExecutionTrace
}.

Definition set_breaker (w : world) (cb : gmap string circuitState) : world :=
  mkWorld (w_registry w) cb (w_metrics w) (w_recorder w).
Definition set_metrics (w : world) (m : M) : world :=
  mkWorld (w_registry w) (w_breaker w) m (w_recorder w).
Definition set_recorder (w : world) (r : ExecutionTrace) : world :=
  mkWorld (w_registry w) (w_breaker w) (w_metrics w) r.

(** The answers an effect may give in [w], and the state after it. *)
Definition answers (e : eff F) (w : world) : resp e → world → Prop :=
  match e with
  | ENow => λ _ w', w' = w
  | EGet id => λ x w', x = Get (w_registry w) id ∧ w' = w
  | EAllow id p now => λ x w',
      let '(cb, r) := Allow (w_breaker w) id p now in x = r ∧ w' = set_breaker w cb
  | ERecordSuccess id => λ _ w', w' = set_breaker w (RecordSuccess (w_breaker w) id)
  | ERecordFailure id p now => λ _ w', w' = set_breaker w (RecordFailure (w_breaker w) id p now)
  | EObserve o => λ _ w', w' = set_metrics w (observe (w_metrics w) o)
  | EAddStep s => λ _ w', w' = set_recorder w (AddStep (w_recorder w) s)
  | ESpanStart _ _ _ _ _ => λ _ w', w' = w
  | ESpanEnd _ => λ _ w', w' = w
  | ECall _ _ _ => λ _ w', w' = w
  | ESelect _ => λ _ w', w' = w
  end.

(** ** The goroutines of a level *)
Inductive gstate : Type :=
| Waiting                          (* before [sem <- struct{}{}] *)
| Running (p : prog F AgentResult) (* holds a slot of the semaphore *)
| Sent (r : AgentResult)           (* has sent its result, still holds the slot *)
| Finished (r : AgentResult).      (* has released the slot and called wg.Done *)

(** One entry per node the loop of [executeLevel] has passed; [th_log] is a history variable,
    the events the node has produced. *)
Record thread := mkThread {
  th_node : PlanNode;
  th_log : list event;
  th_state : gstate
}.

Definition th_result (t : thread) : option AgentResult :=
  match th_state t with Sent r | Finished r => Some r | _ => None end.
Definition th_active (t : thread) : bool :=
  match th_state t with Running _ | Sent _ => true | _ => false end.
Definition th_finished (t : thread) : bool :=
  match th_state t with Finished _ => true | _ => false end.
Definition active (ts : list thread) : Z := Z.of_nat (length (filter th_active ts)).

Record level_state := mkLevel {
  l_todo : list string;          (* the nodes the loop has not reached *)
  l_threads : list thread;
  l_sent : list AgentResult;     (* the contents of resultCh *)
  l_world : world
}.

Section Level.
Context (cfg : RouterConfig) (graph : planGraph) (resultsByID : gmap string AgentResult).
(** [len(level)], the capacity of resultCh. *)
Context (cap : nat).

(** The steps of a level: the loop skips a node or starts its goroutine; a goroutine acquires
    the semaphore, performs an effect of [executeNode], sends its result, releases the
    semaphore.  Skipping records a step and sends a result in one step of the system: the
    channel is read only after the loop and the goroutines have ended. *)
Inductive level_step : level_state → level_state → Prop :=
| ls_skip id rest ts sent w err :
    dependencyError (graph_node graph id) graph resultsByID = Some err →
    (length sent < cap)%nat →
    let node := graph_node graph id in
    level_step (mkLevel (id :: rest) ts sent w)
      (mkLevel rest (ts ++ [mkThread node [EvStep (skipped_step node err)] (Finished (skipped_result node err))])
         (sent ++ [skipped_result node err])
         (set_recorder w (AddStep (w_recorder w) (skipped_step node err))))
| ls_spawn id rest ts sent w :
    dependencyError (graph_node graph id) graph resultsByID = None →
    level_step (mkLevel (id :: rest) ts sent w)
      (mkLevel rest (ts ++ [mkThread (graph_node graph id) [] Waiting]) sent w)
| ls_acquire todo ts1 node log ts2 sent w :
    active (ts1 ++ mkThread node log Waiting :: ts2) < WorkerPoolSize cfg →
    level_step (mkLevel todo (ts1 ++ mkThread node log Waiting :: ts2) sent w)
      (mkLevel todo (ts1 ++ mkThread node log (Running (executeNode cfg node)) :: ts2) sent w)
| ls_effect todo ts1 node log e k ts2 sent w x w' :
    answers e w x w' →
    level_step (mkLevel todo (ts1 ++ mkThread node log (Running (Vis e k)) :: ts2) sent w)
      (mkLevel todo (ts1 ++ mkThread node (log ++ event_of e x) (Running (k x)) :: ts2) sent w')
| ls_send todo ts1 node log r ts2 sent w :
    (length sent < cap)%nat →
    level_step (mkLevel todo (ts1 ++ mkThread node log (Running (Ret r)) :: ts2) sent w)
      (mkLevel todo (ts1 ++ mkThread node log (Sent r) :: ts2) (sent ++ [r]) w)
| ls_release todo ts1 node log r ts2 sent w :
    level_step (mkLevel todo (ts1 ++ mkThread node log (Sent r) :: ts2) sent w)
      (mkLevel todo (ts1 ++ mkThread node log (Finished r) :: ts2) sent w).

(** [wg.Wait] returns: the loop is over and every goroutine is done. *)
Definition level_final (st : level_state) : Prop :=
  l_todo st = [] ∧ Forall (λ t, th_finished t = true) (l_threads st).
End Level.

(** [executeLevel]: some schedule runs the level to its end; the results, sorted. *)
Definition executeLevel (cfg : RouterConfig) (level : list string) (graph : planGraph)
    (resultsByID : gmap string AgentResult) (w : world) (results : list AgentResult) (w' : world) : Prop :=
  ∃ st, rtc (level_step cfg graph resultsByID (length level)) (mkLevel level [] [] w) st ∧
    level_final st ∧ results = sort_results (l_sent st) ∧ w' = l_world st.

(** The loop of [RunPlan] that stores the results of a level. *)
Definition store_results (resultsByID : gmap string AgentResult) (rs : list AgentResult) :
    gmap string AgentResult :=
  foldl (λ m r, <[result_id r := r]> m) resultsByID rs.

Inductive run_levels (cfg : RouterConfig) (graph : planGraph) :
    list (list string) → gmap string AgentResult → world → gmap string AgentResult → world → Prop :=
| rl_nil results w : run_levels cfg graph [] results w results w
| rl_cons level rest results w rs w' results'' w'' :
    executeLevel cfg level graph results w rs w' →
    run_levels cfg graph rest (store_results results rs) w' results'' w'' →
    run_levels cfg graph (level :: rest) results w results'' w''.

Definition plan_validation_step (err : error) : Step :=
  mkStep "plan_validation" "router" "" AgentInput_zero AgentOutput_zero (Error err) 0 0.

(** The results of the nodes, in the order of the plan and then sorted. *)
Definition collect_results (graph : planGraph) (resultsByID : gmap string AgentResult) : list AgentResult :=
  sort_results ((λ node, default AgentResult_zero (resultsByID !! node_id node)) <$> g_nodes graph).

(** [RunPlan], from the state [w] of the engine, whose recorder is replaced by a new one. *)
Definition RunPlan (cfg : RouterConfig) (plan : ExecutionPlan) (start endt : time) (w : world)
    (results : list AgentResult) (tr : ExecutionTrace) (w' : world) : Prop :=
  let recorder := NewRecorder (plan_TaskID plan) start in
  match buildGraph plan with
  | Err err =>
      let recorder := AddStep recorder (plan_validation_step err) in
      results = [mkAgentResult AgentInvocation_zero AgentOutput_zero (Some err)] ∧
      tr = Finalize recorder endt ∧ w' = set_recorder w recorder
  | Ok graph =>
      ∃ resultsByID,
        run_levels cfg graph (g_levels graph) ∅ (set_recorder w recorder) resultsByID w' ∧
        results = collect_results graph resultsByID ∧ tr = Finalize (w_recorder w') endt
  end.

(** [Run]: a plan without dependencies. *)
Definition Run_plan (invocations : list AgentInvocation) : ExecutionPlan :=
  mkExecutionPlan (inferTaskID invocations)
    ((λ inv, mkPlanNode inv [] RetryPolicy_zero CircuitBreakerPolicy_zero) <$> invocations).
Definition Run (cfg : RouterConfig) (invocations : list AgentInvocation) (start endt : time)
    (w : world) (results : list AgentResult) (w' : world) : Prop :=
  ∃ tr, RunPlan cfg (Run_plan invocations) start endt w results tr w'.

(** ** The invariant of a level *)

(** What a node of a level ends with: skipped if a dependency has no good result, else a run
    of [executeNode]. *)
Definition node_outcome (cfg : RouterConfig) (graph : planGraph) (results : gmap string AgentResult)
    (id : string) (l : list event) (r : AgentResult) : Prop :=
  let node := graph_node graph id in
  match dependencyError node graph results with
  | Some err => l = [EvStep (skipped_step node err)] ∧ r = skipped_result node err
  | None => logs (executeNode (F:=F) cfg node) l r
  end.

Section Level_facts.
Context (cfg : RouterConfig) (graph : planGraph) (resultsByID : gmap string AgentResult).
Context (level : list string) (w0 : world).
#[local] Abbreviation cap := (length level).
#[local] Abbreviation step := (level_step cfg graph resultsByID cap).

(** What holds of the goroutine of [id]: its log, continued by any run of the rest of its
    program, is a run of the node. *)
Definition slot_ok (id : string) (t : thread) : Prop :=
  th_node t = graph_node graph id ∧
  match th_state t with
  | Waiting => dependencyError (th_node t) graph resultsByID = None ∧ th_log t = []
  | Running p => dependencyError (th_node t) graph resultsByID = None ∧
      ∀ l r, logs p l r → logs (executeNode (F:=F) cfg (th_node t)) (th_log t ++ l) r
  | Sent r | Finished r => node_outcome cfg graph resultsByID id (th_log t) r
  end.

Definition thread_steps (t : thread) : list Step := clone_step <$> steps_of (th_log t).

(** The steps in the recorder are the ones found at the start and those of the goroutines. *)
Definition recorder_ok (r0 : ExecutionTrace) (ts : list thread) (r : ExecutionTrace) : Prop :=
  tr_TaskID r = tr_TaskID r0 ∧ tr_StartTime r = tr_StartTime r0 ∧
  tr_Steps r ≡ₚ tr_Steps r0 ++ concat (thread_steps <$> ts).

Record level_inv (st : level_state) : Prop := {
  li_slots : ∃ done, level = done ++ l_todo st ∧ Forall2 slot_ok done (l_threads st);
  li_sent : l_sent st ≡ₚ omap th_result (l_threads st);
  li_active : active (l_threads st) ≤ Z.max 0 (WorkerPoolSize cfg);
  li_recorder : recorder_ok (w_recorder w0) (l_threads st) (w_recorder (l_world st))
}.

Lemma level_inv_init : level_inv (mkLevel level [] [] w0).
Proof.
  split; simpl; [by exists []|done|unfold active; simpl; lia|].
  split; [done|]. split; [done|]. by rewrite app_nil_r.
Qed.

(** An effect changes the recorder by the steps it logs. *)
Lemma answers_recorder e w x w' :
  answers e w x w' →
  w_recorder w' = foldl AddStep (w_recorder w) (steps_of (event_of e x)).
Proof.
  destruct e; simpl; try (by intros ->); [by intros [-> ->]|].
  destruct (Allow _ _ _ _). by intros [-> ->].
Qed.

Lemma recorder_ok_add r0 ts1 t t' ts2 r ss :
  steps_of (th_log t') = steps_of (th_log t) ++ ss →
  recorder_ok r0 (ts1 ++ t :: ts2) r → recorder_ok r0 (ts1 ++ t' :: ts2) (foldl AddStep r ss).
Proof.
  intros Ht (H1 & H2 & H3).
  destruct (AddStep_all r ss) as (F1 & F2 & F3). split; [congruence|]. split; [congruence|].
  rewrite F3, H3, !fmap_app, !concat_app, !fmap_cons. cbn [concat].
  assert (thread_steps t' = thread_steps t ++ (clone_step <$> ss)) as ->
    by (unfold thread_steps; by rewrite Ht, fmap_app).
  solve_Permutation.
Qed.

Lemma active_app ts1 ts2 : active (ts1 ++ ts2) = active ts1 + active ts2.
Proof. unfold active. rewrite filter_app, length_app. lia. Qed.
Lemma active_cons t ts : active (t :: ts) = (if th_active t then 1 else 0) + active ts.
Proof. unfold active. rewrite filter_cons. destruct (th_active t); simpl; lia. Qed.
Lemma idle_active ts : Forall (λ t, ¬ th_active t) ts → active ts = 0.
Proof. intros H. unfold active. by rewrite filter_none. Qed.

Lemma results_cons t ts : omap th_result (t :: ts) = option_list (th_result t) ++ omap th_result ts.
Proof. simpl. by destruct (th_result t). Qed.

(** One goroutine moves from [t] to [t'], sends [news] and records [ss]. *)
Lemma level_inv_update todo ts1 t t' ts2 sent news w w' ss :
  level_inv (mkLevel todo (ts1 ++ t :: ts2) sent w) →
  (∀ id, slot_ok id t → slot_ok id t') →
  option_list (th_result t') = option_list (th_result t) ++ news →
  (if th_active t' then 1 else 0) ≤ (if th_active t then 1 else 0) ∨
    active (ts1 ++ t :: ts2) < WorkerPoolSize cfg →
  steps_of (th_log t') = steps_of (th_log t) ++ ss →
  w_recorder w' = foldl AddStep (w_recorder w) ss →
  level_inv (mkLevel todo (ts1 ++ t' :: ts2) (sent ++ news) w').
Proof.
  intros [(done & Hlevel & Hslots) Hsent Hact Hrec] Hslot Hnews Hactive Hsteps Hw. simpl in *. split; simpl.
  - exists done. split; [done|]. apply Forall2_app_inv_r in Hslots as (d1 & d2 & H1 & H2 & ->).
    apply Forall2_cons_inv_r in H2 as (id & d2' & Hid & H2 & ->).
    apply Forall2_app; [done|]. constructor; [by apply Hslot|done].
  - rewrite Hsent, !omap_app.
    rewrite !results_cons, Hnews. solve_Permutation.
  - rewrite !active_app, !active_cons in *. destruct Hactive; [lia|].
    destruct (th_active t), (th_active t'); lia.
  - rewrite Hw. by eapply recorder_ok_add.
Qed.

(** The loop passes a node, whose entry is [t]. *)
Lemma level_inv_extend id rest ts t sent w w' :
  level_inv (mkLevel (id :: rest) ts sent w) → slot_ok id t → th_active t = false →
  w_recorder w' = foldl AddStep (w_recorder w) (steps_of (th_log t)) →
  level_inv (mkLevel rest (ts ++ [t]) (sent ++ option_list (th_result t)) w').
Proof.
  intros [(done & Hlevel & Hslots) Hsent Hact Hrec] Hslot Hactive Hw. simpl in *. split; simpl.
  - exists (done ++ [id]). split; [by rewrite <- app_assoc|]. apply Forall2_app; [done|by constructor; [|constructor]].
  - rewrite omap_app, Hsent. simpl. by destruct (th_result t).
  - rewrite active_app, active_cons, Hactive. unfold active in *. simpl. lia.
  - rewrite Hw. apply (recorder_ok_add _ ts (mkThread (th_node t) [] (th_state t)) t []); [done|].
    destruct Hrec as (H1 & H2 & H3). split; [done|]. split; [done|].
    rewrite H3, fmap_app, concat_app. simpl. by rewrite !app_nil_r.
Qed.

Lemma level_step_inv st st' : level_inv st → step st st' → level_inv st'.
Proof.
  intros Hinv Hstep. destruct Hstep as [id rest ts sent w err Herr Hcap node|id rest ts sent w Herr
    |todo ts1 node log ts2 sent w Hact|todo ts1 node log e k ts2 sent w x w' Hans
    |todo ts1 node log r ts2 sent w Hcap|todo ts1 node log r ts2 sent w].
  - eapply (level_inv_extend id rest ts); [done| |done|done].
    split; [done|]. unfold node_outcome. simpl. by rewrite Herr.
  - rewrite <- (app_nil_r sent). eapply (level_inv_extend id rest ts); [done| |done|done]. done.
  - rewrite <- (app_nil_r sent). eapply (level_inv_update _ _ _ _ _ _ _ w w []); [done| |done|by right|by rewrite app_nil_r|done].
    intros id [Hn [Hd Hl]]. simpl in *. subst log. done.
  - rewrite <- (app_nil_r sent). eapply level_inv_update; [done| |done|by left|apply steps_of_app|by apply answers_recorder].
    intros id [Hn [Hd Hl]]. split; [done|]. split; [done|]. simpl in *. intros l r Hr.
    rewrite <- app_assoc. apply Hl. simpl. eauto.
  - eapply (level_inv_update _ _ _ _ _ _ _ w w []); [done| |done|by left|by rewrite app_nil_r|done].
    intros id [Hn [Hd Hl]]. split; [done|]. simpl in *. unfold node_outcome. rewrite <- Hn, Hd.
    rewrite <- (app_nil_r log). by apply Hl.
  - rewrite <- (app_nil_r sent).
    by eapply (level_inv_update _ _ _ _ _ _ _ w w []); [done| |done|left; simpl; lia|by rewrite app_nil_r|done].
Qed.

Lemma level_reach_inv st : rtc step (mkLevel level [] [] w0) st → level_inv st.
Proof.
  intros H. assert (∀ s s', rtc step s s' → level_inv s → level_inv s') as Hp.
  { induction 1; [done|]. eauto using level_step_inv. }
  eapply Hp; [done|apply level_inv_init].
Qed.

(** ** Progress *)
Lemma answers_total e w : ∃ x w', answers e w x w'.
Proof.
  destruct e; simpl; try (by repeat eexists); try (by exists 0; eexists);
    try (by exists None; eexists); try (by exists (Panicked ""); eexists).
  - destruct (Allow _ _ _ _). by repeat eexists.
Qed.

Lemma omap_result_length ts : (length (omap th_result ts) ≤ length ts)%nat.
Proof.
  induction ts as [|t ts IH]; [done|]. rewrite results_cons, length_app, length_cons.
  destruct (th_result t); simpl length at 1; lia.
Qed.

(** The channel has room for a node that has not sent its result yet. *)
Lemma level_inv_room todo ts1 t ts2 sent w :
  level_inv (mkLevel todo (ts1 ++ t :: ts2) sent w) → th_result t = None → (length sent < cap)%nat.
Proof.
  intros [(done & Hlevel & Hslots) Hsent _ _] Ht. cbn [l_sent l_threads l_todo] in *. rewrite Hsent, omap_app, results_cons, Ht.
  apply Forall2_length in Hslots. rewrite Hlevel, !length_app. rewrite length_app, length_cons in Hslots. simpl.
  pose proof (omap_result_length ts1). pose proof (omap_result_length ts2). lia.
Qed.

Lemma level_inv_room_loop id rest ts sent w :
  level_inv (mkLevel (id :: rest) ts sent w) → (length sent < cap)%nat.
Proof.
  intros [(done & Hlevel & Hslots) Hsent _ _]. simpl in *. rewrite Hsent, Hlevel, length_app.
  apply Forall2_length in Hslots. pose proof (omap_result_length ts). simpl. lia.
Qed.

(** A goroutine that holds a slot can move. *)
Lemma active_moves todo ts1 t ts2 sent w :
  level_inv (mkLevel todo (ts1 ++ t :: ts2) sent w) → th_active t = true →
  ∃ st', step (mkLevel todo (ts1 ++ t :: ts2) sent w) st'.
Proof.
  intros Hinv Ht. destruct t as [node log [|[r|e k]|r|r]]; [done| | | |done].
  - eexists. apply ls_send. by eapply level_inv_room.
  - destruct (answers_total e w) as (x & w' & Hans). eexists. by apply ls_effect.
  - eexists. apply ls_release.
Qed.

Lemma level_progress st :
  1 ≤ WorkerPoolSize cfg → level_inv st → ¬ level_final st → ∃ st', step st st'.
Proof.
  destruct st as [[|id rest] ts sent w]; intros Hpool Hinv Hnf.
  - destruct (decide (Forall (λ t, ¬ th_active t) ts)) as [Hidle|Hbusy].
    + assert (Exists (λ t, th_finished t ≠ true) ts) as (t & Ht & Hnt)%Exists_exists.
      { apply not_Forall_Exists; [apply _|]. intros Hall. by apply Hnf. }
      apply list_elem_of_split in Ht as (ts1 & ts2 & ->).
      assert (active (ts1 ++ t :: ts2) = 0) as H0.
      { apply idle_active. done. }
      apply Forall_app, proj2, Forall_cons, proj1 in Hidle.
      destruct t as [node log [|p|r|r]]; simpl in *; try done; try (by destruct Hidle).
      eexists. apply ls_acquire. lia.
    + apply not_Forall_Exists in Hbusy; [|apply _]. apply Exists_exists in Hbusy as (t & Ht & Hact).
      apply list_elem_of_split in Ht as (ts1 & ts2 & ->). apply (active_moves _ _ t); [done|].
      destruct (th_active t) eqn:E; [done|]. destruct Hact. simpl. rewrite E. intros [].
  - destruct (dependencyError (graph_node graph id) graph resultsByID) eqn:Hd.
    + eexists. apply ls_skip; [done|]. by eapply level_inv_room_loop.
    + eexists. by apply ls_spawn.
Qed.

(** ** Termination *)

(** A goroutine's own moves. *)
Definition thread_move (t t' : thread) : Prop :=
  match th_state t with
  | Waiting => th_state t' = Running (executeNode cfg (th_node t))
  | Running (Vis e k) => ∃ x, th_state t' = Running (k x)
  | Running (Ret r) => th_state t' = Sent r
  | Sent r => th_state t' = Finished r
  | Finished _ => False
  end.

Definition threads_move (ts ts' : list thread) : Prop :=
  ∃ ts1 t t' ts2, ts = ts1 ++ t :: ts2 ∧ ts' = ts1 ++ t' :: ts2 ∧ thread_move t t'.

Lemma thread_move_Acc t : Acc (flip thread_move) t.
Proof.
  assert (∀ t r, th_state t = Finished r → Acc (flip thread_move) t) as Hf.
  { intros u r Hu. constructor. intros u'. unfold flip, thread_move. by rewrite Hu. }
  assert (∀ t r, th_state t = Sent r → Acc (flip thread_move) t) as Hs.
  { intros u r Hu. constructor. intros u'. unfold flip, thread_move. rewrite Hu. apply Hf. }
  assert (∀ p t, th_state t = Running p → Acc (flip thread_move) t) as Hr.
  { induction p as [r|e k IH]; intros u Hu; constructor; intros u'; unfold flip, thread_move; rewrite Hu;
      [apply Hs|]. intros [x Hx]. by eapply IH. }
  destruct (th_state t) eqn:Ht; eauto. constructor. intros t'. unfold flip, thread_move. rewrite Ht. apply Hr.
Qed.

Lemma threads_move_cons t ts l' :
  threads_move (t :: ts) l' →
  (∃ t', thread_move t t' ∧ l' = t' :: ts) ∨ (∃ ts', threads_move ts ts' ∧ l' = t :: ts').
Proof.
  intros ([|u us] & x & x' & ts2 & He & -> & Hm); simplify_eq/=; [eauto|].
  right. eexists. split; [|done]. by exists us, x, x', ts2.
Qed.

Lemma threads_move_Acc ts : Acc (flip threads_move) ts.
Proof.
  induction ts as [|t ts IH].
  - constructor. intros l' ([|] & ? & ? & ? & He & _); done.
  - pose proof (thread_move_Acc t) as Ht. revert ts IH. induction Ht as [t _ IHt]. intros ts Hts.
    induction Hts as [ts Hts IHts]. constructor. intros l' [(t' & Hm & ->)|(ts' & Hm & ->)]%threads_move_cons.
    + apply IHt; [done|]. by constructor.
    + by apply IHts.
Qed.

(** A step of a level shortens the loop, or moves one goroutine. *)
Lemma level_step_decreases st st' : step st st' →
  (∃ id, l_todo st = id :: l_todo st') ∨
  (l_todo st = l_todo st' ∧ threads_move (l_threads st) (l_threads st')).
Proof.
  destruct 1; simpl; eauto; right; (split; [done|]); eexists _, _, _, _;
    (split; [done|]); (split; [done|]); unfold thread_move; simpl; eauto.
Qed.

Lemma level_step_Acc st : Acc (flip step) st.
Proof.
  destruct st as [todo ts sent w]. revert ts sent w. induction todo as [|id rest IH]; intros ts;
    induction (threads_move_Acc ts) as [ts _ IHts]; intros sent w; constructor;
    intros [todo' ts' sent' w'] [(id' & Hid)|[Hid Hm]]%level_step_decreases; simplify_eq/=;
    eauto.
Qed.

(** Every schedule can be completed. *)
Lemma level_completes st :
  1 ≤ WorkerPoolSize cfg → level_inv st → ∃ st', rtc step st st' ∧ level_final st'.
Proof.
  intros Hpool. induction (level_step_Acc st) as [st _ IH]. intros Hinv.
  destruct (decide (l_todo st = [] ∧ Forall (λ t, th_finished t = true) (l_threads st))) as [|Hnf]; [by exists st|].
  destruct (level_progress st Hpool Hinv Hnf) as [st1 H1].
  destruct (IH st1 H1) as (st' & Hr & Hf); [by eapply level_step_inv|].
  exists st'. split; [|done]. by eapply rtc_l.
Qed.

(** ** What a finished level has done *)

Definition node_steps (l : list event) : list Step := clone_step <$> steps_of l.

(** One log and one result per node, for every schedule. *)
Definition level_runs (runs : list (list event * AgentResult)) (results : list AgentResult) (r r' : ExecutionTrace) : Prop :=
  Forall2 (λ id run, node_outcome cfg graph resultsByID id run.1 run.2) level runs ∧
  results ≡ₚ runs.*2 ∧ tr_TaskID r' = tr_TaskID r ∧ tr_StartTime r' = tr_StartTime r ∧
  tr_Steps r' ≡ₚ tr_Steps r ++ concat ((λ run, node_steps run.1) <$> runs).

Lemma level_final_runs st :
  level_inv st → level_final st →
  ∃ runs, level_runs runs (l_sent st) (w_recorder w0) (w_recorder (l_world st)).
Proof.
  intros [(done & Hlevel & Hslots) Hsent _ (Ht & Hs & Hsteps)] [Htodo Hfin].
  rewrite Htodo, app_nil_r in Hlevel. subst done.
  exists ((λ t, (th_log t, default AgentResult_zero (th_result t))) <$> l_threads st).
  split; [|split; [|split; [done|split; [done|]]]].
  - apply Forall2_fmap_r. clear -Hslots Hfin. induction Hslots as [|id t ids ts [Hn Hslot] _ IH]; [done|].
    apply Forall_cons in Hfin as [Hf Hfin]. constructor; [|by apply IH]. by destruct t as [node log []].
  - rewrite Hsent, <- list_fmap_compose. clear -Hfin. induction Hfin as [|t ts Ht _ IH]; [done|].
    rewrite results_cons, fmap_cons, IH. destruct t as [node log []]; done.
  - rewrite Hsteps, <- list_fmap_compose. done.
Qed.
End Level_facts.

(** ** The levels of a plan *)

Lemma executeLevel_runs cfg level graph results w rs w' :
  executeLevel cfg level graph results w rs w' →
  ∃ runs, level_runs cfg graph results level runs rs (w_recorder w) (w_recorder w').
Proof.
  intros (st & Hr & Hf & -> & ->).
  destruct (level_final_runs cfg graph results level w st) as (runs & H1 & H2 & H3);
    [by apply level_reach_inv|done|].
  exists runs. split; [done|]. split; [|done]. unfold sort_results. by rewrite sort_by_perm.
Qed.

(** A list in step with distinct keys is a function of them. *)
Lemma keyed_fmap {A} (a0 : A) (ids : list string) (l : list A) :
  NoDup ids → length ids = length l → ∃ f, l = f <$> ids.
Proof.
  intros Hnd. revert l. induction Hnd as [|x ids Hx _ IH]; intros [|a l] Hl; try done; [by exists (λ _, a0)|].
  destruct (IH l) as [f ->]; [by injection Hl|].
  exists (λ y, if decide (y = x) then a else f y). rewrite fmap_cons, decide_True by done. f_equal.
  apply list_fmap_ext. intros i y Hy. rewrite decide_False; [done|]. intros ->.
  by apply Hx, list_elem_of_lookup_2 with i.
Qed.

Lemma dependency_loop_ext deps byID results results' :
  (∀ d, d ∈ deps → results !! d = results' !! d) →
  dependency_loop deps byID results = dependency_loop deps byID results'.
Proof.
  induction deps as [|d deps IH]; intros H; [done|]. simpl. rewrite <- (H d) by left.
  rewrite IH; [done|]. intros d' Hd'. apply H. by right.
Qed.

Lemma node_outcome_ext cfg graph results results' id l r :
  (∀ d, d ∈ DependsOn (graph_node graph id) → results !! d = results' !! d) →
  node_outcome cfg graph results id l r → node_outcome cfg graph results' id l r.
Proof.
  intros H. unfold node_outcome, dependencyError. by rewrite (dependency_loop_ext _ _ results results').
Qed.

Lemma node_outcome_invocation cfg graph results id l r :
  node_outcome cfg graph results id l r → res_Invocation r = Invocation (graph_node graph id).
Proof.
  unfold node_outcome. destruct (dependencyError _ _ _); [by intros [_ ->]|].
  intros H. by apply executeNode_result_ok in H as [H _].
Qed.

Lemma store_results_frame rs : ∀ m id, id ∉ result_id <$> rs → store_results m rs !! id = m !! id.
Proof.
  induction rs as [|r rs IH]; intros m id Hid; [done|]. rewrite fmap_cons, not_elem_of_cons in Hid.
  simpl. rewrite IH by apply Hid. apply lookup_insert_ne. intros He. by apply proj1 in Hid.
Qed.

Lemma store_results_lookup rs : ∀ m r,
  NoDup (result_id <$> rs) → r ∈ rs → store_results m rs !! result_id r = Some r.
Proof.
  induction rs as [|r' rs IH]; intros m r Hnd Hr; [by apply not_elem_of_nil in Hr|].
  rewrite fmap_cons, NoDup_cons in Hnd. destruct Hnd as [Hn Hnd]. simpl.
  apply elem_of_cons in Hr as [->|Hr]; [|by apply IH].
  rewrite store_results_frame by done. apply lookup_insert_eq.
Qed.

(** The final map of results solves the equations of the nodes, and the recorder holds the
    steps of their logs. *)
Definition levels_done (cfg : RouterConfig) (graph : planGraph) (ids : list string)
    (lg : string → list event) (results : gmap string AgentResult) (r r' : ExecutionTrace) : Prop :=
  (∀ id, id ∈ ids → ∃ res, results !! id = Some res ∧ node_outcome cfg graph results id (lg id) res) ∧
  tr_TaskID r' = tr_TaskID r ∧ tr_StartTime r' = tr_StartTime r ∧
  tr_Steps r' ≡ₚ tr_Steps r ++ concat ((λ id, node_steps (lg id)) <$> ids).

(** One level, as a function from its nodes to their logs. *)
Lemma executeLevel_done cfg level graph results w rs w' (D : list string) :
  executeLevel cfg level graph results w rs w' →
  NoDup level → (∀ id, id ∈ level → node_id (graph_node graph id) = id) →
  (∀ id d, id ∈ level → d ∈ DependsOn (graph_node graph id) → d ∈ D) →
  (∀ id, id ∈ level → id ∉ D) →
  (∀ id, id ∉ level → store_results results rs !! id = results !! id) ∧
  ∃ lg, levels_done cfg graph level lg (store_results results rs) (w_recorder w) (w_recorder w').
Proof.
  intros (runs & Hruns & Hperm & Ht & Hs & Hsteps)%executeLevel_runs Hnd Hid Hdep HD.
  destruct (keyed_fmap ([], AgentResult_zero) level runs Hnd) as [f ->]; [by eapply Forall2_length|].
  rewrite Forall2_fmap_r in Hruns.
  assert (∀ id, id ∈ level → node_outcome cfg graph results id (f id).1 (f id).2) as Hruns'.
  { intros id [i Hi]%list_elem_of_lookup_1. exact (Forall2_lookup_lr _ _ _ _ _ _ Hruns Hi Hi). }
  clear Hruns. rename Hruns' into Hruns.
  assert (result_id <$> (f <$> level).*2 = level) as Hkeys.
  { rewrite <- !list_fmap_compose. rewrite <- (list_fmap_id level) at 2. apply list_fmap_ext.
    intros i id Hi%list_elem_of_lookup_2. simpl. unfold result_id.
    rewrite (node_outcome_invocation _ _ _ _ _ _ (Hruns id Hi)). by apply Hid. }
  assert (result_id <$> rs ≡ₚ level) as Hkeys' by (by rewrite Hperm, Hkeys).
  assert (∀ id, id ∉ level → store_results results rs !! id = results !! id) as Hframe.
  { intros id Hni. apply store_results_frame. by rewrite Hkeys'. }
  split; [done|]. exists (λ id, (f id).1). split; [|split; [done|split; [done|by rewrite Hsteps, <- list_fmap_compose]]].
  intros id Hi. exists (f id).2. split.
  - assert (result_id (f id).2 = id) as He.
    { unfold result_id. rewrite (node_outcome_invocation _ _ _ _ _ _ (Hruns id Hi)). by apply Hid. }
    rewrite <- He at 1. apply store_results_lookup; [by rewrite Hkeys'|].
    rewrite Hperm. apply list_elem_of_fmap. exists (f id). split; [done|]. by apply list_elem_of_fmap_2.
  - apply (node_outcome_ext _ _ results); [|by apply Hruns]. intros d Hd. symmetry. apply Hframe.
    intros Hl. by apply (HD d Hl), (Hdep id).
Qed.

(** The nodes of [levels] come after [D] and depend on nodes of [D] or of earlier levels. *)
Definition levels_after (graph : planGraph) (D : list string) (levels : list (list string)) : Prop :=
  NoDup (D ++ concat levels) ∧
  (∀ id, id ∈ concat levels → node_id (graph_node graph id) = id) ∧
  (∀ before level after, levels = before ++ level :: after →
     ∀ id d, id ∈ level → d ∈ DependsOn (graph_node graph id) → d ∈ D ++ concat before).

Lemma levels_after_cons graph D level rest :
  levels_after graph D (level :: rest) → levels_after graph (D ++ level) rest.
Proof.
  intros (Hnd & Hid & Hdep). split; [by rewrite <- app_assoc|]. split.
  - intros id Hin. apply Hid. cbn [concat]. apply elem_of_app. by right.
  - intros before lv after -> id d Hl Hd. rewrite <- app_assoc.
    apply (Hdep (level :: before) lv after eq_refl id d Hl Hd).
Qed.

Lemma levels_after_head graph D level rest :
  levels_after graph D (level :: rest) →
  NoDup level ∧ (∀ id, id ∈ level → node_id (graph_node graph id) = id) ∧
  (∀ id d, id ∈ level → d ∈ DependsOn (graph_node graph id) → d ∈ D) ∧
  (∀ id, id ∈ level → id ∉ D) ∧ (∀ id, id ∈ level → id ∉ concat rest).
Proof.
  intros (Hnd & Hid & Hdep). cbn [concat] in *. rewrite !NoDup_app in Hnd.
  destruct Hnd as (_ & Hdis & Hl & Hdis' & _). split; [done|]. split; [set_solver|]. split.
  - intros id d Hi Hd. specialize (Hdep [] level rest eq_refl id d Hi Hd). by rewrite app_nil_r in Hdep.
  - split; set_solver.
Qed.

Lemma levels_done_app cfg graph ids1 ids2 lg1 lg2 results results' r1 r2 r3 :
  (∀ id, id ∈ ids1 → id ∉ ids2) →
  (∀ id, id ∉ ids2 → results' !! id = results !! id) →
  (∀ id d, id ∈ ids1 → d ∈ DependsOn (graph_node graph id) → d ∉ ids2) →
  levels_done cfg graph ids1 lg1 results r1 r2 → levels_done cfg graph ids2 lg2 results' r2 r3 →
  levels_done cfg graph (ids1 ++ ids2) (λ id, if decide (id ∈ ids1) then lg1 id else lg2 id) results' r1 r3.
Proof.
  intros Hdis Hframe Hdep (H1 & T1 & S1 & P1) (H2 & T2 & S2 & P2).
  split; [|split; [congruence|split; [congruence|]]].
  - intros id Hin. destruct (decide (id ∈ ids1)) as [Hi|Hi].
    + destruct (H1 id Hi) as (res & Hres & Hout). exists res. rewrite Hframe by auto. split; [done|].
      apply (node_outcome_ext _ _ results); [|done]. intros d Hd. symmetry. apply Hframe. eauto.
    + apply H2. set_solver.
  - rewrite P2, P1, fmap_app, concat_app, <- app_assoc. f_equiv.
    assert (∀ (ids : list string) (f g : string → list event), (∀ id, id ∈ ids → f id = g id) →
      (λ id, node_steps (f id)) <$> ids = (λ id, node_steps (g id)) <$> ids) as Hext.
    { intros ids f g Hfg. apply list_fmap_ext. intros i id Hi%list_elem_of_lookup_2. by rewrite Hfg. }
    f_equiv; apply Permutation_refl'; f_equal; apply Hext; intros id Hi.
    + by rewrite decide_True.
    + rewrite decide_False; [done|]. intros Hi1. by apply (Hdis id).
Qed.

Lemma run_levels_done cfg graph levels results w results' w' :
  run_levels cfg graph levels results w results' w' →
  ∀ D, levels_after graph D levels →
  (∀ id, id ∉ concat levels → results' !! id = results !! id) ∧
  ∃ lg, levels_done cfg graph (concat levels) lg results' (w_recorder w) (w_recorder w').
Proof.
  induction 1 as [results w|level rest results w rs w' results'' w'' Hlevel _ IH]; intros D HD.
  - split; [done|]. exists (λ _, []). split; [intros id Hin; by apply not_elem_of_nil in Hin|].
    split; [done|]. split; [done|]. simpl. by rewrite app_nil_r.
  - destruct (levels_after_head _ _ _ _ HD) as (Hnd & Hid & Hdep & Hfresh & Hdis).
    destruct (executeLevel_done _ _ _ _ _ _ _ D Hlevel Hnd Hid Hdep Hfresh) as (Hf1 & lg1 & H1).
    destruct (IH (D ++ level)) as (Hf2 & lg2 & H2); [by apply levels_after_cons|]. cbn [concat]. split.
    + intros id Hni. rewrite not_elem_of_app in Hni. rewrite Hf2, Hf1; naive_solver.
    + eexists. eapply levels_done_app; [done|done| |done|done].
      intros id d Hi Hd Hr. apply (Hdep id d Hi) in Hd. destruct HD as (HD & _). cbn [concat] in HD.
      rewrite !NoDup_app in HD. destruct HD as (_ & HD & _). by apply (HD d Hd), elem_of_app; right.
Qed.

(** ** A plan, without schedules

    [res] and [lg] give the result and the log of every node. *)

(** The first dependency that failed, with its error. *)
Definition first_failed (res : string → AgentResult) (deps : list string) : option (string * error) :=
  head (omap (λ d, (λ e, (d, e)) <$> res_Err (res d)) deps).

Definition dependency_failed (d : string) (e : error) : error :=
  Errorf ("dependency failed: " +:+ d +:+ ": " +:+ Error e).

(** A node runs if its dependencies succeeded; otherwise it is skipped, with the error of the
    first that failed, one step of attempt 0 and no call. *)
Definition node_run (cfg : RouterConfig) (res : string → AgentResult) (n : PlanNode) (l : list event) : Prop :=
  match first_failed res (DependsOn n) with
  | Some (d, e) =>
      l = [EvStep (skipped_step n (dependency_failed d e))] ∧
      res (node_id n) = skipped_result n (dependency_failed d e)
  | None => logs (executeNode (F:=F) cfg n) l (res (node_id n))
  end.

Definition plan_run (cfg : RouterConfig) (plan : ExecutionPlan) (res : string → AgentResult)
    (lg : string → list event) : Prop :=
  ∀ n, n ∈ plan_Nodes plan → node_run cfg res n (lg (node_id n)).

Definition plan_results (plan : ExecutionPlan) (res : string → AgentResult) : list AgentResult :=
  sort_results ((λ n, res (node_id n)) <$> plan_Nodes plan).

Definition plan_steps (plan : ExecutionPlan) (lg : string → list event) : list Step :=
  sort_by step_key_le step_key (concat ((λ n, node_steps (lg (node_id n))) <$> plan_Nodes plan)).

(** With every dependency run, [dependencyError] is the first failure and nothing else. *)
Lemma dependency_loop_first byID (results : gmap string AgentResult) res deps :
  (∀ d, d ∈ deps → results !! d = Some (res d) ∧ is_Some (byID !! d)) →
  dependency_loop deps byID results = (λ de, dependency_failed de.1 de.2) <$> first_failed res deps.
Proof.
  induction deps as [|d deps IH]; intros H; [done|]. destruct (H d) as [Hd [n Hn]]; [by left|].
  unfold first_failed. simpl. rewrite Hd, Hn. destruct (res_Err (res d)); [done|].
  apply IH. intros d' Hd'. apply H. by right.
Qed.

Lemma buildGraph_levels_after plan g :
  plan_fits plan → buildGraph plan = Ok g →
  levels_after g [] (g_levels g) ∧ concat (g_levels g) ≡ₚ node_id <$> plan_Nodes plan ∧
  g_nodes g = plan_Nodes plan ∧
  ∀ n, n ∈ plan_Nodes plan → g_nodesByID g !! node_id n = Some n.
Proof.
  intros Hfits Hb. destruct (buildGraph_Ok_wf _ _ Hb) as [(_ & Hnd & _) _].
  destruct (buildGraph_Ok_graph _ _ Hfits Hb) as (Hnodes & Hby & Hp & Hlay).
  assert (∀ n, n ∈ plan_Nodes plan → g_nodesByID g !! node_id n = Some n) as Hl by (intros n Hn; by apply Hby).
  split; [|done]. split; [simpl; by rewrite Hp|].
  assert (∀ id, id ∈ concat (g_levels g) → ∃ n, n ∈ plan_Nodes plan ∧ node_id n = id ∧ graph_node g id = n) as Hnode.
  { intros id. rewrite Hp. intros (n & -> & Hn)%list_elem_of_fmap. exists n. split; [done|]. split; [done|].
    unfold graph_node. by rewrite (Hl n Hn). }
  split.
  - intros id (n & Hn & <- & ->)%Hnode. done.
  - intros before level after Heq id d Hid Hd. destruct (Hnode id) as (n & Hn & Hni & Hg).
    { rewrite Heq, concat_app. cbn [concat]. set_solver. }
    destruct (Hlay _ _ _ Heq) as (_ & _ & Hdeps). apply (Hdeps _ Hid). apply elem_of_plan_edges.
    rewrite Hg in Hd. eauto.
Qed.

Lemma fmap_perm_concat {A B} (f : A → list B) l l' : l ≡ₚ l' → concat (f <$> l) ≡ₚ concat (f <$> l').
Proof. intros H. induction H; simpl; [done|by f_equiv|solve_Permutation|by etrans]. Qed.

(** The steps of a node name it and have distinct attempt numbers. *)
Lemma node_run_steps cfg res n l :
  node_run cfg res n l →
  NoDup (st_Attempt <$> steps_of l) ∧ Forall (λ s, st_InvocationID s = node_id n) (steps_of l).
Proof.
  unfold node_run. destruct (first_failed res (DependsOn n)) as [[d e]|].
  - intros [-> _]. simpl. split; [apply NoDup_singleton|by repeat constructor].
  - intros (_ & Hseq & Hfor & _)%executeNode_numbered. rewrite Hseq. split; [apply NoDup_seqZ|].
    eapply Forall_impl; [exact Hfor|]. by intros s (-> & _).
Qed.

Lemma node_steps_keys l :
  step_key <$> node_steps l = step_key <$> steps_of l.
Proof. unfold node_steps. rewrite <- list_fmap_compose. by apply list_fmap_ext. Qed.

Lemma plan_keys_distinct cfg plan res lg nodes :
  nodes ⊆ plan_Nodes plan → NoDup (node_id <$> nodes) → plan_run cfg plan res lg →
  NoDup (step_key <$> concat ((λ n, node_steps (lg (node_id n))) <$> nodes)).
Proof.
  intros Hsub Hnd Hrun. induction nodes as [|n nodes IH]; [constructor|].
  rewrite fmap_cons, NoDup_cons in Hnd. destruct Hnd as [Hn Hnd].
  rewrite fmap_cons. cbn [concat]. rewrite fmap_app, NoDup_app, node_steps_keys.
  destruct (node_run_steps _ _ _ _ (Hrun n (Hsub n (list_elem_of_here n nodes)))) as [Ha Hf].
  split; [|split; [|apply IH; [set_solver|done]]].
  - apply (NoDup_fmap_1 (λ k : string * (Z * string), k.2.1)). by rewrite <- list_fmap_compose.
  - intros k (s & -> & Hs)%list_elem_of_fmap (s' & Hk & Hs')%list_elem_of_fmap.
    rewrite Forall_forall in Hf. specialize (Hf s Hs).
    apply list_elem_of_In, in_concat in Hs' as (ss & Hss%list_elem_of_In & Hs'%list_elem_of_In).
    apply list_elem_of_fmap in Hss as (n' & -> & Hn').
    apply list_elem_of_fmap in Hs' as (s0 & -> & Hs0).
    destruct (node_run_steps _ _ _ _ (Hrun n' (Hsub n' (list_elem_of_further n' n nodes Hn')))) as [_ Hf'].
    rewrite Forall_forall in Hf'. specialize (Hf' s0 Hs0). apply Hn, list_elem_of_fmap.
    exists n'. split; [|done]. rewrite <- Hf, <- Hf'. by injection Hk.
Qed.

Lemma RunPlan_denotation cfg plan g start endt w results tr w' :
  plan_fits plan → buildGraph plan = Ok g → RunPlan cfg plan start endt w results tr w' →
  ∃ res lg, plan_run cfg plan res lg ∧ results = plan_results plan res ∧
    tr = mkExecutionTrace (plan_TaskID plan) (plan_steps plan lg) start endt (Sub endt start).
Proof.
  intros Hfits Hb. destruct (buildGraph_levels_after _ _ Hfits Hb) as (Hafter & Hp & Hnodes & Hby).
  destruct (buildGraph_Ok_wf _ _ Hb) as [(_ & Hnd & _ & Hdeps) _].
  unfold RunPlan. rewrite Hb. intros (resultsByID & Hrun & -> & ->).
  destruct (run_levels_done _ _ _ _ _ _ _ Hrun [] Hafter) as (_ & lg & Hres & Ht & Hs & Hsteps).
  set (res id := default AgentResult_zero (resultsByID !! id)).
  assert (∀ id, id ∈ node_id <$> plan_Nodes plan → resultsByID !! id = Some (res id)) as Hresid.
  { intros id Hid. destruct (Hres id) as (r & Hr & _); [by rewrite Hp|]. subst res. simpl. by rewrite Hr. }
  assert (plan_run cfg plan res lg) as Hplan.
  { intros n Hn. destruct (Hres (node_id n)) as (r & Hr & Hout).
    { rewrite Hp. apply list_elem_of_fmap. eauto. }
    unfold node_outcome, graph_node, dependencyError in Hout. rewrite (Hby n Hn) in Hout. cbn [default id] in Hout.
    assert (res (node_id n) = r) as Hrn by (subst res; simpl; by rewrite Hr).
    rewrite (dependency_loop_first _ _ res) in Hout.
    - unfold node_run. rewrite Hrn. by destruct (first_failed res (DependsOn n)) as [[d e]|].
    - intros d Hd. assert (d ∈ node_id <$> plan_Nodes plan) as Hdn.
      { apply (Hdeps d (node_id n)). apply elem_of_plan_edges. eauto. }
      split; [by apply Hresid|]. apply list_elem_of_fmap in Hdn as (m & -> & Hm). rewrite Hby by done. done. }
  exists res, lg. split; [done|]. split.
  - unfold collect_results, plan_results. by rewrite Hnodes.
  - unfold Finalize. rewrite Ht, Hs. simpl. f_equal. unfold plan_steps. symmetry. apply sort_by_proper; try apply _.
    + by apply (plan_keys_distinct cfg plan res).
    + rewrite Hsteps. simpl. rewrite (fmap_perm_concat _ _ _ Hp), <- list_fmap_compose. done.
Qed.

(** ** An executable schedule, for samples

    One goroutine at a time, against an environment that supplies the clock, the agents and the
    cancellation of the context. *)
Record environment (E : Type) := mkEnvironment {
  env_now : E → time * E;
  env_call : F → Z → AgentInput → E → outcome * E;
  env_wait : Z → E → option error * E
}.
Arguments env_now {E}.
Arguments env_call {E}.
Arguments env_wait {E}.

Section Sequential.
Context {E : Type} (env : environment E) (cfg : RouterConfig).

Definition handle (e : eff F) : world * E → resp e * (world * E) :=
  match e with
  | ENow => λ ws, let '(t, s) := env_now env ws.2 in (t, (ws.1, s))
  | EGet id => λ ws, (Get (w_registry ws.1) id, ws)
  | EAllow id p now => λ ws,
      let '(cb, r) := Allow (w_breaker ws.1) id p now in (r, (set_breaker ws.1 cb, ws.2))
  | ERecordSuccess id => λ ws, (tt, (set_breaker ws.1 (RecordSuccess (w_breaker ws.1) id), ws.2))
  | ERecordFailure id p now => λ ws,
      (tt, (set_breaker ws.1 (RecordFailure (w_breaker ws.1) id p now), ws.2))
  | EObserve o => λ ws, (tt, (set_metrics ws.1 (observe (w_metrics ws.1) o), ws.2))
  | EAddStep st => λ ws, (tt, (set_recorder ws.1 (AddStep (w_recorder ws.1) st), ws.2))
  | ESpanStart _ _ _ _ _ => λ ws, (tt, ws)
  | ESpanEnd _ => λ ws, (tt, ws)
  | ECall f t i => λ ws, let '(o, s) := env_call env f t i ws.2 in (o, (ws.1, s))
  | ESelect d => λ ws, let '(x, s) := env_wait env d ws.2 in (x, (ws.1, s))
  end.

Fixpoint level_seq (graph : planGraph) (results : gmap string AgentResult) (ids : list string)
    (sent : list AgentResult) (ws : world * E) : list AgentResult * (world * E) :=
  match ids with
  | [] => (sent, ws)
  | id :: rest =>
      let node := graph_node graph id in
      match dependencyError node graph results with
      | Some err =>
          level_seq graph results rest (sent ++ [skipped_result node err])
            (set_recorder ws.1 (AddStep (w_recorder ws.1) (skipped_step node err)), ws.2)
      | None =>
          let '(r, _, ws') := interp handle (executeNode cfg node) ws in
          level_seq graph results rest (sent ++ [r]) ws'
      end
  end.

Fixpoint levels_seq (graph : planGraph) (levels : list (list string)) (results : gmap string AgentResult)
    (ws : world * E) : gmap string AgentResult * (world * E) :=
  match levels with
  | [] => (results, ws)
  | level :: rest =>
      let '(sent, ws') := level_seq graph results level [] ws in
      levels_seq graph rest (store_results results (sort_results sent)) ws'
  end.

(** [RunPlan] under this schedule; the engine's clock is read at its start and end. *)
Definition RunPlan_seq (plan : ExecutionPlan) (w : world) (s : E) :
    list AgentResult * ExecutionTrace * (world * E) :=
  let '(start, s) := env_now env s in
  let recorder := NewRecorder (plan_TaskID plan) start in
  match buildGraph plan with
  | Err err =>
      let recorder := AddStep recorder (plan_validation_step err) in
      let '(endt, s) := env_now env s in
      ([mkAgentResult AgentInvocation_zero AgentOutput_zero (Some err)], Finalize recorder endt,
       (set_recorder w recorder, s))
  | Ok graph =>
      let '(resultsByID, (w', s)) := levels_seq graph (g_levels graph) ∅ (set_recorder w recorder, s) in
      let '(endt, s) := env_now env s in
      (collect_results graph resultsByID, Finalize (w_recorder w') endt, (w', s))
  end.

Lemma handle_answers e ws : answers e ws.1 (handle e ws).1 (handle e ws).2.1.
Proof.
  destruct e; simpl; try done.
  - by destruct (env_now env ws.2).
  - by destruct (Allow _ _ _ _).
  - by destruct (env_call _ _ _ _).
  - by destruct (env_wait _ _).
Qed.

Section Seq_level.
Context (graph : planGraph) (results : gmap string AgentResult) (cap : nat).
Hypothesis pool : 1 ≤ WorkerPoolSize cfg.

(** A goroutine that runs alone to its result. *)
Lemma interp_steps p : ∀ todo ts node log sent ws,
  rtc (level_step cfg graph results cap)
    (mkLevel todo (ts ++ [mkThread node log (Running p)]) sent ws.1)
    (mkLevel todo (ts ++ [mkThread node (log ++ (interp handle p ws).1.2) (Running (Ret (interp handle p ws).1.1))])
       sent (interp handle p ws).2.1).
Proof.
  induction p as [r|e k IH]; intros todo ts node log sent ws; simpl; [by rewrite app_nil_r|].
  pose proof (handle_answers e ws) as Hans. destruct (handle e ws) as [x ws1] eqn:He. simpl in Hans.
  specialize (IH x todo ts node (log ++ event_of e x) sent ws1).
  destruct (interp handle (k x) ws1) as [[a l] ws2]. simpl in *.
  eapply rtc_l; [by apply ls_effect|]. by rewrite app_assoc.
Qed.

Lemma finished_active ts : Forall (λ t, th_finished t = true) ts → active ts = 0.
Proof.
  intros H. apply idle_active. eapply Forall_impl; [exact H|]. intros [node log []]; simpl; (done || by intros _ []).
Qed.

Lemma level_seq_steps ids : ∀ ts sent ws,
  Forall (λ t, th_finished t = true) ts → (length sent + length ids ≤ cap)%nat →
  ∃ ts', Forall (λ t, th_finished t = true) ts' ∧
    rtc (level_step cfg graph results cap) (mkLevel ids ts sent ws.1)
      (mkLevel [] ts' (level_seq graph results ids sent ws).1 (level_seq graph results ids sent ws).2.1).
Proof.
  induction ids as [|id ids IH]; intros ts sent ws Hts Hcap; cbn [level_seq length] in *; [by exists ts|].
  assert (∀ node l r, Forall (λ t, th_finished t = true) (ts ++ [mkThread node l (Finished r)])) as Hsnoc.
  { intros node l r. apply Forall_app. split; [done|by repeat constructor]. }
  destruct (dependencyError (graph_node graph id) graph results) as [err|] eqn:Herr.
  - set (node := graph_node graph id) in *.
    destruct (IH (ts ++ [mkThread node [EvStep (skipped_step node err)] (Finished (skipped_result node err))])
      (sent ++ [skipped_result node err]) (set_recorder ws.1 (AddStep (w_recorder ws.1) (skipped_step node err)), ws.2))
      as (ts' & Hts' & Hr); [apply Hsnoc|rewrite length_app; simpl; lia|].
    exists ts'. split; [done|]. eapply rtc_l; [|exact Hr]. apply ls_skip; [done|lia].
  - pose proof (interp_steps (executeNode cfg (graph_node graph id)) ids ts (graph_node graph id) [] sent ws) as Hi.
    destruct (interp handle (executeNode cfg (graph_node graph id)) ws) as [[r l] ws']. simpl in Hi.
    destruct (IH (ts ++ [mkThread (graph_node graph id) l (Finished r)]) (sent ++ [r]) ws') as (ts' & Hts' & Hr); [apply Hsnoc|rewrite length_app; simpl; lia|].
    exists ts'. split; [done|]. eapply rtc_l; [by apply ls_spawn|]. eapply rtc_l.
    { apply ls_acquire. rewrite active_app, finished_active by done. unfold active. simpl. lia. }
    etrans; [exact Hi|]. eapply rtc_l; [apply ls_send; lia|]. eapply rtc_l; [apply ls_release|exact Hr].
Qed.
End Seq_level.

Lemma levels_seq_runs graph levels : 1 ≤ WorkerPoolSize cfg → ∀ results ws,
  run_levels cfg graph levels results ws.1 (levels_seq graph levels results ws).1
    (levels_seq graph levels results ws).2.1.
Proof.
  intros Hpool. induction levels as [|level rest IH]; intros results ws; simpl; [constructor|].
  destruct (level_seq_steps graph results (length level) Hpool level [] [] ws) as (ts' & Hts' & Hr); [done|done|].
  destruct (level_seq graph results level [] ws) as [sent ws']. eapply rl_cons; [|apply IH].
  by exists (mkLevel [] ts' sent ws'.1).
Qed.

(** The schedule is one of those [RunPlan] admits. *)
Lemma RunPlan_seq_runs plan w s : 1 ≤ WorkerPoolSize cfg →
  ∃ start endt, RunPlan cfg plan start endt w (RunPlan_seq plan w s).1.1 (RunPlan_seq plan w s).1.2
    (RunPlan_seq plan w s).2.1.
Proof.
  intros Hpool. unfold RunPlan_seq, RunPlan. destruct (env_now env s) as [start s1].
  destruct (buildGraph plan) as [graph|err].
  - pose proof (levels_seq_runs graph (g_levels graph) Hpool ∅
      (set_recorder w (NewRecorder (plan_TaskID plan) start), s1)) as Hr.
    destruct (levels_seq _ _ _ _) as [resultsByID [w' s2]]. destruct (env_now env s2) as [endt s3].
    exists start, endt. eauto.
  - destruct (env_now env s1) as [endt s2]. by exists start, endt.
Qed.
End Sequential.

(** ** Failures travel along the dependencies *)

Lemma first_failed_some res deps d :
  d ∈ deps → is_Some (res_Err (res d)) →
  ∃ d' e, first_failed res deps = Some (d', e) ∧ d' ∈ deps.
Proof.
  unfold first_failed. induction deps as [|x deps IH]; intros Hd [e He]; [by apply not_elem_of_nil in Hd|].
  simpl. destruct (res_Err (res x)) as [e'|] eqn:Hx; simpl; [exists x, e'; split; [done|left]|].
  apply elem_of_cons in Hd as [->|Hd]; [congruence|].
  destruct (IH Hd) as (d' & e'' & Hf & Hin); [by eexists|]. exists d', e''. split; [done|by right].
Qed.

(** [m] is a dependency of [n]. *)
Definition plan_edge (plan : ExecutionPlan) (m n : string) : Prop := (m, n) ∈ plan_edges (plan_Nodes plan).

(** A node with a failed ancestor is skipped. *)
Lemma plan_run_skips cfg plan res lg m n :
  NoDup (node_id <$> plan_Nodes plan) → plan_run cfg plan res lg →
  tc (plan_edge plan) m (node_id n) → n ∈ plan_Nodes plan → is_Some (res_Err (res m)) →
  ∃ d e, d ∈ DependsOn n ∧ lg (node_id n) = [EvStep (skipped_step n (dependency_failed d e))] ∧
    res (node_id n) = skipped_result n (dependency_failed d e).
Proof.
  intros Hnd Hrun Hpath. remember (node_id n) as id eqn:Hid. revert n Hid.
  assert (∀ m id n, plan_edge plan m id → id = node_id n → n ∈ plan_Nodes plan → is_Some (res_Err (res m)) →
    ∃ d e, d ∈ DependsOn n ∧ lg id = [EvStep (skipped_step n (dependency_failed d e))] ∧
      res id = skipped_result n (dependency_failed d e)) as Hone.
  { clear -Hnd Hrun. intros m id n (n' & Hn' & He & Hm)%elem_of_plan_edges -> Hn Herr.
    assert (n' = n) as ->.
    { apply list_elem_of_lookup in Hn as [i Hi]. apply list_elem_of_lookup in Hn' as [j Hj].
      assert (i = j) as ->; [|congruence].
      apply (NoDup_lookup (node_id <$> plan_Nodes plan) i j (node_id n)); [done|..];
        rewrite list_lookup_fmap; [rewrite Hi|rewrite Hj]; simpl; congruence. }
    destruct (first_failed_some res _ _ Hm Herr) as (d & e & Hff & Hd). specialize (Hrun n Hn).
    unfold node_run in Hrun. rewrite Hff in Hrun. exists d, e. tauto. }
  induction Hpath as [m id Hedge|m x id Hedge Hpath IH]; intros n Hid Hn Herr; [by eapply Hone|].
  assert (∃ nx, nx ∈ plan_Nodes plan ∧ x = node_id nx) as (nx & Hnx & ->).
  { apply elem_of_plan_edges in Hedge as (nx & ? & <- & _). eauto. }
  apply IH; [done|done|]. destruct (Hone m _ nx Hedge eq_refl Hnx Herr) as (d & e & _ & _ & ->). by eexists.
Qed.

Lemma plan_run_invocation cfg plan res lg n :
  plan_run cfg plan res lg → n ∈ plan_Nodes plan → res_Invocation (res (node_id n)) = Invocation n.
Proof.
  intros Hplan Hn. specialize (Hplan n Hn). unfold node_run in Hplan.
  destruct (first_failed res (DependsOn n)) as [[d e]|]; [by destruct Hplan as [_ ->]|].
  by apply executeNode_result_ok in Hplan as [-> _].
Qed.

Lemma plan_run_id cfg plan res lg n :
  plan_run cfg plan res lg → n ∈ plan_Nodes plan → result_id (res (node_id n)) = node_id n.
Proof. intros Hplan Hn. unfold result_id. by rewrite (plan_run_invocation _ _ _ _ _ Hplan Hn). Qed.

(** The steps a plan records for one of its nodes. *)
Lemma plan_steps_of_node cfg plan res lg n :
  NoDup (node_id <$> plan_Nodes plan) → plan_run cfg plan res lg → n ∈ plan_Nodes plan →
  filter (λ s, st_InvocationID s = node_id n) (plan_steps plan lg) ≡ₚ node_steps (lg (node_id n)).
Proof.
  intros Hnd Hrun Hn. unfold plan_steps. rewrite sort_by_perm.
  assert (∀ m, m ∈ plan_Nodes plan →
    Forall (λ s, st_InvocationID s = node_id m) (node_steps (lg (node_id m)))) as Hof.
  { intros m Hm. destruct (node_run_steps _ _ _ _ (Hrun m Hm)) as [_ Hf]. by apply Forall_fmap. }
  apply list_elem_of_split in Hn as (l1 & l2 & Hl). rewrite Hl in *. clear Hl.
  assert (∀ l, l ⊆ l1 ++ n :: l2 → node_id n ∉ node_id <$> l →
    filter (λ s, st_InvocationID s = node_id n) (concat ((λ m, node_steps (lg (node_id m))) <$> l)) = []) as Hnone.
  { induction l as [|m l IH]; intros Hsub Hni; [done|]. rewrite fmap_cons. cbn [concat]. rewrite filter_app.
    rewrite fmap_cons, not_elem_of_cons in Hni. rewrite IH by set_solver.
    rewrite app_nil_r. apply filter_none. eapply Forall_impl; [apply (Hof m); set_solver|].
    simpl. intros s ->. naive_solver. }
  rewrite fmap_app, NoDup_app, fmap_cons, NoDup_cons in Hnd. destruct Hnd as (_ & Hd & Hn2 & _).
  rewrite fmap_app, concat_app, fmap_cons. cbn [concat]. rewrite !filter_app.
  rewrite (Hnone l1), (Hnone l2), app_nil_r, filter_all; [done|apply Hof| | | |]; try set_solver.
Qed.
End Scheduler.
Arguments world F M : clear implicits.
Arguments thread F : clear implicits.
Arguments level_state F M : clear implicits.
Arguments environment F E : clear implicits.

(** ** Properties of the scheduler *)
Section Properties.
Context {F M : Type} `{!Recorder M}.

(** C6: in every state a level can reach, under every interleaving, no more
    goroutines execute a node than the worker pool has slots, and the result channel holds at
    most one result per node of the level, so that a send on it never blocks. *)
Theorem level_pool_bound (cfg : RouterConfig) (graph : planGraph) results level (w : world F M) st :
  1 ≤ WorkerPoolSize cfg →
  rtc (level_step cfg graph results (length level)) (mkLevel level [] [] w) st →
  active (l_threads st) ≤ WorkerPoolSize cfg ∧
  (length (l_sent st) ≤ length level)%nat ∧
  (∀ t, t ∈ l_threads st → th_result t = None → (length (l_sent st) < length level)%nat).
Proof.
  intros Hpool Hr. pose proof (level_reach_inv _ _ _ _ _ _ Hr) as Hinv.
  pose proof Hinv as [Hslots Hsent Hact _].
  split; [lia|]. split.
  - destruct Hslots as (done & -> & Hslots). rewrite Hsent, length_app. apply Forall2_length in Hslots.
    pose proof (omap_result_length (l_threads st)). lia.
  - intros t (ts1 & ts2 & Hts)%list_elem_of_split Hres. destruct st as [todo ts sent w']. simpl in *. subst ts.
    by eapply level_inv_room.
Qed.

(** C5: a level cannot deadlock and cannot run for ever: with a worker pool
    of at least one slot (NewEngine ensures it), every state that the level reaches is final or
    has a next step, no interleaving is infinite, and from every reachable state the level can
    be finished. *)
Theorem level_completes_always (cfg : RouterConfig) (graph : planGraph) results level (w : world F M) :
  1 ≤ WorkerPoolSize cfg →
  let step := level_step cfg graph results (length level) in
  Acc (flip step) (mkLevel level [] [] w) ∧
  ∀ st, rtc step (mkLevel level [] [] w) st →
    (level_final st ∨ ∃ st', step st st') ∧ ∃ st', rtc step st st' ∧ level_final st'.
Proof.
  intros Hpool step. split; [apply level_step_Acc|]. intros st Hr.
  pose proof (level_reach_inv _ _ _ _ _ _ Hr) as Hinv. split; [|by apply level_completes with w].
  destruct (decide (l_todo st = [] ∧ Forall (λ t, th_finished t = true) (l_threads st))); [by left|].
  right. by apply level_progress with w.
Qed.

(** C1: whatever the interleaving of the goroutines, a run of an accepted plan
    amounts to one run per node: a node with a failed dependency is skipped (one step of attempt
    0, an error that names the first failed dependency, no call), every other node is executed
    once by executeNode; the results are the nodes' results sorted by invocation, and the trace
    is the sorted list of the nodes' steps, with the plan's task and the engine's clock. *)
Theorem RunPlan_correct (cfg : RouterConfig) plan g start endt (w : world F M) results tr w' :
  plan_fits plan → buildGraph plan = Ok g → RunPlan cfg plan start endt w results tr w' →
  ∃ res lg,
    (∀ n, n ∈ plan_Nodes plan → node_run (F:=F) cfg res n (lg (node_id n))) ∧
    results = sort_results ((λ n, res (node_id n)) <$> plan_Nodes plan) ∧
    tr = mkExecutionTrace (plan_TaskID plan) (plan_steps plan lg) start endt (Sub endt start).
Proof. apply RunPlan_denotation. Qed.

(** The results of an accepted plan are one per node of the plan,
    each with its node's invocation, in increasing order of the invocation identifiers, which
    are distinct: the order does not depend on the schedule. *)
Theorem RunPlan_one_result_each (cfg : RouterConfig) plan g start endt (w : world F M) results tr w' :
  plan_fits plan → buildGraph plan = Ok g → RunPlan cfg plan start endt w results tr w' →
  res_Invocation <$> results ≡ₚ Invocation <$> plan_Nodes plan ∧
  result_id <$> results = sort_strings (node_id <$> plan_Nodes plan) ∧
  NoDup (result_id <$> results).
Proof.
  intros Hfits Hb Hrun. destruct (buildGraph_Ok_wf _ _ Hb) as [(_ & Hnd & _) _].
  destruct (RunPlan_denotation _ _ _ _ _ _ _ _ _ Hfits Hb Hrun) as (res & lg & Hplan & -> & _).
  assert (res_Invocation <$> plan_results plan res ≡ₚ Invocation <$> plan_Nodes plan) as Hinv.
  { unfold plan_results, sort_results. rewrite sort_by_perm, <- list_fmap_compose.
    apply Permutation_refl', list_fmap_ext. intros i n Hn%list_elem_of_lookup_2. simpl.
    by eapply plan_run_invocation. }
  assert (result_id <$> plan_results plan res ≡ₚ node_id <$> plan_Nodes plan) as Hids.
  { apply (fmap_Permutation inv_ID) in Hinv. by rewrite <- !list_fmap_compose in Hinv. }
  split; [done|]. split; [|by rewrite Hids].
  apply (StronglySorted_unique String.le); [|apply sort_strings_sorted|by rewrite sort_strings_perm, Hids].
  eapply StronglySorted_fmap; [|apply (sort_by_sorted String.le)]. done.
Qed.

(** C2: if a node's result is an error, every node that depends on it,
    directly or through others, is skipped: its result is a "dependency failed" error, and the
    trace has exactly one step for it, of attempt 0, so its agent was never called. *)
Theorem RunPlan_failure_propagates (cfg : RouterConfig) plan g start endt (w : world F M) results tr w' r n :
  plan_fits plan → buildGraph plan = Ok g → RunPlan cfg plan start endt w results tr w' →
  r ∈ results → is_Some (res_Err r) →
  n ∈ plan_Nodes plan → tc (plan_edge plan) (result_id r) (node_id n) →
  ∃ d e, d ∈ DependsOn n ∧ skipped_result n (dependency_failed d e) ∈ results ∧
    filter (λ s, st_InvocationID s = node_id n) (tr_Steps tr)
      = [clone_step (skipped_step n (dependency_failed d e))].
Proof.
  intros Hfits Hb Hrun Hr Herr Hn Hpath. destruct (buildGraph_Ok_wf _ _ Hb) as [(_ & Hnd & _) _].
  destruct (RunPlan_denotation _ _ _ _ _ _ _ _ _ Hfits Hb Hrun) as (res & lg & Hplan & -> & ->).
  unfold plan_results, sort_results in *. rewrite sort_by_elem_of, list_elem_of_fmap in Hr.
  destruct Hr as (m & -> & Hm). rewrite (plan_run_id _ _ _ _ _ Hplan Hm) in Hpath.
  destruct (plan_run_skips _ _ _ _ _ _ Hnd Hplan Hpath Hn Herr) as (d & e & Hd & Hl & Hres).
  exists d, e. split; [done|]. split.
  - rewrite sort_by_elem_of, <- Hres. apply list_elem_of_fmap. eauto.
  - simpl. pose proof (plan_steps_of_node _ _ _ _ _ Hnd Hplan Hn) as Hp. rewrite Hl in Hp.
    by apply Permutation_singleton_r in Hp.
Qed.
End Properties.

(** *** Witnesses *)

(** Agents as functions of their input; a clock that advances with every reading and call. *)
Definition sample_env : environment (AgentInput → outcome) Z :=
  mkEnvironment Z (λ s, (s, s + 1)) (λ f _ i s, (f i, s + 5)) (λ _ s, (None, s)).

Definition good_agent : AgentInput → outcome := λ i, Returned (mkAgentOutput (in_RequestID i) None None 0) None.
Definition bad_agent : AgentInput → outcome := λ _, Panicked "bad".

(** The agents of [sample_plan]; [b] panics. *)
Definition sample_registry : gmap string (AgentInput → outcome) :=
  {[ "a@v1" := good_agent; "b@v1" := bad_agent; "c@v1" := good_agent; "d@v1" := good_agent ]}.
Definition sample_world : world (AgentInput → outcome) unit :=
  mkWorld sample_registry NewCircuitBreaker tt (NewRecorder "" 0).
Definition sample_run := RunPlan_seq sample_env sample_cfg sample_plan sample_world 100.
Definition sample_graph : planGraph :=
  match buildGraph sample_plan with Ok g => g | Err _ => mkPlanGraph [] ∅ [] end.

Example sample_run_results :
  (λ r, (result_id r, Error <$> res_Err r)) <$> sample_run.1.1 =
  [("a", None); ("b", Some "agent error: agent panicked: bad"); ("c", None);
   ("d", Some "dependency failed: b: agent error: agent panicked: bad")].
Proof. vm_compute. reflexivity. Qed.

Lemma sample_runs :
  ∃ start endt, RunPlan sample_cfg sample_plan start endt sample_world sample_run.1.1 sample_run.1.2 sample_run.2.1.
Proof. apply RunPlan_seq_runs. vm_compute. discriminate. Qed.

Lemma sample_graph_ok : buildGraph sample_plan = Ok sample_graph.
Proof. unfold sample_graph. destruct (buildGraph sample_plan) eqn:E; [done|vm_compute in E; discriminate E]. Qed.

(** A state of the first level in which the goroutine of [a] runs. *)
Definition busy_state : level_state (AgentInput → outcome) unit :=
  let node := graph_node sample_graph "a" in
  mkLevel [] [mkThread node [] (Running (executeNode sample_cfg node))] [] sample_world.

Lemma level_pool_bound_witness :
  active (l_threads busy_state) = 1 ∧ active (l_threads busy_state) ≤ WorkerPoolSize sample_cfg.
Proof.
  split; [reflexivity|].
  apply (level_pool_bound sample_cfg sample_graph ∅ ["a"] sample_world busy_state); [vm_compute; discriminate|].
  eapply rtc_l; [apply ls_spawn; vm_compute; reflexivity|].
  eapply rtc_l; [apply (ls_acquire _ _ _ _ _ []); vm_compute; reflexivity|apply rtc_refl].
Defined.

Lemma level_completes_always_witness :
  ∃ st', rtc (level_step sample_cfg sample_graph ∅ 1) (mkLevel ["a"] [] [] sample_world) st' ∧ level_final st'.
Proof.
  destruct (level_completes_always sample_cfg sample_graph ∅ ["a"] sample_world) as [_ H]; [vm_compute; discriminate|].
  exact (proj2 (H _ (rtc_refl _ _))).
Defined.

Lemma RunPlan_correct_witness :
  ∃ res : string → AgentResult,
    sample_run.1.1 = sort_results ((λ n, res (node_id n)) <$> plan_Nodes sample_plan).
Proof.
  destruct sample_runs as (start & endt & Hrun).
  destruct (RunPlan_correct sample_cfg sample_plan sample_graph start endt sample_world _ _ _
    ltac:(vm_compute; reflexivity) sample_graph_ok Hrun) as (res & lg & _ & Hres & _).
  exists res. exact Hres.
Defined.

Lemma RunPlan_one_result_each_witness :
  result_id <$> sample_run.1.1 = sort_strings (node_id <$> plan_Nodes sample_plan).
Proof.
  destruct sample_runs as (start & endt & Hrun).
  destruct (RunPlan_one_result_each sample_cfg sample_plan sample_graph start endt sample_world _ _ _
    ltac:(vm_compute; reflexivity) sample_graph_ok Hrun) as (_ & Hids & _).
  exact Hids.
Defined.

(** [d] depends on [b], which panicked. *)
Lemma RunPlan_failure_propagates_witness :
  ∃ d e, d ∈ ["b"; "c"] ∧ skipped_result (sample_node "d" ["b"; "c"]) (dependency_failed d e) ∈ sample_run.1.1.
Proof.
  destruct sample_runs as (start & endt & Hrun).
  destruct (RunPlan_failure_propagates sample_cfg sample_plan sample_graph start endt sample_world _ _ _
    (nth 1 sample_run.1.1 AgentResult_zero) (sample_node "d" ["b"; "c"])
    ltac:(vm_compute; reflexivity) sample_graph_ok Hrun) as (d & e & Hd & Hres & _).
  - vm_compute. repeat constructor.
  - vm_compute. by eexists.
  - repeat constructor.
  - apply tc_once. vm_compute. repeat constructor.
  - exists d, e. split; [exact Hd|exact Hres].
Defined.
