(* ===== verification/Access.v ===== *)
(** * Access control and namespaces: internal/security/rbac.go, internal/tenant/namespace.go

    Roles, actions and policies, the parsing of role names, and the normal form of namespaces.
    [currentRole] and [authorize] of internal/app/run.go are here too, with the environment
    variable they read as an argument. *)

From S2P Require Import Prelude GoErrors GoStrings Utf8.

(** ** rbac.go *)
Definition Action : Type := string.
Definition ActionRun : Action := "run_manifest".
Definition ActionValidate : Action := "validate_manifest".
Definition ActionReplay : Action := "replay_trace".
Definition ActionAdmin : Action := "admin".

Definition Role : Type := string.
Definition RoleViewer : Role := "viewer".
Definition RoleOperator : Role := "operator".
Definition RoleAdmin : Role := "admin".

(** [Policy.allowed]: the set of roles of every action. *)
Definition Policy : Type := gmap string (gset string).

Definition NewPolicy (allowed : gmap string (list string)) : gmap string (gset string) :=
  list_to_set <$> allowed.

Definition DefaultPolicy : gmap string (gset string) :=
  NewPolicy {[ ActionRun := [RoleOperator; RoleAdmin];
               ActionValidate := [RoleViewer; RoleOperator; RoleAdmin];
               ActionReplay := [RoleOperator; RoleAdmin];
               ActionAdmin := [RoleAdmin] ]}.

Definition IsAllowed (p : gmap string (gset string)) (role : Role) (action : Action) : bool :=
  match p !! action with
  | None => false
  | Some set => bool_decide (role ∈ set)
  end.

Definition ParseRole (raw : string) : result error Role :=
  let s := ToLower (TrimSpace raw) in
  if decide (s = RoleViewer ∨ s = RoleOperator ∨ s = RoleAdmin) then Ok s
  else Err (Errorf ("unknown role: " +:+ Quote raw)).

#[global] Arguments ParseRole : simpl never.

Fixpoint ParseRoles (raw : list string) : result error (list Role) :=
  match raw with
  | [] => Ok []
  | r :: rest =>
      role ← ParseRole r;
      roles ← ParseRoles rest;
      Ok (role :: roles)
  end.

(** ** namespace.go *)

(** The pattern [^[a-z][a-z0-9_-]{1,31}$]. *)
Definition ns_first (c : Z) : bool := (97 <=? c) && (c <=? 122).
Definition ns_other (c : Z) : bool :=
  ((97 <=? c) && (c <=? 122)) || ((48 <=? c) && (c <=? 57)) || (c =? 95) || (c =? 45).
Definition namespacePattern (s : string) : bool :=
  match bytes s with
  | [] => false
  | c :: rest => ns_first c && forallb ns_other rest && (1 <=? length rest)%nat && (length rest <=? 31)%nat
  end.

Definition Normalize (raw : string) : string :=
  let s := TrimSpace (ToLower raw) in
  if decide (s = "") then "default" else s.

(** [tenant.Validate]: nil, or the error. *)
Definition tenant_Validate (ns : string) : option error :=
  let ns := Normalize ns in
  if namespacePattern ns then None else Some (Errorf ("invalid namespace " +:+ Quote ns)).

(** ** currentRole and authorize of internal/app/run.go, given REQUEST_ROLE *)
Definition currentRole (request_role : string) : Role :=
  match ParseRole request_role with Ok r => r | Err _ => RoleOperator end.

Definition authorize (request_role : string) (policy : gmap string (gset string)) (action : Action) :
    option error :=
  let role := currentRole request_role in
  if IsAllowed policy role action then None
  else Some (Errorf ("rbac denied: role " +:+ Quote role +:+ " cannot perform " +:+ Quote action)).

(** ** Plain ASCII text is left alone *)
Lemma decode_ascii bs : Forall (λ b, b < 128) bs → decode bs = (λ b, (b, [b])) <$> bs.
Proof.
  induction 1 as [|b bs Hb _ IH]; [done|]. rewrite fmap_cons, <- IH. cbn [decode].
  by rewrite (proj2 (Z.ltb_lt b 128) Hb).
Qed.

Lemma concat_singletons {A} (l : list A) : concat ((λ x, [x]) <$> l) = l.
Proof. induction l as [|x l IH]; [done|]. rewrite fmap_cons. cbn [concat]. by rewrite IH. Qed.

(** A byte of a namespace or of a role name. *)
Definition plain (b : Z) : Prop := 33 ≤ b < 128 ∧ ¬ (65 ≤ b ≤ 90).

Lemma plain_lower b : plain b → encode_rune (rune_ToLower b) = [b].
Proof.
  intros [Hb Hu]. unfold rune_ToLower. rewrite (proj2 (Z.ltb_lt b 128)) by lia.
  destruct ((65 <=? b) && (b <=? 90)) eqn:E; [apply andb_true_iff in E as [?%Z.leb_le ?%Z.leb_le]; lia|].
  unfold encode_rune. by rewrite (proj2 (Z.leb_le 0 b)), (proj2 (Z.ltb_lt b 128)) by lia.
Qed.

Lemma plain_not_space b : plain b → rune_IsSpace b = false.
Proof.
  intros [Hb _]. unfold rune_IsSpace. apply not_true_iff_false.
  rewrite !orb_true_iff, !andb_true_iff, !Z.leb_le, !Z.eqb_eq. lia.
Qed.

Lemma drop_while_none {A} (f : A → bool) l : Forall (λ x, f x = false) l → drop_while f l = l.
Proof. destruct 1 as [|x l Hx _]; [done|]. simpl. by rewrite Hx. Qed.

Lemma ToLower_plain s : Forall plain (bytes s) → ToLower s = s.
Proof.
  intros H. unfold ToLower. rewrite decode_ascii by (eapply Forall_impl; [exact H|]; intros b [? _]; lia).
  rewrite <- list_fmap_compose. rewrite <- (string_of_bytes_bytes s) at 2. f_equal.
  rewrite <- (concat_singletons (bytes s)) at 2. f_equal. apply list_fmap_ext.
  intros i b Hb%list_elem_of_lookup_2. rewrite Forall_forall in H. by apply plain_lower, H.
Qed.

Lemma TrimSpace_plain s : Forall plain (bytes s) → TrimSpace s = s.
Proof.
  intros H. unfold TrimSpace. rewrite decode_ascii by (eapply Forall_impl; [exact H|]; intros b [? _]; lia).
  assert (∀ l, Forall plain l → Forall (λ x : Z * list Z, rune_IsSpace x.1 = false) ((λ b, (b, [b])) <$> l)) as Hns.
  { intros l Hl. apply Forall_fmap. eapply Forall_impl; [exact Hl|]. intros b. apply plain_not_space. }
  unfold trim. rewrite (drop_while_none _ ((λ b, (b, [b])) <$> bytes s)) by auto.
  rewrite drop_while_none by (apply Forall_reverse; auto). rewrite reverse_involutive, <- list_fmap_compose.
  rewrite <- (string_of_bytes_bytes s) at 2. f_equal. apply concat_singletons.
Qed.

Lemma ns_other_plain b : ns_other b = true → plain b.
Proof. unfold ns_other, plain. rewrite !orb_true_iff, !andb_true_iff, !Z.leb_le, !Z.eqb_eq. lia. Qed.

Lemma namespacePattern_plain s :
  namespacePattern s = true → Forall plain (bytes s) ∧ (2 ≤ length (bytes s) ≤ 32)%nat.
Proof.
  unfold namespacePattern. destruct (bytes s) as [|c rest]; [done|].
  rewrite !andb_true_iff, !Nat.leb_le, forallb_forall. intros (((Hc & Hr) & H1) & H2). split; [|simpl; lia].
  constructor; [apply ns_other_plain; unfold ns_first in Hc; unfold ns_other; by rewrite Hc|].
  apply Forall_forall. intros b Hb. by apply ns_other_plain, Hr, list_elem_of_In.
Qed.

Lemma Normalize_pattern s : namespacePattern s = true → Normalize s = s.
Proof.
  intros [Hp Hl]%namespacePattern_plain. unfold Normalize. rewrite ToLower_plain, TrimSpace_plain by done.
  rewrite decide_False; [done|]. intros ->. simpl in Hl. lia.
Qed.

Lemma ParseRole_Ok raw r :
  ParseRole raw = Ok r → r = ToLower (TrimSpace raw) ∧ r ∈ [RoleViewer; RoleOperator; RoleAdmin].
Proof. unfold ParseRole. case_decide as H; [|done]. intros [= <-]. split; [done|]. set_solver. Qed.

Lemma role_plain r : r ∈ [RoleViewer; RoleOperator; RoleAdmin] → Forall plain (bytes r).
Proof.
  rewrite !elem_of_cons, elem_of_nil.
  intros [->|[->|[->|[]]]]; vm_compute; repeat constructor; try discriminate; intros [H1 H2];
    (by apply H1) || (by apply H2).
Qed.

Lemma ParseRole_canonical r : r ∈ [RoleViewer; RoleOperator; RoleAdmin] → ParseRole r = Ok r.
Proof.
  intros Hr. unfold ParseRole. rewrite TrimSpace_plain, ToLower_plain by (by apply role_plain).
  rewrite decide_True; [done|set_solver].
Qed.

Lemma IsAllowed_NewPolicy allowed role action :
  IsAllowed (NewPolicy allowed) role action = true ↔ ∃ roles, allowed !! action = Some roles ∧ role ∈ roles.
Proof.
  unfold IsAllowed, NewPolicy. rewrite lookup_fmap. destruct (allowed !! action) as [roles|]; simpl.
  - rewrite bool_decide_eq_true, elem_of_list_to_set. naive_solver.
  - naive_solver.
Qed.

(** The roles [DefaultPolicy] lists, by action. *)
Definition default_roles (a : Action) : option (list Role) :=
  if decide (a = ActionRun) then Some [RoleOperator; RoleAdmin]
  else if decide (a = ActionValidate) then Some [RoleViewer; RoleOperator; RoleAdmin]
  else if decide (a = ActionReplay) then Some [RoleOperator; RoleAdmin]
  else if decide (a = ActionAdmin) then Some [RoleAdmin] else None.

Lemma default_lookup a : DefaultPolicy !! a = list_to_set <$> default_roles a.
Proof.
  unfold DefaultPolicy, NewPolicy. rewrite lookup_fmap. f_equal. unfold default_roles.
  rewrite !lookup_insert, lookup_singleton. repeat case_decide; subst; naive_solver.
Qed.

(** ** Properties *)

(** The rank of a role: what it may do grows with it. *)
Definition rank (r : Role) : Z :=
  if decide (r = RoleAdmin) then 3 else if decide (r = RoleOperator) then 2
  else if decide (r = RoleViewer) then 1 else 0.

(** The least rank the default policy asks for. *)
Definition required (a : Action) : Z :=
  if decide (a = ActionAdmin) then 3 else if decide (a = ActionRun ∨ a = ActionReplay) then 2
  else if decide (a = ActionValidate) then 1 else 4.

Lemma rank_bounds r : 0 ≤ rank r ≤ 3.
Proof. unfold rank. repeat case_decide; lia. Qed.

Lemma unknown_action role action :
  action ∉ [ActionRun; ActionValidate; ActionReplay; ActionAdmin] →
  IsAllowed DefaultPolicy role action = (required action <=? rank role).
Proof.
  rewrite !not_elem_of_cons. intros (H1 & H2 & H3 & H4 & _).
  unfold IsAllowed. rewrite default_lookup. unfold default_roles, required.
  rewrite !decide_False by tauto. symmetry. apply Z.leb_gt. pose proof (rank_bounds role). lia.
Qed.

Lemma unknown_role role action :
  role ∉ [RoleViewer; RoleOperator; RoleAdmin] →
  IsAllowed DefaultPolicy role action = (required action <=? rank role).
Proof.
  intros Hr. assert (rank role = 0) as ->.
  { rewrite !not_elem_of_cons in Hr. unfold rank. rewrite !decide_False by tauto. done. }
  rewrite (proj2 (Z.leb_gt (required action) 0)) by (unfold required; repeat case_decide; lia).
  unfold IsAllowed. rewrite default_lookup.
  destruct (default_roles action) as [roles|] eqn:Ea; [|done]. simpl. apply bool_decide_eq_false.
  rewrite elem_of_list_to_set. intros Hin. apply Hr. unfold default_roles in Ea.
  repeat (destruct (decide _) in Ea); simplify_eq; set_solver.
Qed.

(** The default policy is the hierarchy viewer, operator, admin: a
    role is allowed an action exactly when its rank is at least the one the action requires; no
    role is allowed an unknown action, and an unknown role is allowed nothing. *)
Theorem DefaultPolicy_hierarchy (role : Role) (action : Action) :
  IsAllowed DefaultPolicy role action = (required action <=? rank role).
Proof.
  destruct (decide (action ∈ [ActionRun; ActionValidate; ActionReplay; ActionAdmin])) as [Ha|Ha];
    [|by apply unknown_action].
  destruct (decide (role ∈ [RoleViewer; RoleOperator; RoleAdmin])) as [Hr|Hr]; [|by apply unknown_role].
  rewrite !elem_of_cons, elem_of_nil in Ha. rewrite !elem_of_cons, elem_of_nil in Hr.
  destruct Hr as [->|[->|[->|[]]]]; destruct Ha as [->|[->|[->|[->|[]]]]]; vm_compute; reflexivity.
Qed.

(** A role that parses is one of the three role names, it parses to
    itself again, and a request role that does not parse acts as the operator role: it is
    allowed to run and replay but never to administer under the default policy. *)
Theorem ParseRole_normal_form (raw : string) :
  (∀ r, ParseRole raw = Ok r → r ∈ [RoleViewer; RoleOperator; RoleAdmin] ∧ ParseRole r = Ok r) ∧
  (∀ e, ParseRole raw = Err e →
     authorize raw DefaultPolicy ActionRun = None ∧ authorize raw DefaultPolicy ActionReplay = None ∧
     authorize raw DefaultPolicy ActionAdmin ≠ None).
Proof.
  split.
  - intros r [_ Hr]%ParseRole_Ok. split; [done|by apply ParseRole_canonical].
  - intros e He. unfold authorize, currentRole. rewrite He. vm_compute. by repeat split.
Qed.

(** A namespace that validates has a normal form of 2 to 32 characters
    that matches the pattern, and normalising that form again does not change it. *)
Theorem namespace_normal_form (ns : string) :
  tenant_Validate ns = None →
  let n := Normalize ns in
  namespacePattern n = true ∧ Normalize n = n ∧ tenant_Validate n = None ∧
  (2 ≤ length (bytes n) ≤ 32)%nat.
Proof.
  unfold tenant_Validate. destruct (namespacePattern (Normalize ns)) eqn:E; [|done]. intros _.
  rewrite (Normalize_pattern _ E), E. split; [done|]. split; [done|]. split; [done|].
  by apply namespacePattern_plain in E as [_ H].
Qed.

Lemma namespace_normal_form_witness :
  tenant_Validate " Team-A " = None ∧ Normalize " Team-A " = "team-a" ∧ Normalize "team-a" = "team-a".
Proof.
  split; [vm_compute; reflexivity|]. split; [vm_compute; reflexivity|].
  destruct (namespace_normal_form " Team-A ") as (_ & H & _); [vm_compute; reflexivity|]. exact H.
Defined.

Lemma ParseRole_normal_form_witness :
  ParseRole " ADMIN " = Ok RoleAdmin ∧ ParseRole RoleAdmin = Ok RoleAdmin.
Proof.
  split; [vm_compute; reflexivity|].
  apply (proj1 (ParseRole_normal_form " ADMIN ")). vm_compute. reflexivity.
Defined.
