(* ===== verification/ControlPlane.v ===== *)
(** * The control plane: internal/billing/service.go and internal/controlplane/service.go

    Tenants, usage, rates and bills, and the HTTP handlers on top of them.  The service's fields
    are behind one mutex, so every method is one step.  A request carries its method, headers and
    query as functions, and what JSON decoding of its body into the handler's struct gives; a
    response is a status and a body before JSON or CSV encoding.  The texts are in
    [ControlPlaneHttp], listening and TLS in [Server]. *)

From Stdlib Require Import SpecFloat.
From S2P Require Import Prelude GoErrors GoStrings GoTime Calendar Access.
#[local] Open Scope Z_scope.

(** ** Billing *)
Record RateCard := mkRateCard { USDPerThousand : spec_float }.

Record Invoice := mkInvoice {
  iv_TenantID : string;
  iv_Invocations : Z;
  iv_USDPerThousand : spec_float;
  iv_AmountUSD : spec_float
}.

Definition NewRateCard (usdPerThousand : spec_float) : result error RateCard :=
  if SFltb usdPerThousand (float64 0) then Err (Errorf "negative price is invalid")
  else Ok (mkRateCard usdPerThousand).

Definition rate_Invoice (r : RateCard) (tenantID : string) (invocations : Z) : Invoice :=
  let amount := fmul (fdiv (float64 invocations) (float64 1000)) (USDPerThousand r) in
  mkInvoice tenantID invocations (USDPerThousand r) amount.

(** ** The service *)
Record usageEvent := mkUsageEvent {
  ue_TenantID : string;
  ue_Invocations : Z;
  ue_OccurredAt : time
}.

(** [usageRow] and [billSummaryRow] have the same fields. *)
Record usageRow := mkUsageRow {
  ur_TenantID : string;
  ur_Invocations : Z
}.

Record Service := mkService {
  tenants : gset string;
  usage : gmap string Z;
  usageEvents : list usageEvent;
  rate : RateCard;
  started : time;
  reqs : Z
}.

Definition NewService (now : time) : Service :=
  mkService ∅ ∅ [] (mkRateCard (float64 1)) now 0.

Definition AddTenant (s : Service) (id : string) : Service * option error :=
  if decide (id = "") then (s, Some (Errorf "tenant id is empty"))
  else if decide (id ∈ tenants s) then (s, Some (Errorf ("tenant " +:+ Quote id +:+ " already exists")))
  else (mkService ({[id]} ∪ tenants s) (usage s) (usageEvents s) (rate s) (started s) (reqs s), None).

Definition ListTenants (s : Service) : list string := sort_strings (elements (tenants s)).

(** [s.usage[tenantID]]. *)
Definition Usage (s : Service) (tenantID : string) : Z := default 0 (usage s !! tenantID).

Definition AddUsageAt (s : Service) (tenantID : string) (invocations : Z) (at_ : time) :
    Service * option error :=
  if decide (tenantID = "") then (s, Some (Errorf "tenant id is empty"))
  else if invocations <=? 0 then (s, Some (Errorf "invocations must be > 0"))
  else if decide (tenantID ∈ tenants s) then
    (mkService (tenants s) (<[tenantID := wrap64 (Usage s tenantID + invocations)]> (usage s))
       (usageEvents s ++ [mkUsageEvent tenantID invocations at_]) (rate s) (started s) (reqs s), None)
  else (s, Some (Errorf ("tenant " +:+ Quote tenantID +:+ " not found"))).

(** [strings.Contains(strings.ToLower(id), strings.ToLower(query))], unless the query is empty. *)
Definition matches_query (query id : string) : bool :=
  bool_decide (query = "") || Contains (ToLower id) (ToLower query).

Definition sort_rows : list usageRow → list usageRow := sort_by String.le ur_TenantID.

Definition UsageRows (s : Service) (query : string) : list usageRow :=
  sort_rows ((λ kv, mkUsageRow kv.1 kv.2) <$> filter (λ kv, matches_query query kv.1 = true) (map_to_list (usage s))).

Definition SetRate (s : Service) (usdPerThousand : spec_float) : Service * option error :=
  match NewRateCard usdPerThousand with
  | Err e => (s, Some e)
  | Ok r => (mkService (tenants s) (usage s) (usageEvents s) r (started s) (reqs s), None)
  end.

Definition service_Invoice (s : Service) (tenantID : string) : Invoice :=
  rate_Invoice (rate s) tenantID (Usage s tenantID).

(** [parseMonthStart]: the month itself stands for its first instant. *)
Definition parseMonthStart (month : string) (now : time) : result error (Z * Z) :=
  if decide (month = "") then Ok (civil now)
  else match parse_month month with
       | None => Err (Errorf "invalid month format, expected YYYY-MM")
       | Some ym => Ok ym
       end.

(** The loop of [MonthlyUsageRows] that adds up the events of the month. *)
Definition add_event (monthStart monthEnd : time) (totals : gmap string Z) (ev : usageEvent) : gmap string Z :=
  if negb (Before (ue_OccurredAt ev) monthStart) && Before (ue_OccurredAt ev) monthEnd
  then <[ue_TenantID ev := wrap64 (default 0 (totals !! ue_TenantID ev) + ue_Invocations ev)]> totals
  else totals.

Definition MonthlyUsageRows (s : Service) (month : string) (now : time) :
    result error (list usageRow * string) :=
  ym ← parseMonthStart month now;
  let monthStart := month_start ym in
  let monthEnd := month_start (next_month ym) in
  let totals := foldl (add_event monthStart monthEnd) ∅ (usageEvents s) in
  Ok (sort_rows ((λ kv, mkUsageRow kv.1 kv.2) <$> map_to_list totals), format_month ym).

(** ** Pagination *)
Definition parsePagination (pageRaw sizeRaw : string) : Z * Z :=
  let page := match Atoi (TrimSpace pageRaw) with
              | Some p => if 0 <? p then p else 1
              | None => 1
              end in
  let pageSize := match Atoi (TrimSpace sizeRaw) with
                  | Some s => if 0 <? s then (if 200 <? s then 200 else s) else 50
                  | None => 50
                  end in
  (page, pageSize).

(** [paginateStrings] and [paginateUsageRows]; [None] is the panic of a slice expression whose
    lower bound is negative. *)
Definition paginate {A} (xs : list A) (page pageSize : Z) : option (list A) :=
  let n := Z.of_nat (length xs) in
  let start := wrap64 (wrap64 (page - 1) * pageSize) in
  if n <=? start then Some []
  else
    let end_ := wrap64 (start + pageSize) in
    let end_ := if n <? end_ then n else end_ in
    if (start <? 0) || (end_ <? start) then None
    else Some (take (Z.to_nat (end_ - start)) (drop (Z.to_nat start) xs)).
Definition paginateStrings : list string → Z → Z → option (list string) := paginate.
Definition paginateUsageRows : list usageRow → Z → Z → option (list usageRow) := paginate.

(** ** Requests and responses *)
Record request := mkRequest {
  r_Method : string;
  r_Header : string → string;
  r_Query : string → string;
  r_tenant_body : result error string;
  r_usage_body : result error (string * Z);
  r_rate_body : result error spec_float
}.

Inductive body : Type :=
| Empty
| Text (s : string)
| TenantsJSON (page_tenants : list string) (total page page_size : Z)
| UsageJSON (tenant_id : string) (invocations : Z)
| RowsJSON (items : list usageRow) (total page page_size : Z)
| RateJSON (usd_per_thousand : spec_float)
| InvoiceJSON (i : Invoice)
| InvoiceCSV (i : Invoice)
| SummaryJSON (month : string) (totals : list usageRow) (grand_total : Z)
| SlaJSON (uptime_seconds total_requests : Z).

Record response := mkResponse { rsp_Status : Z; rsp_Body : body }.

Definition StatusOK : Z := 200.
Definition StatusCreated : Z := 201.
Definition StatusAccepted : Z := 202.
Definition StatusBadRequest : Z := 400.
Definition StatusUnauthorized : Z := 401.
Definition StatusForbidden : Z := 403.
Definition StatusMethodNotAllowed : Z := 405.

Definition http_Error (code : Z) (msg : string) : option response := Some (mkResponse code (Text msg)).

(** ** Handlers

    A handler takes the service to its next state and its response; [None] is a panic, which
    the HTTP server turns into an aborted connection. *)
Section Handlers.
(** The trimmed CONTROLPLANE_API_KEY and the clock. *)
Context (apiKey : string) (now : time).

Definition requireAPIKey (r : request) : bool :=
  if decide (apiKey = "") then true
  else
    let provided := TrimSpace (r_Header r "X-API-Key") in
    let provided :=
      if decide (provided = "") then
        let authz := TrimSpace (r_Header r "Authorization") in
        if HasPrefix authz "Bearer " then TrimSpace (TrimPrefix authz "Bearer ") else provided
      else provided in
    bool_decide (provided = apiKey).

Definition requireAdmin (r : request) : bool :=
  let role := match ParseRole (r_Header r "X-Role") with Ok role => role | Err _ => RoleViewer end in
  IsAllowed DefaultPolicy role ActionAdmin.

(** [atomic.AddInt64(&s.reqs, 1)]. *)
Definition count_request (s : Service) : Service :=
  mkService (tenants s) (usage s) (usageEvents s) (rate s) (started s) (wrap64 (reqs s + 1)).

Definition unauthorized (s : Service) : Service * option response := (s, http_Error StatusUnauthorized "unauthorized").
Definition denied (s : Service) : Service * option response := (s, http_Error StatusForbidden "rbac denied").
Definition not_allowed (s : Service) : Service * option response :=
  (s, http_Error StatusMethodNotAllowed "method not allowed").

(** The answer after a state change: [code], or 400 with the error. *)
Definition answer (code : Z) (r : Service * option error) : Service * option response :=
  (r.1, match r.2 with
        | Some err => http_Error StatusBadRequest (Error err)
        | None => Some (mkResponse code Empty)
        end).

Definition bad_body (s : Service) (err : error) : Service * option response :=
  (s, http_Error StatusBadRequest (Error err)).

Definition tenants_handler (s : Service) (r : request) : Service * option response :=
  let s := count_request s in
  if negb (requireAPIKey r) then unauthorized s
  else if decide (r_Method r = "GET") then
    let q := TrimSpace (r_Query r "q") in
    let '(page, pageSize) := parsePagination (r_Query r "page") (r_Query r "page_size") in
    let filtered := filter (λ id, matches_query q id = true) (ListTenants s) in
    (s, page_tenants ← paginateStrings filtered page pageSize;
        Some (mkResponse StatusOK (TenantsJSON page_tenants (Z.of_nat (length filtered)) page pageSize)))
  else if decide (r_Method r = "POST") then
    if negb (requireAdmin r) then denied s
    else match r_tenant_body r with
         | Err err => bad_body s err
         | Ok id => answer StatusCreated (AddTenant s id)
         end
  else not_allowed s.

Definition usage_handler (s : Service) (r : request) : Service * option response :=
  let s := count_request s in
  if negb (requireAPIKey r) then unauthorized s
  else if decide (r_Method r = "GET") then
    let tenantID := TrimSpace (r_Query r "tenant_id") in
    if decide (tenantID = "") then
      let q := TrimSpace (r_Query r "q") in
      let '(page, pageSize) := parsePagination (r_Query r "page") (r_Query r "page_size") in
      let rows := UsageRows s q in
      (s, items ← paginateUsageRows rows page pageSize;
          Some (mkResponse StatusOK (RowsJSON items (Z.of_nat (length rows)) page pageSize)))
    else (s, Some (mkResponse StatusOK (UsageJSON tenantID (Usage s tenantID))))
  else if decide (r_Method r = "POST") then
    if negb (requireAdmin r) then denied s
    else match r_usage_body r with
         | Err err => bad_body s err
         | Ok (tenantID, invocations) => answer StatusAccepted (AddUsageAt s tenantID invocations now)
         end
  else not_allowed s.

Definition rates_handler (s : Service) (r : request) : Service * option response :=
  let s := count_request s in
  if negb (requireAPIKey r) then unauthorized s
  else if decide (r_Method r = "GET") then
    (s, Some (mkResponse StatusOK (RateJSON (USDPerThousand (rate s)))))
  else if decide (r_Method r = "POST") then
    if negb (requireAdmin r) then denied s
    else match r_rate_body r with
         | Err err => bad_body s err
         | Ok usd => answer StatusAccepted (SetRate s usd)
         end
  else not_allowed s.

(** [strings.EqualFold(s, "csv")]; the long s folds to s. *)
Definition is_csv (s : string) : bool :=
  match (decode (bytes s)).*1 with
  | [c; x; v] => ((c =? 99) || (c =? 67)) && ((x =? 115) || (x =? 83) || (x =? 383)) && ((v =? 118) || (v =? 86))
  | _ => false
  end.

Definition invoice_handler (s : Service) (r : request) : Service * option response :=
  let s := count_request s in
  if negb (requireAPIKey r) then unauthorized s
  else if decide (r_Method r = "GET") then
    let invoice := service_Invoice s (TrimSpace (r_Query r "tenant_id")) in
    (s, Some (mkResponse StatusOK
          (if is_csv (TrimSpace (r_Query r "format")) then InvoiceCSV invoice else InvoiceJSON invoice)))
  else not_allowed s.

Definition summary_handler (s : Service) (r : request) : Service * option response :=
  let s := count_request s in
  if negb (requireAPIKey r) then unauthorized s
  else if decide (r_Method r = "GET") then
    (s, match MonthlyUsageRows s (TrimSpace (r_Query r "month")) now with
        | Err err => http_Error StatusBadRequest (Error err)
        | Ok (rows, month) =>
            let grand := foldl (λ g row, wrap64 (g + ur_Invocations row)) 0 rows in
            Some (mkResponse StatusOK (SummaryJSON month rows grand))
        end)
  else not_allowed s.

(** [int64(time.Since(s.started).Seconds())]: a float64 of seconds, truncated. *)
Definition uptime_seconds (s : Service) : Z :=
  let d := Sub now (started s) in
  let f := SFadd 53 1024 (float64 (Z.quot d Second)) (fdiv (float64 (Z.rem d Second)) (float64 1000000000)) in
  match f with
  | S754_finite sign m e => let v := Z.shiftl (Zpos m) e in if sign then - v else v
  | _ => 0
  end.

Definition sla_handler (s : Service) (r : request) : Service * option response :=
  let s := count_request s in
  (s, Some (mkResponse StatusOK (SlaJSON (uptime_seconds s) (reqs s)))).

Definition text_handler (text : string) (s : Service) (r : request) : Service * option response :=
  (count_request s, Some (mkResponse StatusOK (Text text))).

(** [Handler]: every path is registered with and without the prefix /v1.  The path is the one
    the multiplexer looks up, after it has redirected paths that are not clean. *)
Definition routes : list (string * (Service → request → Service * option response)) :=
  [("/healthz", text_handler "ok"); ("/readyz", text_handler "ready"); ("/sla", sla_handler);
   ("/tenants", tenants_handler); ("/usage", usage_handler); ("/billing/rates", rates_handler);
   ("/billing/invoice", invoice_handler); ("/billing/summary", summary_handler)].

Definition Handler (path : string) (s : Service) (r : request) : Service * option response :=
  match List.find (λ e, bool_decide (path = e.1 ∨ path = "/v1" +:+ e.1)) routes with
  | Some (_, h) => h s r
  | None => (s, http_Error 404 "404 page not found")
  end.
End Handlers.

(** ** The invariant of the service *)

(** The invocations of a tenant among events. *)
Definition sum_events (tenant : string) (evs : list usageEvent) : Z :=
  foldr (λ ev acc, ue_Invocations ev + acc) 0 (filter (λ ev, ue_TenantID ev = tenant) evs).

Record service_ok (s : Service) : Prop := {
  so_tenants : "" ∉ tenants s;
  so_usage : dom (usage s) = list_to_set (ue_TenantID <$> usageEvents s);
  so_totals t : Usage s t = wrap64 (sum_events t (usageEvents s));
  so_events : Forall (λ ev, 0 < ue_Invocations ev ∧ ue_TenantID ev ∈ tenants s) (usageEvents s)
}.

Lemma sum_events_snoc t evs ev :
  sum_events t (evs ++ [ev]) = sum_events t evs + if decide (ue_TenantID ev = t) then ue_Invocations ev else 0.
Proof.
  unfold sum_events. rewrite filter_app. induction (filter _ evs) as [|x xs IH]; simpl.
  - rewrite filter_cons. case_decide; simpl; lia.
  - rewrite IH. lia.
Qed.

Lemma service_ok_new now : service_ok (NewService now).
Proof. split; simpl; [set_solver|set_solver|done|constructor]. Qed.

Lemma service_ok_count s : service_ok s → service_ok (count_request s).
Proof. intros []. by split. Qed.

Lemma AddTenant_ok s id : service_ok s → service_ok (AddTenant s id).1.
Proof.
  intros Hs. unfold AddTenant. case_decide; [done|]. case_decide; [done|]. destruct Hs as [H1 H2 H3 H4].
  split; simpl; [set_solver|done|done|]. eapply Forall_impl; [exact H4|]. set_solver.
Qed.

Lemma AddUsageAt_ok s t n at_ : service_ok s → service_ok (AddUsageAt s t n at_).1.
Proof.
  intros Hs. unfold AddUsageAt. case_decide; [done|]. destruct (Z.leb_spec n 0); [done|]. case_decide; [|done].
  destruct Hs as [Hs1 Hs2 Hs3 Hs4]. split; simpl.
  - done.
  - rewrite dom_insert_L, Hs2, fmap_app, list_to_set_app_L. simpl. set_solver.
  - intros t'. unfold Usage. simpl. rewrite lookup_insert, sum_events_snoc. simpl. case_decide as He.
    + subst t'. simpl. fold (Usage s t). rewrite Hs3. apply wrap64_add_l.
    + rewrite Z.add_0_r. apply Hs3.
  - apply Forall_app. split; [done|]. by repeat constructor.
Qed.

Lemma SetRate_ok s x : service_ok s → service_ok (SetRate s x).1.
Proof. intros Hs. unfold SetRate. destruct (NewRateCard x); [|done]. by destruct Hs; split. Qed.

(** What a handler may do to the service: nothing but count the request, or one of the three
    changes, and those only for an authenticated administrator. *)
Inductive change (apiKey : string) (now : time) (r : request) (s : Service) : Service → Prop :=
| ch_none : change apiKey now r s s
| ch_counted : change apiKey now r s (count_request s)
| ch_tenant id : requireAPIKey apiKey r = true → requireAdmin r = true → r_Method r = "POST" →
    change apiKey now r s (AddTenant (count_request s) id).1
| ch_usage t n : requireAPIKey apiKey r = true → requireAdmin r = true → r_Method r = "POST" →
    change apiKey now r s (AddUsageAt (count_request s) t n now).1
| ch_rate x : r_rate_body r = Ok x → requireAPIKey apiKey r = true → requireAdmin r = true → r_Method r = "POST" →
    change apiKey now r s (SetRate (count_request s) x).1.

#[local] Arguments requireAPIKey : simpl never.
#[local] Arguments requireAdmin : simpl never.

Lemma Handler_change apiKey now path s r : change apiKey now r s (Handler apiKey now path s r).1.
Proof.
  unfold Handler. destruct (List.find _ _) as [[p h]|] eqn:E; [|constructor].
  apply List.find_some in E as [E _]. unfold routes in E. cbn [In] in E.
  destruct E as [E|[E|[E|[E|[E|[E|[E|[E|[]]]]]]]]]; injection E as <- <-; try apply ch_counted.
  - unfold tenants_handler. destruct (requireAPIKey apiKey r) eqn:Ek; [|apply ch_counted]. cbn [negb].
    case_decide; [destruct (parsePagination _ _); apply ch_counted|]. case_decide; [|apply ch_counted].
    destruct (requireAdmin r) eqn:Ea; [|apply ch_counted]. cbn [negb].
    destruct (r_tenant_body r); [by apply ch_tenant|apply ch_counted].
  - unfold usage_handler. destruct (requireAPIKey apiKey r) eqn:Ek; [|apply ch_counted]. cbn [negb].
    case_decide; [case_decide; [destruct (parsePagination _ _)|]; apply ch_counted|]. case_decide; [|apply ch_counted].
    destruct (requireAdmin r) eqn:Ea; [|apply ch_counted]. cbn [negb].
    destruct (r_usage_body r) as [[t n]|]; [by apply ch_usage|apply ch_counted].
  - unfold rates_handler. destruct (requireAPIKey apiKey r) eqn:Ek; [|apply ch_counted]. cbn [negb].
    case_decide; [apply ch_counted|]. case_decide; [|apply ch_counted].
    destruct (requireAdmin r) eqn:Ea; [|apply ch_counted]. cbn [negb].
    destruct (r_rate_body r) eqn:Er; [by apply ch_rate|apply ch_counted].
  - unfold invoice_handler. destruct (requireAPIKey apiKey r); [|apply ch_counted]. cbn [negb]. case_decide; apply ch_counted.
  - unfold summary_handler. destruct (requireAPIKey apiKey r); [|apply ch_counted]. cbn [negb]. case_decide; apply ch_counted.
Qed.

Lemma change_ok apiKey now r s s' : change apiKey now r s s' → service_ok s → service_ok s'.
Proof.
  destruct 1; intros Hs; [done|by apply service_ok_count|apply AddTenant_ok|apply AddUsageAt_ok|apply SetRate_ok];
    by apply service_ok_count.
Qed.

(** ** Monthly totals *)
Definition in_month (ym : Z * Z) (ev : usageEvent) : Prop := civil (ue_OccurredAt ev) = ym.
#[global] Instance in_month_dec ym ev : Decision (in_month ym ev).
Proof. unfold in_month. apply _. Defined.

Lemma month_window ym ev : month_ok ym →
  negb (Before (ue_OccurredAt ev) (month_start ym)) && Before (ue_OccurredAt ev) (month_start (next_month ym))
  = bool_decide (in_month ym ev).
Proof.
  intros Hok. apply Bool.eq_true_iff_eq. unfold Before.
  rewrite andb_true_iff, negb_true_iff, Z.ltb_ge, Z.ltb_lt, bool_decide_eq_true. unfold in_month.
  rewrite (month_of_unique _ ym Hok). naive_solver.
Qed.

Lemma monthly_totals ym evs : month_ok ym →
  let totals := foldl (add_event (month_start ym) (month_start (next_month ym))) ∅ evs in
  ∀ t, totals !! t =
    if decide (t ∈ ue_TenantID <$> filter (in_month ym) evs)
    then Some (wrap64 (sum_events t (filter (in_month ym) evs))) else None.
Proof.
  intros Hok. induction evs as [|ev evs IH] using rev_ind; intros totals t; [done|].
  subst totals. rewrite foldl_app. cbn [foldl]. set (m := foldl _ ∅ evs) in *.
  unfold add_event. rewrite month_window, filter_app by done.
  destruct (decide (in_month ym ev)) as [Hin|Hout].
  - rewrite bool_decide_true, filter_cons_True by done. rewrite lookup_insert, fmap_app. cbn [filter list_filter fmap list_fmap].
    case_decide as He.
    + subst t. rewrite decide_True by set_solver. f_equal.
      rewrite sum_events_snoc, decide_True by done. rewrite (IH (ue_TenantID ev)). case_decide as Hex; simpl.
      * apply wrap64_add_l.
      * assert (sum_events (ue_TenantID ev) (filter (in_month ym) evs) = 0) as ->; [|done].
        unfold sum_events. rewrite filter_none; [done|]. apply Forall_forall. intros x Hx He.
        apply Hex. rewrite <- He. by apply list_elem_of_fmap_2.
    + rewrite IH, sum_events_snoc, (decide_False (P := ue_TenantID ev = t)), Z.add_0_r by done.
      apply decide_ext. set_solver.
  - rewrite bool_decide_false, filter_cons_False by done. by rewrite app_nil_r, IH.
Qed.

(** Rows built from a map: one per key, sorted. *)
Lemma rows_of_map (m : gmap string Z) :
  let rows := sort_rows ((λ kv, mkUsageRow kv.1 kv.2) <$> map_to_list m) in
  StronglySorted String.le (ur_TenantID <$> rows) ∧ NoDup (ur_TenantID <$> rows) ∧
  ∀ t n, mkUsageRow t n ∈ rows ↔ m !! t = Some n.
Proof.
  intros rows.
  assert (rows ≡ₚ (λ kv, mkUsageRow kv.1 kv.2) <$> map_to_list m) as Hp by apply sort_by_perm.
  split; [|split].
  - eapply StronglySorted_fmap; [|apply (sort_by_sorted String.le)]. done.
  - rewrite Hp, <- list_fmap_compose. apply (NoDup_fst_map_to_list m).
  - intros t n. rewrite Hp, list_elem_of_fmap. split.
    + intros ([k v] & [= -> ->] & Hin). by apply elem_of_map_to_list in Hin.
    + intros Hm. exists (t, n). split; [done|]. by apply elem_of_map_to_list.
Qed.

(** ** Pages *)
Lemma paginate_in_range {A} (xs : list A) page size :
  1 ≤ page → 1 ≤ size → page * size ≤ max_int64 → Z.of_nat (length xs) ≤ max_int64 →
  paginate xs page size = Some (take (Z.to_nat size) (drop (Z.to_nat ((page - 1) * size)) xs)).
Proof.
  intros Hp Hs Hr Hlen. unfold paginate. assert (0 ≤ (page - 1) * size ≤ page * size) as Hst by nia.
  assert (page ≤ page * size) as Hpp by nia.
  rewrite (wrap64_id (page - 1)) by (unfold int64_range, min_int64 in *; lia).
  rewrite (wrap64_id ((page - 1) * size)) by (unfold int64_range, min_int64 in *; lia).
  destruct (Z.leb_spec (Z.of_nat (length xs)) ((page - 1) * size)).
  { rewrite drop_ge by lia. by rewrite take_nil. }
  rewrite wrap64_id by (unfold int64_range, min_int64 in *; nia).
  destruct (Z.ltb_spec (Z.of_nat (length xs)) ((page - 1) * size + size)) as [Hl|Hl].
  - replace ((_ <? 0) || _) with false by (symmetry; apply orb_false_iff; rewrite !Z.ltb_ge; lia).
    f_equal. rewrite !take_ge; [done|rewrite length_drop; lia..].
  - replace ((_ <? 0) || _) with false by (symmetry; apply orb_false_iff; rewrite !Z.ltb_ge; lia).
    do 2 f_equal. lia.
Qed.

Lemma pages_concat {A} (xs : list A) size : ∀ k,
  (length xs ≤ k * size)%nat →
  concat ((λ i, take size (drop (i * size) xs)) <$> seq 0 k) = xs.
Proof.
  intros k Hk. assert (∀ k, concat ((λ i, take size (drop (i * size) xs)) <$> seq 0 k) = take (k * size) xs) as H.
  { clear k Hk. induction k as [|k IH]; [done|].
    rewrite seq_S, fmap_app, concat_app, IH. simpl. rewrite app_nil_r, (Nat.add_comm size).
    apply take_take_drop. }
  rewrite H. by apply take_ge.
Qed.

(** The pages of a listing: page i is the i-th slice. *)
Definition pages {A} (xs : list A) (size k : nat) : list (list A) :=
  (λ i, take size (drop (i * size) xs)) <$> seq 0 k.

Lemma paginate_page {A} (xs : list A) (size k i : nat) :
  (1 ≤ size)%nat → Z.of_nat (k * size) ≤ max_int64 → (length xs ≤ k * size)%nat → (i < k)%nat →
  paginate xs (Z.of_nat (S i)) (Z.of_nat size) = pages xs size k !! i.
Proof.
  intros Hs Hk Hl Hi. assert (S i * size ≤ k * size)%nat by (apply Nat.mul_le_mono_r; lia).
  rewrite paginate_in_range by lia. unfold pages. rewrite list_lookup_fmap, lookup_seq_lt by lia. cbn [fmap option_fmap option_map].
  do 2 f_equal; [lia|f_equal; lia].
Qed.

Lemma length_pages {A} (xs : list A) size k : length (pages xs size k) = k.
Proof. unfold pages. by rewrite length_fmap, length_seq. Qed.

Lemma pages_lookup {A} (xs : list A) size k i p :
  pages xs size k !! i = Some p → (i < k)%nat ∧ (length p ≤ size)%nat.
Proof.
  intros Hp. split; [rewrite <- (length_pages xs size k); by eapply lookup_lt_Some|].
  unfold pages in Hp. apply list_lookup_fmap_Some in Hp as (j & -> & _). rewrite length_take. lia.
Qed.

(** The start index of the last page number wraps around. *)
Lemma paginate_last_page {A} (xs : list A) : paginate xs max_int64 50 = None.
Proof.
  unfold paginate. change (wrap64 (wrap64 (max_int64 - 1) * 50)) with (-100).
  destruct (Z.leb_spec (Z.of_nat (length xs)) (-100)); [lia|done].
Qed.

(** An authenticated GET for a page of a listing. *)
Record page_request (apiKey : string) (r : request) (query : string) (page size : Z) : Prop := {
  pr_get : r_Method r = "GET";
  pr_key : requireAPIKey apiKey r = true;
  pr_query : TrimSpace (r_Query r "q") = query;
  pr_tenant : TrimSpace (r_Query r "tenant_id") = "";
  pr_page : parsePagination (r_Query r "page") (r_Query r "page_size") = (page, size)
}.

Lemma Handler_tenants apiKey now s r query page size : page_request apiKey r query page size →
  (Handler apiKey now "/tenants" s r).2 =
    let filtered := filter (λ id, matches_query query id = true) (ListTenants s) in
    p ← paginate filtered page size;
    Some (mkResponse StatusOK (TenantsJSON p (Z.of_nat (length filtered)) page size)).
Proof.
  intros [Hg Hk Hq Ht Hp]. change (Handler apiKey now "/tenants" s r) with (tenants_handler apiKey s r).
  unfold tenants_handler. rewrite Hk, Hp, Hq, Hg. done.
Qed.

Lemma Handler_usage apiKey now s r query page size : page_request apiKey r query page size →
  (Handler apiKey now "/usage" s r).2 =
    let rows := UsageRows s query in
    p ← paginate rows page size;
    Some (mkResponse StatusOK (RowsJSON p (Z.of_nat (length rows)) page size)).
Proof.
  intros [Hg Hk Hq Ht Hp]. change (Handler apiKey now "/usage" s r) with (usage_handler apiKey now s r).
  unfold usage_handler. rewrite Hk, Hp, Hq, Ht, Hg. done.
Qed.

(** ** Properties *)

(** A sequence of requests, each with its path and the clock when it is handled. *)
Definition serve (apiKey : string) (s : Service) (rs : list (string * time * request)) : Service :=
  foldl (λ s x, (Handler apiKey x.1.2 x.1.1 s x.2).1) s rs.

Lemma serve_ok apiKey rs : ∀ s, service_ok s → service_ok (serve apiKey s rs).
Proof.
  induction rs as [|[[path now] r] rs IH]; intros s Hs; [done|]. apply IH.
  eapply change_ok; [apply Handler_change|done].
Qed.

(** C15: after any sequence of requests to a new service, a tenant's usage is
    the sum (as an int64) of the invocations of its usage events, exactly the tenants with events
    have a usage entry, every event is positive and belongs to a known tenant, and no tenant has
    the empty identifier. *)
Theorem controlplane_accounts apiKey now rs :
  let s := serve apiKey (NewService now) rs in
  (∀ t, Usage s t = wrap64 (sum_events t (usageEvents s))) ∧
  dom (usage s) = list_to_set (ue_TenantID <$> usageEvents s) ∧
  Forall (λ ev, 0 < ue_Invocations ev ∧ ue_TenantID ev ∈ tenants s) (usageEvents s) ∧
  "" ∉ tenants s.
Proof. destruct (serve_ok apiKey rs _ (service_ok_new now)) as [H1 H2 H3 H4]. done. Qed.

(** A request carries the key: in X-API-Key, or, when that is blank, as a bearer token. *)
Definition carries_key (apiKey : string) (r : request) : Prop :=
  TrimSpace (r_Header r "X-API-Key") = apiKey ∨
  (TrimSpace (r_Header r "X-API-Key") = "" ∧
   ∃ token, TrimSpace (r_Header r "Authorization") = "Bearer " +:+ token ∧ TrimSpace token = apiKey).

Lemma requireAPIKey_iff apiKey r : requireAPIKey apiKey r = true ↔ apiKey = "" ∨ carries_key apiKey r.
Proof.
  unfold requireAPIKey, carries_key. destruct (decide (apiKey = "")) as [->|Hk]; [naive_solver|]. cbv zeta.
  rewrite bool_decide_eq_true. destruct (decide (TrimSpace (r_Header r "X-API-Key") = "")) as [E|E]; [|naive_solver].
  rewrite E. destruct (HasPrefix _ "Bearer ") eqn:Ep.
  - apply HasPrefix_TrimPrefix in Ep. split.
    + intros H. right. right. split; [done|]. eauto.
    + intros [?|[?|[_ (token & Ht & <-)]]]; [done|congruence|]. rewrite Ep in Ht. by simplify_eq/=.
  - split; [congruence|]. intros [?|[?|[_ (token & Ht & _)]]]; [done|done|]. rewrite Ht in Ep. by rewrite HasPrefix_app in Ep.
Qed.

Lemma requireAdmin_iff r : requireAdmin r = true ↔ ParseRole (r_Header r "X-Role") = Ok RoleAdmin.
Proof.
  unfold requireAdmin. split; [|by intros ->].
  destruct (ParseRole (r_Header r "X-Role")) as [role|] eqn:E; [|intros H; vm_compute in H; done].
  apply ParseRole_Ok in E as [_ E]. rewrite !elem_of_cons, elem_of_nil in E.
  intros H. destruct E as [->|[->|[->|[]]]]; try done; vm_compute in H; done.
Qed.

(** The paths that need the key, and those of them whose POST needs an administrator. *)
Definition admin_paths : list string := ["/tenants"; "/usage"; "/billing/rates"].
Definition protected_paths : list string := admin_paths ++ ["/billing/invoice"; "/billing/summary"].

(** Replaces the multiplexer by the handler of a concrete path. *)
#[local] Ltac routed :=
  lazymatch goal with
  | |- Handler ?k ?now ?p ?s ?r = _ =>
      first [change (Handler k now p s r) with (tenants_handler k s r)|change (Handler k now p s r) with (usage_handler k now s r)
            |change (Handler k now p s r) with (rates_handler k s r)|change (Handler k now p s r) with (invoice_handler k s r)
            |change (Handler k now p s r) with (summary_handler k now s r)]
  end.

Lemma Handler_unauthorized apiKey now path s r v1 : path ∈ protected_paths → v1 ∈ [""; "/v1"] → requireAPIKey apiKey r = false →
  Handler apiKey now (v1 +:+ path) s r = (count_request s, http_Error StatusUnauthorized "unauthorized").
Proof.
  intros Hp Hv Hk. unfold protected_paths, admin_paths in Hp. cbn [app] in Hp. rewrite !elem_of_cons in Hp. rewrite !elem_of_cons in Hv.
  destruct Hp as [->|[->|[->|[->|[->|[]%elem_of_nil]]]]], Hv as [->|[->|[]%elem_of_nil]]; routed;
    unfold tenants_handler, usage_handler, rates_handler, invoice_handler, summary_handler; by rewrite Hk.
Qed.

Lemma Handler_denied apiKey now path s r v1 : path ∈ admin_paths → v1 ∈ [""; "/v1"] → requireAPIKey apiKey r = true →
  r_Method r = "POST" → requireAdmin r = false →
  Handler apiKey now (v1 +:+ path) s r = (count_request s, http_Error StatusForbidden "rbac denied").
Proof.
  intros Hp Hv Hk Hm Ha. unfold admin_paths in Hp. rewrite !elem_of_cons in Hp. rewrite !elem_of_cons in Hv.
  destruct Hp as [->|[->|[->|[]%elem_of_nil]]], Hv as [->|[->|[]%elem_of_nil]]; routed;
    unfold tenants_handler, usage_handler, rates_handler; by rewrite Hk, Hm, Ha.
Qed.

(** C16: a request changes tenants, usage, events or the rate only if it
    is a POST that carries the API key (when one is configured), in X-API-Key or, when that is
    blank, as a bearer token, and an administrator's role; without the key every path that needs
    it answers 401, and a POST with it but without that role 403, and neither changes anything but
    the count of requests. *)
Theorem controlplane_authorization apiKey now path s r v1 :
  v1 ∈ [""; "/v1"] →
  let '(s', response) := Handler apiKey now (v1 +:+ path) s r in
  ((tenants s', usage s', usageEvents s', rate s') ≠ (tenants s, usage s, usageEvents s, rate s) →
   r_Method r = "POST" ∧ (apiKey = "" ∨ carries_key apiKey r) ∧ ParseRole (r_Header r "X-Role") = Ok RoleAdmin) ∧
  (path ∈ protected_paths → apiKey ≠ "" → ¬ carries_key apiKey r →
   s' = count_request s ∧ response = Some (mkResponse 401 (Text "unauthorized"))) ∧
  (path ∈ admin_paths → apiKey = "" ∨ carries_key apiKey r → r_Method r = "POST" →
   ParseRole (r_Header r "X-Role") ≠ Ok RoleAdmin →
   s' = count_request s ∧ response = Some (mkResponse 403 (Text "rbac denied"))).
Proof.
  intros Hv. pose proof (Handler_change apiKey now (v1 +:+ path) s r) as Hc.
  pose proof (Handler_unauthorized apiKey now path s r v1) as Hu. pose proof (Handler_denied apiKey now path s r v1) as Hd.
  destruct (Handler apiKey now (v1 +:+ path) s r) as [s' response]. cbn [fst] in Hc. split; [|split].
  - rewrite <- requireAPIKey_iff, <- requireAdmin_iff. destruct Hc; auto; done.
  - intros Hp Hk Hn. destruct (requireAPIKey apiKey r) eqn:E; [apply requireAPIKey_iff in E as [?|?]; done|].
    by injection (Hu Hp Hv eq_refl) as -> ->.
  - intros Hp Hk Hm Hr. apply requireAPIKey_iff in Hk. destruct (requireAdmin r) eqn:E; [by apply requireAdmin_iff in E|].
    by injection (Hd Hp Hv Hk Hm eq_refl) as -> ->.
Qed.

(** C17: for an empty month, which means the UTC month of the clock, and for a month
    written YYYY-MM the summary is produced and names that month.  It has one row for every tenant
    with an event in the month and no other, sorted by tenant, with the sum (as an int64) of the
    tenant's invocations in that month; the month of an event is that of its UTC date.  For any
    other text the summary is an error. *)
Theorem monthly_rows_exact s month now :
  match (if decide (month = "") then Some (civil now) else parse_month month) with
  | Some ym => ∃ rows, MonthlyUsageRows s month now = Ok (rows, format_month ym) ∧
      StronglySorted String.le (ur_TenantID <$> rows) ∧ NoDup (ur_TenantID <$> rows) ∧
      ∀ t n, mkUsageRow t n ∈ rows ↔
        n = wrap64 (sum_events t (filter (λ ev, civil (ue_OccurredAt ev) = ym) (usageEvents s))) ∧
        ∃ ev, ev ∈ usageEvents s ∧ civil (ue_OccurredAt ev) = ym ∧ ue_TenantID ev = t
  | None => ∃ e, MonthlyUsageRows s month now = Err e
  end.
Proof.
  unfold MonthlyUsageRows.
  assert (parseMonthStart month now = match (if decide (month = "") then Some (civil now) else parse_month month) with
    | Some ym => Ok ym | None => Err (Errorf "invalid month format, expected YYYY-MM") end) as ->.
  { unfold parseMonthStart. by case_decide. }
  destruct (if decide (month = "") then _ else _) as [ym|] eqn:Ep; cbn; [|by eexists].
  eexists. split; [done|].
  assert (month_ok ym) as Hok.
  { case_decide; simplify_eq; [apply (civil_in_month now)|by eapply parse_month_ok]. }
  clear Ep.
  destruct (rows_of_map (foldl (add_event (month_start ym) (month_start (next_month ym))) ∅ (usageEvents s)))
    as (Hs & Hn & Hin). split; [done|]. split; [done|]. intros t n. rewrite Hin, monthly_totals by done.
  case_decide as Hex.
  - apply list_elem_of_fmap in Hex as (ev & -> & [Hm Hev]%list_elem_of_filter). split.
    + intros [= <-]. eauto.
    + by intros [-> _].
  - split; [done|]. intros [_ (ev & Hev & Hm & <-)]. destruct Hex. apply list_elem_of_fmap_2, list_elem_of_filter. done.
Qed.

(** C18: take k pages of a given size that stay within the machine's integers and
    have room for the whole listing.  The answers to the requests for pages 1 to k of the tenant
    or usage listing, put together, are exactly the filtered listing in its order; each answer
    carries the total and its page number, and none is longer than the page size. *)
Theorem listings_paginate apiKey now s query (size k : nat) (rq : nat → request) :
  (1 ≤ size)%nat → Z.of_nat (k * size) ≤ max_int64 →
  (∀ i, (i < k)%nat → page_request apiKey (rq i) query (Z.of_nat (S i)) (Z.of_nat size)) →
  let ids := filter (λ id, matches_query query id = true) (ListTenants s) in
  let rows := UsageRows s query in
  ((length ids ≤ k * size)%nat →
    ∃ ps, length ps = k ∧ concat ps = ids ∧
      ∀ i p, ps !! i = Some p → (length p ≤ size)%nat ∧
        (Handler apiKey now "/tenants" s (rq i)).2 =
          Some (mkResponse StatusOK (TenantsJSON p (Z.of_nat (length ids)) (Z.of_nat (S i)) (Z.of_nat size)))) ∧
  ((length rows ≤ k * size)%nat →
    ∃ ps, length ps = k ∧ concat ps = rows ∧
      ∀ i p, ps !! i = Some p → (length p ≤ size)%nat ∧
        (Handler apiKey now "/usage" s (rq i)).2 =
          Some (mkResponse StatusOK (RowsJSON p (Z.of_nat (length rows)) (Z.of_nat (S i)) (Z.of_nat size)))).
Proof.
  intros Hs Hk Hrq ids rows. split; intros Hl.
  - exists (pages ids size k). split; [by rewrite length_pages|]. split; [by apply pages_concat|].
    intros i p Hp. pose proof (pages_lookup _ _ _ _ _ Hp) as [Hi Hlen]. split; [done|].
    rewrite (Handler_tenants _ _ _ _ _ _ _ (Hrq i Hi)). fold ids. cbv zeta.
    rewrite (paginate_page _ _ k) by done. by rewrite Hp.
  - exists (pages rows size k). split; [by rewrite length_pages|]. split; [by apply pages_concat|].
    intros i p Hp. pose proof (pages_lookup _ _ _ _ _ Hp) as [Hi Hlen]. split; [done|].
    rewrite (Handler_usage _ _ _ _ _ _ _ (Hrq i Hi)). fold rows. cbv zeta.
    rewrite (paginate_page _ _ k) by done. by rewrite Hp.
Qed.

(** The page number is not bounded: at page 9223372036854775807 and the
    default page size the start index overflows to -100, and every tenant or usage listing
    panics. *)
Theorem pagination_panics apiKey now s r query :
  page_request apiKey r query max_int64 50 →
  (Handler apiKey now "/tenants" s r).2 = None ∧ (Handler apiKey now "/usage" s r).2 = None.
Proof.
  intros Hr. rewrite (Handler_tenants _ _ _ _ _ _ _ Hr), (Handler_usage _ _ _ _ _ _ _ Hr). cbv zeta.
  by rewrite !paginate_last_page.
Qed.

(** ** Witnesses *)
Definition ask (meth page : string) : request :=
  mkRequest meth (λ h, if decide (h = "X-Role") then "admin" else if decide (h = "Authorization") then "Bearer k" else "")
    (λ q, if decide (q = "page") then page else if decide (q = "page_size") then "2" else "")
    (Ok "acme") (Ok ("acme", 5)) (Ok (float64 2)).

Definition three_tenants : Service :=
  let s0 := NewService 0 in
  let s1 := (AddTenant s0 "b").1 in
  let s2 := (AddTenant s1 "a").1 in
  (AddTenant s2 "c").1.

Lemma controlplane_authorization_witness :
  let r := ask "POST" "" in
  r_Method r = "POST" ∧ ("k" = "" ∨ carries_key "k" r) ∧ ParseRole (r_Header r "X-Role") = Ok RoleAdmin.
Proof.
  pose proof (controlplane_authorization "k" 0 "/tenants" (NewService 0) (ask "POST" "") "/v1" ltac:(by right; left)) as H.
  destruct (Handler "k" 0 _ (NewService 0) (ask "POST" "")) as [s' response] eqn:E. apply (proj1 H). clear H.
  intros H. apply (f_equal (λ x, bool_decide ("acme" ∈ tenants x.1))) in E. cbn [fst] in E.
  injection H as H _ _ _. rewrite H in E. vm_compute in E. discriminate E.
Defined.

(** Three tenants, two pages of two. *)
Definition two_pages (i : nat) : request := ask "GET" (match i with O => "1" | _ => "2" end).

Lemma listings_paginate_witness :
  ListTenants three_tenants = ["a"; "b"; "c"] ∧
  ∃ ps, length ps = 2%nat ∧ concat ps = ["a"; "b"; "c"] ∧
    ∀ i p, ps !! i = Some p → (length p ≤ 2)%nat ∧
      (Handler "k" 0 "/tenants" three_tenants (two_pages i)).2 =
        Some (mkResponse StatusOK (TenantsJSON p 3 (Z.of_nat (S i)) 2)).
Proof.
  assert (∀ i, (i < 2)%nat → page_request "k" (two_pages i) "" (Z.of_nat (S i)) (Z.of_nat 2)) as Hrq.
  { intros [|[|i]] Hi; [split; vm_compute; reflexivity..|lia]. }
  split; [vm_compute; reflexivity|].
  assert (filter (λ id, matches_query "" id = true) (ListTenants three_tenants) = ["a"; "b"; "c"]) as E
    by (vm_compute; reflexivity).
  pose proof (listings_paginate "k" 0 three_tenants "" 2 2 two_pages (le_S _ _ (le_n 1)) ltac:(vm_compute; discriminate) Hrq) as [H _].
  cbv zeta in H. rewrite E in H. apply H. simpl. lia.
Defined.

Lemma pagination_panics_witness :
  let r := mkRequest "GET" (λ _, "") (λ q, if decide (q = "page") then "9223372036854775807" else "")
             (Err (Errorf "EOF")) (Err (Errorf "EOF")) (Err (Errorf "EOF")) in
  (Handler "" 0 "/tenants" three_tenants r).2 = None ∧ (Handler "" 0 "/usage" three_tenants r).2 = None.
Proof. intros r. apply (pagination_panics "" 0 three_tenants r ""). split; vm_compute; reflexivity. Defined.
