(* ===== verification/Manifest.v ===== *)
(** * Manifests and configuration: internal/config/manifest.go and config.go

    The records of a manifest, [ValidateManifest], [OrderedPipeline] and the conversions to the
    engine's configuration.  Reading the file and decoding YAML (a third-party package) are not
    modelled: a manifest is a value.  The environment is a function from names to values, with
    the empty string for an unset variable, as [os.Getenv] has it. *)

From S2P Require Import Prelude GoErrors GoStrings GoTime AgentFunc Access Kahn.

(** ** Data *)
Record RBAC := mkRBAC {
  RunRoles : list string;
  ValidateRoles : list string;
  ReplayRoles : list string;
  AdminRoles : list string
}.

Record RouterSettings := mkRouterSettings {
  rs_WorkerPoolSize : Z;
  rs_ChannelBuffer : Z;
  rs_DefaultTimeout : string;
  rs_Namespace : string;
  rs_RBAC : RBAC
}.

Record RetryConfig := mkRetryConfig {
  rtc_MaxAttempts : Z;
  rtc_Backoff : string
}.

Record CircuitBreakerConfig := mkCircuitBreakerConfig {
  cbc_FailureThreshold : Z;
  cbc_ResetTimeout : string;
  cbc_ProbeTimeout : string
}.

Record AgentBinding := mkAgentBinding {
  ab_ID : string;
  ab_Retry : RetryConfig;
  ab_CircuitBreaker : CircuitBreakerConfig
}.

Record PipelineStep := mkPipelineStep {
  ps_Step : string;
  ps_DependsOn : string
}.

Record Manifest := mkManifest {
  m_Router : RouterSettings;
  m_Agents : list AgentBinding;
  m_Pipeline : list PipelineStep
}.

Definition ErrManifestEmptyAgents : error := ErrorString (Some 10%N) "manifest: agents list is empty".
Definition ErrManifestEmptyPipeline : error := ErrorString (Some 11%N) "manifest: pipeline is empty".

(** ** OrderedPipeline *)

(** [stepIndex]: the last position of every step name. *)
Definition step_index (pipeline : list PipelineStep) : gmap string nat :=
  foldl (λ m ip, <[ps_Step ip.2 := ip.1]> m) ∅ (imap (λ i p, (i, p)) pipeline).

(** The loop that fills [inDegree] and [children]. *)
Definition count_edge (st : gmap string Z * gmap string (list string)) (p : PipelineStep) :
    gmap string Z * gmap string (list string) :=
  let '(inDegree, children) := st in
  let inDegree := match inDegree !! ps_Step p with
                  | None => <[ps_Step p := 0]> inDegree
                  | Some _ => inDegree
                  end in
  if decide (ps_DependsOn p = "") then (inDegree, children)
  else (<[ps_Step p := wrap64 (degree inDegree (ps_Step p) + 1)]> inDegree,
        <[ps_DependsOn p := children_of children (ps_DependsOn p) ++ [ps_Step p]]> children).

(** The loop over the queue: [None] when the fuel runs out. *)
Fixpoint order_loop (fuel : nat) (children : gmap string (list string)) (inDegree : gmap string Z)
    (queue orderedNames : list string) : option (list string) :=
  match queue with
  | [] => Some orderedNames
  | curr :: rest =>
      match fuel with
      | O => None
      | S fuel' =>
          let '(inDegree', queue') := relax children (inDegree, rest) curr in
          order_loop fuel' children inDegree' queue' (orderedNames ++ [curr])
      end
  end.

Definition cycle_detected : error := Errorf "manifest: cycle detected in pipeline".

(** A name enters the queue once at the start, and once when its degree reaches zero, so twice
    the number of steps is enough fuel. *)
Definition OrderedPipeline (m : Manifest) : result error (list PipelineStep) :=
  let pipeline := m_Pipeline m in
  let stepIndex := step_index pipeline in
  let '(inDegree, children) := foldl count_edge (∅, ∅) pipeline in
  let queue := filter (λ name, degree inDegree name = 0) (ps_Step <$> pipeline) in
  match order_loop (2 * length pipeline) children inDegree queue [] with
  | None => Err (Errorf "out of fuel")
  | Some orderedNames =>
      if decide (length orderedNames = length pipeline) then
        Ok ((λ name, default (mkPipelineStep "" "") (pipeline !! default 0%nat (stepIndex !! name)))
              <$> orderedNames)
      else Err cycle_detected
  end.

(** ** ValidateManifest *)
Fixpoint check_roles (roles : list string) : option error :=
  match roles with
  | [] => None
  | role :: rest =>
      match ParseRole role with
      | Err err => Some (Errorf_w ("manifest: invalid rbac role " +:+ Quote role +:+ ": " +:+ Error err) err)
      | Ok _ => check_roles rest
      end
  end.

(** The check of one optional duration field. *)
Definition check_duration (id field value : string) : option error :=
  if decide (value = "") then None
  else match ParseDuration value with
       | Ok _ => None
       | Err err =>
           Some (Errorf_w ("manifest: agent " +:+ Quote id +:+ " has invalid circuit_breaker." +:+ field +:+
                           ": " +:+ Error err) err)
       end.

Fixpoint check_agents (agents : list AgentBinding) (seen : gset string) : result error (gset string) :=
  match agents with
  | [] => Ok seen
  | a :: rest =>
      let cb := ab_CircuitBreaker a in
      if decide (ab_ID a = "") then Err (Errorf "manifest: agent id is empty")
      else if decide (ab_ID a ∈ seen) then Err (Errorf ("manifest: duplicate agent id " +:+ Quote (ab_ID a)))
      else if cbc_FailureThreshold cb <? 0 then
        Err (Errorf ("manifest: agent " +:+ Quote (ab_ID a) +:+ " has negative circuit_breaker.failure_threshold"))
      else match check_duration (ab_ID a) "reset_timeout" (cbc_ResetTimeout cb) with
      | Some e => Err e
      | None =>
          match check_duration (ab_ID a) "probe_timeout" (cbc_ProbeTimeout cb) with
          | Some e => Err e
          | None => check_agents rest ({[ab_ID a]} ∪ seen)
          end
      end
  end.

Fixpoint check_steps (agents : gset string) (pipeline : list PipelineStep) (seen : gset string) :
    result error (gset string) :=
  match pipeline with
  | [] => Ok seen
  | p :: rest =>
      if decide (ps_Step p = "") then Err (Errorf "manifest: pipeline step is empty")
      else if decide (ps_Step p ∈ seen) then Err (Errorf ("manifest: duplicate pipeline step " +:+ Quote (ps_Step p)))
      else if decide (ps_Step p ∈ agents) then check_steps agents rest ({[ps_Step p]} ∪ seen)
      else Err (Errorf ("manifest: pipeline step " +:+ Quote (ps_Step p) +:+ " has no matching agent"))
  end.

Fixpoint check_depends (steps : gset string) (pipeline : list PipelineStep) : option error :=
  match pipeline with
  | [] => None
  | p :: rest =>
      if decide (ps_DependsOn p = "") then check_depends steps rest
      else if decide (ps_DependsOn p = ps_Step p) then
        Some (Errorf ("manifest: step " +:+ Quote (ps_Step p) +:+ " cannot depend on itself"))
      else if decide (ps_DependsOn p ∈ steps) then check_depends steps rest
      else Some (Errorf ("manifest: step " +:+ Quote (ps_Step p) +:+ " depends on unknown step " +:+
                         Quote (ps_DependsOn p)))
  end.

(** The four role lists, in the order they are checked. *)
Definition role_lists (m : Manifest) : list (list string) :=
  let r := rs_RBAC (m_Router m) in [RunRoles r; ValidateRoles r; ReplayRoles r; AdminRoles r].

(** [ValidateManifest]: nil, or the first error. *)
Definition ValidateManifest (m : Manifest) : option error :=
  if decide (m_Agents m = []) then Some ErrManifestEmptyAgents
  else if decide (m_Pipeline m = []) then Some ErrManifestEmptyPipeline
  else
    let nsErr := if decide (rs_Namespace (m_Router m) = "") then None
                 else match tenant_Validate (rs_Namespace (m_Router m)) with
                      | Some err => Some (Errorf_w ("manifest: invalid router.namespace: " +:+ Error err) err)
                      | None => None
                      end in
    match nsErr with
    | Some e => Some e
    | None =>
        match check_roles (concat (role_lists m)) with
        | Some e => Some e
        | None =>
            match check_agents (m_Agents m) ∅ with
            | Err e => Some e
            | Ok agents =>
                match check_steps agents (m_Pipeline m) ∅ with
                | Err e => Some e
                | Ok steps =>
                    match check_depends steps (m_Pipeline m) with
                    | Some e => Some e
                    | None => match OrderedPipeline m with Err e => Some e | Ok _ => None end
                    end
                end
            end
        end
    end.

(** ** config.go *)

(** [FromEnv], given [os.Getenv]. *)
Definition env_int (getenv : string → string) (name : string) (ok : Z → bool) (fallback : Z) : Z :=
  let v := getenv name in
  if decide (v = "") then fallback
  else match Atoi v with Some n => if ok n then n else fallback | None => fallback end.

Definition env_duration (getenv : string → string) (name : string) (fallback : Z) : Z :=
  let v := getenv name in
  if decide (v = "") then fallback
  else match ParseDuration v with Ok d => if 0 <? d then d else fallback | Err _ => fallback end.

Definition FromEnv (getenv : string → string) : RouterConfig :=
  mkRouterConfig
    (env_int getenv "WORKER_POOL_SIZE" (λ n, 0 <? n) 10)
    (env_int getenv "CHANNEL_BUFFER" (λ n, 0 <? n) 100)
    (env_duration getenv "DEFAULT_TIMEOUT" (30 * Second))
    (mkRetryPolicy 1 BackoffLinear [])
    (mkCircuitBreakerPolicy
       (env_int getenv "CIRCUIT_FAILURE_THRESHOLD" (λ n, 0 <=? n) 5)
       (env_duration getenv "CIRCUIT_RESET_TIMEOUT" (60 * Second))
       (env_duration getenv "CIRCUIT_PROBE_TIMEOUT" (5 * Second))).

Definition RouterConfigFromManifest (m : Manifest) (base : RouterConfig) : result error RouterConfig :=
  let r := m_Router m in
  let pool := if 0 <? rs_WorkerPoolSize r then rs_WorkerPoolSize r else WorkerPoolSize base in
  let buffer := if 0 <? rs_ChannelBuffer r then rs_ChannelBuffer r else ChannelBuffer base in
  let cfg timeout := mkRouterConfig pool buffer timeout (rc_RetryPolicy base) (rc_CircuitBreaker base) in
  if decide (rs_DefaultTimeout r = "") then Ok (cfg (DefaultTimeout base))
  else match ParseDuration (rs_DefaultTimeout r) with
       | Err err => Err (Errorf_w ("manifest: invalid router.default_timeout: " +:+ Error err) err)
       | Ok d => Ok (cfg d)
       end.

Definition parseBackoff (v : string) : BackoffStrategy :=
  if decide (v = BackoffExponential) then BackoffExponential
  else if decide (v = BackoffExponentialJitter) then BackoffExponentialJitter
  else BackoffLinear.

Definition RetryPolicyFromConfig (rc : RetryConfig) : RetryPolicy :=
  mkRetryPolicy (if rtc_MaxAttempts rc <=? 0 then 1 else rtc_MaxAttempts rc) (parseBackoff (rtc_Backoff rc)) [].

Definition optional_duration (field value : string) (fallback : Z) : result error Z :=
  if decide (value = "") then Ok fallback
  else match ParseDuration value with
       | Err err => Err (Errorf_w ("invalid circuit breaker " +:+ field +:+ ": " +:+ Error err) err)
       | Ok d => Ok d
       end.

Definition CircuitBreakerPolicyFromConfig (cbc : CircuitBreakerConfig) (fallback : CircuitBreakerPolicy) :
    result error CircuitBreakerPolicy :=
  let threshold := if 0 <? cbc_FailureThreshold cbc then cbc_FailureThreshold cbc else FailureThreshold fallback in
  reset ← optional_duration "reset_timeout" (cbc_ResetTimeout cbc) (ResetTimeout fallback);
  probe ← optional_duration "probe_timeout" (cbc_ProbeTimeout cbc) (ProbeTimeout fallback);
  Ok (mkCircuitBreakerPolicy (if threshold <? 0 then 0 else threshold)
        (if reset <=? 0 then 60 * Second else reset)
        (if probe <=? 0 then 5 * Second else probe)).

Definition NamespaceFromManifest (m : Manifest) : result error string :=
  let ns := Normalize (rs_Namespace (m_Router m)) in
  match tenant_Validate ns with
  | Some err => Err err
  | None => Ok ns
  end.

Definition parseOrDefault (values : list string) (fallback : list Role) : result error (list Role) :=
  match values with
  | [] => Ok fallback
  | _ => ParseRoles values
  end.

Definition RBACPolicyFromManifest (m : Manifest) : result error (gmap string (gset string)) :=
  let r := rs_RBAC (m_Router m) in
  runRoles ← parseOrDefault (RunRoles r) [RoleOperator; RoleAdmin];
  validateRoles ← parseOrDefault (ValidateRoles r) [RoleViewer; RoleOperator; RoleAdmin];
  replayRoles ← parseOrDefault (ReplayRoles r) [RoleOperator; RoleAdmin];
  adminRoles ← parseOrDefault (AdminRoles r) [RoleAdmin];
  Ok (NewPolicy {[ ActionRun := runRoles; ActionValidate := validateRoles;
                   ActionReplay := replayRoles; ActionAdmin := adminRoles ]}).

(** ** The pipeline as a graph *)
Definition pipeline_edges (pipeline : list PipelineStep) : list (string * string) :=
  omap (λ p, if decide (ps_DependsOn p = "") then None else Some (ps_DependsOn p, ps_Step p)) pipeline.

(** What [ValidateManifest] checks of the pipeline before it sorts it. *)
Definition pipeline_wf (pipeline : list PipelineStep) : Prop :=
  NoDup (ps_Step <$> pipeline) ∧
  ∀ p, p ∈ pipeline → ps_DependsOn p ≠ "" →
    ps_DependsOn p ≠ ps_Step p ∧ ps_DependsOn p ∈ ps_Step <$> pipeline.

Definition pipeline_acyclic (pipeline : list PipelineStep) : Prop :=
  ∃ rank : string → nat, ∀ p, p ∈ pipeline → ps_DependsOn p ≠ "" → (rank (ps_DependsOn p) < rank (ps_Step p))%nat.

(** The steps can be counted in an [int]. *)
Definition manifest_fits (m : Manifest) : Prop := Z.of_nat (length (m_Pipeline m)) < max_int64.

Lemma elem_of_pipeline_edges pipeline d n :
  (d, n) ∈ pipeline_edges pipeline ↔ ∃ p, p ∈ pipeline ∧ ps_DependsOn p = d ∧ ps_Step p = n ∧ d ≠ "".
Proof.
  unfold pipeline_edges. rewrite list_elem_of_omap. split.
  - intros (p & Hp & He). case_decide; simplify_eq. eauto.
  - intros (p & Hp & <- & <- & Hd). exists p. split; [done|]. by rewrite decide_False.
Qed.

Lemma pipeline_edges_snoc pipeline p :
  pipeline_edges (pipeline ++ [p]) = pipeline_edges pipeline ++
    (if decide (ps_DependsOn p = "") then [] else [(ps_DependsOn p, ps_Step p)]).
Proof. unfold pipeline_edges. rewrite omap_app. simpl. by case_decide. Qed.

Lemma pipeline_edges_length pipeline : (length (pipeline_edges pipeline) ≤ length pipeline)%nat.
Proof.
  induction pipeline as [|p ps IH]; [done|]. unfold pipeline_edges in *. simpl. case_decide; simpl; unfold omap in *; lia.
Qed.

Lemma pending_nil_app E1 E2 n : pending (E1 ++ E2) [] n = pending E1 [] n + pending E2 [] n.
Proof. unfold pending. rewrite filter_app, length_app. lia. Qed.

(** The loop that counts the edges does count them. *)
Lemma count_edges_spec pipeline :
  Z.of_nat (length pipeline) < max_int64 →
  let '(inDeg, children) := foldl count_edge (∅, ∅) pipeline in
  (∀ n, degree inDeg n = pending (pipeline_edges pipeline) [] n) ∧
  (∀ d, children_of children d = (filter (λ e, e.1 = d) (pipeline_edges pipeline)).*2).
Proof.
  induction pipeline as [|p ps IH] using rev_ind; intros Hlen; [by split|].
  rewrite foldl_app. rewrite length_app in Hlen. simpl in Hlen |- *.
  destruct (foldl count_edge (∅, ∅) ps) as [inDeg children]. destruct IH as [Hdeg Hch]; [lia|].
  assert (∀ n, degree (match inDeg !! ps_Step p with None => <[ps_Step p := 0]> inDeg | Some _ => inDeg end) n
    = degree inDeg n) as Hsame.
  { intros n. destruct (inDeg !! ps_Step p) eqn:E; [done|]. rewrite degree_insert. case_decide; [|done]. subst.
    unfold degree. by rewrite E. }
  simpl. rewrite pipeline_edges_snoc. case_decide; [rewrite app_nil_r; split; [intros n; by rewrite Hsame|done]|].
  split.
  - intros n. rewrite degree_insert, pending_nil_app, !Hsame, !Hdeg.
    pose proof (pending_le (pipeline_edges ps) [] (ps_Step p)). pose proof (pending_nonneg (pipeline_edges ps) [] (ps_Step p)).
    pose proof (pipeline_edges_length ps).
    assert (pending [(ps_DependsOn p, ps_Step p)] [] n = if decide (ps_Step p = n) then 1 else 0) as ->.
    { unfold pending. destruct (decide (ps_Step p = n)).
      - rewrite filter_cons_True; [done|]. split; [done|set_solver].
      - rewrite filter_cons_False; [done|]. naive_solver. }
    case_decide; subst; [|lia]. rewrite wrap64_id; [lia|]. unfold int64_range, min_int64, max_int64 in *. lia.
  - intros d. unfold children_of. rewrite lookup_insert, filter_app, fmap_app. case_decide as Hd.
    + subst d. simpl. rewrite filter_cons_True by done. simpl. f_equal. apply Hch.
    + rewrite filter_cons_False by done. simpl. rewrite app_nil_r. apply Hch.
Qed.

(** ** The order *)
Section order.
Context (V : list string) (E : list (string * string)) (children : gmap string (list string)).
Context (Hchildren : ∀ d, children_of children d = (filter (λ e, e.1 = d) E).*2).
Context (HE : ∀ d n, (d, n) ∈ E → d ∈ V ∧ n ∈ V).
Context (Hsmall : Z.of_nat (length E) < max_int64).

Lemma order_loop_enough fuel : ∀ D Q inDeg,
  kahn_inv V E D Q inDeg → (length V ≤ fuel + length D)%nat →
  ∃ D' inDeg', order_loop fuel children inDeg Q D = Some D' ∧ kahn_inv V E D' [] inDeg'.
Proof.
  induction fuel as [|fuel IH]; intros D Q inDeg Hinv Hfuel; destruct Q as [|q Q]; [by exists D, inDeg| |by exists D, inDeg|].
  - pose proof (kahn_bound _ _ _ _ _ Hinv) as Hb. rewrite length_app in Hb. simpl in Hb. lia.
  - destruct (kahn_step V E children Hchildren HE Hsmall D q Q inDeg Hinv) as (inDeg1 & new & Hf & Hinv1).
    cbn [order_loop]. rewrite Hf. apply IH; [done|]. rewrite length_app. simpl. lia.
Qed.
End order.

Lemma step_index_snoc ps p : step_index (ps ++ [p]) = <[ps_Step p := length ps]> (step_index ps).
Proof. unfold step_index. rewrite imap_app, foldl_app. simpl. by rewrite Nat.add_0_r. Qed.

Lemma step_index_lookup pipeline : ∀ i p,
  NoDup (ps_Step <$> pipeline) → pipeline !! i = Some p → step_index pipeline !! ps_Step p = Some i.
Proof.
  induction pipeline as [|q ps IH] using rev_ind; intros i p Hnd Hi; [done|].
  rewrite fmap_app, NoDup_app in Hnd. destruct Hnd as (Hnd & Hdis & _). rewrite step_index_snoc.
  apply lookup_app_Some in Hi as [Hi|[Hlen Hi]].
  - rewrite lookup_insert_ne; [by apply IH|]. intros He. apply (Hdis (ps_Step p)); [|rewrite <- He; by left].
    apply list_elem_of_fmap. exists p. split; [done|]. by eapply list_elem_of_lookup_2.
  - destruct (i - length ps)%nat as [|k] eqn:Ek; [|done]. simplify_eq/=. rewrite lookup_insert_eq. f_equal. lia.
Qed.

(** The step of a name. *)
Definition step_named (pipeline : list PipelineStep) (name : string) : PipelineStep :=
  default (mkPipelineStep "" "") (pipeline !! default 0%nat (step_index pipeline !! name)).

Lemma step_named_step pipeline p :
  NoDup (ps_Step <$> pipeline) → p ∈ pipeline → step_named pipeline (ps_Step p) = p.
Proof.
  intros Hnd [i Hi]%list_elem_of_lookup. unfold step_named. by rewrite (step_index_lookup _ _ _ Hnd Hi); simpl; rewrite Hi.
Qed.

(** A permutation of the pipeline in which every step comes after the one it depends on. *)
Definition ordered_ok (pipeline ordered : list PipelineStep) : Prop :=
  ordered ≡ₚ pipeline ∧ topological (pipeline_edges pipeline) (ps_Step <$> ordered).

Lemma pipeline_wf_edges pipeline d n :
  pipeline_wf pipeline → (d, n) ∈ pipeline_edges pipeline →
  d ∈ ps_Step <$> pipeline ∧ n ∈ ps_Step <$> pipeline.
Proof.
  intros [_ Hdep] (p & Hp & <- & <- & Hd)%elem_of_pipeline_edges.
  split; [by apply Hdep|]. apply list_elem_of_fmap. eauto.
Qed.

Lemma OrderedPipeline_run m :
  manifest_fits m → pipeline_wf (m_Pipeline m) →
  ∃ names inDeg, kahn_inv (ps_Step <$> m_Pipeline m) (pipeline_edges (m_Pipeline m)) names [] inDeg ∧
    OrderedPipeline m =
      if decide (length names = length (m_Pipeline m))
      then Ok (step_named (m_Pipeline m) <$> names) else Err cycle_detected.
Proof.
  intros Hfits Hwf. set (ps := m_Pipeline m) in *. unfold OrderedPipeline. fold ps.
  pose proof (count_edges_spec ps Hfits) as Hcount. pose proof (pipeline_edges_length ps) as Hlen.
  unfold manifest_fits in Hfits. fold ps in Hfits.
  destruct (foldl count_edge (∅, ∅) ps) as [inDeg children]. destruct Hcount as [Hdeg Hch].
  destruct (order_loop_enough (ps_Step <$> ps) (pipeline_edges ps) children Hch
    (λ d n, pipeline_wf_edges ps d n Hwf) ltac:(lia) (2 * length ps) []
    (filter (λ name, degree inDeg name = 0) (ps_Step <$> ps)) inDeg) as (names & inDeg' & Hloop & Hinv).
  - split; simpl; [done|apply NoDup_filter, Hwf| |by intros []].
    intros n. rewrite list_elem_of_filter, Hdeg. tauto.
  - rewrite length_fmap. lia.
  - exists names, inDeg'. split; [done|]. by rewrite Hloop.
Qed.

Lemma step_named_names pipeline names :
  NoDup (ps_Step <$> pipeline) → names ⊆ ps_Step <$> pipeline →
  ps_Step <$> (step_named pipeline <$> names) = names.
Proof.
  intros Hnd Hsub. rewrite <- list_fmap_compose. rewrite <- (list_fmap_id names) at 2.
  apply list_fmap_ext. intros i name Hi%list_elem_of_lookup_2.
  destruct (proj1 (list_elem_of_fmap _ _ _) (Hsub name Hi)) as (p & -> & Hp). simpl. by rewrite step_named_step.
Qed.

(** OrderedPipeline succeeds exactly on acyclic pipelines, with a topological order. *)
Lemma OrderedPipeline_ok m :
  manifest_fits m → pipeline_wf (m_Pipeline m) →
  (∃ ordered, OrderedPipeline m = Ok ordered ∧ ordered_ok (m_Pipeline m) ordered ∧ pipeline_acyclic (m_Pipeline m)) ∨
  (OrderedPipeline m = Err cycle_detected ∧ ¬ pipeline_acyclic (m_Pipeline m)).
Proof.
  intros Hfits Hwf. destruct (OrderedPipeline_run m Hfits Hwf) as (names & inDeg & Hinv & ->).
  pose proof Hwf as [Hnd _]. set (ps := m_Pipeline m) in *.
  assert (∀ d n, (d, n) ∈ pipeline_edges ps → d ∈ ps_Step <$> ps ∧ n ∈ ps_Step <$> ps) as HE
    by (intros d n; by apply pipeline_wf_edges).
  pose proof (k_nodup _ _ _ _ _ Hinv) as Hndn. rewrite app_nil_r in Hndn.
  assert (names ⊆ ps_Step <$> ps) as Hsub.
  { intros n Hn. apply (k_ready _ _ _ _ _ Hinv n). by rewrite app_nil_r. }
  case_decide as Hlen; [left|right].
  - assert (names ≡ₚ ps_Step <$> ps) as Hp by (eapply kahn_complete; [done|]; by rewrite length_fmap).
    eexists. split; [done|]. split.
    + split; [|rewrite step_named_names by done; apply Hinv]. rewrite Hp, <- list_fmap_compose.
      rewrite <- (list_fmap_id ps) at 3. apply Permutation_refl', list_fmap_ext.
      intros i p Hi%list_elem_of_lookup_2. simpl. by apply step_named_step.
    + destruct (topological_ranked (pipeline_edges ps) names) as [rank Hrank]; [apply Hinv|done| |].
      { intros d n He. rewrite Hp. by apply (HE d n). }
      exists rank. intros p Hpp Hd. apply Hrank, elem_of_pipeline_edges. eauto.
  - split; [done|]. intros [rank Hrank]. apply Hlen. rewrite <- (length_fmap ps_Step ps).
    apply Permutation_length, NoDup_Permutation; [done|done|]. intros n. split; [apply Hsub|].
    eapply (kahn_reaches_all _ _ HE); [exact Hinv|].
    intros d n' (p & Hpp & <- & <- & Hd)%elem_of_pipeline_edges. by apply Hrank.
Qed.

(** ** What a valid manifest is *)
Definition duration_ok (v : string) : Prop := v = "" ∨ is_ok (ParseDuration v) = true.

Definition agent_ok (a : AgentBinding) : Prop :=
  ab_ID a ≠ "" ∧ 0 ≤ cbc_FailureThreshold (ab_CircuitBreaker a) ∧
  duration_ok (cbc_ResetTimeout (ab_CircuitBreaker a)) ∧ duration_ok (cbc_ProbeTimeout (ab_CircuitBreaker a)).

Definition role_ok (r : string) : Prop := is_ok (ParseRole r) = true.

Record manifest_wf (m : Manifest) : Prop := {
  mw_agents : m_Agents m ≠ [];
  mw_pipeline : m_Pipeline m ≠ [];
  mw_namespace : rs_Namespace (m_Router m) = "" ∨ tenant_Validate (rs_Namespace (m_Router m)) = None;
  mw_roles : Forall role_ok (concat (role_lists m));
  mw_agent : Forall agent_ok (m_Agents m) ∧ NoDup (ab_ID <$> m_Agents m);
  mw_steps : Forall (λ p, ps_Step p ≠ "" ∧ ps_Step p ∈ ab_ID <$> m_Agents m) (m_Pipeline m);
  mw_wf : pipeline_wf (m_Pipeline m)
}.

Lemma check_roles_None roles : check_roles roles = None ↔ Forall role_ok roles.
Proof.
  induction roles as [|r rs IH]; [done|]. rewrite Forall_cons, <- IH. cbn [check_roles]. unfold role_ok.
  destruct (ParseRole r); simpl; naive_solver.
Qed.

Lemma check_duration_None id field v : check_duration id field v = None ↔ duration_ok v.
Proof. unfold check_duration, duration_ok. case_decide; [naive_solver|]. destruct (ParseDuration v); naive_solver. Qed.

(** The three loops over names, in terms of the names they collect. *)
Lemma check_agents_Ok agents : ∀ seen s,
  check_agents agents seen = Ok s ↔
  Forall agent_ok agents ∧ NoDup (ab_ID <$> agents) ∧ (∀ a, a ∈ agents → ab_ID a ∉ seen) ∧
  s = foldl (λ s a, {[ab_ID a]} ∪ s) seen agents.
Proof.
  induction agents as [|a agents IH]; intros seen s; simpl.
  { split; [intros [= ->]; split_and!; try constructor; set_solver|by intros (_ & _ & _ & ->)]. }
  rewrite Forall_cons, NoDup_cons. unfold agent_ok at 1.
  rewrite <- (check_duration_None (ab_ID a) "reset_timeout"), <- (check_duration_None (ab_ID a) "probe_timeout").
  destruct (decide (ab_ID a = "")); [naive_solver|].
  destruct (decide (ab_ID a ∈ seen)) as [Hs|Hs].
  { split; [done|]. intros (_ & _ & Hns & _). destruct (Hns a); [by left|done]. }
  destruct (Z.ltb_spec (cbc_FailureThreshold (ab_CircuitBreaker a)) 0); [naive_solver lia|].
  destruct (check_duration _ "reset_timeout" _); [naive_solver|].
  destruct (check_duration _ "probe_timeout" _); [naive_solver|].
  rewrite IH. split.
  - intros (H1 & H2 & H3 & ->). split_and!; try done.
    + intros (b & Hb & Hin)%list_elem_of_fmap. specialize (H3 b Hin). set_solver.
    + intros b [->|Hin]%elem_of_cons; [done|]. specialize (H3 b Hin). set_solver.
  - intros ((_ & H1) & (Hn & H2) & H3 & ->). split_and!; try done.
    intros b Hin. rewrite elem_of_union, elem_of_singleton. intros [He|Hb].
    + apply Hn, list_elem_of_fmap. eauto.
    + apply (H3 b); [by right|done].
Qed.

Lemma foldl_names {A} (f : A → string) l : ∀ (s : gset string) x,
  x ∈ foldl (λ s a, {[f a]} ∪ s) s l ↔ x ∈ f <$> l ∨ x ∈ s.
Proof. induction l as [|a l IH]; intros s x; simpl; [set_solver|]. rewrite IH. set_solver. Qed.

Lemma check_steps_Ok agents pipeline : ∀ seen s,
  check_steps agents pipeline seen = Ok s ↔
  Forall (λ p, ps_Step p ≠ "" ∧ ps_Step p ∈ agents) pipeline ∧ NoDup (ps_Step <$> pipeline) ∧
  (∀ p, p ∈ pipeline → ps_Step p ∉ seen) ∧ s = foldl (λ s p, {[ps_Step p]} ∪ s) seen pipeline.
Proof.
  induction pipeline as [|p ps IH]; intros seen s; simpl.
  { split; [intros [= ->]; split_and!; try constructor; set_solver|by intros (_ & _ & _ & ->)]. }
  rewrite Forall_cons, NoDup_cons. destruct (decide (ps_Step p = "")); [naive_solver|].
  destruct (decide (ps_Step p ∈ seen)) as [Hs|Hs].
  { split; [done|]. intros (_ & _ & Hns & _). destruct (Hns p); [by left|done]. }
  destruct (decide (ps_Step p ∈ agents)); [|naive_solver]. rewrite IH. split.
  - intros (H1 & H2 & H3 & ->). split_and!; try done.
    + intros (b & Hb & Hin)%list_elem_of_fmap. specialize (H3 b Hin). set_solver.
    + intros b [->|Hin]%elem_of_cons; [done|]. specialize (H3 b Hin). set_solver.
  - intros ((_ & H1) & (Hn & H2) & H3 & ->). split_and!; try done.
    intros b Hin. rewrite elem_of_union, elem_of_singleton. intros [He|Hb].
    + apply Hn, list_elem_of_fmap. eauto.
    + apply (H3 b); [by right|done].
Qed.

Lemma check_depends_None steps pipeline :
  check_depends steps pipeline = None ↔
  ∀ p, p ∈ pipeline → ps_DependsOn p ≠ "" → ps_DependsOn p ≠ ps_Step p ∧ ps_DependsOn p ∈ steps.
Proof.
  induction pipeline as [|p ps IH]; simpl; [set_solver|].
  setoid_rewrite elem_of_cons. repeat case_decide; try rewrite IH; naive_solver.
Qed.

(** [ValidateManifest] without the final sort is [manifest_wf]. *)
Lemma ValidateManifest_checks m :
  ValidateManifest m = None ↔ manifest_wf m ∧ is_ok (OrderedPipeline m) = true.
Proof.
  unfold ValidateManifest. case_decide as Ha; [split; [done|intros [[] _]; done]|].
  case_decide as Hp; [split; [done|intros [[] _]; done]|].
  destruct (if decide (rs_Namespace (m_Router m) = "") then _ else _) as [e|] eqn:En.
  { split; [done|]. intros [[_ _ Hn _ _ _ _] _]. destruct (decide (rs_Namespace (m_Router m) = "")); [done|].
    destruct Hn as [|Hn]; [done|]. by rewrite Hn in En. }
  assert (rs_Namespace (m_Router m) = "" ∨ tenant_Validate (rs_Namespace (m_Router m)) = None) as Hns.
  { destruct (decide (rs_Namespace (m_Router m) = "")); [by left|right]. by destruct (tenant_Validate _). }
  clear En. destruct (check_roles _) as [e|] eqn:Er.
  { split; [done|]. intros [[_ _ _ Hr _ _ _] _]. apply check_roles_None in Hr. congruence. }
  apply check_roles_None in Er. destruct (check_agents (m_Agents m) ∅) as [agents|e] eqn:Eg.
  2:{ split; [done|]. intros [[_ _ _ _ [H1 H2] _ _] _].
      assert (check_agents (m_Agents m) ∅ = Ok (foldl (λ s a, {[ab_ID a]} ∪ s) ∅ (m_Agents m))) as He
        by (apply check_agents_Ok; split_and!; try done; set_solver). congruence. }
  apply check_agents_Ok in Eg as (Hag1 & Hag2 & _ & ->).
  assert (∀ x, x ∈ foldl (λ s a, {[ab_ID a]} ∪ s) (∅ : gset string) (m_Agents m) ↔ x ∈ ab_ID <$> m_Agents m) as Hids
    by (intros x; rewrite foldl_names; set_solver).
  destruct (check_steps _ (m_Pipeline m) ∅) as [steps|e] eqn:Es.
  2:{ split; [done|]. intros [[_ _ _ _ _ Hst [Hnd _]] _].
      assert (check_steps (foldl (λ s a, {[ab_ID a]} ∪ s) ∅ (m_Agents m)) (m_Pipeline m) ∅
        = Ok (foldl (λ s p, {[ps_Step p]} ∪ s) ∅ (m_Pipeline m))) as He.
      { apply check_steps_Ok. split; [by setoid_rewrite Hids|]. split; [done|]. split; [set_solver|done]. }
      congruence. }
  apply check_steps_Ok in Es as (Hst1 & Hst2 & _ & ->). setoid_rewrite Hids in Hst1.
  assert (∀ x, x ∈ foldl (λ s p, {[ps_Step p]} ∪ s) (∅ : gset string) (m_Pipeline m) ↔ x ∈ ps_Step <$> m_Pipeline m) as Hsteps
    by (intros x; rewrite foldl_names; set_solver).
  destruct (check_depends _ (m_Pipeline m)) as [e|] eqn:Ed.
  { split; [done|]. intros [[_ _ _ _ _ _ [_ Hdep]] _].
    assert (check_depends (foldl (λ s p, {[ps_Step p]} ∪ s) (∅ : gset string) (m_Pipeline m)) (m_Pipeline m) = None) as He;
      [|congruence]. apply check_depends_None. setoid_rewrite Hsteps. exact Hdep. }
  pose proof (proj1 (check_depends_None _ _) Ed) as Hdep. setoid_rewrite Hsteps in Hdep.
  destruct (OrderedPipeline m); split; try done; naive_solver.
Qed.

Lemma ValidateManifest_iff m :
  manifest_fits m →
  ValidateManifest m = None ↔ manifest_wf m ∧ pipeline_acyclic (m_Pipeline m).
Proof.
  intros Hfits. rewrite ValidateManifest_checks. split; intros [Hwf H]; (split; [done|]);
    destruct (OrderedPipeline_ok m Hfits (mw_wf _ Hwf)) as [(o & Ho & _ & Hac)|[Ho Hac]]; try done;
    by rewrite Ho in *.
Qed.

(** ** Properties *)

(** C13: a manifest validates exactly when it has agents and steps, its
    namespace and roles are valid, its agents have distinct non-empty identifiers, no negative
    threshold and durations that parse, every step is a declared agent, steps are distinct and
    non-empty, every dependency names another step, and the dependencies are acyclic. *)
Theorem ValidateManifest_accepts_iff m :
  manifest_fits m →
  ValidateManifest m = None ↔ manifest_wf m ∧ pipeline_acyclic (m_Pipeline m).
Proof. apply ValidateManifest_iff. Qed.

(** C14: for a manifest that validates, OrderedPipeline returns the steps of
    the pipeline, each exactly once, in an order in which every step comes after the step it
    depends on. *)
Theorem OrderedPipeline_sorts m :
  manifest_fits m → ValidateManifest m = None →
  ∃ ordered, OrderedPipeline m = Ok ordered ∧ ordered ≡ₚ m_Pipeline m ∧
    ∀ l1 p l2, ordered = l1 ++ p :: l2 → ps_DependsOn p ≠ "" → ps_DependsOn p ∈ ps_Step <$> l1.
Proof.
  intros Hfits [Hwf Hok]%ValidateManifest_checks.
  destruct (OrderedPipeline_ok m Hfits (mw_wf _ Hwf)) as [(o & Ho & [Hp Ht] & _)|[Ho _]]; [|by rewrite Ho in Hok].
  exists o. split; [done|]. split; [done|]. intros l1 p l2 Heq Hd.
  apply (Ht (ps_Step <$> l1) (ps_Step p) (ps_Step <$> l2)); [by rewrite Heq, fmap_app|].
  apply elem_of_pipeline_edges. exists p. split; [|done]. rewrite <- Hp, Heq. set_solver.
Qed.

(** The roles a manifest lists for an action, and those it falls back to. *)
Definition configured (m : Manifest) (a : Action) : option (list string * list Role) :=
  let r := rs_RBAC (m_Router m) in
  if decide (a = ActionRun) then Some (RunRoles r, [RoleOperator; RoleAdmin])
  else if decide (a = ActionValidate) then Some (ValidateRoles r, [RoleViewer; RoleOperator; RoleAdmin])
  else if decide (a = ActionReplay) then Some (ReplayRoles r, [RoleOperator; RoleAdmin])
  else if decide (a = ActionAdmin) then Some (AdminRoles r, [RoleAdmin])
  else None.

Lemma ParseRoles_Ok raw : ∀ roles,
  ParseRoles raw = Ok roles → ∀ r, r ∈ roles ↔ ∃ v, v ∈ raw ∧ ParseRole v = Ok r.
Proof.
  induction raw as [|v raw IH]; intros roles; cbn [ParseRoles]; [intros [= <-]; set_solver|].
  destruct (ParseRole v) as [x|] eqn:Ev; simpl; [|done].
  destruct (ParseRoles raw) as [xs|]; simpl; [|done]. intros [= <-] r.
  rewrite elem_of_cons, (IH xs eq_refl). setoid_rewrite elem_of_cons. split.
  - intros [->|(u & Hu & Hr)]; eauto.
  - intros (u & [->|Hu] & Hr); [left; congruence|eauto].
Qed.

Lemma ParseRoles_total raw : Forall role_ok raw → is_ok (ParseRoles raw) = true.
Proof.
  induction 1 as [|r rs Hr _ IH]; [done|]. cbn [ParseRoles]. unfold role_ok in Hr.
  destruct (ParseRole r); [|done]. cbn. by destruct (ParseRoles rs).
Qed.

(** The roles one list stands for. *)
Definition role_set (values : list string) (fallback : list Role) (r : Role) : Prop :=
  (values = [] ∧ r ∈ fallback) ∨ ∃ v, v ∈ values ∧ ParseRole v = Ok r.

Lemma parseOrDefault_Ok values fallback roles r :
  parseOrDefault values fallback = Ok roles → r ∈ roles ↔ role_set values fallback r.
Proof.
  unfold parseOrDefault, role_set. destruct values as [|v values].
  - intros [= <-]. set_solver.
  - intros H. rewrite (ParseRoles_Ok _ _ H). split; [by right|]. by intros [[? _]|?].
Qed.

(** The policy of a manifest allows a role an action exactly when the
    manifest's list for that action names the role (in any spelling ParseRole accepts), or the
    list is empty and the default policy allows it; it allows nothing else. *)
Theorem RBACPolicy_semantics m p role action :
  RBACPolicyFromManifest m = Ok p →
  IsAllowed p role action = true ↔
  ∃ values fallback, configured m action = Some (values, fallback) ∧
    ((values = [] ∧ role ∈ fallback ∧ IsAllowed DefaultPolicy role action = true) ∨
     ∃ v, v ∈ values ∧ ParseRole v = Ok role).
Proof.
  unfold RBACPolicyFromManifest. set (r := rs_RBAC (m_Router m)).
  destruct (parseOrDefault (RunRoles r) _) as [l1|] eqn:E1; simpl; [|done].
  destruct (parseOrDefault (ValidateRoles r) _) as [l2|] eqn:E2; simpl; [|done].
  destruct (parseOrDefault (ReplayRoles r) _) as [l3|] eqn:E3; simpl; [|done].
  destruct (parseOrDefault (AdminRoles r) _) as [l4|] eqn:E4; simpl; [|done].
  intros [= <-]. rewrite IsAllowed_NewPolicy.
  assert (∀ values fallback roles, parseOrDefault values fallback = Ok roles → default_roles action = Some fallback →
    (∃ rs, Some roles = Some rs ∧ role ∈ rs) ↔
    ∃ vs fb, Some (values, fallback) = Some (vs, fb) ∧
      ((vs = [] ∧ role ∈ fb ∧ IsAllowed DefaultPolicy role action = true) ∨
       ∃ v, v ∈ vs ∧ ParseRole v = Ok role)) as Hrow.
  { intros values fallback roles Hr Hd. pose proof (parseOrDefault_Ok _ _ _ role Hr) as Hin.
    assert (role ∈ fallback → IsAllowed DefaultPolicy role action = true) as Hdef.
    { intros Hf. unfold IsAllowed. rewrite default_lookup, Hd. by apply bool_decide_eq_true, elem_of_list_to_set. }
    split.
    - intros (rs & [= <-] & [[He Hf]|Hv]%Hin); exists values, fallback; (split; [done|]); [left; auto|by right].
    - intros (vs & fb & [= <- <-] & H). exists roles. split; [done|]. apply Hin. destruct H as [(He & Hf & _)|Hv]; [by left|by right]. }
  unfold configured, default_roles in *. rewrite !lookup_insert, lookup_singleton.
  destruct (decide (action = ActionRun)) as [->|H1]; [rewrite decide_True by done; by apply Hrow|].
  rewrite decide_False by done.
  destruct (decide (action = ActionValidate)) as [->|H2]; [rewrite decide_True by done; by apply Hrow|].
  rewrite decide_False by done.
  destruct (decide (action = ActionReplay)) as [->|H3]; [rewrite decide_True by done; by apply Hrow|].
  rewrite decide_False by done.
  destruct (decide (action = ActionAdmin)) as [->|H4]; [rewrite decide_True by done; by apply Hrow|].
  rewrite decide_False by done. naive_solver.
Qed.

Lemma optional_duration_total field v fb : duration_ok v → is_ok (optional_duration field v fb) = true.
Proof. unfold optional_duration, duration_ok. case_decide; [done|]. by destruct (ParseDuration v); intros []. Qed.

Lemma CircuitBreakerPolicy_total cbc fb :
  duration_ok (cbc_ResetTimeout cbc) → duration_ok (cbc_ProbeTimeout cbc) →
  is_ok (CircuitBreakerPolicyFromConfig cbc fb) = true.
Proof.
  intros H1 H2. unfold CircuitBreakerPolicyFromConfig.
  pose proof (optional_duration_total "reset_timeout" _ (ResetTimeout fb) H1) as T1.
  pose proof (optional_duration_total "probe_timeout" _ (ProbeTimeout fb) H2) as T2.
  destruct (optional_duration "reset_timeout" _ _); [|done]. cbn.
  by destruct (optional_duration "probe_timeout" _ _).
Qed.

Lemma parseOrDefault_total values fb : Forall role_ok values → is_ok (parseOrDefault values fb) = true.
Proof. destruct values; [done|]. apply ParseRoles_total. Qed.

Lemma RBACPolicy_total m : Forall role_ok (concat (role_lists m)) → is_ok (RBACPolicyFromManifest m) = true.
Proof.
  unfold role_lists. cbn [concat]. rewrite app_nil_r, !Forall_app. intros (H1 & H2 & H3 & H4).
  unfold RBACPolicyFromManifest. set (r := rs_RBAC (m_Router m)) in *.
  pose proof (parseOrDefault_total _ [RoleOperator; RoleAdmin] H1).
  pose proof (parseOrDefault_total _ [RoleViewer; RoleOperator; RoleAdmin] H2).
  pose proof (parseOrDefault_total _ [RoleOperator; RoleAdmin] H3).
  pose proof (parseOrDefault_total _ [RoleAdmin] H4).
  destruct (parseOrDefault (RunRoles r) _); [|done]. destruct (parseOrDefault (ValidateRoles r) _); [|done].
  destruct (parseOrDefault (ReplayRoles r) _); [|done]. by destruct (parseOrDefault (AdminRoles r) _).
Qed.

Lemma Namespace_total m :
  rs_Namespace (m_Router m) = "" ∨ tenant_Validate (rs_Namespace (m_Router m)) = None →
  NamespaceFromManifest m = Ok (Normalize (rs_Namespace (m_Router m))).
Proof.
  intros H. unfold NamespaceFromManifest.
  assert (namespacePattern (Normalize (rs_Namespace (m_Router m))) = true) as Hp.
  { destruct H as [->|H]; [vm_compute; reflexivity|]. unfold tenant_Validate in H. by destruct (namespacePattern _). }
  unfold tenant_Validate. rewrite (Normalize_pattern _ Hp), Hp. done.
Qed.

(** For a manifest that validates, the access policy, the namespace
    and the breaker policy of every agent can be built, whatever the fallback; the router's
    configuration can be built exactly when the default timeout is absent or parses, which
    ValidateManifest does not check. *)
Theorem valid_manifest_configures m base :
  ValidateManifest m = None →
  is_ok (RBACPolicyFromManifest m) = true ∧
  NamespaceFromManifest m = Ok (Normalize (rs_Namespace (m_Router m))) ∧
  (∀ a fb, a ∈ m_Agents m → is_ok (CircuitBreakerPolicyFromConfig (ab_CircuitBreaker a) fb) = true) ∧
  (is_ok (RouterConfigFromManifest m base) = true ↔ duration_ok (rs_DefaultTimeout (m_Router m))).
Proof.
  intros [[_ _ Hns Hroles [Hag _] _ _] _]%ValidateManifest_checks.
  split; [by apply RBACPolicy_total|]. split; [by apply Namespace_total|]. split.
  - intros a fb Ha. rewrite Forall_forall in Hag. destruct (Hag a Ha) as (_ & _ & H1 & H2).
    by apply CircuitBreakerPolicy_total.
  - unfold RouterConfigFromManifest, duration_ok. case_decide; [naive_solver|].
    destruct (ParseDuration _); naive_solver.
Qed.

(** The fields of a sane engine configuration. *)
Definition config_sane (c : RouterConfig) : Prop :=
  0 < WorkerPoolSize c ≤ max_int64 ∧ 0 < ChannelBuffer c ≤ max_int64 ∧ 0 < DefaultTimeout c ≤ max_int64 ∧
  0 ≤ FailureThreshold (rc_CircuitBreaker c) ≤ max_int64 ∧
  0 < ResetTimeout (rc_CircuitBreaker c) ≤ max_int64 ∧ 0 < ProbeTimeout (rc_CircuitBreaker c) ≤ max_int64.

Lemma env_int_range getenv name ok fb (P : Z → Prop) :
  P fb → (∀ n, ok n = true → int64_range n → P n) → P (env_int getenv name ok fb).
Proof.
  intros Hfb Hok. unfold env_int. case_decide; [done|]. destruct (Atoi (getenv name)) as [n|] eqn:E; [|done].
  destruct (ok n) eqn:Eo; [|done]. apply Hok; [done|]. by eapply Atoi_int64.
Qed.

Lemma env_duration_range getenv name fb :
  0 < fb ≤ max_int64 → 0 < env_duration getenv name fb ≤ max_int64.
Proof.
  intros Hfb. unfold env_duration. case_decide; [done|].
  destruct (ParseDuration (getenv name)) as [d|] eqn:E; [|done].
  apply ParseDuration_int64 in E as [_ E]. destruct (Z.ltb_spec 0 d); [lia|done].
Qed.

(** Whatever the environment variables hold, FromEnv returns a configuration
    with a positive pool, buffer and timeouts and a non-negative threshold, all within the
    machine's integers. *)
Theorem FromEnv_sane getenv : config_sane (FromEnv getenv).
Proof.
  unfold config_sane, FromEnv. cbn [WorkerPoolSize ChannelBuffer DefaultTimeout rc_CircuitBreaker
    FailureThreshold ResetTimeout ProbeTimeout].
  split_and!; try apply (env_int_range _ _ _ _ (λ n, 0 < n)); try apply (env_int_range _ _ _ _ (λ n, n ≤ max_int64));
    try apply (env_int_range _ _ _ _ (λ n, 0 ≤ n)); try (apply env_duration_range; done);
    try (intros n Hn [? ?]; bool_lia); try done.
Qed.

(** *** Witnesses *)
Definition sample_agent (id : string) : AgentBinding :=
  mkAgentBinding id (mkRetryConfig 2 "exponential") (mkCircuitBreakerConfig 3 "10s" "").
Definition sample_manifest (timeout : string) : Manifest :=
  mkManifest (mkRouterSettings 4 0 timeout "Team-A" (mkRBAC ["Admin"] [] [] []))
    [sample_agent "fetch"; sample_agent "plan"; sample_agent "write"]
    [mkPipelineStep "write" "plan"; mkPipelineStep "plan" "fetch"; mkPipelineStep "fetch" ""].

Example sample_manifest_order :
  OrderedPipeline (sample_manifest "1s") =
  Ok [mkPipelineStep "fetch" ""; mkPipelineStep "plan" "fetch"; mkPipelineStep "write" "plan"].
Proof. vm_compute. reflexivity. Qed.

(** A manifest whose default timeout is not a duration passes
    ValidateManifest, and only building the runtime configuration rejects it. *)
Theorem ValidateManifest_misses_timeout :
  ∃ m base, manifest_fits m ∧ ValidateManifest m = None ∧ is_ok (RouterConfigFromManifest m base) = false.
Proof. exists (sample_manifest "soon"), (FromEnv (λ _, "")). vm_compute. by repeat split. Qed.

Lemma ValidateManifest_accepts_iff_witness :
  manifest_wf (sample_manifest "1s") ∧ pipeline_acyclic (m_Pipeline (sample_manifest "1s")).
Proof. apply ValidateManifest_accepts_iff; vm_compute; reflexivity. Defined.

Lemma OrderedPipeline_sorts_witness :
  ∃ ordered, OrderedPipeline (sample_manifest "1s") = Ok ordered ∧ ordered ≡ₚ m_Pipeline (sample_manifest "1s").
Proof.
  destruct (OrderedPipeline_sorts (sample_manifest "1s")) as (o & Ho & Hp & _); [vm_compute; reflexivity..|].
  exists o. split; [exact Ho|exact Hp].
Defined.

Definition sample_policy : gmap string (gset string) :=
  match RBACPolicyFromManifest (sample_manifest "1s") with Ok p => p | Err _ => ∅ end.
Lemma sample_policy_ok : RBACPolicyFromManifest (sample_manifest "1s") = Ok sample_policy.
Proof.
  assert (is_ok (RBACPolicyFromManifest (sample_manifest "1s")) = true) as H by (vm_compute; reflexivity).
  unfold sample_policy. by destruct (RBACPolicyFromManifest (sample_manifest "1s")).
Qed.

Lemma RBACPolicy_semantics_witness : IsAllowed sample_policy RoleAdmin ActionRun = true.
Proof.
  apply (RBACPolicy_semantics _ _ _ _ sample_policy_ok).
  exists ["Admin"], [RoleOperator; RoleAdmin]. split; [vm_compute; reflexivity|]. right.
  exists "Admin". split; [by left|vm_compute; reflexivity].
Defined.

Lemma valid_manifest_configures_witness :
  is_ok (RBACPolicyFromManifest (sample_manifest "1s")) = true ∧
  NamespaceFromManifest (sample_manifest "1s") = Ok "team-a".
Proof.
  destruct (valid_manifest_configures (sample_manifest "1s") (FromEnv (λ _, ""))) as (H1 & H2 & _);
    [vm_compute; reflexivity|]. split; [exact H1|]. rewrite H2. vm_compute. reflexivity.
Defined.
