(* ===== verification/App.v ===== *)
(** * Running a manifest: internal/app/run.go

    From a validated manifest to the engine: the registry of built-in agents, the agents
    themselves, and the execution plan.  The file, environment, lease, metrics-server and
    exporter plumbing of [RunManifestReport] is not modelled here. *)

From stdpp Require Import pretty.
From S2P Require Import Prelude GoErrors GoStrings GoTime AgentFunc Retry CircuitBreaker Registry.
From S2P Require Import Metrics Trace Kahn PlanGraph Engine Scheduler Access Manifest.
#[local] Open Scope Z_scope.

(** ** Agents *)
Definition dquote : string := string_of_bytes [34].

(** [deterministicAgent(agentID)] is stood for by [agentID]; the calls it has counted are kept
    per agent and request.  [ctxErr] is the context's error at the call if it is done, and
    [sleepErr] its error if it ends before the sleep of a slow agent. *)
Definition attempts_by_request : Type := gmap (string * string) Z.

Definition agent_payload (agentID : string) (input : AgentInput) (attempt : Z) : string :=
  "{" +:+ dquote +:+ "agent" +:+ dquote +:+ ":" +:+ dquote +:+ agentID +:+ dquote +:+ "," +:+
  dquote +:+ "input" +:+ dquote +:+ ":" +:+ Quote (bytes_of (in_Payload input)) +:+ "," +:+
  dquote +:+ "attempt" +:+ dquote +:+ ":" +:+ Itoa attempt +:+ "}".

Definition deterministicAgent (agentID : string) (ctxErr sleepErr : option error) (input : AgentInput)
    (counts : gmap (string * string) Z) : outcome * gmap (string * string) Z :=
  match ctxErr with
  | Some e => (Returned AgentOutput_zero (Some e), counts)
  | None =>
      let key := (agentID, in_RequestID input) in
      let attempt := wrap64 (default 0 (counts !! key) + 1) in
      let counts := <[key := attempt]> counts in
      let out := Returned (mkAgentOutput (in_RequestID input) (Some (agent_payload agentID input attempt)) None 0) None in
      (if HasPrefix agentID "panic_" then Panicked "forced panic for test/runtime validation"
       else if HasPrefix agentID "fail_" then Returned AgentOutput_zero (Some (Errorf "forced failure"))
       else if HasPrefix agentID "flaky_" && (attempt =? 1)
       then Returned AgentOutput_zero (Some (Errorf "forced transient failure"))
       else if HasPrefix agentID "slow_" then
         match sleepErr with Some e => Returned AgentOutput_zero (Some e) | None => out end
       else out,
       counts)
  end.

(** ** Registries *)
Fixpoint register_agents (r : gmap string string) (agents : list AgentBinding) :
    result error (gmap string string) :=
  match agents with
  | [] => Ok r
  | a :: rest =>
      match Register r (ab_ID a) (Some (ab_ID a)) with
      | Err err => Err (Errorf_w ("register agent " +:+ Quote (ab_ID a) +:+ ": " +:+ Error err) err)
      | Ok r' => register_agents r' rest
      end
  end.

(** [newGenericRegistry]: errors of [Register] are dropped. *)
Definition newGenericRegistry (agentIDs : list string) : gmap string string :=
  foldl (λ r id, match Register r id (Some id) with Ok r' => r' | Err _ => r end) NewRegistry agentIDs.

Definition buildRegistry (m : Manifest) : result error (gmap string string) :=
  register_agents (newGenericRegistry []) (m_Agents m).

(** ** The execution plan *)

(** [%04d] of a positive number. *)
Definition pad4 (n : Z) : string :=
  string_of_bytes (replicate (4 - String.length (Itoa n)) 48) +:+ Itoa n.

Definition invocation_id (i : nat) (step : string) : string := pad4 (Z.of_nat i + 1) +:+ "_" +:+ step.

(** The policies of the agents, by identifier. *)
Fixpoint agent_policies (agents : list AgentBinding) (defaultCB : CircuitBreakerPolicy)
    (retryByAgent : gmap string RetryPolicy) (cbByAgent : gmap string CircuitBreakerPolicy) :
    result error (gmap string RetryPolicy * gmap string CircuitBreakerPolicy) :=
  match agents with
  | [] => Ok (retryByAgent, cbByAgent)
  | a :: rest =>
      match CircuitBreakerPolicyFromConfig (ab_CircuitBreaker a) defaultCB with
      | Err err => Err (Errorf_w ("agent " +:+ Quote (ab_ID a) +:+ " circuit breaker policy: " +:+ Error err) err)
      | Ok cb =>
          agent_policies rest defaultCB (<[ab_ID a := RetryPolicyFromConfig (ab_Retry a)]> retryByAgent)
            (<[ab_ID a := cb]> cbByAgent)
      end
  end.

(** [invocationIDByStep]. *)
Definition invocation_ids (ordered : list PipelineStep) : gmap string string :=
  foldl (λ m ip, <[ps_Step ip.2 := invocation_id ip.1 (ps_Step ip.2)]> m) ∅ (imap (λ i p, (i, p)) ordered).

Definition hello_payload : string :=
  "{" +:+ dquote +:+ "message" +:+ dquote +:+ ":" +:+ dquote +:+ "hello" +:+ dquote +:+ "}".

(** One node of the plan; [now i] is the clock when the node is built. *)
Definition plan_node (ids : gmap string string) (retryByAgent : gmap string RetryPolicy)
    (cbByAgent : gmap string CircuitBreakerPolicy) (namespace taskID : string) (now : nat → time)
    (i : nat) (step : PipelineStep) : PlanNode :=
  let id s := default "" (ids !! s) in
  mkPlanNode
    (mkAgentInvocation (id (ps_Step step)) (ps_Step step)
       (mkAgentInput taskID ("req_" +:+ pad4 (Z.of_nat i + 1)) (Some hello_payload)
          (Some {[ "pipeline_step" := ps_Step step; "tool_name" := ps_Step step; "namespace" := namespace ]})
          (now i)))
    (if decide (ps_DependsOn step = "") then [] else [id (ps_DependsOn step)])
    (default RetryPolicy_zero (retryByAgent !! ps_Step step))
    (default CircuitBreakerPolicy_zero (cbByAgent !! ps_Step step)).

Definition buildExecutionPlan (m : Manifest) (namespace : string) (defaultCB : CircuitBreakerPolicy)
    (now : nat → time) : result error ExecutionPlan :=
  match OrderedPipeline m with
  | Err err => Err (Errorf_w ("order pipeline: " +:+ Error err) err)
  | Ok ordered =>
      '(retryByAgent, cbByAgent) ← agent_policies (m_Agents m) defaultCB ∅ ∅;
      let taskID := namespace +:+ ".task_demo" in
      Ok (mkExecutionPlan taskID
            (imap (plan_node (invocation_ids ordered) retryByAgent cbByAgent namespace taskID now) ordered))
  end.

(** [uniqueAgentIDs]. *)
Definition uniqueAgentIDs (tr : ExecutionTrace) : list string :=
  let set : gset string :=
    list_to_set (filter (λ id, id ≠ "" ∧ id ≠ "router") (st_AgentID <$> tr_Steps tr)) in
  sort_strings (elements set).

(** ** RunManifestReport and ReplayTrace *)
Record RunReport := mkRunReport {
  rep_Results : list AgentResult;
  rep_Trace : ExecutionTrace;
  rep_Metrics : Snapshot;
  rep_Namespace : string
}.

(** The built-in agents under a clock that advances with every reading and call, and a context
    that is never done. *)
Definition app_env : environment string (Z * gmap (string * string) Z) :=
  mkEnvironment _ (λ s, (s.1, (s.1 + 1, s.2)))
    (λ agentID _ input s,
       let '(o, counts) := deterministicAgent agentID None None input s.2 in (o, (s.1 + 1, counts)))
    (λ _ s, (None, s)).

Definition wrap_error {A} (prefix : string) (r : result error A) : result error A :=
  match r with
  | Ok a => Ok a
  | Err err => Err (Errorf_w (prefix +:+ ": " +:+ Error err) err)
  end.

(** [envBool], given the variable's value. *)
Definition envBool (getenv : string → string) (key : string) : bool :=
  let v := ToLower (TrimSpace (getenv key)) in
  bool_decide (v = "1") || bool_decide (v = "true") || bool_decide (v = "yes") || bool_decide (v = "on").

#[global] Arguments envBool : simpl never.

(** The calls of [RunManifestReport] to the outside, by the error each of them returns: the
    lease, the tracing setup, the Prometheus recorder and server, the trace file and the
    exporter. *)
Record outside := mkOutside {
  o_acquireLease : option error;
  o_SetupOTel : option error;
  o_NewPrometheusRecorder : option error;
  o_StartPrometheusServer : option error;
  o_SaveToFile : option error;
  o_ExportAstraGraphAudit : option error
}.

(** [if err != nil { return RunReport{}, fmt.Errorf("prefix: %w", err) }]. *)
Definition require (prefix : string) (err : option error) : result error () :=
  match err with
  | None => Ok ()
  | Some e => Err (Errorf_w (prefix +:+ ": " +:+ Error e) e)
  end.

(** [engine.RunPlan(context.Background(), plan)] on an engine in a given state, under some
    scheduling of the goroutines: the results, the trace and the state of the engine afterwards.
    [scheduled]: what it gives is always among what [RunPlan] admits. *)
Definition schedule : Type :=
  RouterConfig → ExecutionPlan → world string InMemoryRecorder →
  list AgentResult * ExecutionTrace * world string InMemoryRecorder.

Definition scheduled (run_plan : schedule) : Prop :=
  ∀ cfg plan w, 1 ≤ WorkerPoolSize cfg →
    ∃ start endt, RunPlan cfg plan start endt w (run_plan cfg plan w).1.1 (run_plan cfg plan w).1.2 (run_plan cfg plan w).2.

(** The state of a new engine; [RunPlan] starts with a recorder of its own. *)
Definition new_engine (registry : gmap string string) : world string InMemoryRecorder :=
  mkWorld registry NewCircuitBreaker NewInMemoryRecorder (NewRecorder "" zero_time).

(** The schedule that runs one goroutine after the other. *)
Definition one_by_one {E} (env : environment string E) (s : E) : schedule :=
  λ cfg plan w, let '(results, tr, (w', _)) := RunPlan_seq env cfg plan w s in (results, tr, w').

Lemma one_by_one_scheduled {E} (env : environment string E) s : scheduled (one_by_one env s).
Proof.
  intros cfg plan w Hp. destruct (RunPlan_seq_runs env cfg plan w s Hp) as (start & endt & Hr). exists start, endt.
  unfold one_by_one. by destruct (RunPlan_seq env cfg plan w s) as [[results tr] [w' s']].
Qed.

(** The body of [RunManifestReport] after the manifest is loaded; the audit record its deferred
    call writes changes nothing here.  [now] are the clock readings of the plan's nodes. *)
Definition RunManifestReport (run_plan : schedule) (getenv : string → string)
    (o : outside) (manifest : Manifest) (now : nat → time) : result error RunReport :=
  policy ← wrap_error "build rbac policy" (RBACPolicyFromManifest manifest);
  _ ← match authorize (getenv "REQUEST_ROLE") policy ActionRun with Some err => Err err | None => Ok () end;
  namespace ← wrap_error "namespace" (NamespaceFromManifest manifest);
  registry ← buildRegistry manifest;
  let baseCfg := FromEnv getenv in
  runtimeCfg ← wrap_error "build runtime config" (RouterConfigFromManifest manifest baseCfg);
  plan ← buildExecutionPlan manifest namespace (rc_CircuitBreaker runtimeCfg) now;
  _ ← match o_acquireLease o with Some err => Err err | None => Ok () end;
  _ ← require "setup tracing" (o_SetupOTel o);
  _ ← (if envBool getenv "METRICS_ENABLED" then
         _ ← require "setup prometheus recorder" (o_NewPrometheusRecorder o);
         require "start metrics endpoint" (o_StartPrometheusServer o)
       else Ok ());
  let '(results, execTrace, engine') := run_plan (NewEngine_cfg runtimeCfg) plan (new_engine registry) in
  _ ← (if decide (getenv "TRACE_OUTPUT" = "") then Ok () else require "persist trace" (o_SaveToFile o));
  _ ← (if envBool getenv "ASTRAGRAPH_EXPORT_STRICT"
       then require "export astragraph audit" (o_ExportAstraGraphAudit o) else Ok ());
  Ok (mkRunReport results execTrace (mem_Snapshot (w_metrics engine')) namespace).

(** [ReplayTrace] on a loaded trace: the calls the replay makes, on fresh agents. *)
Definition replay_invoke (agentID : string) (timeout : Z) (input : AgentInput)
    (counts : gmap (string * string) Z) : gmap (string * string) Z * outcome :=
  let '(o, counts') := deterministicAgent agentID None None input counts in (counts', o).

Definition ReplayTrace (getenv : string → string) (tr : ExecutionTrace) : option error :=
  match authorize (getenv "REQUEST_ROLE") DefaultPolicy ActionReplay with
  | Some err => Some err
  | None =>
      let registry := newGenericRegistry (uniqueAgentIDs tr) in
      match (ReplayAndCompare replay_invoke tr (30 * Second) (Get registry) ∅).2 with
      | Some err => Some (Errorf_w ("replay compare failed: " +:+ Error err) err)
      | None => None
      end
  end.

Example invocation_id_checks :
  invocation_id 0 "fetch" = "0001_fetch" ∧ invocation_id 11 "x" = "0012_x" ∧ pad4 12345 = "12345".
Proof. vm_compute. by repeat split. Qed.

(** ** Invocation identifiers *)
Lemma has_char_app c s t : has_char c (s +:+ t) = has_char c s || has_char c t.
Proof.
  unfold has_char. induction s as [|a s IH]; [done|].
  change (String a s +:+ t) with (String a (s +:+ t)). simpl. by rewrite IH, orb_assoc.
Qed.

Lemma pretty_N_char_plain y : (y < 10)%N → Ascii.eqb "_"%char (pretty_N_char y) = false.
Proof.
  intros Hy. assert (y ∈ [0; 1; 2; 3; 4; 5; 6; 7; 8; 9]%N) as H by (rewrite !elem_of_cons; lia).
  by repeat (apply elem_of_cons in H as [->|H]; [done|]); apply elem_of_nil in H.
Qed.

Lemma pretty_N_go_plain x : ∀ s, has_char "_"%char s = false → has_char "_"%char (pretty_N_go x s) = false.
Proof.
  induction (N.lt_wf_0 x) as [x _ IH]. intros s Hs.
  assert (x = 0 ∨ 0 < x)%N as [->|Hx] by lia; [by rewrite pretty_N_go_0|].
  rewrite pretty_N_go_step by done. apply IH; [by apply N.div_lt|].
  unfold has_char in *. simpl. rewrite Hs, orb_false_r. apply pretty_N_char_plain, N.mod_lt. done.
Qed.

Lemma pad4_plain n : 0 ≤ n → has_char "_"%char (pad4 n) = false.
Proof.
  intros Hn. unfold pad4. rewrite has_char_app. apply orb_false_iff. split.
  - generalize (4 - String.length (Itoa n))%nat. intros k. induction k; [done|]. exact IHk.
  - unfold Itoa, pretty, pretty_Z. destruct n as [|p|p]; [done| |lia].
    change (has_char "_"%char (if decide (N.pos p = 0)%N then "0" else pretty_N_go (N.pos p) "") = false).
    case_decide; [done|]. by apply pretty_N_go_plain.
Qed.

Lemma invocation_id_step i j s t : invocation_id i s = invocation_id j t → s = t.
Proof.
  unfold invocation_id. intros H.
  apply (append_sep_inj "_"%char (pad4 (Z.of_nat i + 1)) (pad4 (Z.of_nat j + 1)) s t) in H as [_ H]; [done|..];
    apply pad4_plain; lia.
Qed.

Lemma invocation_ids_snoc ps p :
  invocation_ids (ps ++ [p]) = <[ps_Step p := invocation_id (length ps) (ps_Step p)]> (invocation_ids ps).
Proof. unfold invocation_ids. rewrite imap_app, foldl_app. simpl. by rewrite Nat.add_0_r. Qed.

Lemma invocation_ids_lookup ps : ∀ s id,
  invocation_ids ps !! s = Some id → ∃ i, id = invocation_id i s.
Proof.
  induction ps as [|p ps IH] using rev_ind; intros s id; [done|].
  rewrite invocation_ids_snoc, lookup_insert_Some. intros [[<- <-]|[_ H]]; eauto.
Qed.

Lemma invocation_ids_total ps s : s ∈ ps_Step <$> ps → is_Some (invocation_ids ps !! s).
Proof.
  induction ps as [|p ps IH] using rev_ind; [set_solver|]. intros Hs.
  rewrite invocation_ids_snoc, lookup_insert_is_Some. destruct (decide (ps_Step p = s)); [by left|right].
  split; [done|]. apply IH. set_solver.
Qed.

(** The identifier the plan gives a step. *)
Definition step_id (ordered : list PipelineStep) (s : string) : string := default "" (invocation_ids ordered !! s).

Lemma step_id_inj ordered s t :
  s ∈ ps_Step <$> ordered → t ∈ ps_Step <$> ordered → step_id ordered s = step_id ordered t → s = t.
Proof.
  intros [x Hx]%invocation_ids_total [y Hy]%invocation_ids_total. unfold step_id. rewrite Hx, Hy. simpl.
  apply invocation_ids_lookup in Hx as [i ->]. apply invocation_ids_lookup in Hy as [j ->]. apply invocation_id_step.
Qed.

Lemma step_id_nonempty ordered s : s ∈ ps_Step <$> ordered → step_id ordered s ≠ "".
Proof.
  intros [x Hx]%invocation_ids_total. unfold step_id. rewrite Hx. simpl.
  apply invocation_ids_lookup in Hx as [i ->]. unfold invocation_id. intros H.
  by destruct (pad4 (Z.of_nat i + 1)).
Qed.

(** ** The plan of a manifest *)
Section Plan.
Context (ordered : list PipelineStep) (retryByAgent : gmap string RetryPolicy).
Context (cbByAgent : gmap string CircuitBreakerPolicy) (namespace taskID : string) (now : nat → time).

Definition plan_nodes : list PlanNode :=
  imap (plan_node (invocation_ids ordered) retryByAgent cbByAgent namespace taskID now) ordered.

Lemma plan_nodes_ids : node_id <$> plan_nodes = (λ p, step_id ordered (ps_Step p)) <$> ordered.
Proof. unfold plan_nodes. rewrite fmap_imap. apply imap_const. Qed.

Lemma elem_of_plan_nodes n :
  n ∈ plan_nodes → ∃ i p, ordered !! i = Some p ∧
    n = plan_node (invocation_ids ordered) retryByAgent cbByAgent namespace taskID now i p.
Proof. intros (i & Hi)%list_elem_of_lookup. unfold plan_nodes in Hi. rewrite list_lookup_imap in Hi.
  destruct (ordered !! i) as [p|] eqn:Ep; [|done]. simplify_eq/=. eauto. Qed.

Lemma plan_nodes_edges d n :
  (d, n) ∈ plan_edges plan_nodes →
  ∃ p, p ∈ ordered ∧ ps_DependsOn p ≠ "" ∧ d = step_id ordered (ps_DependsOn p) ∧ n = step_id ordered (ps_Step p).
Proof.
  intros (m & Hm & <- & Hd)%elem_of_plan_edges. apply elem_of_plan_nodes in Hm as (i & p & Hp & ->).
  cbn [plan_node DependsOn] in Hd. case_decide as Hdep; [by apply not_elem_of_nil in Hd|].
  apply list_elem_of_singleton in Hd as ->. exists p. split; [by eapply list_elem_of_lookup_2|]. done.
Qed.

Context (Hnd : NoDup (ps_Step <$> ordered)).
Context (Hdep : ∀ l1 p l2, ordered = l1 ++ p :: l2 → ps_DependsOn p ≠ "" → ps_DependsOn p ∈ ps_Step <$> l1).

Lemma plan_nodes_nodup : NoDup (node_id <$> plan_nodes).
Proof.
  rewrite plan_nodes_ids. change (λ p, step_id ordered (ps_Step p)) with (step_id ordered ∘ ps_Step).
  rewrite list_fmap_compose. apply NoDup_fmap_2_strong; [|done]. intros s t. apply step_id_inj.
Qed.

Lemma plan_nodes_topological : topological (plan_edges plan_nodes) (node_id <$> plan_nodes).
Proof.
  rewrite plan_nodes_ids. intros l1 n l2 Heq d (p & Hp & Hd & -> & ->)%plan_nodes_edges.
  apply fmap_app_inv in Heq as (k1 & k2 & -> & Hk & Ho). symmetry in Hk.
  apply fmap_cons_inv in Hk as (q & k2' & Hq & -> & ->).
  assert (ps_Step q = ps_Step p) as Hqp.
  { apply (step_id_inj ordered); [rewrite Ho; set_solver|set_solver|done]. }
  assert (q = p) as ->.
  { rewrite Ho in Hnd, Hp. rewrite fmap_app, fmap_cons in Hnd.
    apply list_elem_of_lookup in Hp as [j Hj].
    assert (j = length k1) as ->; [|by rewrite list_lookup_middle in Hj; [congruence|done]].
    apply (NoDup_lookup (ps_Step <$> (k1 ++ q :: k2')) j (length k1) (ps_Step p)).
    - by rewrite fmap_app, fmap_cons.
    - by rewrite list_lookup_fmap, Hj.
    - rewrite list_lookup_fmap, list_lookup_middle by done. simpl. by rewrite Hqp. }
  specialize (Hdep k1 p k2' Ho Hd). apply list_elem_of_fmap in Hdep as (x & Hx & Hin).
  rewrite Hx. apply list_elem_of_fmap. eauto.
Qed.

Lemma plan_nodes_wf : ordered ≠ [] → plan_wf (mkExecutionPlan taskID plan_nodes).
Proof.
  intros Hne. unfold plan_wf. cbn [plan_Nodes]. split; [|split; [apply plan_nodes_nodup|split]].
  - intros H. apply (f_equal (fmap node_id)) in H. rewrite plan_nodes_ids in H. by destruct ordered.
  - intros n (i & p & Hp & ->)%elem_of_plan_nodes. apply (step_id_nonempty ordered (ps_Step p)).
    apply list_elem_of_fmap. exists p. split; [done|]. by eapply list_elem_of_lookup_2.
  - intros d n He. pose proof plan_nodes_topological as Ht.
    assert (n ∈ node_id <$> plan_nodes) as Hn.
    { apply elem_of_plan_edges in He as (m & Hm & <- & _). by apply list_elem_of_fmap_2. }
    apply list_elem_of_split in Hn as (l1 & l2 & Heq). specialize (Ht l1 n l2 Heq d He). rewrite Heq. set_solver.
Qed.

Lemma plan_nodes_acyclic : plan_acyclic (mkExecutionPlan taskID plan_nodes).
Proof.
  apply (topological_ranked _ (node_id <$> plan_nodes)); [apply plan_nodes_topological|apply plan_nodes_nodup|].
  intros d n (m & Hm & <- & _)%elem_of_plan_edges. by apply list_elem_of_fmap_2.
Qed.

Lemma plan_nodes_fits :
  Z.of_nat (length ordered) < max_int64 → plan_fits (mkExecutionPlan taskID plan_nodes).
Proof.
  intros Hlen. unfold plan_fits. cbn [plan_Nodes]. eapply Z.le_lt_trans; [|exact Hlen]. apply inj_le.
  transitivity (length plan_nodes); [|unfold plan_nodes; by rewrite length_imap].
  assert (Forall (λ n, (length (DependsOn n) ≤ 1)%nat) plan_nodes) as H1.
  { apply Forall_forall. intros n (i & p & _ & ->)%elem_of_plan_nodes. cbn [plan_node DependsOn]. case_decide; simpl; lia. }
  induction H1 as [|n ns Hn _ IH]; [done|]. rewrite plan_edges_cons, length_app, length_fmap. simpl. lia.
Qed.
End Plan.

(** *** The registry, through the interface of the resolver *)
Lemma register_agents_ok agents : ∀ r,
  NoDup (ab_ID <$> agents) →
  Forall (λ a, ab_ID a ≠ "" ∧ resolve (F:=string) r (ab_ID a) = None) agents →
  ∃ r', register_agents r agents = Ok r' ∧
    (∀ a, a ∈ agents → resolve r' (ab_ID a) = Some (ab_ID a)) ∧
    (∀ id, id ∉ ab_ID <$> agents → resolve (F:=string) r' id = resolve r id).
Proof.
  induction agents as [|a agents IH]; intros r Hnd Hfree.
  { exists r. split; [done|]. split; [set_solver|done]. }
  rewrite fmap_cons, NoDup_cons in Hnd. destruct Hnd as [Hn Hnd].
  apply Forall_cons in Hfree as [[Hid Hr] Hfree]. cbn [register_agents].
  pose proof (register_free r (ab_ID a) (ab_ID a) Hid Hr) as Hok.
  change (Register r (ab_ID a) (Some (ab_ID a))) with (register r (ab_ID a) (ab_ID a)).
  destruct (register r (ab_ID a) (ab_ID a)) as [r1|] eqn:E; [|done].
  assert (∀ id, id ≠ ab_ID a → resolve r1 id = resolve (F:=string) r id) as Hframe
    by (intros id Hne; by apply (resolve_frame r (ab_ID a) (ab_ID a))).
  destruct (IH r1 Hnd) as (r' & Hr' & Hin & Hout).
  { apply Forall_forall. intros b Hb. rewrite Forall_forall in Hfree. destruct (Hfree b Hb). split; [done|].
    rewrite Hframe; [done|]. intros He. apply Hn. rewrite <- He. by apply list_elem_of_fmap_2. }
  exists r'. split; [done|]. split.
  - intros b [->|Hb]%elem_of_cons; [|by apply Hin]. rewrite Hout by done. by eapply resolve_registered.
  - intros id Hni. rewrite fmap_cons, not_elem_of_cons in Hni. rewrite Hout by tauto. apply Hframe. tauto.
Qed.

Lemma agent_policies_ok agents cb : ∀ rm cm,
  NoDup (ab_ID <$> agents) → (∀ a, a ∈ agents → is_ok (CircuitBreakerPolicyFromConfig (ab_CircuitBreaker a) cb) = true) →
  ∃ rm' cm', agent_policies agents cb rm cm = Ok (rm', cm') ∧
    (∀ a, a ∈ agents → rm' !! ab_ID a = Some (RetryPolicyFromConfig (ab_Retry a)) ∧
       ∃ p, cm' !! ab_ID a = Some p ∧ CircuitBreakerPolicyFromConfig (ab_CircuitBreaker a) cb = Ok p) ∧
    (∀ id, id ∉ ab_ID <$> agents → rm' !! id = rm !! id ∧ cm' !! id = cm !! id).
Proof.
  induction agents as [|a agents IH]; intros rm cm Hnd Hok.
  { exists rm, cm. split; [done|]. split; [set_solver|done]. }
  rewrite fmap_cons, NoDup_cons in Hnd. destruct Hnd as [Hn Hnd]. cbn [agent_policies].
  pose proof (Hok a (list_elem_of_here _ _)) as Ha.
  destruct (CircuitBreakerPolicyFromConfig (ab_CircuitBreaker a) cb) as [p|] eqn:Ep; [|done].
  destruct (IH (<[ab_ID a := RetryPolicyFromConfig (ab_Retry a)]> rm) (<[ab_ID a := p]> cm) Hnd)
    as (rm' & cm' & Hp & Hin & Hout); [intros b Hb; apply Hok; by right|].
  exists rm', cm'. split; [done|]. split.
  - intros b [->|Hb]%elem_of_cons; [|by apply Hin]. destruct (Hout (ab_ID a) Hn) as [-> ->].
    rewrite !lookup_insert_eq. eauto.
  - intros id Hni. rewrite fmap_cons, not_elem_of_cons in Hni. destruct Hni as [Hne Hni].
    destruct (Hout id Hni) as [-> ->]. by rewrite !lookup_insert_ne.
Qed.

Lemma manifest_runs (m : Manifest) namespace defaultCB now :
  manifest_fits m → ValidateManifest m = None →
  ∃ registry plan g,
    buildRegistry m = Ok registry ∧ buildExecutionPlan m namespace defaultCB now = Ok plan ∧
    buildGraph plan = Ok g ∧
    (λ n, inv_AgentID (Invocation n)) <$> plan_Nodes plan ≡ₚ ps_Step <$> m_Pipeline m ∧
    ∀ n, n ∈ plan_Nodes plan → ∃ a, a ∈ m_Agents m ∧ inv_AgentID (Invocation n) = ab_ID a ∧
      Get registry (ab_ID a) = Some (ab_ID a) ∧
      pn_RetryPolicy n = RetryPolicyFromConfig (ab_Retry a) ∧
      CircuitBreakerPolicyFromConfig (ab_CircuitBreaker a) defaultCB = Ok (pn_CircuitBreakerPolicy n).
Proof.
  intros Hfits [Hwf Hok]%ValidateManifest_checks.
  destruct (OrderedPipeline_ok m Hfits (mw_wf _ Hwf)) as [(o & Ho & [Hp Ht] & _)|[Ho _]]; [|by rewrite Ho in Hok].
  destruct Hwf as [_ Hne _ _ [Hag Hagnd] Hsteps [Hnd _]]. rewrite Forall_forall in Hag. rewrite Forall_forall in Hsteps.
  destruct (register_agents_ok (m_Agents m) (newGenericRegistry [])) as (reg & Hreg & Hres & _); [done|..].
  { apply Forall_forall. intros a Ha. by destruct (Hag a Ha). }
  destruct (agent_policies_ok (m_Agents m) defaultCB ∅ ∅ Hagnd) as (rm & cm & Hpol & Hin & _).
  { intros a Ha. destruct (Hag a Ha) as (_ & _ & H1 & H2). by apply CircuitBreakerPolicy_total. }
  set (nodes := plan_nodes o rm cm namespace (namespace +:+ ".task_demo") now).
  assert (NoDup (ps_Step <$> o)) as Hndo by (by rewrite Hp).
  assert (∀ l1 p l2, o = l1 ++ p :: l2 → ps_DependsOn p ≠ "" → ps_DependsOn p ∈ ps_Step <$> l1) as Hdep.
  { intros l1 p l2 Heq Hd. apply (Ht (ps_Step <$> l1) (ps_Step p) (ps_Step <$> l2)); [by rewrite Heq, fmap_app|].
    apply elem_of_pipeline_edges. exists p. split; [|done]. rewrite <- Hp, Heq. set_solver. }
  destruct (proj2 (buildGraph_Ok_iff (mkExecutionPlan (namespace +:+ ".task_demo") nodes)
    ltac:(apply plan_nodes_fits; by rewrite Hp))) as [g Hg].
  { split; [apply plan_nodes_wf; try done|by apply plan_nodes_acyclic]. intros ->. by apply Permutation_nil_l in Hp. }
  exists reg, (mkExecutionPlan (namespace +:+ ".task_demo") nodes), g.
  split; [done|]. split; [unfold buildExecutionPlan; by rewrite Ho, Hpol|]. split; [done|]. cbn [plan_Nodes]. split.
  - subst nodes. unfold plan_nodes. rewrite fmap_imap. rewrite <- Hp. apply Permutation_refl'. apply imap_const.
  - intros n (i & p & Hi & ->)%elem_of_plan_nodes. cbn [plan_node Invocation inv_AgentID pn_RetryPolicy pn_CircuitBreakerPolicy].
    assert (p ∈ m_Pipeline m) as Hpm by (rewrite <- Hp; by eapply list_elem_of_lookup_2).
    destruct (Hsteps p Hpm) as [_ (a & Ha & Hain)%list_elem_of_fmap].
    destruct (Hin a Hain) as (Hr & cp & Hc & Hcc).
    exists a. rewrite Ha, Hr, Hc. split; [done|]. split; [done|]. split; [by apply Hres|done].
Qed.

(** ** Properties *)

(** For a manifest that validates, the registry and the execution plan can
    be built, the engine's buildGraph accepts the plan, the plan has one node per step, and every
    node's agent is declared in the manifest, resolves in the registry, and carries the retry and
    breaker policies the manifest gives it. *)
Theorem valid_manifest_runs (m : Manifest) namespace defaultCB now :
  manifest_fits m → ValidateManifest m = None →
  ∃ registry plan g,
    buildRegistry m = Ok registry ∧ buildExecutionPlan m namespace defaultCB now = Ok plan ∧
    buildGraph plan = Ok g ∧
    (λ n, inv_AgentID (Invocation n)) <$> plan_Nodes plan ≡ₚ ps_Step <$> m_Pipeline m ∧
    ∀ n, n ∈ plan_Nodes plan → ∃ a, a ∈ m_Agents m ∧ inv_AgentID (Invocation n) = ab_ID a ∧
      Get registry (ab_ID a) = Some (ab_ID a) ∧
      pn_RetryPolicy n = RetryPolicyFromConfig (ab_Retry a) ∧
      CircuitBreakerPolicyFromConfig (ab_CircuitBreaker a) defaultCB = Ok (pn_CircuitBreakerPolicy n).
Proof. apply manifest_runs. Qed.

Lemma OrderedPipeline_length m ordered : OrderedPipeline m = Ok ordered → length ordered = length (m_Pipeline m).
Proof.
  unfold OrderedPipeline. destruct (foldl count_edge (∅, ∅) (m_Pipeline m)) as [inDeg children].
  destruct (order_loop _ _ _ _ _) as [names|]; [|done]. case_decide; [|done]. intros [= <-]. by rewrite length_fmap.
Qed.

Lemma buildExecutionPlan_inv m ns cb now plan :
  buildExecutionPlan m ns cb now = Ok plan →
  ∃ ordered rm cm, OrderedPipeline m = Ok ordered ∧
    plan = mkExecutionPlan (ns +:+ ".task_demo") (plan_nodes ordered rm cm ns (ns +:+ ".task_demo") now).
Proof.
  unfold buildExecutionPlan. destruct (OrderedPipeline m) as [o|]; [|done].
  destruct (agent_policies _ _ _ _) as [[rm cm]|]; [|done]. cbn. intros [= <-]. by exists o, rm, cm.
Qed.

Lemma buildExecutionPlan_fits m ns cb now plan :
  manifest_fits m → buildExecutionPlan m ns cb now = Ok plan → plan_fits plan.
Proof.
  intros Hf (o & rm & cm & Ho & ->)%buildExecutionPlan_inv. apply plan_nodes_fits.
  by rewrite (OrderedPipeline_length _ _ Ho).
Qed.

Lemma buildExecutionPlan_task m ns cb now plan :
  buildExecutionPlan m ns cb now = Ok plan → plan_TaskID plan = ns +:+ ".task_demo".
Proof. by intros (o & rm & cm & Ho & ->)%buildExecutionPlan_inv. Qed.

Lemma RouterConfig_total m base :
  duration_ok (rs_DefaultTimeout (m_Router m)) → is_ok (RouterConfigFromManifest m base) = true.
Proof.
  unfold RouterConfigFromManifest, duration_ok. case_decide; [done|]. by destruct (ParseDuration _); intros [].
Qed.

Lemma NewEngine_pool cfg : 1 ≤ WorkerPoolSize (NewEngine_cfg cfg).
Proof. unfold NewEngine_cfg. cbn [WorkerPoolSize]. destruct (Z.leb_spec (WorkerPoolSize cfg) 0); lia. Qed.

(** Every outside call succeeds. *)
Definition all_well : outside := mkOutside None None None None None None.


(** Manifests of one and of two steps. *)
Definition one_agent (id : string) (attempts : Z) : AgentBinding :=
  mkAgentBinding id (mkRetryConfig attempts "") (mkCircuitBreakerConfig 0 "" "").
Definition two_steps (a b : string) (attempts : Z) : Manifest :=
  mkManifest (mkRouterSettings 0 0 "" "" (mkRBAC [] [] [] []))
    [one_agent a attempts; one_agent b attempts] [mkPipelineStep b a; mkPipelineStep a ""].
Definition no_env : string → string := λ _, "".
Definition report_of (m : Manifest) : option RunReport :=
  match RunManifestReport (one_by_one app_env (100, ∅)) no_env all_well m (λ _, 7) with Ok r => Some r | Err _ => None end.

(** A run of two ordinary agents replays without divergence;
    a run in which an agent fails transiently and then succeeds has no failed result, but its
    trace does not replay, because the fresh agent of the replay fails transiently again; and a
    panic is recorded with a text that the replayed panic does not have. *)
Theorem plain_run_replays_flaky_does_not :
  (∃ r, report_of (two_steps "fetch" "write" 2) = Some r ∧
     Forall (λ x, res_Err x = None) (rep_Results r) ∧ ReplayTrace no_env (rep_Trace r) = None) ∧
  (∃ r, report_of (two_steps "flaky_fetch" "write" 2) = Some r ∧
     Forall (λ x, res_Err x = None) (rep_Results r) ∧ ReplayTrace no_env (rep_Trace r) ≠ None) ∧
  (∃ r, report_of (two_steps "fetch" "panic_write" 2) = Some r ∧ ReplayTrace no_env (rep_Trace r) ≠ None).
Proof.
  split; [|split]; eexists; (split; [vm_compute; reflexivity|]); vm_compute; repeat (split || constructor); discriminate.
Qed.

Lemma valid_manifest_runs_witness :
  ∃ plan g, buildExecutionPlan (two_steps "fetch" "write" 2) "default" CircuitBreakerPolicy_zero (λ _, 7) = Ok plan ∧
    buildGraph plan = Ok g.
Proof.
  destruct (valid_manifest_runs (two_steps "fetch" "write" 2) "default" CircuitBreakerPolicy_zero (λ _, 7))
    as (reg & plan & g & _ & Hp & Hg & _); [vm_compute; reflexivity..|].
  exists plan, g. split; [exact Hp|exact Hg].
Defined.

Definition admin_env : string → string := λ name, if decide (name = "REQUEST_ROLE") then "admin" else "".

