(* ===== verification/AppIo.v ===== *)
(** * The entry points of internal/app: run.go and tools.go with their files and output

    [RunManifest], [RunManifestReport], [ValidateManifest], [ReplayTrace], [DebugTrace] from the
    path of a file to the text they print: loading, the audit record every deferred call writes,
    the trace file, the exporter and the structured logs.  What a function prints on its writer is
    part of its result; the file system, the YAML decoder and the services are parameters. *)

From S2P Require Import Prelude GoErrors GoStrings GoTime Utf8 GoDuration Json Rfc3339 JsonCodec JsonAny GoPath Os AgentFunc.
From S2P Require Import Registry CircuitBreaker Trace TraceFile AstraGraph AuditLog Metrics PlanGraph Engine Scheduler Access Manifest App.

Definition ln (s : string) : string := s +:+ string_of_bytes [10].

Section Io.
Context {FS : Type} `{!FileSystem FS}.
(** The zone of a clock reading; the errors of encoding/json; the YAML decoder; the client of the
    exporter. *)
Context (zone : time → Z) (marshal_error : ExecutionTrace → error) (unmarshal_error : string → error).
Context (yaml_Unmarshal : string → result error Manifest).
Context (new_request_error : string → option error) (post : string → list (string * string) → string → result error Z).
Context (getenv : string → string).

(** config.LoadManifest. *)
Definition LoadManifest (fs : FS) (path : string) : result error Manifest :=
  match ReadFile fs path with
  | Err err => Err (Errorf_w ("manifest: read " +:+ Quote path +:+ ": " +:+ Error err) err)
  | Ok b =>
      match yaml_Unmarshal b with
      | Err err => Err (Errorf_w ("manifest: unmarshal " +:+ Quote path +:+ ": " +:+ Error err) err)
      | Ok m => match ValidateManifest m with Some err => Err err | None => Ok m end
      end
  end.

(** The deferred record of an action; its own error is dropped. *)
Definition audited {A} (action : Action) (resource : string) (now : time) (fs : FS) (r : result error A) : FS :=
  let logger := NewLogger (TrimSpace (getenv "AUDIT_LOG_PATH")) in
  let actor := currentRole (getenv "REQUEST_ROLE") in
  let '(status, err) := match r with Ok _ => ("success", None) | Err err => ("error", Some err) end in
  (Write logger fs now actor action resource status err).1.

(** What a run leaves behind: the trace file and the exported entries.  An export that fails is an
    error only in strict mode, otherwise a warning on standard error. *)
Definition persist (now : time) (fs : FS) (report : RunReport) : FS * result error RunReport * string :=
  let tracePath := getenv "TRACE_OUTPUT" in
  let '(fs1, saved) :=
    if decide (tracePath = "") then (fs, None) else SaveToFile zone marshal_error fs tracePath (rep_Trace report) in
  match require "persist trace" saved with
  | Err err => (fs1, Err err, "")
  | Ok _ =>
      let '(fs2, (_, exported)) :=
        ExportAstraGraphAudit new_request_error post getenv fs1 (rep_Trace report) (rep_Namespace report) now in
      match exported with
      | None => (fs2, Ok report, "")
      | Some err =>
          if envBool getenv "ASTRAGRAPH_EXPORT_STRICT"
          then (fs2, Err (Errorf_w ("export astragraph audit: " +:+ Error err) err), "")
          else (fs2, Ok report, ln ("fluxroute: warning: astragraph export failed: " +:+ Error err))
      end
  end.

Section Run.
Context (run_plan : schedule).

(** [RunManifestReport] on a path: the files after it, the report, the warnings on standard error.
    [o] are the lease, the tracing and the metrics server; [clock] the readings of the plan. *)
Definition RunManifestReport_at (o : outside) (clock : nat → time) (now : time) (fs : FS) (manifestPath : string) :
    FS * result error RunReport * string :=
  let '(fs', r, warnings) :=
    match wrap_error "load manifest" (LoadManifest fs manifestPath) with
    | Err err => (fs, Err err, "")
    | Ok manifest =>
        let o := mkOutside (o_acquireLease o) (o_SetupOTel o) (o_NewPrometheusRecorder o) (o_StartPrometheusServer o) None None in
        match RunManifestReport run_plan getenv o manifest clock with
        | Err err => (fs, Err err, "")
        | Ok report => persist now fs report
        end
    end in
  (audited ActionRun manifestPath now fs' r, r, warnings).

(** The lines about the results. *)
Definition result_line (r : AgentResult) : string :=
  let name := "- " +:+ inv_ID (res_Invocation r) +:+ " (" +:+ inv_AgentID (res_Invocation r) +:+ "): " in
  ln (name +:+ match res_Err r with
               | Some err => "error=" +:+ Error err
               | None => "ok duration=" +:+ Duration_String (out_Duration (res_Output r))
               end).

Definition failed_count (rs : list AgentResult) : Z := Z.of_nat (length (filter (λ r, is_Some (res_Err r)) rs)).

(** One structured log entry; [now] is the clock. *)
Definition log_entry (now : time) (namespace : string) (r : AgentResult) : json :=
  let '(status, errText) := match res_Err r with Some err => ("error", Error err) | None => ("success", "") end in
  any_map ([("level", JString "info"); ("ts", JString (utc_text now));
            ("task_id", JString (in_TaskID (inv_Input (res_Invocation r))));
            ("request_id", JString (in_RequestID (inv_Input (res_Invocation r))));
            ("agent_id", JString (inv_AgentID (res_Invocation r)));
            ("namespace", JString namespace); ("attempt", enc_int 1);
            ("duration_ms", enc_int (Z.quot (out_Duration (res_Output r)) 1000000)); ("status", JString status)] ++
           (if decide (errText = "") then [] else [("error", JString errText)])).

Definition emitStructuredLogs (now : nat → time) (report : RunReport) : string :=
  String.concat "" (imap (λ i r, ln (Marshal (log_entry (now i) (rep_Namespace report) r))) (rep_Results report)).

Definition metrics_lines (m : Snapshot) : string :=
  ln ("metrics total_invocations=" +:+ Itoa (TotalInvocations m) +:+ " errors=" +:+ Itoa (ErrorInvocations m) +:+
      " retries=" +:+ Itoa (RetryAttempts m)) +:+
  (if 0 <? CircuitOpens m then ln ("metrics circuit_opens=" +:+ Itoa (CircuitOpens m)) else "").

Definition run_summary (manifestPath : string) (log_clock : nat → time) (report : RunReport) : string :=
  ln ("router executed " +:+ Itoa (Z.of_nat (length (rep_Results report))) +:+ " invocation(s) from " +:+ manifestPath +:+
      " (namespace=" +:+ rep_Namespace report +:+ ")") +:+
  String.concat "" (result_line <$> rep_Results report) +:+
  emitStructuredLogs log_clock report +:+ metrics_lines (rep_Metrics report).

Definition RunManifest (o : outside) (clock log_clock : nat → time) (now : time) (fs : FS) (manifestPath : string) :
    FS * string * string * option error :=
  let '(fs', r, warnings) := RunManifestReport_at o clock now fs manifestPath in
  match r with
  | Err err => (fs', "", warnings, Some err)
  | Ok report =>
      let failed := failed_count (rep_Results report) in
      (fs', run_summary manifestPath log_clock report, warnings,
       if 0 <? failed then Some (Errorf ("pipeline completed with " +:+ Itoa failed +:+ " failed invocation(s)")) else None)
  end.
End Run.

(** [ValidateManifest] of internal/app. *)
Definition ValidateManifest_at (now : time) (fs : FS) (manifestPath : string) : FS * option error :=
  let r : result error () :=
    match wrap_error "validate manifest" (LoadManifest fs manifestPath) with
    | Err err => Err err
    | Ok manifest =>
        match wrap_error "validate manifest policy" (RBACPolicyFromManifest manifest) with
        | Err err => Err err
        | Ok policy => match authorize (getenv "REQUEST_ROLE") policy ActionValidate with Some err => Err err | None => Ok () end
        end
    end in
  (audited ActionValidate manifestPath now fs r, match r with Ok _ => None | Err err => Some err end).

(** [ReplayTrace] on a path; the text it prints. *)
Definition ReplayTrace_at (now : time) (fs : FS) (tracePath : string) : FS * string * option error :=
  let r : result error string :=
    match authorize (getenv "REQUEST_ROLE") DefaultPolicy ActionReplay with
    | Some err => Err err
    | None =>
        match wrap_error "load trace" (LoadFromFile unmarshal_error fs tracePath) with
        | Err err => Err err
        | Ok tr =>
            match ReplayTrace getenv tr with
            | Some err => Err err
            | None => Ok (ln ("replay matched recorded outputs for " +:+ Itoa (Z.of_nat (length (tr_Steps tr))) +:+ " step(s)"))
            end
        end
    end in
  (audited ActionReplay tracePath now fs r,
   match r with Ok text => text | Err _ => "" end, match r with Ok _ => None | Err err => Some err end).

(** tools.go: [DebugTrace]. *)
Definition DebugTrace (fs : FS) (expectedPath actualPath : string) : string * option error :=
  match LoadFromFile unmarshal_error fs expectedPath with
  | Err err => ("", Some err)
  | Ok expected =>
      match LoadFromFile unmarshal_error fs actualPath with
      | Err err => ("", Some err)
      | Ok actual =>
          let div := Compare expected actual in
          (ln (FormatDivergence div),
           match div with
           | [] => None
           | _ => Some (Errorf ("trace divergence found: " +:+ Itoa (Z.of_nat (length div)) +:+ " issue(s)"))
           end)
      end
  end.
End Io.

(** Without a trace file and a file for the exporter, a run leaves the files alone. *)
Lemma export_no_file {FS} `{!FileSystem FS} req post getenv (fs : FS) tr ns now :
  TrimSpace (getenv "ASTRAGRAPH_AUDIT_PATH") = "" →
  (ExportAstraGraphAudit req post getenv fs tr ns now).1 = fs.
Proof.
  intros Hp. unfold ExportAstraGraphAudit. destruct (buildAstraGraphEntries tr ns now); [done|]. by rewrite decide_True.
Qed.

Lemma persist_no_files {FS} `{!FileSystem FS} zone merr req post getenv now (fs : FS) report :
  getenv "TRACE_OUTPUT" = "" → TrimSpace (getenv "ASTRAGRAPH_AUDIT_PATH") = "" →
  (persist zone merr req post getenv now fs report).1.1 = fs.
Proof.
  intros Ht Ha. unfold persist. rewrite decide_True by done. cbn [require].
  pose proof (export_no_file req post getenv fs (rep_Trace report) (rep_Namespace report) now Ha) as He.
  destruct (ExportAstraGraphAudit _ _ _ _ _ _ _) as [fs2 [path [err|]]]; cbn [fst] in He; subst fs2; [by case_match|done].
Qed.

(** ** Every entry point is audited *)
Section Audited.
Context {FS : Type} `{FileSystemLaws FS}.

(** Lines can be appended to the log. *)
Definition log_writable (path : string) : Prop :=
  ∀ fs : FS, (MkdirAll fs (Dir path)).2 = None ∧ (OpenAppend fs path).2 = None ∧ ∀ text, (AppendFile fs path text).2 = None.

Definition audit_event {A} (getenv : string → string) (action : Action) (resource : string) (now : time) (r : result error A) :
    Event :=
  new_event now (currentRole (getenv "REQUEST_ROLE")) action resource
    (if is_ok r then "success" else "error") (match r with Ok _ => None | Err err => Some err end).

Lemma write_succeeds path fs now actor action resource status err : path ≠ "" → log_writable path →
  (Write (NewLogger path) fs now actor action resource status err).2 = None.
Proof.
  intros Hp Hw. unfold Write, NewLogger. cbn [Enabled lg_path]. rewrite bool_decide_false by done. cbn [negb].
  destruct (MkdirAll fs (Dir path)) as [fs1 [?|]] eqn:E1; [destruct (Hw fs) as [H1 _]; rewrite E1 in H1; discriminate H1|].
  destruct (OpenAppend fs1 path) as [fs2 [?|]] eqn:E2; [destruct (Hw fs1) as (_ & H2 & _); rewrite E2 in H2; discriminate H2|].
  destruct (Hw fs2) as (_ & _ & H3). generalize (Marshal (enc_event (new_event now actor action resource status err)) +:+ string_of_bytes [line_feed]).
  intros text. specialize (H3 text). destruct (AppendFile fs2 path text) as [fs3 [?|]]; [discriminate H3|reflexivity].
Qed.

Lemma write_appends path fs now actor action resource status err : path ≠ "" → log_writable path →
  contents (Write (NewLogger path) fs now actor action resource status err).1 path =
  contents fs path ++ event_line (new_event now actor action resource status err).
Proof.
  intros Hp Hw. pose proof (write_succeeds path fs now actor action resource status err Hp Hw) as Hs.
  destruct (Write _ _ _ _ _ _ _ _) as [fs' e] eqn:E. cbn [fst snd] in Hs |- *. subst e.
  apply write_line in E as (text & Hr & Ht); [|done]. unfold contents at 1. by rewrite Hr.
Qed.

Lemma audited_line {A} getenv action resource now fs (r : result error A) path :
  TrimSpace (getenv "AUDIT_LOG_PATH") = path → path ≠ "" → log_writable path →
  contents (audited getenv action resource now fs r) path =
  contents fs path ++ event_line (audit_event getenv action resource now r).
Proof.
  intros Hpath Hp Hw. unfold audited, audit_event. rewrite Hpath.
  destruct r as [a|err]; by apply write_appends.
Qed.

(** C12: with an audit log that can be written, each of running, validating and
    replaying, whether it succeeds or fails anywhere, ends by appending to the log one line with
    the caller's role, the action, the path, and success or the error that is returned; a run
    that writes no trace and no export has appended nothing else, a validation or a replay never
    has. *)
Theorem entry_points_audited zone merr uerr yaml req post getenv (run_plan : schedule) o clock now (fs : FS) p path :
  TrimSpace (getenv "AUDIT_LOG_PATH") = path → path ≠ "" → log_writable path →
  (let '(fs', r, _) := RunManifestReport_at zone merr yaml req post getenv run_plan o clock now fs p in
   ∃ before, contents fs' path = before ++ event_line (audit_event getenv ActionRun p now r) ∧
     (getenv "TRACE_OUTPUT" = "" → TrimSpace (getenv "ASTRAGRAPH_AUDIT_PATH") = "" → before = contents fs path)) ∧
  (let '(fs', err) := ValidateManifest_at yaml getenv now fs p in
   contents fs' path = contents fs path ++
     event_line (audit_event getenv ActionValidate p now (match err with None => Ok () | Some e => Err e end))) ∧
  (let '(fs', _, err) := ReplayTrace_at uerr getenv now fs p in
   contents fs' path = contents fs path ++
     event_line (audit_event getenv ActionReplay p now (match err with None => Ok () | Some e => Err e end))).
Proof.
  intros Hpath Hp Hw. split; [|split].
  - unfold RunManifestReport_at. set (run := match wrap_error _ _ with Ok _ => _ | Err _ => _ end).
    assert (getenv "TRACE_OUTPUT" = "" → TrimSpace (getenv "ASTRAGRAPH_AUDIT_PATH") = "" → run.1.1 = fs) as Hn.
    { subst run. repeat case_match; try done. apply persist_no_files. }
    destruct run as [[fs' r] wrn]. exists (contents fs' path). split; [by apply audited_line|].
    intros Ht Ha. by rewrite <- (Hn Ht Ha).
  - unfold ValidateManifest_at. set (r := match wrap_error _ _ with Ok _ => _ | Err _ => _ end).
    rewrite (audited_line _ _ _ _ _ r path) by done. by destruct r as [[]|].
  - unfold ReplayTrace_at. set (r := match authorize _ _ _ with Some _ => _ | None => _ end).
    rewrite (audited_line _ _ _ _ _ r path) by done. by destruct r.
Qed.
End Audited.

Lemma entry_points_audited_witness :
  let getenv := λ k, if decide (k = "AUDIT_LOG_PATH") then "audit.log" else "" in
  let fs := {[ "m.yaml" := "text" ]} : gmap string string in
  let '(fs', err) := ValidateManifest_at (λ _, Ok (two_steps "a" "b" 1)) getenv 0 fs "m.yaml" in
  err = None ∧ contents fs' "audit.log" = bytes (dq "{'ts':'0001-01-01T00:00:00Z','actor':'operator','action':'validate_manifest','resource':'m.yaml','status':'success'}
").
Proof.
  intros getenv fs.
  destruct (entry_points_audited (λ _, 0) (λ _, Errorf "") Errorf (λ _, Ok (two_steps "a" "b" 1)) (λ _, None)
    (λ _ _ _, Ok 200) getenv (one_by_one app_env (100, ∅)) all_well (λ _, 0) 0 fs "m.yaml" "audit.log") as (_ & H & _);
    [vm_compute; reflexivity|done|done|].
  destruct (ValidateManifest_at _ _ _ _ _) as [fs' err] eqn:E.
  assert (err = None) as -> by (apply (f_equal snd) in E; vm_compute in E; by rewrite <- E). split; [done|].
  rewrite H. vm_compute. reflexivity.
Defined.
