(* ===== verification/Scaffold.v ===== *)
(** * Project scaffolds: internal/scaffold and ScaffoldProject of internal/app/tools.go

    [Generate] writes a manifest of two steps, a Go stub per agent and a README. *)

From S2P Require Import Prelude GoErrors GoStrings GoTime Utf8 Json GoPath Os Access Manifest AppIo.

(** [strings.ToUpper] of one byte, which is not valid UTF-8 by itself outside ASCII. *)
Definition upper_byte (b : Z) : list Z :=
  if (97 <=? b) && (b <=? 122) then [b - 32] else if b <? 128 then [b] else [239; 191; 189].

Definition func_part (p : list Z) : list Z := match p with [] => [] | b :: p' => upper_byte b ++ p' end.

Definition toFuncName (agentID : string) : string :=
  let out := concat (func_part <$> split_on 95 (bytes agentID)) in
  match out with [] => "GeneratedAgent" | _ => string_of_bytes out end.

Definition manifest_text (pipelineName agentA agentB : string) : string :=
  "router:
  worker_pool_size: 4
  channel_buffer: 16
  default_timeout: 10s
  namespace: " +:+ pipelineName +:+ "
  rbac:
    run_roles: [operator, admin]
    validate_roles: [viewer, operator, admin]
    replay_roles: [operator, admin]

agents:
  - id: " +:+ agentA +:+ "
    retry:
      max_attempts: 1
      backoff: linear
    circuit_breaker:
      failure_threshold: 3
      reset_timeout: 30s
      probe_timeout: 5s
  - id: " +:+ agentB +:+ "
    retry:
      max_attempts: 1
      backoff: linear
    circuit_breaker:
      failure_threshold: 3
      reset_timeout: 30s
      probe_timeout: 5s

pipeline:
  - step: " +:+ agentA +:+ "
  - step: " +:+ agentB +:+ "
    depends_on: " +:+ agentA +:+ "
".

Definition agentStub (agentID : string) : string :=
  dq "package agents

import (
	'context'

	'github.com/your-org/fluxroute/pkg/agentfunc'
)

func " +:+ toFuncName agentID +:+ dq "(ctx context.Context, input agentfunc.AgentInput) (agentfunc.AgentOutput, error) {
	select {
	case <-ctx.Done():
		return agentfunc.AgentOutput{}, ctx.Err()
	default:
	}
	return agentfunc.AgentOutput{RequestID: input.RequestID, Payload: input.Payload}, nil
}
".

Definition readme_text (pipelineName : string) : string :=
  "# " +:+ pipelineName +:+ " pipeline scaffold

Run with:

```bash
fluxroute-cli run manifests/pipeline.yaml
```
".

(** The names of the two agents. *)
Definition pipeline_name (pipelineName : string) : string :=
  if decide (TrimSpace pipelineName = "") then "sample" else pipelineName.
Definition step_name (pipelineName suffix : string) : string := pipeline_name pipelineName +:+ suffix.

Section Files.
Context {FS : Type} `{!FileSystem FS}.

(** [if err := f(...); err != nil { return fmt.Errorf("what: %w", err) }], then the rest. *)
Definition try (what : string) (r : FS * option error) (rest : FS → FS * option error) : FS * option error :=
  match r with
  | (fs, Some err) => (fs, Some (Errorf_w (what +:+ ": " +:+ Error err) err))
  | (fs, None) => rest fs
  end.

Definition Generate (fs : FS) (targetDir pipelineName : string) : FS * option error :=
  if decide (TrimSpace targetDir = "") then (fs, Some (Errorf "target directory is empty"))
  else
    let name := pipeline_name pipelineName in
    let agentA := step_name pipelineName "_step_a" in
    let agentB := step_name pipelineName "_step_b" in
    try "mkdir agents" (MkdirAll fs (Join [targetDir; "agents"])) (λ fs,
    try "mkdir manifests" (MkdirAll fs (Join [targetDir; "manifests"])) (λ fs,
    try "write manifest" (WriteFile fs (Join [targetDir; "manifests"; "pipeline.yaml"]) (manifest_text name agentA agentB)) (λ fs,
    try "write agent A stub" (WriteFile fs (Join [targetDir; "agents"; agentA +:+ ".go"]) (agentStub agentA)) (λ fs,
    try "write agent B stub" (WriteFile fs (Join [targetDir; "agents"; agentB +:+ ".go"]) (agentStub agentB)) (λ fs,
    try "write scaffold README" (WriteFile fs (Join [targetDir; "README.md"]) (readme_text name)) (λ fs,
    (fs, None))))))).

(** [ScaffoldProject]: the files, the text printed, the error. *)
Definition ScaffoldProject (fs : FS) (targetDir pipelineName : string) : FS * string * option error :=
  match Generate fs targetDir pipelineName with
  | (fs', Some err) => (fs', "", Some err)
  | (fs', None) => (fs', ln ("scaffold generated at " +:+ targetDir), None)
  end.
End Files.

Example scaffold_checks :
  toFuncName "my_flow_step_a" = "MyFlowStepA" ∧ toFuncName "__" = "GeneratedAgent" ∧
  toFuncName "customer-support_step_a" = "Customer-supportStepA" ∧
  (Generate (∅ : gmap string string) "./out" "flow").1 !! "out/agents/flow_step_a.go" = Some (agentStub "flow_step_a").
Proof. vm_compute. repeat split; reflexivity. Qed.

(** ** Function names *)
Definition letter (b : Z) : bool := ((97 <=? b) && (b <=? 122)) || ((65 <=? b) && (b <=? 90)).
Definition alnum (b : Z) : bool := letter b || ((48 <=? b) && (b <=? 57)).

(** An exported Go identifier of ASCII letters and digits. *)
Definition exported (s : string) : Prop :=
  ∃ b l, bytes s = b :: l ∧ 65 ≤ b ≤ 90 ∧ Forall (λ c, alnum c = true) l.

Lemma split_on_spec (P : Z → Prop) c l : Forall (λ x, x = c ∨ P x) l → Forall (Forall P) (split_on c l).
Proof.
  induction 1 as [|x l Hx _ IH]; cbn; [by repeat constructor|]. destruct (Z.eqb_spec x c) as [|Hne]; [by constructor|].
  destruct (split_on c l) as [|w ws]; [repeat constructor; tauto|]. inversion IH; subst. constructor; [constructor; tauto|done].
Qed.

Lemma upper_byte_alnum b : alnum b = true → ∃ u, upper_byte b = [u] ∧ alnum u = true ∧ (letter b = true → 65 ≤ u ≤ 90).
Proof.
  unfold alnum, letter, upper_byte. intros H. destruct ((97 <=? b) && (b <=? 122)) eqn:E.
  - exists (b - 32). split; [done|]. split; [lia|]. intros _. lia.
  - exists b. replace (b <? 128) with true by lia. split; [done|]. split; [lia|]. lia.
Qed.

Lemma func_part_alnum p : Forall (λ c, alnum c = true) p → Forall (λ c, alnum c = true) (func_part p).
Proof.
  destruct 1 as [|b p Hb Hp]; [done|]. cbn. destruct (upper_byte_alnum b Hb) as (u & -> & Hu & _). by constructor.
Qed.

(** For an agent name of ASCII letters, digits and underscores that starts
    with a letter, the function name of the stub is an exported Go identifier. *)
Theorem toFuncName_exported agentID c l :
  bytes agentID = c :: l → letter c = true → Forall (λ x, x = 95 ∨ alnum x = true) l →
  exported (toFuncName agentID).
Proof.
  intros Hb Hc Hl. unfold toFuncName. rewrite Hb.
  assert (alnum c = true) as Hc' by (unfold alnum; by rewrite Hc).
  destruct (upper_byte_alnum c Hc') as (u & Hu & Hua & Hur). specialize (Hur Hc).
  assert (c ≠ 95) as Hne by (intros ->; done).
  assert (∃ w ws, split_on 95 (c :: l) = (c :: w) :: ws ∧ Forall (λ x, alnum x = true) w ∧ Forall (Forall (λ x, alnum x = true)) ws)
    as (w & ws & -> & Hw & Hws).
  { pose proof (split_on_spec _ _ _ Hl) as Hs. cbn. replace (c =? 95) with false by lia.
    destruct (split_on 95 l) as [|w ws]; [by exists [], []|]. inversion Hs; subst. eauto. }
  cbn [fmap list_fmap concat func_part]. rewrite Hu. cbn [app]. set (rest := w ++ _).
  assert (Forall (λ x, alnum x = true) rest) as Hr.
  { apply Forall_app. split; [done|]. clear -Hws. induction Hws; cbn; [constructor|]. apply Forall_app. split; [by apply func_part_alnum|done]. }
  exists u, rest. split; [|done]. apply bytes_string_of_bytes. constructor; [unfold byte_range; lia|].
  eapply Forall_impl; [exact Hr|]. intros x. cbn. unfold alnum, letter, byte_range. lia.
Qed.

Lemma toFuncName_exported_witness : exported (toFuncName "my_flow_2_step_a").
Proof.
  eapply (toFuncName_exported "my_flow_2_step_a"); [vm_compute; reflexivity|reflexivity|].
  repeat (constructor; [vm_compute; tauto|]). constructor.
Defined.

(** The name in the usage text of the CLI gives a stub whose function name is not an identifier. *)
Example usage_example_stub : toFuncName (step_name "customer-support" "_step_a") = "Customer-supportStepA".
Proof. vm_compute. reflexivity. Qed.

(** ** The manifest that is written *)

(** What the text of the manifest says. *)
Definition scaffold_agent (id : string) : AgentBinding :=
  mkAgentBinding id (mkRetryConfig 1 "linear") (mkCircuitBreakerConfig 3 "30s" "5s").
Definition scaffold_manifest (pipelineName agentA agentB : string) : Manifest :=
  mkManifest (mkRouterSettings 4 16 "10s" pipelineName
      (mkRBAC ["operator"; "admin"] ["viewer"; "operator"; "admin"] ["operator"; "admin"] []))
    [scaffold_agent agentA; scaffold_agent agentB]
    [mkPipelineStep agentA ""; mkPipelineStep agentB agentA].

Lemma scaffold_manifest_valid pipelineName agentA agentB :
  tenant_Validate pipelineName = None → agentA ≠ "" → agentB ≠ "" → agentA ≠ agentB →
  ValidateManifest (scaffold_manifest pipelineName agentA agentB) = None.
Proof.
  intros Hns Ha Hb Hab. assert (pipeline_wf [mkPipelineStep agentA ""; mkPipelineStep agentB agentA]) as Hpw.
  { split.
    - cbn. apply NoDup_cons. split; [set_solver|]. apply NoDup_singleton.
    - intros p [->|[->|[]%elem_of_nil]%elem_of_cons]%elem_of_cons; cbn; [done|]. intros _. set_solver. }
  assert (manifest_fits (scaffold_manifest pipelineName agentA agentB)) as Hfits by done.
  apply ValidateManifest_iff; [done|]. split.
  - split; [done|done|by right| | | |done].
    + repeat (constructor; [vm_compute; reflexivity|]). constructor.
    + split; [|cbn; apply NoDup_cons; split; [set_solver|apply NoDup_singleton]].
      assert (duration_ok "30s" ∧ duration_ok "5s") as [? ?] by (split; right; vm_compute; reflexivity).
      repeat (constructor; [by split|]). constructor.
    + cbn. repeat (constructor; [split; [done|set_solver]|]). constructor.
  - exists (λ s, if decide (s = agentA) then 0%nat else 1%nat). intros p [->|[->|[]%elem_of_nil]%elem_of_cons]%elem_of_cons; cbn; [done|].
    intros _. rewrite decide_True, decide_False by done. lia.
Qed.

(** A scaffold that is generated without an error leaves at its manifest path a
    text that the program loads, if the decoder reads the text as what it says, for every
    pipeline name that is a valid namespace. *)
Theorem scaffold_loads {FS} `{FileSystemLaws FS} yaml (fs fs' : FS) targetDir pipelineName :
  let name := pipeline_name pipelineName in
  let a := step_name pipelineName "_step_a" in
  let b := step_name pipelineName "_step_b" in
  let path := Join [targetDir; "manifests"; "pipeline.yaml"] in
  Generate fs targetDir pipelineName = (fs', None) →
  yaml (manifest_text name a b) = Ok (scaffold_manifest name a b) → tenant_Validate name = None →
  path ∉ [Join [targetDir; "agents"; a +:+ ".go"]; Join [targetDir; "agents"; b +:+ ".go"]; Join [targetDir; "README.md"]] →
  LoadManifest yaml fs' path = Ok (scaffold_manifest name a b).
Proof.
  intros name a b path Hg Hy Hns Hp. unfold LoadManifest.
  assert (ReadFile fs' path = Ok (manifest_text name a b)) as ->.
  { revert Hg. unfold Generate, try. case_decide; [done|]. fold name a b path.
    destruct (MkdirAll fs _) as [fs1 [?|]]; [done|]. destruct (MkdirAll fs1 _) as [fs2 [?|]]; [done|].
    destruct (WriteFile fs2 path _) as [fs3 [?|]] eqn:E3; [done|]. destruct (WriteFile fs3 _ _) as [fs4 [?|]] eqn:E4; [done|].
    destruct (WriteFile fs4 _ _) as [fs5 [?|]] eqn:E5; [done|]. destruct (WriteFile fs5 _ _) as [fs6 [?|]] eqn:E6; [done|].
    intros [= <-]. rewrite !not_elem_of_cons in Hp. destruct Hp as (H1 & H2 & H3 & _).
    rewrite (read_write_other _ _ _ _ path E6), (read_write_other _ _ _ _ path E5), (read_write_other _ _ _ _ path E4) by done.
    by apply (read_write _ _ _ _ E3). }
  rewrite Hy, scaffold_manifest_valid; try done.
  - unfold a, step_name. intros Ha. apply (f_equal bytes) in Ha. rewrite bytes_app in Ha. by apply app_nil in Ha as [_ ?].
  - unfold b, step_name. intros Hb. apply (f_equal bytes) in Hb. rewrite bytes_app in Hb. by apply app_nil in Hb as [_ ?].
  - unfold a, b, step_name. intros Hab. apply (f_equal bytes) in Hab. rewrite !bytes_app in Hab. by apply app_inv_head in Hab.
Qed.

Lemma scaffold_loads_witness :
  let r := Generate (∅ : gmap string string) "./gen" "flow" in
  r.2 = None ∧
  LoadManifest (λ _, Ok (scaffold_manifest "flow" "flow_step_a" "flow_step_b")) r.1 "gen/manifests/pipeline.yaml" =
    Ok (scaffold_manifest "flow" "flow_step_a" "flow_step_b").
Proof.
  intros r. assert (r.2 = None) as Hr by (vm_compute; reflexivity). split; [exact Hr|].
  apply (scaffold_loads (λ _, Ok (scaffold_manifest "flow" "flow_step_a" "flow_step_b")) ∅ r.1 "./gen" "flow").
  - unfold r in *. destruct (Generate _ _ _) as [fs' err]. cbn in *. by rewrite Hr.
  - vm_compute. reflexivity.
  - vm_compute. reflexivity.
  - rewrite !not_elem_of_cons. repeat split; try (vm_compute; discriminate). apply not_elem_of_nil.
Defined.
