(* ===== verification/Cli.v ===== *)
(** * The commands: cmd/cli, cmd/router and cmd/controlplane

    [runCLI] on its arguments: the files after it, what it writes to standard output and standard
    error, and the exit code; the router's [main] likewise. *)

From S2P Require Import Prelude GoErrors GoStrings GoTime Utf8 Json JsonCodec JsonAny Os AgentFunc.
From S2P Require Import Trace TraceFile AuditLog Metrics Engine Scheduler Access Manifest App AppIo Scaffold.

(** internal/version: the three variables are set when the program is linked. *)
Record build := mkBuild { Version : string; Commit : string; BuildDate : string }.
Definition default_build : build := mkBuild "dev" "none" "unknown".
Definition version_String (b : build) : string :=
  "version=" +:+ Version b +:+ " commit=" +:+ Commit b +:+ " build_date=" +:+ BuildDate b.

(** ** Results in JSON *)

(** An empty message, error or data is omitted. *)
Record cliResult := mkCliResult {
  cr_Command : string;
  cr_Status : string;
  cr_Message : string;
  cr_Data : option json;
  cr_Error : string
}.
Definition cliResult_json (r : cliResult) : json :=
  JObject ([("command", JString (cr_Command r)); ("status", JString (cr_Status r))] ++
    (if decide (cr_Message r = "") then [] else [("message", JString (cr_Message r))]) ++
    (match cr_Data r with None => [] | Some d => [("data", d)] end) ++
    (if decide (cr_Error r = "") then [] else [("error", JString (cr_Error r))])).

Definition stats_json (s : AgentStats) : json :=
  JObject [("Successes", enc_int (Successes s)); ("Errors", enc_int (Errors s)); ("Retries", enc_int (Retries s));
           ("CircuitOpens", enc_int (st_CircuitOpens s)); ("TotalDuration", enc_int (TotalDuration s))].
Definition snapshot_json (s : Snapshot) : json :=
  JObject [("TotalInvocations", enc_int (TotalInvocations s)); ("ErrorInvocations", enc_int (ErrorInvocations s));
           ("RetryAttempts", enc_int (RetryAttempts s)); ("CircuitOpens", enc_int (CircuitOpens s));
           ("ByAgent", JObject (sorted_members (stats_json <$> ByAgent s)))].

Definition pick (args : list string) (fallback : string) (idx : nat) : string :=
  match args !! idx with
  | Some a => if decide (TrimSpace a = "") then fallback else a
  | None => fallback
  end.

Definition usage : string := String.concat "" (ln <$>
  ["FluxRoute CLI";
   "";
   "Usage:";
   "  fluxroute-cli [--json] <command> [args]";
   "";
   "Commands:";
   "  run [manifest_path]                    Execute a manifest";
   "  validate [manifest_path]               Validate manifest only";
   "  replay [trace_path]                    Replay a trace and verify outputs";
   "  audit-export [jsonl_path] [csv_path]   Export audit JSONL to CSV";
   "  scaffold [target_dir] [pipeline_name]  Generate a starter pipeline";
   "  debug <expected_trace> <actual_trace>  Show replay divergence";
   "  version                                Print CLI version";
   "";
   "Examples:";
   "  fluxroute-cli run configs/router.example.yaml";
   "  fluxroute-cli --json validate configs/router.example.yaml";
   "  fluxroute-cli replay trace.json";
   "  fluxroute-cli audit-export audit.log audit.csv";
   "  fluxroute-cli scaffold ./generated customer-support";
   "  fluxroute-cli debug expected.json actual.json"]).

(** Files, standard output, standard error and exit code. *)
Definition result_of (FS : Type) : Type := FS * string * string * Z.

(** [ok] and [fail]: the text and the code. *)
Definition cli_ok (command : string) (jsonOut : bool) (message : string) (data : json) : string * Z :=
  if jsonOut then (ln (Marshal (cliResult_json (mkCliResult command "ok" message (Some data) ""))), 0)
  else (if decide (message = "") then "" else ln message, 0).

Definition cli_fail (jsonOut : bool) (command path : string) (err : error) : string * Z :=
  if jsonOut then
    (ln (Marshal (cliResult_json (mkCliResult command "error" "" (Some (any_map [("path", JString path)])) (Error err)))), 1)
  else
    ((if decide (path = "") then ln ("cli " +:+ command +:+ " failed: " +:+ Error err)
      else ln ("cli " +:+ command +:+ " failed for " +:+ path +:+ ": " +:+ Error err)) +:+
     ln "use `fluxroute-cli --help` for command examples", 1).

Section Cli.
Context {FS : Type} `{!FileSystem FS}.
Context (zone : time → Z) (marshal_error : ExecutionTrace → error) (unmarshal_error : string → error).
Context (yaml_Unmarshal : string → result error Manifest).
Context (new_request_error : string → option error) (post : string → list (string * string) → string → result error Z).
Context (getenv : string → string) (vars : build).
(** The run: how the engine schedules it, the services, the clocks. *)
Context (run_plan : schedule) (o : outside) (clock log_clock : nat → time) (now : time).

#[local] Abbreviation run_report := (RunManifestReport_at zone marshal_error yaml_Unmarshal new_request_error post getenv run_plan o clock now).
#[local] Abbreviation run_manifest :=
  (RunManifest zone marshal_error yaml_Unmarshal new_request_error post getenv run_plan o clock log_clock now).

(** What an error gives, after [printed] on standard output and [warned] on standard error. *)
Definition failing (fs : FS) (printed warned : string) (jsonOut : bool) (command path : string) (err : error) : result_of FS :=
  let '(text, code) := cli_fail jsonOut command path err in (fs, printed, warned +:+ text, code).
Definition succeeding (fs : FS) (printed warned : string) (command : string) (jsonOut : bool) (message : string) (data : json) :
    result_of FS :=
  let '(text, code) := cli_ok command jsonOut message data in (fs, printed +:+ text, warned, code).

Definition run_command (fs : FS) (jsonOut : bool) (rest : list string) : result_of FS :=
  let path := pick rest "configs/router.example.yaml" 0 in
  if jsonOut then
    match run_report fs path with
    | (fs', Err err, warned) => failing fs' "" warned jsonOut "run" path err
    | (fs', Ok report, warned) =>
        succeeding fs' "" warned "run" jsonOut "run completed"
          (any_map [("manifest_path", JString path); ("namespace", JString (rep_Namespace report));
                    ("invocations", enc_int (Z.of_nat (length (rep_Results report))));
                    ("failed", enc_int (failed_count (rep_Results report))); ("metrics", snapshot_json (rep_Metrics report))])
    end
  else
    match run_manifest fs path with
    | (fs', printed, warned, Some err) => failing fs' printed warned jsonOut "run" path err
    | (fs', printed, warned, None) => (fs', printed, warned, 0)
    end.

Definition validate_command (fs : FS) (jsonOut : bool) (rest : list string) : result_of FS :=
  let path := pick rest "configs/router.example.yaml" 0 in
  match ValidateManifest_at yaml_Unmarshal getenv now fs path with
  | (fs', Some err) => failing fs' "" "" jsonOut "validate" path err
  | (fs', None) =>
      if jsonOut then succeeding fs' "" "" "validate" jsonOut "manifest is valid" (any_map [("manifest_path", JString path); ("valid", JBool true)])
      else (fs', ln ("manifest is valid: " +:+ path), "", 0)
  end.

Definition replay_command (fs : FS) (jsonOut : bool) (rest : list string) : result_of FS :=
  let path := pick rest "trace.json" 0 in
  match ReplayTrace_at unmarshal_error getenv now fs path with
  | (fs', printed, Some err) => failing fs' (if jsonOut then "" else printed) "" jsonOut "replay" path err
  | (fs', printed, None) =>
      if jsonOut then succeeding fs' "" "" "replay" jsonOut (TrimSpace printed) (any_map [("trace_path", JString path)])
      else (fs', printed, "", 0)
  end.

Definition audit_export_command (fs : FS) (jsonOut : bool) (rest : list string) : result_of FS :=
  let inputPath := pick rest "audit.log" 0 in
  let outputPath := pick rest "audit.csv" 1 in
  match ExportJSONLToCSV unmarshal_error fs inputPath outputPath with
  | (fs', Some err) => failing fs' "" "" jsonOut "audit-export" inputPath err
  | (fs', None) =>
      if jsonOut then succeeding fs' "" "" "audit-export" jsonOut "audit export complete"
        (any_map [("input_path", JString inputPath); ("output_path", JString outputPath)])
      else (fs', ln ("audit export complete: " +:+ inputPath +:+ " -> " +:+ outputPath), "", 0)
  end.

(** The text of [ScaffoldProject] goes to standard output in both modes. *)
Definition scaffold_command (fs : FS) (jsonOut : bool) (rest : list string) : result_of FS :=
  let targetDir := pick rest "./scaffold-output" 0 in
  let pipelineName := pick rest "sample" 1 in
  match ScaffoldProject fs targetDir pipelineName with
  | (fs', printed, Some err) => failing fs' printed "" jsonOut "scaffold" targetDir err
  | (fs', printed, None) =>
      if jsonOut then succeeding fs' printed "" "scaffold" jsonOut "scaffold generated"
        (any_map [("target_dir", JString targetDir); ("pipeline_name", JString pipelineName)])
      else (fs', printed, "", 0)
  end.

Definition debug_command (fs : FS) (jsonOut : bool) (rest : list string) : result_of FS :=
  match rest with
  | expected :: actual :: _ =>
      match DebugTrace unmarshal_error fs expected actual with
      | (printed, Some err) => failing fs (if jsonOut then "" else printed) "" jsonOut "debug" expected err
      | (printed, None) =>
          if jsonOut then succeeding fs "" "" "debug" jsonOut (TrimSpace printed)
            (any_map [("expected_trace", JString expected); ("actual_trace", JString actual)])
          else (fs, printed, "", 0)
      end
  | _ => failing fs "" "" jsonOut "debug" "" (Errorf "usage: fluxroute-cli debug <expected_trace> <actual_trace>")
  end.

Definition command_line (fs : FS) (jsonOut : bool) (args : list string) : result_of FS :=
  match args with
  | [] => (fs, "", usage, 1)
  | command :: rest =>
      if decide (command = "version") then (fs, ln (version_String vars), "", 0)
      else if decide (command = "run") then run_command fs jsonOut rest
      else if decide (command = "validate") then validate_command fs jsonOut rest
      else if decide (command = "replay") then replay_command fs jsonOut rest
      else if decide (command = "audit-export") then audit_export_command fs jsonOut rest
      else if decide (command = "scaffold") then scaffold_command fs jsonOut rest
      else if decide (command = "debug") then debug_command fs jsonOut rest
      else failing fs "" "" jsonOut command "" (Errorf ("unknown command: " +:+ command))
  end.

(** The flags before the command. *)
Fixpoint flags (fs : FS) (jsonOut : bool) (args : list string) : result_of FS :=
  match args with
  | flag :: args' =>
      if HasPrefix flag "-" then
        if decide (flag = "--json" ∨ flag = "-j") then flags fs true args'
        else if decide (flag = "--help" ∨ flag = "-h") then (fs, usage, "", 0)
        else if decide (flag = "--version" ∨ flag = "-v") then (fs, ln (version_String vars), "", 0)
        else failing fs "" "" jsonOut flag "" (Errorf ("unknown flag: " +:+ flag))
      else command_line fs jsonOut args
  | [] => command_line fs jsonOut []
  end.

Definition runCLI (fs : FS) (args : list string) : result_of FS := flags fs false args.

(** cmd/router: the path of the manifest, and a run of it; "serve" starts the server. *)
Definition router_path (args : list string) : string :=
  let manifestPath := default "configs/router.example.yaml" (head args) in
  if decide (getenv "MANIFEST_PATH" = "") then manifestPath else getenv "MANIFEST_PATH".

Definition router_main (serve : FS → error) (server_closed : error) (fs : FS) (args : list string) : result_of FS :=
  if decide (head args ∈ [Some "-v"; Some "--version"; Some "version"]) then (fs, ln (version_String vars), "", 0)
  else if decide (head args = Some "serve") then
    let err := serve fs in
    if errors_Is err server_closed then (fs, "", "", 0) else (fs, "", ln ("router server failed: " +:+ Error err), 1)
  else
    match run_manifest fs (router_path args) with
    | (fs', printed, warned, Some err) => (fs', printed, warned +:+ ln ("router failed: " +:+ Error err), 1)
    | (fs', printed, warned, None) => (fs', printed, warned, 0)
    end.
End Cli.

(** ** Exit codes *)
Lemma app_nonempty s t : s ≠ "" ∨ t ≠ "" → s +:+ t ≠ "".
Proof. intros H E. apply (f_equal bytes) in E. rewrite bytes_app in E. apply app_nil in E as [H1 H2]. destruct H as [H|H]; apply H; by apply bytes_inj. Qed.

Lemma ln_nonempty s : ln s ≠ "".
Proof. apply app_nonempty. by right. Qed.

Section Exit.
Context {FS : Type} `{!FileSystem FS}.

(** The command ended as [e] says, with the files [fs']: with code 0, or with 1 and a message on
    standard error. *)
Definition reports (r : result_of FS) (fs' : FS) (e : option error) : Prop :=
  r.1.1.1 = fs' ∧ match e with None => r.2 = 0 | Some _ => r.2 = 1 ∧ r.1.2 ≠ "" end.

Lemma failing_reports (fs : FS) printed warned jsonOut command path err :
  reports (failing fs printed warned jsonOut command path err) fs (Some err).
Proof.
  unfold reports, failing, cli_fail. destruct jsonOut; cbn [fst snd]; (split; [done|split; [done|]]); apply app_nonempty; right.
  - apply ln_nonempty.
  - apply app_nonempty. right. apply ln_nonempty.
Qed.

Lemma succeeding_reports (fs : FS) printed warned command jsonOut message data :
  reports (succeeding fs printed warned command jsonOut message data) fs None.
Proof. unfold reports, succeeding, cli_ok. by destruct jsonOut. Qed.

Lemma done_reports (fs : FS) printed warned : reports (fs, printed, warned, 0) fs None.
Proof. done. Qed.

#[local] Ltac reported :=
  lazymatch goal with
  | |- reports (failing _ _ _ _ _ _ _) _ _ => apply failing_reports
  | |- reports (succeeding _ _ _ _ _ _ _) _ _ => apply succeeding_reports
  | |- reports (_, _, _, 0) _ _ => apply done_reports
  | |- reports (if ?b then _ else _) _ _ => destruct b; reported
  end.

(** Any number of the flags that ask for JSON. *)
Definition json_flags (long : list bool) : list string := (λ b : bool, if b then "--json" else "-j") <$> long.

Section Commands.
Context (zone : time → Z) (merr : ExecutionTrace → error) (uerr : string → error) (yaml : string → result error Manifest).
Context (req : string → option error) (post : string → list (string * string) → string → result error Z).
Context (getenv : string → string) (vars : build).
Context (run_plan : schedule) (o : outside) (clock log_clock : nat → time) (now : time).
#[local] Abbreviation cli := (runCLI zone merr uerr yaml req post getenv vars run_plan o clock log_clock now).
#[local] Abbreviation line := (command_line zone merr uerr yaml req post getenv vars run_plan o clock log_clock now).

Lemma flags_skip (fs : FS) long args :
  cli fs (json_flags long ++ args) =
  flags zone merr uerr yaml req post getenv vars run_plan o clock log_clock now fs (negb (bool_decide (long = []))) args.
Proof.
  unfold runCLI. change (negb (bool_decide (long = []))) with (false || negb (bool_decide (long = []))).
  generalize false. induction long as [|b long IH]; intros jsonOut.
  - by rewrite bool_decide_true, orb_false_r.
  - cbn [json_flags fmap list_fmap app flags]. assert (HasPrefix (if b then "--json" else "-j") "-" = true) as -> by by destruct b.
    rewrite decide_True by (destruct b; auto). etransitivity; [apply IH|]. rewrite (bool_decide_false (b :: long = [])) by done.
    by rewrite orb_true_r.
Qed.

Lemma flags_json (fs : FS) long command rest : HasPrefix command "-" = false →
  cli fs (json_flags long ++ command :: rest) = line fs (negb (bool_decide (long = []))) (command :: rest).
Proof. intros Hc. rewrite flags_skip. cbn [flags]. by rewrite Hc. Qed.

(** The flags that end the command line. *)
Lemma flags_last (fs : FS) long flag rest : HasPrefix flag "-" = true → flag ∉ ["--json"; "-j"] →
  reports (cli fs (json_flags long ++ flag :: rest)) fs
    (if decide (flag ∈ ["--help"; "-h"; "--version"; "-v"]) then None else Some (Errorf ("unknown flag: " +:+ flag))).
Proof.
  intros Hp Hj. rewrite flags_skip. cbn [flags]. rewrite Hp. rewrite decide_False by (intros [->| ->]; set_solver).
  destruct (decide (flag = "--help" ∨ flag = "-h")) as [H|H]; [rewrite decide_True by (destruct H as [->| ->]; set_solver); apply done_reports|].
  destruct (decide (flag = "--version" ∨ flag = "-v")) as [H'|H']; [rewrite decide_True by (destruct H' as [->| ->]; set_solver); apply done_reports|].
  rewrite decide_False by set_solver. apply failing_reports.
Qed.

(** The main function of the router. *)
Definition router_ends (fs : FS) (args : list string) (serve : FS → error) (closed : error) (r : result_of FS) : Prop :=
  (head args ∈ [Some "-v"; Some "--version"; Some "version"] → reports r fs None) ∧
  (head args = Some "serve" → reports r fs (if errors_Is (serve fs) closed then None else Some (serve fs))) ∧
  (head args ∉ [Some "-v"; Some "--version"; Some "version"; Some "serve"] →
   let path := if decide (getenv "MANIFEST_PATH" = "") then default "configs/router.example.yaml" (head args)
               else getenv "MANIFEST_PATH" in
   let '(fs', printed, _, err) := RunManifest zone merr yaml req post getenv run_plan o clock log_clock now fs path in
   reports r fs' err ∧ r.1.1.2 = printed).

Lemma router_reports (serve : FS → error) closed (fs : FS) args :
  router_ends fs args serve closed
    (router_main zone merr yaml req post getenv vars run_plan o clock log_clock now serve closed fs args).
Proof.
  unfold router_main. split; [|split].
  - intros Hv. by rewrite decide_True.
  - intros Hs. rewrite Hs. rewrite decide_False by (by apply (bool_decide_eq_false_1 (Some "serve" ∈ [Some "-v"; Some "--version"; Some "version"]))). rewrite decide_True by done. destruct (errors_Is (serve fs) closed); [done|].
    split; [done|]. split; [done|]. apply ln_nonempty.
  - change [Some "-v"; Some "--version"; Some "version"; Some "serve"] with ([Some "-v"; Some "--version"; Some "version"] ++ [Some "serve"]).
    rewrite not_elem_of_app, list_elem_of_singleton. intros [Hn Hs]. rewrite !(decide_False (P := head args ∈ _)), !(decide_False (P := head args = _)) by done. cbv zeta. unfold router_path.
    destruct (RunManifest _ _ _ _ _ _ _ _ _ _ _ _ _) as [[[fs' printed] warned] [err|]]; [|done].
    split; [|done]. split; [done|]. split; [done|]. apply app_nonempty. right. apply ln_nonempty.
Qed.

End Commands.
End Exit.

(** ** Failed invocations *)
Lemma failed_count_zero rs : failed_count rs = 0 ↔ Forall (λ r, res_Err r = None) rs.
Proof.
  unfold failed_count. split.
  - intros H. apply Forall_forall. intros r Hr. destruct (res_Err r) eqn:E; [|done]. exfalso.
    assert (r ∈ filter (λ r, is_Some (res_Err r)) rs) as Hin by (apply list_elem_of_filter; rewrite E; by split; [eexists|]).
    destruct (filter _ rs); [by apply elem_of_nil in Hin|]. cbn in H. lia.
  - intros H. rewrite filter_none; [done|]. eapply Forall_impl; [exact H|]. intros r ->. by intros [? ?].
Qed.

Section RunExit.
Context {FS : Type} `{!FileSystem FS}.

(** The exit code of a run is 0 exactly when there is a report and, unless the output
    is JSON, no invocation of it failed; both modes leave the same files. *)
Theorem cli_run_exit zone merr uerr yaml req post getenv vars (run_plan : schedule) o clock log_clock now
    (fs : FS) path :
  TrimSpace path ≠ "" →
  let cli := runCLI zone merr uerr yaml req post getenv vars run_plan o clock log_clock now fs in
  let '(fs', report, _) := RunManifestReport_at zone merr yaml req post getenv run_plan o clock now fs path in
  (cli ["run"; path]).1.1.1 = fs' ∧ (cli ["--json"; "run"; path]).1.1.1 = fs' ∧
  ((cli ["run"; path]).2 = 0 ↔ ∃ r, report = Ok r ∧ Forall (λ x, res_Err x = None) (rep_Results r)) ∧
  ((cli ["--json"; "run"; path]).2 = 0 ↔ ∃ r, report = Ok r).
Proof.
  intros Hp cli. assert (pick [path] "configs/router.example.yaml" 0 = path) as Hpick by (unfold pick; cbn; by rewrite decide_False).
  change (cli ["run"; path]) with (run_command zone merr yaml req post getenv run_plan o clock log_clock now fs false [path]).
  change (cli ["--json"; "run"; path]) with (run_command zone merr yaml req post getenv run_plan o clock log_clock now fs true [path]).
  unfold run_command, RunManifest. rewrite Hpick. destruct (RunManifestReport_at _ _ _ _ _ _ _ _ _ _ _ _) as [[fs' [r|err]] w].
  - pose proof (failed_count_zero (rep_Results r)) as Hf.
    assert (0 ≤ failed_count (rep_Results r)) by (unfold failed_count; lia).
    destruct (Z.ltb_spec 0 (failed_count (rep_Results r))).
    + split; [done|]. split; [done|]. split; [|by split; eauto]. split; [done|]. intros (r' & [= <-] & Hall%Hf). lia.
    + split; [done|]. split; [done|]. split; [|by split; eauto]. split; [|done]. intros _. exists r. split; [done|]. apply Hf. lia.
  - repeat split; try done; try (intros (r & ? & _); done); intros (r & ?); done.
Qed.
End RunExit.

(** One agent that fails: the two modes disagree. *)
Definition failing_manifest : Manifest := two_steps "fail_a" "b" 1.

Lemma cli_run_exit_witness :
  let cli := runCLI (λ _, 0) (λ _, Errorf "") Errorf (λ _, Ok failing_manifest) (λ _, None) (λ _ _ _, Ok 200) no_env default_build
    (one_by_one app_env (100, ∅)) all_well (λ _, 7) (λ _, 7) 0 ({[ "m.yaml" := "text" ]} : gmap string string) in
  (cli ["run"; "m.yaml"]).2 = 1 ∧ (cli ["--json"; "run"; "m.yaml"]).2 = 0.
Proof.
  intros cli.
  pose proof (cli_run_exit (λ _, 0) (λ _, Errorf "") Errorf (λ _, Ok failing_manifest) (λ _, None) (λ _ _ _, Ok 200) no_env default_build
    (one_by_one app_env (100, ∅)) all_well (λ _, 7) (λ _, 7) 0 ({[ "m.yaml" := "text" ]} : gmap string string) "m.yaml" ltac:(vm_compute; discriminate)) as H.
  cbv zeta in H. split; [vm_compute; reflexivity|].
  destruct (RunManifestReport_at _ _ _ _ _ _ _ _ _ _ _ _) as [[fs' report] w] eqn:Er. destruct H as (_ & _ & _ & H).
  apply H. apply (f_equal (λ x, x.1.2)) in Er. cbn [fst snd] in Er.
  destruct report as [r|e]; [by exists r|]. vm_compute in Er. discriminate Er.
Defined.
