(* ===== verification/Server.v ===== *)
(** * Servers: internal/app/server.go, internal/security/tls.go, the metrics endpoint

    The router's HTTP handler as a function from a request to a response, the choice of a
    listener from the environment, and the TLS configuration of every listener.  Certificates,
    listeners and serving are parameters. *)

From S2P Require Import Prelude GoErrors GoStrings GoTime Utf8 Json JsonCodec JsonStream Os Trace TraceFile AuditLog Metrics Engine Scheduler.
From S2P Require Import Access Manifest App AppIo Cli.

(** ** internal/security/tls.go *)
Definition VersionTLS12 : Z := 771.
Inductive ClientAuthType := NoClientCert | RequireAndVerifyClientCert.

Section Tls.
Context {FS Cert Pool : Type} `{!FileSystem FS}.
(** [tls.LoadX509KeyPair]; the pool [AppendCertsFromPEM] makes of a text, if it has a certificate. *)
Context (LoadX509KeyPair : FS → string → string → result error Cert) (certs_of_pem : string → option Pool).

Record tlsConfig := mkTlsConfig {
  MinVersion : Z;
  Certificates : list Cert;
  ClientCAs : option Pool;
  ClientAuth : ClientAuthType
}.

Definition BuildServerTLSConfig (fs : FS) (certFile keyFile caFile : string) (requireClientCert : bool) : result error tlsConfig :=
  if decide (certFile = "" ∨ keyFile = "") then Err (Errorf "tls cert_file and key_file are required")
  else
    match LoadX509KeyPair fs certFile keyFile with
    | Err err => Err (Errorf_w ("load key pair: " +:+ Error err) err)
    | Ok cert =>
        if requireClientCert then
          if decide (caFile = "") then Err (Errorf "ca_file is required when requireClientCert=true")
          else
            match ReadFile fs caFile with
            | Err err => Err (Errorf_w ("read ca file: " +:+ Error err) err)
            | Ok caPEM =>
                match certs_of_pem caPEM with
                | None => Err (Errorf "append ca certs failed")
                | Some pool => Ok (mkTlsConfig VersionTLS12 [cert] (Some pool) RequireAndVerifyClientCert)
                end
            end
        else Ok (mkTlsConfig VersionTLS12 [cert] None NoClientCert)
    end.

(** ** Listening *)

(** [ListenAndServe] without and with TLS: it returns an error when it ends; listening itself can
    fail first. *)
Context (listen_error : string → option error) (serve : string → option tlsConfig → error).

(** A server on [addr]: the error it ends with.  [what] is the context of a failure to listen. *)
Definition start_plain (default_addr addr : string) : error :=
  let addr := if decide (addr = "") then default_addr else addr in
  match listen_error addr with Some err => err | None => serve addr None end.

Definition start_tls (what default_addr : string) (fs : FS) (addr certFile keyFile caFile : string) (requireClientCert : bool) : error :=
  let addr := if decide (addr = "") then default_addr else addr in
  match BuildServerTLSConfig fs certFile keyFile caFile requireClientCert with
  | Err err => err
  | Ok cfg =>
      match listen_error addr with
      | Some err => Errorf_w (what +:+ ": " +:+ Error err) err
      | None => serve addr (Some cfg)
      end
  end.

Definition StartRouterServer : string → error := start_plain ":8080".
Definition StartRouterServerTLS : FS → string → string → string → string → bool → error := start_tls "router tls listen" ":8080".

Definition StartRouterServerFromEnv (getenv : string → string) (fs : FS) : error :=
  let addr := if decide (getenv "ROUTER_ADDR" = "") then ":8080" else getenv "ROUTER_ADDR" in
  if envBool getenv "ROUTER_TLS_ENABLED"
  then StartRouterServerTLS fs addr (getenv "ROUTER_TLS_CERT_FILE") (getenv "ROUTER_TLS_KEY_FILE") (getenv "ROUTER_TLS_CA_FILE")
         (envBool getenv "ROUTER_TLS_REQUIRE_CLIENT_CERT")
  else StartRouterServer addr.

(** controlplane.StartServer and StartServerTLS, as cmd/controlplane calls them. *)
Definition cp_StartServer : string → error := start_plain ":8081".
Definition cp_StartServerTLS : FS → string → string → string → string → bool → error := start_tls "listen controlplane" ":8081".

Definition controlplane_main (server_closed : error) (vars : build) (getenv : string → string) (fs : FS) (args : list string) :
    string * string * Z :=
  if decide (head args ∈ [Some "-v"; Some "--version"; Some "version"]) then (ln (version_String vars), "", 0)
  else
    let addr := if decide (getenv "CONTROLPLANE_ADDR" = "") then ":8081" else getenv "CONTROLPLANE_ADDR" in
    let err :=
      if decide (getenv "CONTROLPLANE_TLS_ENABLED" = "true")
      then cp_StartServerTLS fs addr (getenv "CONTROLPLANE_TLS_CERT_FILE") (getenv "CONTROLPLANE_TLS_KEY_FILE")
             (getenv "CONTROLPLANE_TLS_CA_FILE") (bool_decide (getenv "CONTROLPLANE_TLS_REQUIRE_CLIENT_CERT" = "true"))
      else cp_StartServer addr in
    if errors_Is err server_closed then ("", "", 0) else ("", ln ("controlplane failed: " +:+ Error err), 1).

(** The metrics endpoint of internal/metrics/prometheus.go: what [StartPrometheusServer] and
    [StartPrometheusServerTLS] return before the server runs on its own; [registry] is whether
    the registry is not nil. *)
Definition StartPrometheusServer (registry : bool) (addr : string) : result error (string * option tlsConfig) :=
  let addr := if decide (addr = "") then ":2112" else addr in
  if negb registry then Err (Errorf "prometheus registry is nil")
  else
    match listen_error addr with
    | Some err => Err (Errorf_w ("listen metrics endpoint " +:+ Quote addr +:+ ": " +:+ Error err) err)
    | None => Ok (addr, None)
    end.

Definition StartPrometheusServerTLS (fs : FS) (registry : bool) (addr certFile keyFile caFile : string) (requireClientCert : bool) :
    result error (string * option tlsConfig) :=
  let addr := if decide (addr = "") then ":2112" else addr in
  if negb registry then Err (Errorf "prometheus registry is nil")
  else
    match BuildServerTLSConfig fs certFile keyFile caFile requireClientCert with
    | Err err => Err err
    | Ok cfg =>
        match listen_error addr with
        | Some err => Err (Errorf_w ("listen metrics endpoint " +:+ Quote addr +:+ ": " +:+ Error err) err)
        | None => Ok (addr, Some cfg)
        end
    end.

(** [metricsAddr] of run.go, and the endpoint a run starts. *)
Definition metricsAddr (getenv : string → string) : string :=
  let v := TrimSpace (getenv "METRICS_ADDR") in if decide (v = "") then ":2112" else v.
Definition metrics_endpoint (getenv : string → string) (fs : FS) : result error (string * option tlsConfig) :=
  if envBool getenv "METRICS_TLS_ENABLED"
  then StartPrometheusServerTLS fs true (metricsAddr getenv) (getenv "METRICS_TLS_CERT_FILE") (getenv "METRICS_TLS_KEY_FILE")
         (getenv "METRICS_TLS_CA_FILE") (envBool getenv "METRICS_TLS_REQUIRE_CLIENT_CERT")
  else StartPrometheusServer true (metricsAddr getenv).
End Tls.

(** ** Requests and responses *)
Record RouterRequest := mkRouterRequest { rq_method : string; rq_path : string; rq_body : string }.
Record RouterResponse := mkRouterResponse { rsp_status : Z; rsp_body : string }.

Definition http_error (text : string) (code : Z) : RouterResponse := mkRouterResponse code (ln text).

(** A struct with one string field. *)
Definition Decode_field (name : string) (body : string) : option string :=
  Decode (dec_struct [field_of name (λ x, x) (λ x _, x) dec_string]) body "".

Section Handler.
Context {FS : Type} `{!FileSystem FS}.
Context (zone : time → Z) (marshal_error : ExecutionTrace → error) (unmarshal_error : string → error).
Context (yaml_Unmarshal : string → result error Manifest).
Context (new_request_error : string → option error) (post : string → list (string * string) → string → result error Z).
Context (getenv : string → string).
Context (run_plan : schedule) (o : outside) (clock : nat → time) (now : time).

(** A handler that takes a POST of a JSON object with one field. *)
Definition post_handler (field : string) (fs : FS) (r : RouterRequest) (k : string → FS * RouterResponse) : FS * RouterResponse :=
  if decide (rq_method r = "POST") then
    match Decode_field field (rq_body r) with
    | None => (fs, http_error (Error (unmarshal_error (rq_body r))) 400)
    | Some v => k v
    end
  else (fs, http_error "method not allowed" 405).

Definition default_manifest (path : string) : string := if decide (path = "") then "configs/router.example.yaml" else path.

Definition handle_run (fs : FS) (r : RouterRequest) : FS * RouterResponse :=
  post_handler "manifest_path" fs r (λ path,
    match RunManifestReport_at zone marshal_error yaml_Unmarshal new_request_error post getenv run_plan o clock now fs
            (default_manifest path) with
    | (fs', Err err, _) => (fs', http_error (Error err) 400)
    | (fs', Ok _, _) => (fs', mkRouterResponse 202 "")
    end).

Definition handle_validate (fs : FS) (r : RouterRequest) : FS * RouterResponse :=
  post_handler "manifest_path" fs r (λ path,
    match ValidateManifest_at yaml_Unmarshal getenv now fs (default_manifest path) with
    | (fs', Some err) => (fs', http_error (Error err) 400)
    | (fs', None) => (fs', mkRouterResponse 200 "")
    end).

Definition handle_replay (fs : FS) (r : RouterRequest) : FS * RouterResponse :=
  post_handler "trace_path" fs r (λ path,
    if decide (path = "") then (fs, http_error "trace_path is required" 400)
    else match ReplayTrace_at unmarshal_error getenv now fs path with
         | (fs', _, Some err) => (fs', http_error (Error err) 400)
         | (fs', text, None) => (fs', mkRouterResponse 200 text)
         end).

(** Each path is registered by itself and under /v1; the multiplexer answers others with 404.  (It
    redirects a path that is not clean, such as one with a doubled slash, before it looks it up.) *)
Definition RouterHandler (fs : FS) (r : RouterRequest) : FS * RouterResponse :=
  let at_ (path : string) := decide (rq_path r = path ∨ rq_path r = "/v1" +:+ path) in
  if at_ "/healthz" then (fs, mkRouterResponse 200 "ok")
  else if at_ "/readyz" then (fs, mkRouterResponse 200 "ready")
  else if at_ "/run" then handle_run fs r
  else if at_ "/validate" then handle_validate fs r
  else if at_ "/replay" then handle_replay fs r
  else (fs, http_error "404 page not found" 404).
End Handler.

(** ** TLS is never weaker than asked for *)
Section TlsFacts.
Context {FS Cert Pool : Type} `{!FileSystem FS}.
Context (load : FS → string → string → result error Cert) (certs : string → option Pool).

(** What a server that asks for client certificates must have, given the names of its files: at
    least TLS 1.2, its own key pair, and verification against the authorities of the CA file. *)
Definition verifies_clients (fs : FS) (certFile keyFile caFile : string) (cfg : tlsConfig (Cert:=Cert) (Pool:=Pool)) : Prop :=
  MinVersion cfg = VersionTLS12 ∧ ClientAuth cfg = RequireAndVerifyClientCert ∧
  (∃ c, load fs certFile keyFile = Ok c ∧ Certificates cfg = [c]) ∧
  (∃ pem pool, ReadFile fs caFile = Ok pem ∧ certs pem = Some pool ∧ ClientCAs cfg = Some pool).

Lemma BuildServerTLSConfig_ok fs cert key ca cfg :
  BuildServerTLSConfig load certs fs cert key ca true = Ok cfg → verifies_clients fs cert key ca cfg.
Proof.
  unfold BuildServerTLSConfig. case_decide; [done|]. destruct (load fs cert key) as [c|] eqn:El; [|done].
  case_decide; [done|]. destruct (ReadFile fs ca) as [pem|] eqn:Er; [|done]. destruct (certs pem) as [pool|] eqn:Ec; [|done].
  intros [= <-]. split; [done|]. split; [done|]. split; [by exists c|]. by exists pem, pool.
Qed.

(** A server that asks for client certificates serves with such a configuration, or ends with an
    error that does not come from serving. *)
Lemma start_tls_verified what addr0 listen fs addr cert key ca :
  (∃ cfg, verifies_clients fs cert key ca cfg ∧
     ∀ serve, start_tls load certs listen serve what addr0 fs addr cert key ca true =
              serve (if decide (addr = "") then addr0 else addr) (Some cfg)) ∨
  (∃ err, ∀ serve, start_tls load certs listen serve what addr0 fs addr cert key ca true = err).
Proof.
  unfold start_tls. destruct (BuildServerTLSConfig _ _ _ _ _ _ _) as [cfg|] eqn:E; [|right; by eexists].
  apply BuildServerTLSConfig_ok in E. destruct (listen _); [right; by eexists|left; by exists cfg].
Qed.

End TlsFacts.


(** ** Requests *)
Lemma Decode_field_Marshal name v rest : valid_utf8 name = true → valid_utf8 v = true →
  Decode_field name (Marshal (JObject [(name, JString v)]) +:+ rest) = Some v.
Proof.
  intros Hn Hv. unfold Decode_field. rewrite Decode_Marshal; [|split; [cbn; by rewrite Hn, Hv|done]|done].
  rewrite (dec_struct_field _ _ _ _ _ name (λ x, x) (λ x _, x) dec_string v); [by rewrite dec_struct_done| |done].
  cbn [List.find fst]. unfold field_of. cbn [fst]. unfold is_field. by rewrite bool_decide_true.
Qed.

(** A body whose first JSON value names [v] in the field: an object with that field, or one that
    leaves the field at its zero value. *)
Definition body_names (field body v : string) : Prop :=
  (∃ rest, valid_utf8 v = true ∧ body = Marshal (JObject [(field, JString v)]) +:+ rest) ∨
  (v = "" ∧ ((∃ rest, body = "{}" +:+ rest) ∨ body = "null")).

Lemma body_names_decodes field body v : field ∈ ["manifest_path"; "trace_path"] → body_names field body v →
  Decode_field field body = Some v.
Proof.
  intros Hf [(rest & Hv & ->)|[-> [[rest ->]| ->]]].
  - apply Decode_field_Marshal; [|done]. by apply elem_of_cons in Hf as [->|[->|[]%elem_of_nil]%elem_of_cons].
  - unfold Decode_field. change "{}" with (Marshal (JObject [])). rewrite Decode_Marshal; [by rewrite dec_struct_done|done|done].
  - by apply elem_of_cons in Hf as [->|[->|[]%elem_of_nil]%elem_of_cons].
Qed.

Section Requests.
Context {FS : Type} `{!FileSystem FS}.
Context (zone : time → Z) (merr : ExecutionTrace → error) (uerr : string → error) (yaml : string → result error Manifest).
Context (req : string → option error) (post : string → list (string * string) → string → result error Z) (getenv : string → string).
Context (run_plan : schedule) (o : outside) (clock : nat → time) (now : time).

#[local] Abbreviation handler := (RouterHandler zone merr uerr yaml req post getenv run_plan o clock now).

Lemma router_run fs r : rq_path r = "/run" ∨ rq_path r = "/v1/run" →
  handler fs r = handle_run zone merr uerr yaml req post getenv run_plan o clock now fs r.
Proof. intros [H|H]; unfold RouterHandler; by rewrite H. Qed.
Lemma router_validate fs r : rq_path r = "/validate" ∨ rq_path r = "/v1/validate" →
  handler fs r = handle_validate uerr yaml getenv now fs r.
Proof. intros [H|H]; unfold RouterHandler; by rewrite H. Qed.
Lemma router_replay fs r : rq_path r = "/replay" ∨ rq_path r = "/v1/replay" →
  handler fs r = handle_replay uerr getenv now fs r.
Proof. intros [H|H]; unfold RouterHandler; by rewrite H. Qed.

Lemma post_handler_guard field (fs : FS) r k : rq_method r ≠ "POST" ∨ Decode_field field (rq_body r) = None →
  ∃ text, post_handler uerr field fs r k = (fs, http_error text (if decide (rq_method r = "POST") then 400 else 405)).
Proof.
  intros H. unfold post_handler. case_decide; [|by eexists]. destruct H as [H|H]; [done|]. rewrite H. by eexists.
Qed.

(** C33: a POST to the run, validate or replay endpoint (with or without /v1) whose
    body names a path, anything may follow, does what the entry point does on that path, and its
    status says whether that succeeded; a body that leaves the path out ([{}], [null] or an empty
    path) means the default manifest for a run and a validation, and is refused with 400 by a
    replay; a body that does not decode is answered 400 and any other method 405, both without
    touching a file; the health endpoints answer 200. *)
Theorem router_requests (fs : FS) v1 body method v :
  v1 ∈ [""; "/v1"] →
  let send method p := handler fs (mkRouterRequest method (v1 +:+ p) body) in
  let manifest := if decide (v = "") then "configs/router.example.yaml" else v in
  (body_names "manifest_path" body v →
   (let '(fs', r, _) := RunManifestReport_at zone merr yaml req post getenv run_plan o clock now fs manifest in
    send "POST" "/run" = (fs', match r with Ok _ => mkRouterResponse 202 "" | Err err => http_error (Error err) 400 end)) ∧
   (let '(fs', err) := ValidateManifest_at yaml getenv now fs manifest in
    send "POST" "/validate" = (fs', match err with None => mkRouterResponse 200 "" | Some err => http_error (Error err) 400 end))) ∧
  (body_names "trace_path" body v →
   if decide (v = "") then send "POST" "/replay" = (fs, http_error "trace_path is required" 400)
   else let '(fs', text, err) := ReplayTrace_at uerr getenv now fs v in
        send "POST" "/replay" = (fs', match err with None => mkRouterResponse 200 text | Some err => http_error (Error err) 400 end)) ∧
  (∀ p field, (p, field) ∈ [("/run", "manifest_path"); ("/validate", "manifest_path"); ("/replay", "trace_path")] →
   method ≠ "POST" ∨ Decode_field field body = None →
   ∃ text, send method p = (fs, http_error text (if decide (method = "POST") then 400 else 405))) ∧
  send method "/healthz" = (fs, mkRouterResponse 200 "ok") ∧ send method "/readyz" = (fs, mkRouterResponse 200 "ready").
Proof.
  intros Hv1 send manifest. assert (∀ p, v1 +:+ p = p ∨ v1 +:+ p = "/v1" +:+ p) as Hp.
  { intros p. apply elem_of_cons in Hv1 as [->|[->|[]%elem_of_nil]%elem_of_cons]; [by left|by right]. }
  split; [|split; [|split; [|split]]].
  - intros Hb%body_names_decodes; [|by left]. unfold send. rewrite router_run, router_validate by apply Hp.
    unfold handle_run, handle_validate, post_handler. cbn [rq_method rq_body]. rewrite decide_True, Hb by done.
    unfold default_manifest. fold manifest. split.
    + by destruct (RunManifestReport_at _ _ _ _ _ _ _ _ _ _ _ _) as [[fs' []] w].
    + by destruct (ValidateManifest_at _ _ _ _ _) as [fs' []].
  - intros Hb%body_names_decodes; [|by right; left]. unfold send. rewrite router_replay by apply Hp.
    unfold handle_replay, post_handler. cbn [rq_method rq_body]. rewrite (decide_True (P := "POST" = "POST")), Hb by done.
    case_decide; [done|]. by destruct (ReplayTrace_at _ _ _ _ _) as [[fs' text] []].
  - intros p field [[= -> ->]|[[= -> ->]|[[= -> ->]|[]%elem_of_nil]%elem_of_cons]%elem_of_cons]%elem_of_cons Hbad; unfold send;
      [rewrite router_run by apply Hp|rewrite router_validate by apply Hp|rewrite router_replay by apply Hp];
      by apply (post_handler_guard _ _ (mkRouterRequest method _ body)).
  - unfold send, RouterHandler. cbn [rq_path]. by rewrite decide_True by apply Hp.
  - unfold send, RouterHandler. cbn [rq_path]. rewrite decide_False, decide_True; [done|apply Hp|].
    apply elem_of_cons in Hv1 as [->|[->|[]%elem_of_nil]%elem_of_cons]; by intros [].
Qed.
End Requests.

(** An empty object: the default manifest. *)
Lemma router_requests_witness :
  let fs := {[ "configs/router.example.yaml" := "text" ]} : gmap string string in
  RouterHandler (λ _, 0) (λ _, Errorf "") Errorf (λ _, Ok (two_steps "a" "b" 1)) (λ _, None) (λ _ _ _, Ok 200) no_env
    (one_by_one app_env (100, ∅)) all_well (λ _, 7) 0 fs (mkRouterRequest "POST" "/v1/validate" "{}x") = (fs, mkRouterResponse 200 "").
Proof.
  intros fs.
  destruct (router_requests (λ _, 0) (λ _, Errorf "") Errorf (λ _, Ok (two_steps "a" "b" 1)) (λ _, None) (λ _ _ _, Ok 200) no_env
    (one_by_one app_env (100, ∅)) all_well (λ _, 7) 0 fs "/v1" "{}x" "" "") as [H _]; [by right; left|].
  destruct H as [_ H]; [right; split; [done|]; left; by exists "x"|].
  assert (ValidateManifest_at (λ _, Ok (two_steps "a" "b" 1)) no_env 0 fs "configs/router.example.yaml" = (fs, None)) as Hval by (vm_compute; reflexivity).
  cbv zeta in H. rewrite decide_True in H by done. rewrite Hval in H. exact H.
Defined.
