(* ===== verification/ControlPlaneHttp.v ===== *)
(** * The control plane's texts: request bodies, response bodies and invoices

    The JSON that the handlers of ControlPlane read and write, and the CSV of an invoice.  A
    request here has the text of its body; [serve_text] decodes it, runs the handler and encodes
    the answer. *)

From Stdlib Require Import SpecFloat.
From S2P Require Import Prelude GoErrors GoStrings GoTime Utf8 Decimal GoFloat GoRound Json JsonCodec JsonAny JsonStream Calendar AuditLog.
From S2P Require Import Access ControlPlane AppIo.

(** ** Request bodies *)
Definition dec_float : decoder spec_float := λ v old,
  match v with JNumber l => ParseFloat l | JNull => Some old | _ => None end.

Definition dec_tenant : decoder string := dec_struct [field_of "id" (λ s, s) (λ x _, x) dec_string].
Definition dec_usage_body : decoder (string * Z) := dec_struct [
  field_of "tenant_id" fst (λ x u, (x, u.2)) dec_string;
  field_of "invocations" snd (λ x u, (u.1, x)) dec_int].
Definition dec_rate : decoder spec_float := dec_struct [field_of "usd_per_thousand" (λ s, s) (λ x _, x) dec_float].

Definition decoded_body {A} (err : error) (r : option A) : result error A :=
  match r with Some a => Ok a | None => Err err end.

(** The request the handlers see; [decode_error] is the decoder's error on a text. *)
Definition request_of (decode_error : string → error) (method : string) (header query : string → string) (text : string) : request :=
  mkRequest method header query
    (decoded_body (decode_error text) (Decode dec_tenant text ""))
    (decoded_body (decode_error text) (Decode dec_usage_body text ("", 0)))
    (decoded_body (decode_error text) (Decode dec_rate text (S754_zero false))).

(** ** Response bodies *)
Definition float_json (f : spec_float) : option json := JNumber <$> json_float f.

Definition row_json (r : usageRow) : json :=
  JObject [("tenant_id", JString (ur_TenantID r)); ("invocations", enc_int (ur_Invocations r))].
Definition invoice_json (i : Invoice) : option json :=
  price ← float_json (iv_USDPerThousand i);
  amount ← float_json (iv_AmountUSD i);
  Some (JObject [("tenant_id", JString (iv_TenantID i)); ("invocations", enc_int (iv_Invocations i));
                 ("usd_per_thousand", price); ("amount_usd", amount)]).

Definition invoiceCSV (i : Invoice) : string :=
  string_of_bytes (csv_row ["tenant_id"; "invocations"; "usd_per_thousand"; "amount_usd"] ++
    csv_row [iv_TenantID i; Itoa (iv_Invocations i); format_4f (iv_USDPerThousand i); format_4f (iv_AmountUSD i)]).

(** [writeJSON]: the value and a newline; nothing when the encoder fails, its error is dropped. *)
Definition writeJSON (v : option json) : string := match v with Some v => ln (Marshal v) | None => "" end.

Definition body_text (b : body) : string :=
  match b with
  | Empty => ""
  | Text s => s
  | TenantsJSON ts total page size =>
      writeJSON (Some (any_map [("tenants", JArray (JString <$> ts)); ("total", enc_int total); ("page", enc_int page);
                                ("page_size", enc_int size)]))
  | UsageJSON t n => writeJSON (Some (any_map [("tenant_id", JString t); ("invocations", enc_int n)]))
  | RowsJSON rows total page size =>
      writeJSON (Some (any_map [("items", JArray (row_json <$> rows)); ("total", enc_int total); ("page", enc_int page);
                                ("page_size", enc_int size)]))
  | RateJSON f => writeJSON (p ← float_json f; Some (any_map [("usd_per_thousand", p)]))
  | InvoiceJSON i => writeJSON (invoice_json i)
  | InvoiceCSV i => invoiceCSV i
  | SummaryJSON month rows grand =>
      writeJSON (Some (any_map [("month", JString month); ("totals", JArray (row_json <$> rows));
                                ("grand_total_invocations", enc_int grand)]))
  | SlaJSON uptime total =>
      writeJSON (Some (any_map [("uptime_seconds", enc_int uptime); ("total_requests", enc_int total);
                                ("slo_target", JString "99.9%")]))
  end.

(** [http.Error] ends its text with a newline. *)
Definition response_text (r : response) : string :=
  match rsp_Body r with
  | Text s => if 400 <=? rsp_Status r then ln s else s
  | b => body_text b
  end.

(** One request as texts. *)
Definition serve_text (decode_error : string → error) (apiKey : string) (now : time) (s : Service)
    (method path : string) (header query : string → string) (text : string) : Service * option (Z * string) :=
  let '(s', r) := Handler apiKey now path s (request_of decode_error method header query text) in
  (s', (λ x, (rsp_Status x, response_text x)) <$> r).

Definition admin_headers : string → string := λ k, if decide (k = "X-Role") then "admin" else "".
Definition no_query : string → string := λ _, "".

Example http_checks :
  let s := NewService 0 in
  let '(s, r1) := serve_text Errorf "" 0 s "POST" "/v1/tenants" admin_headers no_query (dq "{'id':'acme'}") in
  let '(s, r2) := serve_text Errorf "" 0 s "POST" "/usage" admin_headers no_query (dq "{'tenant_id':'acme','invocations':2500}") in
  let '(s, r3) := serve_text Errorf "" 0 s "GET" "/usage" no_query (λ k, if decide (k = "tenant_id") then "acme" else "") "" in
  let '(s, r4) := serve_text Errorf "" 0 s "GET" "/billing/invoice" no_query
    (λ k, if decide (k = "tenant_id") then "acme" else if decide (k = "format") then "CSV" else "") "" in
  r1 = Some (201, "") ∧ r2 = Some (202, "") ∧ r3 = Some (200, dq "{'invocations':2500,'tenant_id':'acme'}
") ∧ r4 = Some (200, "tenant_id,invocations,usd_per_thousand,amount_usd
acme,2500,1.0000,2.5000
").
Proof. vm_compute. repeat split; reflexivity. Qed.

(** ** Rates survive the trip *)
Lemma rate_text f t : json_float f = Some t →
  body_text (RateJSON f) = ln (Marshal (JObject [("usd_per_thousand", JNumber t)])) ∧
  Decode dec_rate (body_text (RateJSON f)) (S754_zero false) = Some f.
Proof.
  intros Ht. assert (body_text (RateJSON f) = ln (Marshal (JObject [("usd_per_thousand", JNumber t)]))) as Hb.
  { cbn [body_text]. unfold float_json. rewrite Ht. cbn [fmap option_fmap option_map mbind option_bind writeJSON].
    by change (any_map [("usd_per_thousand", JNumber t)]) with (JObject [("usd_per_thousand", JNumber t)]). }
  split; [done|]. rewrite Hb. unfold ln. rewrite Decode_Marshal;
    [|split; [cbn; by rewrite (json_float_ok _ _ Ht)|done]|done].
  unfold dec_rate. erewrite dec_struct_field; [|reflexivity|cbn; by apply json_float_read]. by rewrite dec_struct_done.
Qed.

(** The rate of a service that is only used over HTTP is a finite float64 that is not negative. *)
Definition rate_ok (s : Service) : Prop :=
  is_float64 (USDPerThousand (rate s)) ∧ SFltb (USDPerThousand (rate s)) (float64 0) = false.

Lemma decodes_float : decodes dec_float is_float64.
Proof. intros [|?|l|?|?|?] a res Hv Ha; cbn; try done; [by intros [= <-]|apply ParseFloat_float64]. Qed.

Lemma decodes_rate : decodes dec_rate is_float64.
Proof. apply decodes_struct. apply Forall_singleton. by apply (field_of_keeps _ is_float64); [apply decodes_float|..]. Qed.

Lemma zero_float64 b : is_float64 (S754_zero b).
Proof. by split_and!. Qed.

Lemma SetRate_rate_ok s f : is_float64 f → rate_ok s → rate_ok (SetRate s f).1.
Proof.
  intros Hf Hs. unfold SetRate, NewRateCard. destruct (SFltb f (float64 0)) eqn:E; [done|]. by split.
Qed.

(** A request as it arrives. *)
Record text_request := mkTextRequest {
  tq_Method : string; tq_Path : string; tq_Header : string → string; tq_Query : string → string; tq_Body : string; tq_Now : time
}.
Definition serve_texts (decode_error : string → error) (apiKey : string) (s : Service) (rs : list text_request) : Service :=
  foldl (λ s r, (serve_text decode_error apiKey (tq_Now r) s (tq_Method r) (tq_Path r) (tq_Header r) (tq_Query r) (tq_Body r)).1) s rs.

Lemma serve_text_rate_ok decode_error apiKey now s method path header query text :
  rate_ok s → rate_ok (serve_text decode_error apiKey now s method path header query text).1.
Proof.
  intros Hs. unfold serve_text. pose proof (Handler_change apiKey now path s (request_of decode_error method header query text)) as Hc.
  destruct (Handler _ _ _ _ _) as [s' r]. cbn [fst] in *.
  destruct Hc as [| |id|t n|x Hx]; [done|done| | |].
  - unfold AddTenant. repeat case_match; done.
  - unfold AddUsageAt. repeat case_match; done.
  - apply SetRate_rate_ok; [|done]. cbn [r_rate_body request_of] in Hx.
    destruct (Decode dec_rate text (S754_zero false)) as [f|] eqn:E; [|done]. injection Hx as <-.
    eapply Decode_decodes; [apply decodes_rate|apply zero_float64|exact E].
Qed.

Lemma serve_texts_rate_ok decode_error apiKey started rs : rate_ok (serve_texts decode_error apiKey (NewService started) rs).
Proof.
  unfold serve_texts. assert (rate_ok (NewService started)) as H0 by (split; [split_and!; vm_compute; done|vm_compute; done]).
  revert H0. generalize (NewService started). induction rs as [|r rs IH]; intros s Hs; [done|]. cbn [foldl].
  apply IH. by apply serve_text_rate_ok.
Qed.

(** C35: after any requests to a new service, whatever their bodies, if its rate is
    positive, the text it answers a request for the rate with, sent by an administrator with the
    key as the body of a request to set the rate, is answered 202 and sets exactly that float64,
    bit for bit. *)
Theorem rate_over_http decode_error apiKey started rs now header query :
  let s := serve_texts decode_error apiKey (NewService started) rs in
  SFltb (float64 0) (USDPerThousand (rate s)) = true →
  apiKey = "" ∨ carries_key apiKey (request_of decode_error "GET" header query "") →
  ParseRole (header "X-Role") = Ok RoleAdmin →
  ∃ text, (serve_text decode_error apiKey now s "GET" "/billing/rates" header query "").2 = Some (200, text) ∧
    ∀ s', (let '(s'', r) := serve_text decode_error apiKey now s' "POST" "/billing/rates" header query text in
           r = Some (202, "") ∧ USDPerThousand (rate s'') = USDPerThousand (rate s)).
Proof.
  intros s _ Hk Hr. apply requireAPIKey_iff in Hk.
  assert (requireAdmin (request_of decode_error "POST" header query "") = true) as Ha by (by apply requireAdmin_iff).
  destruct (serve_texts_rate_ok decode_error apiKey started rs) as [Hf Hneg]. fold s in Hf, Hneg.
  destruct (json_float_total _ Hf) as [t Ht]. destruct (rate_text _ _ Ht) as [_ Hd].
  exists (body_text (RateJSON (USDPerThousand (rate s)))). split.
  - unfold serve_text, Handler.
    change (List.find _ _) with (Some ("/billing/rates", rates_handler apiKey)). cbv iota beta. unfold rates_handler.
    by rewrite Hk.
  - intros s'. unfold serve_text, Handler.
    change (List.find _ _) with (Some ("/billing/rates", rates_handler apiKey)). cbv iota beta. unfold rates_handler.
    set (r := request_of _ "POST" _ _ _).
    assert (requireAPIKey apiKey r = true) as -> by exact Hk.
    cbn [negb r_Method request_of r]. rewrite decide_False, decide_True by done.
    assert (requireAdmin r = true) as -> by exact Ha.
    cbn [negb r_rate_body request_of r]. rewrite Hd. cbn [decoded_body]. unfold answer, SetRate, NewRateCard. rewrite Hneg. done.
Qed.

(** The rate 0.1 is set, read and set again. *)
Definition sample_requests : list text_request :=
  [mkTextRequest "POST" "/billing/rates" admin_headers no_query (dq "{'usd_per_thousand':0.10}") 0].

Lemma rate_over_http_witness :
  let s := serve_texts Errorf "" (NewService 0) sample_requests in
  (serve_text Errorf "" 0 s "GET" "/billing/rates" admin_headers no_query "").2 = Some (200, dq "{'usd_per_thousand':0.1}
") ∧
  USDPerThousand (rate (serve_text Errorf "" 0 (NewService 9) "POST" "/billing/rates" admin_headers no_query (dq "{'usd_per_thousand':0.1}
")).1) = USDPerThousand (rate s).
Proof.
  destruct (rate_over_http Errorf "" 0 sample_requests 0 admin_headers no_query) as (text & H1 & H2);
    [vm_compute; reflexivity|by left|vm_compute; reflexivity|].
  specialize (H2 (NewService 9)).
  assert (text = dq "{'usd_per_thousand':0.1}
") as -> by (vm_compute in H1; injection H1 as <-; vm_compute; reflexivity).
  split; [exact H1|]. destruct (serve_text Errorf "" 0 (NewService 9) _ _ _ _ _) as [s r]. exact (proj2 H2).
Defined.

(** An amount beyond the range of float64 is answered with status 200 and an empty body. *)
Example invoice_overflow_empty :
  let s := NewService 0 in
  let s := (serve_text Errorf "" 0 s "POST" "/tenants" admin_headers no_query (dq "{'id':'acme'}")).1 in
  let s := (serve_text Errorf "" 0 s "POST" "/billing/rates" admin_headers no_query (dq "{'usd_per_thousand':1e308}")).1 in
  let s := (serve_text Errorf "" 0 s "POST" "/usage" admin_headers no_query (dq "{'tenant_id':'acme','invocations':9000000}")).1 in
  (serve_text Errorf "" 0 s "GET" "/billing/invoice" no_query (λ k, if decide (k = "tenant_id") then "acme" else "") "").2 = Some (200, "").
Proof. vm_compute. reflexivity. Qed.
