(* ===== verification/Coordinator.v ===== *)
(** * Leases: internal/coordinator/coordinator.go and redis.go

    Three coordinators hand out leases on keys: one in memory, one in lock files, one in Redis.
    Their clients run concurrently, so each is a transition system: a clock, a shared store and
    the control point of every client between two accesses to the store.  [Acquire] and [Release]
    are the paths of a client from [idle] through the loop and back.  What the store does in one
    access is an executable function.  A waiting client has the instant its timer fires; what can
    go wrong (system calls, answers of Redis, contexts) are steps under [faults].  [acquireLeaseIfEnabled] of internal/app/run.go chooses
    among them. *)

From S2P Require Import Prelude GoErrors GoStrings GoTime App.

(** ** Until

    [until step Q P x]: from [x] every run reaches a state with [P], is not stuck before, and goes
    through states with [Q] only. *)
Section Until.
Context {X : Type} (step : X → X → Prop).

Inductive until (Q P : X → Prop) (x : X) : Prop :=
| until_now : P x → until Q P x
| until_later : Q x → (∃ y, step x y) → (∀ y, step x y → until Q P y) → until Q P x.

Lemma until_weaken (Q P P' : X → Prop) x : (∀ y, P y → P' y) → until Q P x → until Q P' x.
Proof. intros HP. induction 1 as [x H|x HQ Hex _ IH]; [apply until_now; auto|by apply until_later]. Qed.

Lemma until_weaken_l (Q Q' P : X → Prop) x : (∀ y, Q y → Q' y) → until Q P x → until Q' P x.
Proof. intros HQ. induction 1 as [x H|x H Hex _ IH]; [by apply until_now|apply until_later; auto]. Qed.

Lemma until_trans (Q P P' : X → Prop) x : until Q P x → (∀ y, P y → until Q P' y) → until Q P' x.
Proof. intros H HP. induction H as [x H|x HQ Hex _ IH]; [by apply HP|by apply until_later]. Qed.

Lemma until_next (Q P : X → Prop) x y : Q x → step x y → (∀ z, step x z → z = y) → until Q P y → until Q P x.
Proof. intros HQ Hy Hdet HP. apply until_later; [done|by exists y|]. by intros z ->%Hdet. Qed.
End Until.

(** ** Concurrent clients of a store *)
Section Clients.
Context {St Loc : Type} (access : time → St → Loc → St → Loc → Prop).

Record sys := mkSys { clock : time; store : St; clients : list Loc }.

(** A client makes its next access, or time passes. *)
Inductive sys_step (x : sys) : sys → Prop :=
| client_moves i l s' l' :
    clients x !! i = Some l → access (clock x) (store x) l s' l' →
    sys_step x (mkSys (clock x) s' (<[i := l']> (clients x)))
| time_passes d : 0 ≤ d → sys_step x (mkSys (clock x + d) (store x) (clients x)).

Definition reachable (s : St) (idle : Loc) (x : sys) : Prop :=
  ∃ now n, rtc sys_step (mkSys now s (replicate n idle)) x.

(** Invariants by induction on the run. *)
Lemma reachable_ind (I : sys → Prop) s idle :
  (∀ now n, I (mkSys now s (replicate n idle))) →
  (∀ x y, I x → sys_step x y → I y) →
  ∀ x, reachable s idle x → I x.
Proof.
  intros Hinit Hstep x (now & n & Hrun). specialize (Hinit now n).
  induction Hrun as [|y z w Hyz _ IH]; [done|]. eauto.
Qed.

(** A property of control points, and of the clock, that every access keeps. *)
Lemma reachable_clients (P : time → Loc → Prop) s idle x i l :
  (∀ t, P t idle) → (∀ t t' l, t ≤ t' → P t l → P t' l) → (∀ t st l st' l', access t st l st' l' → P t l → P t l') →
  reachable s idle x → clients x !! i = Some l → P (clock x) l.
Proof.
  intros Hidle Htime Hacc Hx. revert i l. revert x Hx.
  apply (reachable_ind (λ x, ∀ i l, clients x !! i = Some l → P (clock x) l)).
  - intros now n i l [-> _]%lookup_replicate. done.
  - intros x y IH [j m s' m' Hj Ha|d Hd] i l Hi; cbn in *; [|eapply Htime; [|by eapply IH]; lia].
    destruct (decide (i = j)) as [->|Hne].
    + rewrite list_lookup_insert_eq in Hi by (by eapply lookup_lt_Some). injection Hi as <-. eauto.
    + rewrite list_lookup_insert_ne in Hi by done. eauto.
Qed.

(** Updating one client among several. *)
Lemma clients_update (ls : list Loc) i l l' j m :
  ls !! i = Some l → <[i := l']> ls !! j = Some m → (j = i ∧ m = l') ∨ (j ≠ i ∧ ls !! j = Some m).
Proof.
  intros Hi Hj. destruct (decide (j = i)) as [->|Hne].
  - left. rewrite list_lookup_insert_eq in Hj by (by eapply lookup_lt_Some). naive_solver.
  - right. by rewrite list_lookup_insert_ne in Hj.
Qed.
(** *** A client left alone

    What a client sees of the system, and what it does when nobody else moves: its own accesses,
    which take no time, and sleeping to the end of a timer it has set.  [wake] is the instant a
    control point sleeps to. *)
Context (wake : Loc → option time).

Record view := mkView { v_clock : time; v_store : St; v_loc : Loc }.

Inductive solo (v : view) : view → Prop :=
| solo_move s' l' : access (v_clock v) (v_store v) (v_loc v) s' l' → solo v (mkView (v_clock v) s' l')
| solo_sleep w : wake (v_loc v) = Some w → v_clock v < w → solo v (mkView w (v_store v) (v_loc v)).

Inductive own_step (i : nat) (x : sys) : sys → Prop :=
| own_move l s' l' :
    clients x !! i = Some l → access (clock x) (store x) l s' l' →
    own_step i x (mkSys (clock x) s' (<[i := l']> (clients x)))
| own_sleep l w : clients x !! i = Some l → wake l = Some w → clock x < w →
    own_step i x (mkSys w (store x) (clients x)).

(** What holds of a client alone holds of it in the system, where nobody else moves. *)
Lemma until_own i (Q P : view → Prop) v : until solo Q P v → ∀ x, clients x !! i = Some (v_loc v) →
  clock x = v_clock v → store x = v_store v →
  until (own_step i)
    (λ y, ∃ l, clients y !! i = Some l ∧ Q (mkView (clock y) (store y) l))
    (λ y, ∃ l, clients y = <[i := l]> (clients x) ∧ P (mkView (clock y) (store y) l)) x.
Proof.
  induction 1 as [[t s l] HP|[t s l] HQ [v' Hv'] _ IH]; intros [t0 s0 ls]; cbn; intros Hi -> ->.
  - apply until_now. exists l. cbn. by rewrite list_insert_id.
  - apply until_later.
    + exists l. done.
    + inversion Hv' as [s' l' Ha|w Hw Hlt]; subst; cbn in *.
      * eexists. by eapply own_move.
      * eexists. by eapply own_sleep.
    + assert (i < length ls)%nat as Hlen by (by eapply lookup_lt_Some).
      intros y Hy. inversion Hy as [l1 s' l' Hi' Ha|l1 w Hi' Hw Hlt]; subst; cbn in *; rewrite Hi in Hi'; injection Hi' as <-.
      * specialize (IH (mkView t s' l') ltac:(by apply solo_move) (mkSys t s' (<[i := l']> ls))
          ltac:(by apply list_lookup_insert_eq) eq_refl eq_refl).
        eapply until_weaken; [|exact IH]. intros z (l2 & Hz & HP). exists l2. split; [|done].
        rewrite Hz. cbn. by rewrite list_insert_insert_eq.
      * by apply (IH (mkView w s l) ltac:(by apply solo_sleep) (mkSys w s ls)).
Qed.

(** A client that polls gets what it polls for within one poll of the instant [free] from which
    its attempts succeed. *)
Lemma polling (poll free : Z) (Inv : St → Prop) (trying : Loc) (waiting : time → Loc) (Q P : view → Prop) :
  0 < poll →
  (∀ w, wake (waiting w) = Some w) → (∀ t s w, Q (mkView t s (waiting w))) →
  (∀ t s w s' l', access t s (waiting w) s' l' → w ≤ t ∧ s' = s ∧ l' = trying) →
  (∀ t s w, w ≤ t → access t s (waiting w) s trying) →
  (∀ t s, Inv s → until solo Q (λ v, v_clock v = t ∧
     (P v ∨ (t < free ∧ v_loc v = waiting (t + poll) ∧ Inv (v_store v)))) (mkView t s trying)) →
  ∀ t s w, Inv s →
    until solo Q (λ v, P v ∧ v_clock v ≤ Z.max (Z.max t w) (free + poll)) (mkView t s (waiting w)).
Proof.
  intros Hpoll Hwake HQ Hmoves Htimer Hattempt.
  assert (∀ t s bound, Inv s → t ≤ bound → free + poll ≤ bound →
    until solo Q (λ v, P v ∧ v_clock v ≤ bound) (mkView t s trying)) as Htry.
  { intros t s bound. remember (Z.to_nat (free - t)) as n eqn:En. revert t s En.
    induction (lt_wf n) as [n _ IH]. intros t s -> HI Ht Hb. eapply until_trans; [by apply Hattempt|].
    intros [t' s' l'] [Ht' [HP|(Hlt & Hl & HI')]]; cbn in *; subst t'; [by apply until_now|]. subst l'.
    apply until_later; [by apply HQ|eexists; apply solo_sleep; [apply Hwake|cbn; lia]|].
    intros v Hv. inversion Hv as [s1 l1 Ha|w Hw Hlt']; subst; cbn in *.
    { apply Hmoves in Ha as [? _]. lia. }
    rewrite Hwake in Hw. injection Hw as <-.
    apply until_later; [by apply HQ|eexists; apply solo_move; cbn; by apply Htimer|].
    intros v Hv'. inversion Hv' as [s1 l1 Ha|w Hw' Hlt2]; subst; cbn in *.
    - apply Hmoves in Ha as (_ & -> & ->). eapply (IH (Z.to_nat (free - (t + poll)))); [lia|done|done|lia|done].
    - rewrite Hwake in Hw'. injection Hw' as <-. lia. }
  assert (∀ t s w bound, Inv s → w ≤ t → t ≤ bound → free + poll ≤ bound →
    until solo Q (λ v, P v ∧ v_clock v ≤ bound) (mkView t s (waiting w))) as Hdue.
  { intros t s w bound HI Hw Ht Hb. apply until_later; [by apply HQ|eexists; apply solo_move; cbn; by apply Htimer|].
    intros v Hv. inversion Hv as [s1 l1 Ha|w' Hw' Hlt]; subst; cbn in *.
    - apply Hmoves in Ha as (_ & -> & ->). by apply Htry.
    - rewrite Hwake in Hw'. injection Hw' as <-. lia. }
  intros t s w HI. destruct (decide (w ≤ t)) as [Hle|Hgt]; [apply Hdue; (done || lia)|].
  apply until_later; [by apply HQ|eexists; apply solo_sleep; [apply Hwake|cbn; lia]|].
  intros v Hv. inversion Hv as [s1 l1 Ha|w' Hw' Hlt]; subst; cbn in *.
  - apply Hmoves in Ha as (? & _). lia.
  - rewrite Hwake in Hw'. injection Hw' as <-. apply Hdue; (done || lia).
Qed.
End Clients.
Arguments sys : clear implicits.
Arguments mkSys {St Loc}.

(** Runs built step by step: a client makes a given access, or time passes. *)
Ltac evaluate_state :=
  match goal with |- rtc _ ?x _ => let y := eval vm_compute in x in replace x with y by (vm_compute; reflexivity) end.
Tactic Notation "client" constr(i) "does" uconstr(rule) :=
  eapply rtc_l; [eapply (client_moves _ _ i); [reflexivity|eapply rule; first [exact I|vm_compute; reflexivity|idtac]]|];
  evaluate_state.
Tactic Notation "wait" constr(d) :=
  eapply rtc_l; [apply (time_passes _ _ d); vm_compute; discriminate|]; evaluate_state.

(** [if ttl <= 0 { ttl = 2 * time.Minute }]. *)
Definition lease_ttl (ttl : Z) : Z := if ttl <=? 0 then 2 * Minute else ttl.

(** ** The memory coordinator *)
Module Memory.

Record memoryCoordinator := mkMemoryCoordinator { locks : gmap string time }.
Definition NewMemoryCoordinator : memoryCoordinator := mkMemoryCoordinator ∅.

(** The locked section of the loop of [Acquire], at clock reading [now]; the second component
    says whether the lease was granted. *)
Definition memory_try_acquire (c : memoryCoordinator) (key : string) (ttl now : Z) : memoryCoordinator * bool :=
  let granted := (mkMemoryCoordinator (<[key := Add now ttl]> (locks c)), true) in
  match locks c !! key with
  | None => granted
  | Some exp => if After now exp then granted else (c, false)
  end.

Definition memory_Release (c : memoryCoordinator) (key : string) : memoryCoordinator :=
  mkMemoryCoordinator (delete key (locks c)).

(** Where a client is.  A lease is a key; the expiry that the store got is kept with it. *)
Inductive memory_phase :=
| Idle
| Trying (key : string) (ttl : Z)
| Waiting (key : string) (ttl : Z) (wake : time)
| Leased (key : string) (expires : time)
| Failed (err : error).

(** The timer of the [select]. *)
Definition memory_poll : Z := 20 * Millisecond.
Definition memory_wake (l : memory_phase) : option time := match l with Waiting _ _ w => Some w | _ => None end.

Section Steps.
(** Whether contexts may end; when a client may call [Release], given the clock and the expiry of
    its lease. *)
Context (faults : Prop) (may_release : time → time → Prop).

Inductive memory_step (now : time) (c : memoryCoordinator) : memory_phase → memoryCoordinator → memory_phase → Prop :=
| call key ttl : memory_step now c Idle c (Trying key (lease_ttl ttl))
| grant key ttl c' : memory_try_acquire c key ttl now = (c', true) →
    memory_step now c (Trying key ttl) c' (Leased key (Add now ttl))
| busy key ttl c' : memory_try_acquire c key ttl now = (c', false) → memory_step now c (Trying key ttl) c' (Waiting key ttl (now + memory_poll))
| timer key ttl w : w ≤ now → memory_step now c (Waiting key ttl w) c (Trying key ttl)
| cancelled key ttl w err : faults → memory_step now c (Waiting key ttl w) c (Failed (Errorf_w ("acquire lease: " +:+ Error err) err))
| release key exp : may_release now exp → memory_step now c (Leased key exp) (memory_Release c key) Idle.
End Steps.

(** A client holds a lease that has not expired. *)
Definition memory_holds (x : sys memoryCoordinator memory_phase) (i : nat) (key : string) : Prop :=
  ∃ exp, clients x !! i = Some (Leased key exp) ∧ clock x ≤ exp.

Lemma memory_try_acquire_granted c key ttl now c' :
  memory_try_acquire c key ttl now = (c', true) →
  locks c' = <[key := Add now ttl]> (locks c) ∧ (∀ exp, locks c !! key = Some exp → exp < now).
Proof.
  unfold memory_try_acquire, After. destruct (locks c !! key) as [exp|]; [|naive_solver].
  destruct (Z.ltb_spec exp now); naive_solver.
Qed.

Lemma memory_try_acquire_busy c key ttl now c' :
  memory_try_acquire c key ttl now = (c', false) → c' = c ∧ ∃ exp, locks c !! key = Some exp ∧ now ≤ exp.
Proof.
  unfold memory_try_acquire, After. destruct (locks c !! key) as [exp|]; [|done].
  destruct (Z.ltb_spec exp now); naive_solver.
Qed.

(** *** Leases released in time *)
Definition in_time (now exp : time) : Prop := now ≤ exp.

(** The store and the clients agree on the leases that have not expired. *)
Record memory_exclusive (x : sys memoryCoordinator memory_phase) : Prop := {
  ex_held i key exp : clients x !! i = Some (Leased key exp) → clock x ≤ exp → locks (store x) !! key = Some exp;
  ex_owner key exp : locks (store x) !! key = Some exp → clock x ≤ exp →
    ∃ i, clients x !! i = Some (Leased key exp);
  ex_one i j key : memory_holds x i key → memory_holds x j key → i = j
}.

Definition memory_is_lease (l : memory_phase) : Prop := match l with Leased _ _ => True | _ => False end.

Lemma memory_exclusive_tick x d : 0 ≤ d → memory_exclusive x → memory_exclusive (mkSys (clock x + d) (store x) (clients x)).
Proof.
  intros Hd [H1 H2 H3]. assert (∀ i key, memory_holds (mkSys (clock x + d) (store x) (clients x)) i key → memory_holds x i key) as Hh.
  { intros i key (exp & He & Hc). exists exp. simpl in *. split; [done|lia]. }
  split; simpl.
  - intros i key exp He Hc. eapply H1; [done|lia].
  - intros key exp He Hc. eapply H2; [done|lia].
  - eauto.
Qed.

(** A client that neither had nor gets a lease. *)
Lemma memory_exclusive_quiet x i l l' :
  clients x !! i = Some l → ¬ memory_is_lease l → ¬ memory_is_lease l' → memory_exclusive x →
  memory_exclusive (mkSys (clock x) (store x) (<[i := l']> (clients x))).
Proof.
  intros Hi Hl Hl' [H1 H2 H3].
  assert (∀ j key exp, <[i := l']> (clients x) !! j = Some (Leased key exp) → clients x !! j = Some (Leased key exp)) as Hk.
  { intros j key exp Hj. destruct (clients_update _ _ _ _ _ _ Hi Hj) as [[-> <-]|[_ ?]]; [by destruct Hl'|done]. }
  split; simpl.
  - eauto.
  - intros key exp He Hc. destruct (H2 _ _ He Hc) as [j Hj]. exists j.
    rewrite list_lookup_insert_ne; [done|]. intros ->. destruct Hl. by simplify_eq.
  - intros j k key (e & Hj & ?) (e' & Hk' & ?). apply (H3 j k key); eexists; eauto.
Qed.

Lemma memory_exclusive_grant x i key ttl c' :
  clients x !! i = Some (Trying key ttl) → memory_try_acquire (store x) key ttl (clock x) = (c', true) →
  memory_exclusive x → memory_exclusive (mkSys (clock x) c' (<[i := Leased key (Add (clock x) ttl)]> (clients x))).
Proof.
  intros Hi [Hc Hfree]%memory_try_acquire_granted [H1 H2 H3].
  assert (∀ j, ¬ memory_holds x j key) as Hno.
  { intros j (exp & Hj & He). specialize (Hfree _ (H1 _ _ _ Hj He)). lia. }
  split; simpl.
  - intros j k exp Hj He. rewrite Hc, lookup_insert. case_decide as Hk.
    + subst k. destruct (clients_update _ _ _ _ _ _ Hi Hj) as [[-> Heq]|[_ Hj']]; [by injection Heq as ->|].
      destruct (Hno j). by exists exp.
    + destruct (clients_update _ _ _ _ _ _ Hi Hj) as [[-> Heq]|[_ Hj']]; [by injection Heq as -> ->|eauto].
  - intros k exp Hk He. rewrite Hc, lookup_insert in Hk. case_decide.
    + simplify_eq. exists i. apply list_lookup_insert_eq. by eapply lookup_lt_Some.
    + destruct (H2 _ _ Hk He) as [j Hj]. exists j. rewrite list_lookup_insert_ne; [done|]. intros ->. simplify_eq.
  - assert (∀ j k, memory_holds (mkSys (clock x) c' (<[i := Leased key (Add (clock x) ttl)]> (clients x))) j k →
      (j = i ∧ k = key) ∨ (k ≠ key ∧ memory_holds x j k)) as Hh.
    { intros j k (exp & Hj & He). simpl in *.
      destruct (clients_update _ _ _ _ _ _ Hi Hj) as [[-> Heq]|[_ Hj']]; [injection Heq as -> _; by left|right].
      assert (memory_holds x j k) as Hold by (by exists exp). split; [|done]. intros ->. by destruct (Hno j). }
    intros j k key' [[-> ->]|[Hne Hj]]%Hh [[-> ?]|[Hne' Hk]]%Hh; [done|done|done|eauto].
Qed.

Lemma memory_exclusive_release x i key exp :
  clients x !! i = Some (Leased key exp) → clock x ≤ exp → memory_exclusive x →
  memory_exclusive (mkSys (clock x) (memory_Release (store x) key) (<[i := Idle]> (clients x))).
Proof.
  intros Hi Hin [H1 H2 H3].
  assert (∀ j k e, <[i := Idle]> (clients x) !! j = Some (Leased k e) → j ≠ i ∧ clients x !! j = Some (Leased k e)) as Hk.
  { intros j k e Hj. destruct (clients_update _ _ _ _ _ _ Hi Hj) as [[_ ?]|[? ?]]; done. }
  assert (memory_holds x i key) as Hme by (by exists exp).
  split; simpl.
  - intros j k e [Hne Hj]%Hk He. rewrite lookup_delete. case_decide as Heq; [|eauto].
    subst k. destruct Hne. apply (H3 j i key); [by exists e|done].
  - intros k e Hke He. rewrite lookup_delete in Hke. case_decide as Heq; [done|].
    destruct (H2 _ _ Hke He) as [j Hj]. exists j. rewrite list_lookup_insert_ne; [done|]. intros ->. by simplify_eq.
  - intros j k key' (e & [_ Hj]%Hk & ?) (e' & [_ Hk']%Hk & ?). apply (H3 j k key'); eexists; eauto.
Qed.

Lemma memory_exclusive_step x y : memory_exclusive x → sys_step (memory_step True in_time) x y → memory_exclusive y.
Proof.
  intros Hx [i l s' l' Hi Hacc|d Hd]; [|by apply memory_exclusive_tick].
  destruct Hacc as [| |? ? ? [-> _]%memory_try_acquire_busy| | |]; try (by eapply memory_exclusive_quiet; eauto).
  - by eapply memory_exclusive_grant.
  - by eapply memory_exclusive_release.
Qed.

Lemma memory_reachable_exclusive x : reachable (memory_step True in_time) NewMemoryCoordinator Idle x → memory_exclusive x.
Proof.
  revert x. apply reachable_ind; [|exact memory_exclusive_step]. intros now n.
  assert (∀ i key exp, replicate n Idle !! i ≠ Some (Leased key exp)) as Hno.
  { intros i key exp [? _]%lookup_replicate. done. }
  split; simpl.
  - intros i key exp Hi. by apply Hno in Hi.
  - intros key exp He. by rewrite lookup_empty in He.
  - intros i j key (exp & Hi & _). by apply Hno in Hi.
Qed.

(** Grants, in a state where store and clients agree. *)
Lemma memory_exclusive_grants x key ttl : memory_exclusive x →
  (memory_try_acquire (store x) key ttl (clock x)).2 = true ↔ ∀ j, ¬ memory_holds x j key.
Proof.
  intros [H1 H2 H3]. destruct (memory_try_acquire (store x) key ttl (clock x)) as [c' []] eqn:E; simpl.
  - apply memory_try_acquire_granted in E as [_ Hfree]. split; [intros _ j (exp & Hj & He)|done].
    specialize (Hfree _ (H1 _ _ _ Hj He)). lia.
  - apply memory_try_acquire_busy in E as [_ (exp & Hk & He)]. split; [done|]. intros Hno.
    destruct (H2 _ _ Hk He) as [j Hj]. destruct (Hno j). by exists exp.
Qed.

End Memory.

(** ** The Redis coordinator *)

(** What the coordinator relies on of a Redis server reached through its client library: [GET],
    [SET key value NX] with an expiry, [DEL].  [redis_expiry] is the expiry the client library
    sends for a duration. *)
Class RedisServer (R : Type) := {
  redis_GET : R → time → string → option string;
  redis_SETNX : R → time → string → string → Z → R * bool;
  redis_DEL : R → time → string → R;
  redis_expiry : Z → Z
}.

(** Documented behaviour of the commands. *)
Class RedisLaws (R : Type) `{RedisServer R} := {
  setnx_set r now key v ttl :
    (redis_SETNX r now key v ttl).2 = bool_decide (redis_GET r now key = None);
  setnx_value r now key v ttl t :
    (redis_SETNX r now key v ttl).2 = true → now ≤ t < now + redis_expiry ttl →
    redis_GET (redis_SETNX r now key v ttl).1 t key = Some v;
  setnx_refused r now key v ttl t k :
    (redis_SETNX r now key v ttl).2 = false → now ≤ t →
    redis_GET (redis_SETNX r now key v ttl).1 t k = redis_GET r t k;
  setnx_other r now key v ttl t k : k ≠ key → now ≤ t →
    redis_GET (redis_SETNX r now key v ttl).1 t k = redis_GET r t k;
  del_other r now key t k : k ≠ key → now ≤ t → redis_GET (redis_DEL r now key) t k = redis_GET r t k
}.

Module Redis.
Section Server.
Context {R : Type} `{RedisLaws R}.

(** The script of [Release], run atomically by the server. *)
Definition release_script (r : R) (now : time) (key token : string) : R :=
  if decide (redis_GET r now key = Some token) then redis_DEL r now key else r.

(** [c.prefix + ":" + key], with the default prefix. *)
Definition fullKey (prefix key : string) : string :=
  (if decide (prefix = "") then "fluxroute" else prefix) +:+ ":" +:+ key.

(** The commands a client sends, and what the server does with one. *)
Inductive command :=
| CSetNX (key token : string) (ttl : Z)
| CRelease (key token : string).

Definition execute (r : R) (now : time) (c : command) : R :=
  match c with
  | CSetNX key token ttl => (redis_SETNX r now key token ttl).1
  | CRelease key token => release_script r now key token
  end.

(** The server's data, the tokens drawn so far and the commands that were given up by their
    client and may still reach the server. *)
Record redis_world := mkWorld { server : R; drawn : gset string; in_flight : list command }.

Definition on_server (w : redis_world) (r : R) : redis_world := mkWorld r (drawn w) (in_flight w).
Definition abandon (w : redis_world) (c : command) : redis_world := mkWorld (server w) (drawn w) (c :: in_flight w).

Inductive redis_phase :=
| Idle
| Trying (key token : string) (ttl : Z)
| Waiting (key token : string) (ttl : Z) (wake : time)
| Leased (key token : string) (expires : time)
| Releasing (key token : string)
| Failed (err : error).

(** The timer of the [select]. *)
Definition redis_poll : Z := 30 * Millisecond.
Definition redis_wake (l : redis_phase) : option time := match l with Waiting _ _ _ w => Some w | _ => None end.

Section Steps.
(** Whether the network and the random source may fail and contexts end. *)
Context (faults : Prop).

(** The steps of a client.  [randomToken] draws 16 random bytes: a token not drawn before.  A
    command without an answer is sent again by the client library ([_lost]) or reported as an
    error; in both cases the server may execute it later, at any instant ([late]), or never.  A
    lease counts from the instant the server executes the command, which is before the client
    has its answer. *)
Inductive redis_step (now : time) (w : redis_world) : redis_phase → redis_world → redis_phase → Prop :=
| call prefix key ttl token : token ∉ drawn w →
    redis_step now w Idle (mkWorld (server w) ({[token]} ∪ drawn w) (in_flight w)) (Trying (fullKey prefix key) token (lease_ttl ttl))
| no_token err : faults → redis_step now w Idle w (Failed (Errorf_w ("random token: " +:+ Error err) err))
| grant key token ttl r' : redis_SETNX (server w) now key token ttl = (r', true) →
    redis_step now w (Trying key token ttl) (on_server w r') (Leased key token (now + redis_expiry ttl))
| busy key token ttl r' : redis_SETNX (server w) now key token ttl = (r', false) →
    redis_step now w (Trying key token ttl) (on_server w r') (Waiting key token ttl (now + redis_poll))
| setnx_lost key token ttl : faults →
    redis_step now w (Trying key token ttl) (abandon w (CSetNX key token ttl)) (Trying key token ttl)
| setnx_error key token ttl err : faults →
    redis_step now w (Trying key token ttl) (abandon w (CSetNX key token ttl))
      (Failed (Errorf_w ("redis setnx failed: " +:+ Error err) err))
| timer key token ttl t : t ≤ now → redis_step now w (Waiting key token ttl t) w (Trying key token ttl)
| cancelled key token ttl t err : faults →
    redis_step now w (Waiting key token ttl t) w (Failed (Errorf_w ("acquire redis lease: " +:+ Error err) err))
| release_called key token exp : redis_step now w (Leased key token exp) w (Releasing key token)
| released key token :
    redis_step now w (Releasing key token) (on_server w (execute (server w) now (CRelease key token))) Idle
| release_lost key token : faults →
    redis_step now w (Releasing key token) (abandon w (CRelease key token)) (Releasing key token)
| release_error key token err : faults →
    redis_step now w (Releasing key token) (abandon w (CRelease key token))
      (Failed (Errorf_w ("release redis lease: " +:+ Error err) err))
| late l cs c cs' : faults → in_flight w = cs ++ c :: cs' →
    redis_step now w l (mkWorld (execute (server w) now c) (drawn w) (cs ++ cs')) l.
End Steps.

Definition redis_holds (x : sys redis_world redis_phase) (i : nat) (key : string) : Prop :=
  ∃ token exp, clients x !! i = Some (Leased key token exp) ∧ clock x < exp.

(** The token a client carries, and whether it is still after a lease or has one. *)
Definition token_of (l : redis_phase) : option string :=
  match l with
  | Trying _ t _ | Waiting _ t _ _ | Leased _ t _ | Releasing _ t => Some t
  | Idle | Failed _ => None
  end.
Definition active (l : redis_phase) : option string :=
  match l with Releasing _ _ => None | _ => token_of l end.

Lemma active_token l t : active l = Some t → token_of l = Some t.
Proof. by destruct l. Qed.

(** Tokens are not shared; an unexpired lease is what the server says until it expires; a release
    that is still under way concerns nobody's lease any more. *)
Record redis_exclusive (x : sys redis_world redis_phase) : Prop := {
  ex_drawn i l t : clients x !! i = Some l → token_of l = Some t → t ∈ drawn (store x);
  ex_fresh i j l m t : clients x !! i = Some l → clients x !! j = Some m →
    token_of l = Some t → token_of m = Some t → i = j;
  ex_server i key token exp t : clients x !! i = Some (Leased key token exp) → clock x ≤ t < exp →
    redis_GET (server (store x)) t key = Some token;
  ex_flight key t : CRelease key t ∈ in_flight (store x) →
    t ∈ drawn (store x) ∧ ∀ i l, clients x !! i = Some l → active l ≠ Some t
}.

Lemma redis_exclusive_one x i j key : redis_exclusive x → redis_holds x i key → redis_holds x j key → i = j.
Proof.
  intros [_ H2 H3 _] (t & e & Hi & He) (t' & e' & Hj & He').
  assert (Some t = Some t') as [= <-].
  { rewrite <- (H3 _ _ _ _ (clock x) Hi), <- (H3 _ _ _ _ (clock x) Hj); [done|lia|lia]. }
  by eapply (H2 i j).
Qed.

(** A move of client [i] that draws no token: what must be shown is what the server says of the
    leases after it, and that a release it leaves under way is its own. *)
Lemma redis_exclusive_move x i l l' w' :
  clients x !! i = Some l → drawn w' = drawn (store x) →
  (∀ t, token_of l' = Some t → token_of l = Some t) → (∀ t, active l' = Some t → active l = Some t) →
  (∀ j key token exp t, <[i := l']> (clients x) !! j = Some (Leased key token exp) → clock x ≤ t < exp →
     redis_GET (server w') t key = Some token) →
  (∀ key t, CRelease key t ∈ in_flight w' → CRelease key t ∈ in_flight (store x) ∨ (token_of l = Some t ∧ active l' ≠ Some t)) →
  redis_exclusive x → redis_exclusive (mkSys (clock x) w' (<[i := l']> (clients x))).
Proof.
  intros Hi Hd Htok Hact Hsrv Hfl [H1 H2 _ H4].
  assert (∀ j m t, <[i := l']> (clients x) !! j = Some m → token_of m = Some t →
    ∃ m', clients x !! j = Some m' ∧ token_of m' = Some t) as Hk.
  { intros j m t Hj Ht. destruct (clients_update _ _ _ _ _ _ Hi Hj) as [[-> ->]|[_ ?]]; eauto. }
  split; simpl; [| |done|].
  - intros j m t Hj Ht. rewrite Hd. destruct (Hk _ _ _ Hj Ht) as (m' & ? & ?). eauto.
  - intros j k m m' t Hj Hk' Ht Ht'. destruct (Hk _ _ _ Hj Ht) as (? & ? & ?), (Hk _ _ _ Hk' Ht') as (? & ? & ?). eauto.
  - intros key t Hin. rewrite Hd. destruct (Hfl _ _ Hin) as [Hold|[Ht Hna]].
    + destruct (H4 _ _ Hold) as [Hdr Hno]. split; [done|]. intros j m Hj Hm.
      destruct (clients_update _ _ _ _ _ _ Hi Hj) as [[-> ->]|[_ ?]]; [by apply (Hno i l), Hact|by eapply Hno].
    + split; [eauto|]. intros j m Hj Hm.
      destruct (clients_update _ _ _ _ _ _ Hi Hj) as [[-> ->]|[Hne Hj']]; [done|]. apply Hne.
      eapply H2; [done|exact Hi|by apply active_token|done].
Qed.

(** The leases of the other clients survive. *)
Definition spares (x : sys redis_world redis_phase) (i : nat) (r' : R) : Prop :=
  ∀ j key token exp t, j ≠ i → clients x !! j = Some (Leased key token exp) → clock x ≤ t < exp →
    redis_GET r' t key = Some token.

(** A move to a control point without a lease. *)
Lemma redis_exclusive_drop x i l l' w' :
  clients x !! i = Some l → drawn w' = drawn (store x) →
  token_of l' = None ∨ token_of l' = token_of l → active l' = None ∨ active l' = active l →
  (∀ k t e, l' ≠ Leased k t e) → spares x i (server w') →
  (∀ key t, CRelease key t ∈ in_flight w' → CRelease key t ∈ in_flight (store x) ∨ (token_of l = Some t ∧ active l' ≠ Some t)) →
  redis_exclusive x → redis_exclusive (mkSys (clock x) w' (<[i := l']> (clients x))).
Proof.
  intros Hi Hd Hl Ha Hn Hsp Hfl Hx. eapply redis_exclusive_move; [done|done| | | |done|done].
  - intros t Ht. destruct Hl; congruence.
  - intros t Ht. destruct Ha; congruence.
  - intros j key token exp t Hj Ht. destruct (clients_update _ _ _ _ _ _ Hi Hj) as [[-> Heq]|[? ?]]; [|eauto].
    by destruct (Hn key token exp).
Qed.

Lemma spares_same x i : redis_exclusive x → spares x i (server (store x)).
Proof. intros [_ _ H3 _] j key token exp t _. apply H3. Qed.

(** A command spares the leases unless it is the release of one. *)
Lemma execute_keeps x c :
  redis_exclusive x →
  ∀ j key token exp t, clients x !! j = Some (Leased key token exp) → clock x ≤ t < exp →
    (∀ k, c ≠ CRelease k token) → redis_GET (execute (server (store x)) (clock x) c) t key = Some token.
Proof.
  intros [_ _ H3 _] j k tk exp t Hj Ht Hc. destruct c as [key token ttl|key token]; cbn.
  - destruct (redis_SETNX (server (store x)) (clock x) key token ttl).2 eqn:E.
    + destruct (decide (k = key)) as [->|Hne].
      * rewrite setnx_set, bool_decide_eq_true in E. rewrite (H3 _ _ _ _ (clock x) Hj) in E by lia. done.
      * rewrite setnx_other by (done || lia). eauto.
    + rewrite setnx_refused by (done || lia). eauto.
  - unfold release_script. case_decide as Hown; [|eauto].
    destruct (decide (k = key)) as [->|]; [|rewrite del_other by (done || lia); eauto].
    rewrite (H3 _ _ _ _ (clock x) Hj) in Hown by lia. simplify_eq. by destruct (Hc key).
Qed.

Lemma spares_setnx x i key token ttl : redis_exclusive x →
  spares x i (redis_SETNX (server (store x)) (clock x) key token ttl).1.
Proof. intros Hx j k tk exp t _ Hj Ht. by apply (execute_keeps x (CSetNX key token ttl) Hx j k tk exp). Qed.

Lemma spares_release x i key token : redis_exclusive x → clients x !! i = Some (Releasing key token) →
  spares x i (release_script (server (store x)) (clock x) key token).
Proof.
  intros Hx Hi j k tk exp t Hne Hj Ht. apply (execute_keeps x (CRelease key token) Hx j k tk exp); [done|done|].
  intros ? [= _ ->]. apply Hne. by eapply (ex_fresh x Hx j i).
Qed.

Lemma redis_exclusive_tick x d : 0 ≤ d → redis_exclusive x → redis_exclusive (mkSys (clock x + d) (store x) (clients x)).
Proof.
  intros Hd [H1 H2 H3 H4]. split; simpl; [done|done| |done]. intros i key token exp t Hi Ht. eapply H3; [done|lia].
Qed.

Lemma redis_exclusive_call x i key token ttl :
  clients x !! i = Some Idle → token ∉ drawn (store x) → redis_exclusive x →
  redis_exclusive (mkSys (clock x) (mkWorld (server (store x)) ({[token]} ∪ drawn (store x)) (in_flight (store x)))
    (<[i := Trying key token ttl]> (clients x))).
Proof.
  intros Hi Hnew [H1 H2 H3 H4].
  assert (∀ j m t, <[i := Trying key token ttl]> (clients x) !! j = Some m → token_of m = Some t →
    (j = i ∧ t = token) ∨ (clients x !! j = Some m ∧ t ∈ drawn (store x))) as Hk.
  { intros j m t Hj Ht. destruct (clients_update _ _ _ _ _ _ Hi Hj) as [[-> ->]|[_ ?]]; [left|right; eauto].
    by injection Ht as <-. }
  split; simpl.
  - intros j m t Hj Ht. destruct (Hk _ _ _ Hj Ht) as [[_ ->]|[_ ?]]; set_solver.
  - intros j k m m' t Hj Hk' Ht Ht'.
    destruct (Hk _ _ _ Hj Ht) as [[-> ->]|[? ?]], (Hk _ _ _ Hk' Ht') as [[-> ?]|[? ?]]; subst; [done|done|done|eauto].
  - intros j k tk exp t Hj Ht. destruct (clients_update _ _ _ _ _ _ Hi Hj) as [[_ ?]|[_ ?]]; [done|eauto].
  - intros k t [Hdr Hno]%H4. split; [by apply elem_of_union_r|]. intros j m Hj Hm.
    destruct (Hk _ _ _ Hj (active_token _ _ Hm)) as [[_ ->]|[? _]]; [done|by eapply Hno].
Qed.

Lemma redis_exclusive_grant x i key token ttl r' :
  clients x !! i = Some (Trying key token ttl) →
  redis_SETNX (server (store x)) (clock x) key token ttl = (r', true) → redis_exclusive x →
  redis_exclusive (mkSys (clock x) (on_server (store x) r') (<[i := Leased key token (clock x + redis_expiry ttl)]> (clients x))).
Proof.
  intros Hi E Hx. pose proof (spares_setnx x i key token ttl Hx) as Hsp. pose proof (f_equal snd E) as E2. simpl in E2.
  apply (f_equal fst) in E. simpl in E. subst r'.
  eapply redis_exclusive_move; [done|done|done|done| |by left|done]. intros j k tk exp t Hj Ht.
  destruct (clients_update _ _ _ _ _ _ Hi Hj) as [[-> Heq]|[? ?]]; [|eauto].
  injection Heq as -> -> ->. by apply setnx_value.
Qed.

(** A command that its client gave up reaches the server. *)
Lemma redis_exclusive_late x cs c cs' :
  in_flight (store x) = cs ++ c :: cs' → redis_exclusive x →
  redis_exclusive (mkSys (clock x) (mkWorld (execute (server (store x)) (clock x) c) (drawn (store x)) (cs ++ cs')) (clients x)).
Proof.
  intros E Hx. destruct (Hx) as [H1 H2 H3 H4]. split; simpl; [done|done| |].
  - intros i key token exp t Hi Ht. apply (execute_keeps x c Hx i key token exp); [done|done|]. intros k ->.
    destruct (H4 k token) as [_ Hno]; [rewrite E; by apply elem_of_app; right; left|]. by apply (Hno i _ Hi).
  - intros key t Hin. apply (H4 key). rewrite E. apply elem_of_app in Hin as [?|?]; apply elem_of_app; [by left|by right; right].
Qed.

Lemma redis_exclusive_step x y : redis_exclusive x → sys_step (redis_step True) x y → redis_exclusive y.
Proof.
  intros Hx [i l s' l' Hi Hacc|d Hd]; [|by apply redis_exclusive_tick].
  pose proof (spares_same _ i Hx) as Hsame.
  inversion Hacc; subst.
  all: try (by apply redis_exclusive_call).
  all: try (by eapply redis_exclusive_grant).
  all: try (rewrite list_insert_id by done; by apply redis_exclusive_late).
  all: eapply redis_exclusive_drop; [exact Hi|done|first [by left|by right]|first [by left|by right]|done| | |done]; cbn; try done;
    try (by left); try (by apply spares_release).
  all: try (intros ? ? [[= -> ->]|?]%elem_of_cons; [by right|by left]).
  all: try (intros ? ? [[=]|?]%elem_of_cons; by left).
  all: match goal with E : redis_SETNX _ _ _ _ _ = _ |- _ => apply (f_equal fst) in E; cbn in E; subst; by apply spares_setnx end.
Qed.

Lemma redis_reachable_exclusive r x : reachable (redis_step True) (mkWorld r ∅ []) Idle x → redis_exclusive x.
Proof.
  revert x. apply reachable_ind; [|exact redis_exclusive_step]. intros now n.
  split; simpl; [intros i l t Hi|intros i j l m t Hi|intros i key token exp t Hi|by intros ? ? ?%elem_of_nil];
    apply lookup_replicate in Hi as [Hi _]; by subst.
Qed.

End Server.
End Redis.

(** ** The file coordinator *)
Module File.

(** The text of a lock file as [time.Parse(time.RFC3339Nano, ...)] reads it: the instant that
    [Format] wrote, or text that does not parse (a file just created is empty). *)
Inductive content := Empty | Stamp (t : time) | Garbage.

(** Directory entries name files by number, so that a file that was removed can still be written
    by whoever has it open. *)
Record fileSystem := mkFileSystem {
  names : gmap string nat;
  files : gmap nat content;
  next : nat
}.
Definition empty_dir : fileSystem := mkFileSystem ∅ ∅ 0.

(** [os.OpenFile] with [O_CREATE|O_EXCL]: [None] when the file exists. *)
Definition create_excl (fs : fileSystem) (path : string) : option (fileSystem * nat) :=
  match names fs !! path with
  | Some _ => None
  | None => Some (mkFileSystem (<[path := next fs]> (names fs)) (<[next fs := Empty]> (files fs)) (S (next fs)), next fs)
  end.

(** [f.WriteString(expires.Format(time.RFC3339Nano))]. *)
Definition write_stamp (fs : fileSystem) (file : nat) (expires : time) : fileSystem :=
  mkFileSystem (names fs) (<[file := Stamp expires]> (files fs)) (next fs).

(** A write that stops before the end. *)
Definition write_garbage (fs : fileSystem) (file : nat) : fileSystem :=
  mkFileSystem (names fs) (<[file := Garbage]> (files fs)) (next fs).

(** [os.Remove]; an error that the file does not exist is ignored by both callers. *)
Definition Remove (fs : fileSystem) (path : string) : fileSystem :=
  mkFileSystem (delete path (names fs)) (files fs) (next fs).

(** [os.ReadFile]. *)
Definition read_file (fs : fileSystem) (path : string) : option content :=
  file ← names fs !! path; files fs !! file.

Definition file_expired (fs : fileSystem) (path : string) (now : time) : bool :=
  match read_file fs path with
  | Some (Stamp t) => After now t
  | _ => true
  end.

Definition file_Release : fileSystem → string → fileSystem := Remove.

Inductive file_phase :=
| Idle
| Starting (path : string) (ttl : Z)
| Opening (path : string) (ttl : Z) (now : time)
| Writing (path : string) (file : nat) (expires : time)
| Checking (path : string) (ttl : Z) (now : time)
| Removing (path : string) (ttl : Z)
| Waiting (path : string) (ttl : Z) (wake : time)
| Leased (path : string) (expires : time)
| Failed (err : error).

(** The timer of the [select]. *)
Definition file_poll : Z := 25 * Millisecond.
Definition file_wake (l : file_phase) : option time := match l with Waiting _ _ w => Some w | _ => None end.

Section Steps.
(** Whether system calls may fail (other than for a file that exists or does not) and contexts
    end. *)
Context (faults : Prop).

(** The system calls of a client; an attempt keeps the clock reading it started with.  A failed
    read of the lock file makes [expired] true, failed writes and removals are ignored. *)
Inductive file_step (now : time) (fs : fileSystem) : file_phase → fileSystem → file_phase → Prop :=
| call path ttl : file_step now fs Idle fs (Starting path (lease_ttl ttl))
| no_dir err : faults → file_step now fs Idle fs (Failed (Errorf_w ("mkdir coordinator dir: " +:+ Error err) err))
| read_clock path ttl : file_step now fs (Starting path ttl) fs (Opening path ttl now)
| created path ttl at_ fs' file : create_excl fs path = Some (fs', file) →
    file_step now fs (Opening path ttl at_) fs' (Writing path file (Add at_ ttl))
| exists_ path ttl at_ : create_excl fs path = None → file_step now fs (Opening path ttl at_) fs (Checking path ttl at_)
| open_error path ttl at_ err : faults →
    file_step now fs (Opening path ttl at_) fs (Failed (Errorf_w ("acquire file lease: " +:+ Error err) err))
| written path file expires :
    file_step now fs (Writing path file expires) (write_stamp fs file expires) (Leased path expires)
| write_lost path file expires : faults → file_step now fs (Writing path file expires) fs (Leased path expires)
| write_partial path file expires : faults →
    file_step now fs (Writing path file expires) (write_garbage fs file) (Leased path expires)
| stale path ttl at_ : file_expired fs path at_ = true → file_step now fs (Checking path ttl at_) fs (Removing path ttl)
| unreadable path ttl at_ : faults → file_step now fs (Checking path ttl at_) fs (Removing path ttl)
| busy path ttl at_ : file_expired fs path at_ = false →
    file_step now fs (Checking path ttl at_) fs (Waiting path ttl (now + file_poll))
| removed path ttl : file_step now fs (Removing path ttl) (Remove fs path) (Starting path ttl)
| remove_lost path ttl : faults → file_step now fs (Removing path ttl) fs (Starting path ttl)
| timer path ttl w : w ≤ now → file_step now fs (Waiting path ttl w) fs (Starting path ttl)
| cancelled path ttl w err : faults →
    file_step now fs (Waiting path ttl w) fs (Failed (Errorf_w ("acquire file lease: " +:+ Error err) err))
| release path exp : file_step now fs (Leased path exp) (file_Release fs path) Idle
| release_error path exp err : faults →
    file_step now fs (Leased path exp) fs (Failed (Errorf_w ("release file lease: " +:+ Error err) err)).
End Steps.

Definition file_holds (x : sys fileSystem file_phase) (i : nat) (path : string) : Prop :=
  ∃ exp, clients x !! i = Some (Leased path exp) ∧ clock x ≤ exp.

(** One attempt that no other client and no failure interrupts. *)
Definition file_try_acquire (fs : fileSystem) (path : string) (ttl now : Z) : fileSystem * bool :=
  let attempt fs := (λ r, write_stamp r.1 r.2 (Add now ttl)) <$> create_excl fs path in
  match attempt fs with
  | Some fs' => (fs', true)
  | None =>
      if file_expired fs path now then (default fs (attempt (Remove fs path)), true)
      else (fs, false)
  end.

(** The lock files say what the memory coordinator's locks say. *)
Record file_agree (fs : fileSystem) (c : Memory.memoryCoordinator) : Prop := {
  ag_files path file : names fs !! path = Some file → (file < next fs)%nat ∧ is_Some (files fs !! file);
  ag_locks path : read_file fs path = Stamp <$> Memory.locks c !! path
}.

Lemma read_create fs path ttl path' :
  (∀ p file, names fs !! p = Some file → (file < next fs)%nat) →
  (λ r, read_file (write_stamp r.1 r.2 ttl) path') <$> create_excl fs path =
  match names fs !! path with
  | Some _ => None
  | None => Some (if decide (path = path') then Some (Stamp ttl) else read_file fs path')
  end.
Proof.
  intros Hlt. unfold create_excl. destruct (names fs !! path) as [file|] eqn:E; [done|]. cbn. f_equal.
  unfold read_file. cbn. rewrite lookup_insert. case_decide; [cbn; by rewrite lookup_insert_eq|].
  destruct (names fs !! path') as [file|] eqn:E'; [|done]. cbn. apply Hlt in E'.
  by rewrite !lookup_insert_ne by lia.
Qed.

(** Creating and stamping a lock file that does not exist is taking the lock. *)
Lemma file_agree_create fs c path exp :
  file_agree fs c → names fs !! path = None →
  ∃ r, create_excl fs path = Some r ∧
    file_agree (write_stamp r.1 r.2 exp) (Memory.mkMemoryCoordinator (<[path := exp]> (Memory.locks c))).
Proof.
  intros [H1 H2] Hnone. pose proof (λ p, read_create fs path exp p (λ p f H, proj1 (H1 p f H))) as Hr. rewrite Hnone in Hr.
  unfold create_excl in *. rewrite Hnone in *. eexists. split; [done|]. split.
  - intros p file. cbn. rewrite lookup_insert_Some. intros [[_ <-]|[_ Hp]].
    + split; [lia|]. rewrite lookup_insert_eq. eauto.
    + apply H1 in Hp as [? ?]. split; [lia|]. by rewrite !lookup_insert_ne by lia.
  - intros p. specialize (Hr p). cbn [fmap option_fmap option_map] in Hr. injection Hr as Hr.
    etransitivity; [exact Hr|]. cbn [Memory.locks]. rewrite lookup_insert, H2. by case_decide.
Qed.

Lemma file_agree_remove fs c path :
  file_agree fs c → file_agree (Remove fs path) (Memory.memory_Release c path).
Proof.
  intros [H1 H2]. split.
  - intros p file. cbn. rewrite lookup_delete_Some. intros [_ ?]. by apply (H1 p).
  - intros p. unfold read_file. cbn. rewrite !lookup_delete. case_decide; [done|]. apply H2.
Qed.

Lemma file_agree_exists fs c path :
  file_agree fs c → names fs !! path = None ↔ Memory.locks c !! path = None.
Proof.
  intros [H1 H2]. specialize (H2 path). unfold read_file in H2. destruct (names fs !! path) as [file|] eqn:E; cbn in H2.
  - apply H1 in E as [_ [x Hx]]. rewrite Hx in H2. by destruct (Memory.locks c !! path).
  - by destruct (Memory.locks c !! path).
Qed.

Lemma file_agree_try fs c path ttl now : file_agree fs c →
  let r := file_try_acquire fs path ttl now in
  let m := Memory.memory_try_acquire c path ttl now in
  r.2 = m.2 ∧ file_agree r.1 m.1.
Proof.
  intros Ha. pose proof (file_agree_exists fs c path Ha) as Hex. unfold file_try_acquire, Memory.memory_try_acquire.
  destruct (Memory.locks c !! path) as [exp|] eqn:E.
  - assert (create_excl fs path = None) as ->.
    { unfold create_excl. destruct (names fs !! path); [done|]. by destruct Hex as [Hex _]; discriminate Hex. }
    cbn [fmap option_fmap option_map]. unfold file_expired. rewrite (ag_locks _ _ Ha), E. cbn [fmap option_fmap option_map].
    destruct (After now exp); [|done]. split; [done|].
    destruct (file_agree_create (Remove fs path) (Memory.memory_Release c path) path (Add now ttl)) as (r & Hr & Hag).
    { by apply file_agree_remove. } { cbn. apply lookup_delete_eq. }
    rewrite Hr. cbn in *. by rewrite insert_delete_eq in Hag.
  - destruct (file_agree_create fs c path (Add now ttl) Ha) as (r & Hr & Hag); [by apply Hex|]. rewrite Hr. by cbn in *.
Qed.

(** Without a failure, the next access of the holder of a lease releases it. *)
Lemma file_agree_released t fs c ls i path exp z : (i < length ls)%nat → file_agree fs c →
  own_step (file_step False) file_wake i (mkSys t fs (<[i := Leased path exp]> ls)) z →
  clients z = <[i := Idle]> ls ∧ file_agree (store z) (Memory.memory_Release c path).
Proof.
  intros Hi Ha Hz. inversion Hz as [l s' l' Hl Hacc|l w Hl Hw _]; subst; cbn in *;
    rewrite list_lookup_insert_eq in Hl by done; injection Hl as <-; [|done].
  inversion Hacc; subst; [|done]. rewrite list_insert_insert_eq. split; [done|]. by apply file_agree_remove.
Qed.

(** The control points of an attempt. *)
Definition attempting (path : string) (l : file_phase) : Prop :=
  match l with
  | Starting p _ | Opening p _ _ | Writing p _ _ | Checking p _ _ | Removing p _ => p = path
  | _ => False
  end.

(** The next access is determined: [rule] is the one that applies. *)
#[local] Ltac next_is rule :=
  eapply until_next;
  [done
  |eapply solo_move; cbn; eapply rule; done
  |let v := fresh in let H := fresh in intros v H; inversion H as [? ? Ha|? Hw]; subst; [|discriminate Hw]; cbn in *;
   inversion Ha; subst; try done; congruence
  |cbn].

(** A client that runs alone, without a failure, makes exactly this attempt, whatever it does. *)
Lemma file_attempt fs path ttl now :
  let r := file_try_acquire fs path ttl now in
  until (solo (file_step False) file_wake) (λ v, attempting path (v_loc v))
    (λ v, v = mkView now r.1 (if r.2 then Leased path (Add now ttl) else Waiting path ttl (now + file_poll)))
    (mkView now fs (Starting path ttl)).
Proof.
  assert (∀ fs fs' file, create_excl fs path = Some (fs', file) →
    until (solo (file_step False) file_wake) (λ v, attempting path (v_loc v))
      (λ v, v = mkView now (write_stamp fs' file (Add now ttl)) (Leased path (Add now ttl)))
      (mkView now fs (Starting path ttl))) as Hcreate.
  { intros fs0 fs1 file E. next_is read_clock. next_is created. next_is written. by apply until_now. }
  unfold file_try_acquire. destruct (create_excl fs path) as [[fs' file]|] eqn:E; cbn.
  { by apply Hcreate. }
  next_is read_clock. next_is exists_. destruct (file_expired fs path now) eqn:Ex.
  - next_is stale. next_is removed. destruct (create_excl (Remove fs path) path) as [[fs' file]|] eqn:E'.
    + cbn. by apply Hcreate.
    + exfalso. unfold create_excl in E'. cbn in E'. by rewrite lookup_delete_eq in E'.
  - next_is busy. by apply until_now.
Qed.

End File.

(** ** The lease of a run: [acquireLeaseIfEnabled] of internal/app/run.go *)
Inductive coordinator_choice :=
| NewMemory
| NewRedis (redisURL redisPrefix : string)
| NewFile (dir : string).

(** [strings.ReplaceAll(s, ".", "_")]. *)
Fixpoint underscore_dots (s : string) : string :=
  match s with
  | EmptyString => EmptyString
  | String c s' => String (if decide (c = "."%char) then "_"%char else c) (underscore_dots s')
  end.

(** The part of [acquireLeaseIfEnabled] before [Acquire]: the coordinator a run builds, the key
    and the time to live it asks for; [None] when coordination is off. *)
Definition lease_request (getenv : string → string) (namespace taskID : string) :
    option (coordinator_choice * string * Z) :=
  if negb (envBool getenv "COORDINATION_ENABLED") then None
  else
    let mode := TrimSpace (ToLower (getenv "COORDINATION_MODE")) in
    let mode := if decide (mode = "") then "file" else mode in
    let coord :=
      if decide (mode = "memory") then NewMemory
      else if decide (mode = "redis") then
        NewRedis (TrimSpace (getenv "COORDINATION_REDIS_URL")) (TrimSpace (getenv "COORDINATION_REDIS_PREFIX"))
      else NewFile (getenv "COORDINATION_DIR") in
    let v := TrimSpace (getenv "COORDINATION_TTL") in
    let ttl :=
      if decide (v = "") then 2 * Minute
      else match ParseDuration v with
           | Ok d => if 0 <? d then d else 2 * Minute
           | Err _ => 2 * Minute
           end in
    Some (coord, namespace +:+ "-" +:+ underscore_dots taskID, ttl).

(** ** Properties *)

(** C19: as long as clients release their leases before these expire, the
    memory coordinator grants a key to a client exactly when no client holds an unexpired lease
    on it, under every interleaving of the clients; in particular two clients never hold
    unexpired leases on the same key. *)
Theorem memory_leases_exclusive x :
  reachable (Memory.memory_step True Memory.in_time) Memory.NewMemoryCoordinator Memory.Idle x →
  (∀ i j key, Memory.memory_holds x i key → Memory.memory_holds x j key → i = j) ∧
  (∀ key ttl, (Memory.memory_try_acquire (store x) key ttl (clock x)).2 = true ↔ ∀ j, ¬ Memory.memory_holds x j key).
Proof.
  intros Hx%Memory.memory_reachable_exclusive. split; [apply Hx|]. intros key ttl. by apply Memory.memory_exclusive_grants.
Qed.

(** C20: provided tokens do not repeat, two clients of the Redis coordinator
    never hold unexpired leases on the same key, under every interleaving, also when leases are
    released after they expired, when the client library sends a command again because its answer
    was lost, and when a command that was given up reaches the server at any later time. *)
Theorem redis_leases_exclusive {R} `{RedisLaws R} (r : R) x i j key :
  reachable (Redis.redis_step True) (Redis.mkWorld r ∅ []) Redis.Idle x →
  Redis.redis_holds x i key → Redis.redis_holds x j key → i = j.
Proof. intros Hx%Redis.redis_reachable_exclusive. by apply Redis.redis_exclusive_one. Qed.

(** C21: when the lock files and the memory coordinator's locks agree and
    no system call fails, an attempt of a file client that runs alone ends, whatever it does, in
    the lease exactly when the memory coordinator grants it and in a wait of 25 ms otherwise;
    lock files and locks agree afterwards, and again after the release of the lease. *)
Theorem file_attempts_refine_memory x c i path ttl :
  File.file_agree (store x) c → clients x !! i = Some (File.Starting path ttl) →
  let m := Memory.memory_try_acquire c path ttl (clock x) in
  until (own_step (File.file_step False) File.file_wake i)
    (λ y, ∃ l, clients y !! i = Some l ∧ File.attempting path l)
    (λ y, clock y = clock x ∧
       clients y = <[i := if m.2 then File.Leased path (Add (clock x) ttl)
                          else File.Waiting path ttl (clock x + 25 * Millisecond)]> (clients x) ∧
       File.file_agree (store y) m.1 ∧
       (m.2 = true → ∀ z, own_step (File.file_step False) File.file_wake i y z →
          clients z = <[i := File.Idle]> (clients x) ∧ File.file_agree (store z) (Memory.memory_Release m.1 path))) x.
Proof.
  intros Ha Hi m. destruct (File.file_agree_try (store x) c path ttl (clock x) Ha) as [Hb Hag]. fold m in Hb, Hag.
  pose proof (until_own _ _ i _ _ _ (File.file_attempt (store x) path ttl (clock x)) x Hi eq_refl eq_refl) as Hu.
  eapply until_weaken; [|exact Hu]. intros [t fs ls] (l & Hls & [= -> -> ->]). cbn in *. subst ls. rewrite Hb.
  split; [done|]. split; [done|]. split; [done|]. intros -> z Hz.
  eapply File.file_agree_released; [by eapply lookup_lt_Some|done|exact Hz].
Qed.

(** Exclusion fails for the other two coordinators outside the conditions above.
    A memory lease released after it expired deletes the lease of the next holder, and a third
    client is granted the key while that holder's lease is unexpired.  A file client that looks
    at a lock file between its creation and the writing of its stamp takes it for expired,
    removes it and is granted the lease as well, without any lease having expired. *)
Theorem lease_races :
  (∃ x, reachable (Memory.memory_step False (λ _ _, True)) Memory.NewMemoryCoordinator Memory.Idle x ∧
     Memory.memory_holds x 1 "ns-task" ∧ Memory.memory_holds x 2 "ns-task") ∧
  (∃ x, reachable (File.file_step False) File.empty_dir File.Idle x ∧
     File.file_holds x 0 "ns-task.lock" ∧ File.file_holds x 1 "ns-task.lock").
Proof.
  split; eexists; (split; [exists 0|]).
  - exists 3%nat. evaluate_state.
    client 0%nat does (Memory.call _ _ _ _ "ns-task" Second). client 0%nat does Memory.grant. wait (2 * Second).
    client 1%nat does (Memory.call _ _ _ _ "ns-task" Second). client 1%nat does Memory.grant.
    client 0%nat does Memory.release.
    client 2%nat does (Memory.call _ _ _ _ "ns-task" Second). client 2%nat does Memory.grant. apply rtc_refl.
  - split; eexists; (split; [reflexivity|vm_compute; discriminate]).
  - exists 2%nat. evaluate_state.
    client 0%nat does (File.call _ _ _ "ns-task.lock" Second). client 0%nat does File.read_clock. client 0%nat does File.created.
    client 1%nat does (File.call _ _ _ "ns-task.lock" Second). client 1%nat does File.read_clock. client 1%nat does File.exists_.
    client 1%nat does File.stale. client 1%nat does File.removed. client 1%nat does File.read_clock.
    client 1%nat does File.created. client 1%nat does File.written. client 0%nat does File.written. apply rtc_refl.
  - split; eexists; (split; [reflexivity|vm_compute; discriminate]).
Qed.

(** ** Witnesses *)

(** A server with exact expiry. *)
Abbreviation map_server := (gmap string (string * time)).
Definition map_GET (r : map_server) (t : time) (k : string) : option string :=
  match r !! k with Some (v, e) => if t <? e then Some v else None | None => None end.

#[export] Instance map_redis : RedisServer map_server := {|
  redis_GET := map_GET;
  redis_SETNX r now k v ttl :=
    if decide (map_GET r now k = None) then (<[k := (v, now + ttl)]> r, true) else (r, false);
  redis_DEL r _ k := delete k r;
  redis_expiry ttl := ttl
|}.

#[export] Instance map_redis_laws : RedisLaws map_server.
Proof.
  split.
  - intros r now key v ttl. cbn. by case_decide; [rewrite bool_decide_true|rewrite bool_decide_false].
  - intros r now key v ttl t. cbn. case_decide; [|done]. cbn. intros _ Ht. unfold map_GET.
    rewrite lookup_insert_eq. by rewrite (proj2 (Z.ltb_lt _ _)) by lia.
  - intros r now key v ttl t k. cbn. by case_decide.
  - intros r now key v ttl t k Hne Ht. cbn. case_decide; [|done]. cbn. unfold map_GET. by rewrite lookup_insert_ne.
  - intros r now key t k Hne Ht. cbn. unfold map_GET. by rewrite lookup_delete_ne.
Qed.

(** One client has a lease, the other none. *)
Definition memory_one : sys Memory.memoryCoordinator Memory.memory_phase :=
  mkSys 0 (Memory.mkMemoryCoordinator {["k" := Second]}) [Memory.Leased "k" Second; Memory.Idle].

Lemma memory_leases_exclusive_witness :
  Memory.memory_holds memory_one 0 "k" ∧
  (∀ j, Memory.memory_holds memory_one 0 "k" → Memory.memory_holds memory_one j "k" → 0%nat = j).
Proof.
  assert (reachable (Memory.memory_step True Memory.in_time) Memory.NewMemoryCoordinator Memory.Idle memory_one) as Hr.
  { exists 0, 2%nat. evaluate_state. client 0%nat does (Memory.call _ _ _ _ "k" Second). client 0%nat does Memory.grant.
    apply rtc_refl. }
  destruct (memory_leases_exclusive memory_one Hr) as [H _].
  split; [exists Second; split; [reflexivity|vm_compute; discriminate]|]. intros j. apply H.
Defined.

Definition redis_one : sys (@Redis.redis_world map_server) Redis.redis_phase :=
  mkSys 0 (Redis.mkWorld {["fluxroute:k" := ("token", Second)]} {["token"]} [])
    [Redis.Leased "fluxroute:k" "token" Second; Redis.Idle].

Lemma redis_leases_exclusive_witness :
  Redis.redis_holds redis_one 0 "fluxroute:k" ∧
  (∀ j, Redis.redis_holds redis_one j "fluxroute:k" → 0%nat = j).
Proof.
  assert (reachable (Redis.redis_step True) (Redis.mkWorld (∅ : map_server) ∅ []) Redis.Idle redis_one) as Hr.
  { exists 0, 2%nat. evaluate_state.
    eapply rtc_l; [eapply (client_moves _ _ 0%nat); [reflexivity|apply (Redis.call _ _ _ "" "k" Second "token"); by apply not_elem_of_empty]|].
    evaluate_state. client 0%nat does Redis.grant. apply rtc_refl. }
  assert (Redis.redis_holds redis_one 0 "fluxroute:k") as H0 by (exists "token", Second; split; reflexivity).
  split; [exact H0|]. intros j. exact (redis_leases_exclusive (∅ : map_server) redis_one 0 j "fluxroute:k" Hr H0).
Defined.

(** An attempt on a free key. *)
Lemma file_attempts_refine_memory_witness :
  until (own_step (File.file_step False) File.file_wake 0)
    (λ y, ∃ l, clients y !! 0%nat = Some l ∧ File.attempting "k.lock" l)
    (λ y, clients y = [File.Leased "k.lock" Second]) (mkSys 0 File.empty_dir [File.Starting "k.lock" Second]).
Proof.
  assert (File.file_agree File.empty_dir Memory.NewMemoryCoordinator) as Ha by (split; done).
  eapply until_weaken; [|exact (file_attempts_refine_memory (mkSys 0 File.empty_dir [File.Starting "k.lock" Second])
    Memory.NewMemoryCoordinator 0 "k.lock" Second Ha eq_refl)].
  intros y (_ & Hc & _). rewrite Hc. reflexivity.
Defined.
