(* ===== verification/CoordinatorLive.v ===== *)
(** * Waiting clients get their lease: internal/coordinator/coordinator.go and redis.go

    Whatever the others did or failed to do (crash while they hold the key, while they create the
    lock file or while they talk to Redis), a client that waits for a key and is then left alone
    gets it: its next attempts, one per poll, cannot go wrong in any order, and the first one
    after the lease in its way has expired is granted. *)

From S2P Require Import Prelude GoErrors GoStrings GoTime App Coordinator.

Lemma lease_ttl_pos ttl : 0 < lease_ttl ttl.
Proof. unfold lease_ttl, Minute, Second, Millisecond. destruct (Z.leb_spec ttl 0); lia. Qed.
#[export] Hint Resolve lease_ttl_pos : flux.

(** The state of client [i] satisfies [P]. *)
Definition at_client {St Loc} (P : Loc → Prop) (i : nat) (y : sys St Loc) : Prop :=
  ∃ l, clients y !! i = Some l ∧ P l.

(** From a client alone to the client in the system, with the bound of the poll. *)
Lemma alone_in_system {St Loc} (access : time → St → Loc → St → Loc → Prop) wake i (x : sys St Loc)
    (Q : Loc → Prop) (holds : time → Loc → Prop) (w free poll : Z) l :
  0 < poll → clients x !! i = Some l → w ≤ clock x + poll →
  until (solo access wake) (λ v, Q (v_loc v))
    (λ v, holds (v_clock v) (v_loc v) ∧ v_clock v ≤ Z.max (Z.max (clock x) w) (free + poll)) (mkView (clock x) (store x) l) →
  until (own_step access wake i) (at_client Q i)
    (λ y, at_client (holds (clock y)) i y ∧ clock y ≤ Z.max (clock x) free + poll) x.
Proof.
  intros Hpoll Hi Hw Hu. apply (until_own _ _ i) with (x := x) in Hu; [|done|done|done]. cbn in Hu.
  eapply until_weaken; [|exact Hu]. intros y (l' & Hls & Hh & Hc). split; [|lia].
  exists l'. split; [|done]. rewrite Hls. apply list_lookup_insert_eq. by eapply lookup_lt_Some.
Qed.

(** ** Memory *)
Section Memory.
Context (may_release : time → time → Prop).

(** Times to live are positive, and a wait ends within one poll. *)
Definition memory_ok (t : time) (l : Memory.memory_phase) : Prop :=
  match l with
  | Memory.Trying _ ttl => 0 < ttl
  | Memory.Waiting _ ttl w => 0 < ttl ∧ w ≤ t + Memory.memory_poll
  | _ => True
  end.

Lemma memory_phases x i l : reachable (Memory.memory_step True may_release) Memory.NewMemoryCoordinator Memory.Idle x →
  clients x !! i = Some l → memory_ok (clock x) l.
Proof.
  apply reachable_clients; [done|intros t t' [] ?; cbn; try done; lia|].
  intros now c l0 c' l1 []; cbn; try (intros; split; lia); naive_solver auto with flux.
Qed.

(** The control points of a client that is after [key]. *)
Definition memory_asks (key : string) (l : Memory.memory_phase) : Prop :=
  match l with Memory.Trying k ttl | Memory.Waiting k ttl _ => k = key | _ => False end.

Lemma memory_alone key ttl free t c w : 0 < ttl →
  (∀ exp, Memory.locks c !! key = Some exp → exp < free) →
  until (solo (Memory.memory_step False may_release) Memory.memory_wake) (λ v, memory_asks key (v_loc v))
    (λ v, (∃ exp, v_loc v = Memory.Leased key exp ∧ v_clock v ≤ exp) ∧ v_clock v ≤ Z.max (Z.max t w) (free + Memory.memory_poll))
    (mkView t c (Memory.Waiting key ttl w)).
Proof.
  intros Httl. apply (polling _ _ Memory.memory_poll free (λ c, ∀ exp, Memory.locks c !! key = Some exp → exp < free)
    (Memory.Trying key ttl) (Memory.Waiting key ttl)); [done|done|done| |intros; by apply Memory.timer|].
  - intros t0 s w0 s' l' Ha. inversion Ha; subst; done.
  - intros t0 s Hinv. destruct (Memory.memory_try_acquire s key ttl t0) as [c' b] eqn:E. apply until_later; [done| |].
    + destruct b; eexists; apply solo_move; [by apply Memory.grant|by apply Memory.busy].
    + intros v Hv. inversion Hv as [s' l' Ha|]; subst; [|done]. cbn in *. apply until_now. split; [done|].
      inversion Ha as [|? ? ? E'|? ? ? E'| | |]; subst; cbn.
      * left. eexists. split; [done|]. unfold Add. lia.
      * right. apply Memory.memory_try_acquire_busy in E' as [-> (exp & Hk & Hexp)]. split; [|done].
        specialize (Hinv _ Hk). lia.
Qed.

Lemma memory_waiter x i key ttl w free :
  reachable (Memory.memory_step True may_release) Memory.NewMemoryCoordinator Memory.Idle x →
  clients x !! i = Some (Memory.Waiting key ttl w) →
  (∀ exp, Memory.locks (store x) !! key = Some exp → exp < free) →
  until (own_step (Memory.memory_step False may_release) Memory.memory_wake i) (at_client (memory_asks key) i)
    (λ y, Memory.memory_holds y i key ∧ clock y ≤ Z.max (clock x) free + Memory.memory_poll) x.
Proof.
  intros Hx Hi Hfree. destruct (memory_phases _ _ _ Hx Hi) as [Httl Hw]. eapply until_weaken.
  2: { eapply (alone_in_system _ _ i x _ (λ t l, ∃ exp, l = Memory.Leased key exp ∧ t ≤ exp) w free Memory.memory_poll); [done|done|exact Hw|by apply memory_alone]. }
  intros y [(l & Hl & exp & -> & Hexp) Hc]. split; [by exists exp|done].
Qed.
End Memory.

(** ** Lock files *)
Definition file_ok (t : time) (l : File.file_phase) : Prop :=
  match l with
  | File.Starting _ ttl | File.Opening _ ttl _ | File.Checking _ ttl _ | File.Removing _ ttl => 0 < ttl
  | File.Waiting _ ttl w => 0 < ttl ∧ w ≤ t + File.file_poll
  | _ => True
  end.

Lemma file_phases x i l : reachable (File.file_step True) File.empty_dir File.Idle x →
  clients x !! i = Some l → file_ok (clock x) l.
Proof.
  apply reachable_clients; [done|intros t t' [] ?; cbn; try done; lia|].
  intros now c l0 c' l1 []; cbn; try (intros; split; lia); naive_solver auto with flux.
Qed.

Definition file_asks (path : string) (l : File.file_phase) : Prop :=
  match l with File.Waiting p _ _ => p = path | _ => File.attempting path l end.

Lemma file_alone path ttl free t fs w : 0 < ttl →
  (∀ exp, File.read_file fs path = Some (File.Stamp exp) → exp < free) →
  until (solo (File.file_step False) File.file_wake) (λ v, file_asks path (v_loc v))
    (λ v, (∃ exp, v_loc v = File.Leased path exp ∧ v_clock v ≤ exp) ∧ v_clock v ≤ Z.max (Z.max t w) (free + File.file_poll))
    (mkView t fs (File.Waiting path ttl w)).
Proof.
  intros Httl. apply (polling _ _ File.file_poll free (λ fs, ∀ exp, File.read_file fs path = Some (File.Stamp exp) → exp < free)
    (File.Starting path ttl) (File.Waiting path ttl)); [done|done|done| |intros; by apply File.timer|].
  - intros t0 s w0 s' l' Ha. inversion Ha; subst; done.
  - intros t0 s Hinv. eapply until_weaken_l, until_weaken, File.file_attempt.
    { by intros [? ? []]. }
    intros v ->. cbn. split; [done|]. unfold File.file_try_acquire.
    destruct (File.create_excl s path); cbn; [left; eexists; split; [done|unfold Add; lia]|].
    destruct (File.file_expired s path t0) eqn:E; cbn; [left; eexists; split; [done|unfold Add; lia]|].
    right. split; [|done]. unfold File.file_expired, After in E.
    destruct (File.read_file s path) as [[|exp|]|] eqn:Er; try done. specialize (Hinv _ eq_refl).
    apply Z.ltb_ge in E. lia.
Qed.

Lemma file_waiter x i path ttl w free :
  reachable (File.file_step True) File.empty_dir File.Idle x →
  clients x !! i = Some (File.Waiting path ttl w) →
  (∀ exp, File.read_file (store x) path = Some (File.Stamp exp) → exp < free) →
  until (own_step (File.file_step False) File.file_wake i) (at_client (file_asks path) i)
    (λ y, File.file_holds y i path ∧ clock y ≤ Z.max (clock x) free + File.file_poll) x.
Proof.
  intros Hx Hi Hfree. destruct (file_phases _ _ _ Hx Hi) as [Httl Hw]. eapply until_weaken.
  2: { eapply (alone_in_system _ _ i x _ (λ t l, ∃ exp, l = File.Leased path exp ∧ t ≤ exp) w free File.file_poll); [done|done|exact Hw|by apply file_alone]. }
  intros y [(l & Hl & exp & -> & Hexp) Hc]. split; [by exists exp|done].
Qed.

(** ** Redis *)

(** Documented behaviour of expiry: a key that was set with a positive one goes away after it, a
    deleted key at once; the client library never sends an expiry of zero for a positive
    duration. *)
Class RedisExpiry (R : Type) `{!RedisServer R} := {
  expiry_pos ttl : 0 < ttl → 0 < redis_expiry ttl;
  setnx_expires r now key v ttl t : 0 < ttl →
    (redis_SETNX r now key v ttl).2 = true → now + redis_expiry ttl ≤ t →
    redis_GET (redis_SETNX r now key v ttl).1 t key = None;
  del_gone r now key t : now ≤ t → redis_GET (redis_DEL r now key) t key = None
}.

Section Redis.
Context {R : Type} `{RedisLaws R} `{!RedisExpiry R}.

(** The key is free from [free] on, if nothing sets it. *)
Definition free_from (r : R) (key : string) (free : time) : Prop := ∀ t, free ≤ t → redis_GET r t key = None.

(** No key stays for ever. *)
Definition expiring (r : R) : Prop := ∀ key, ∃ free, free_from r key free.

Definition command_ok (c : Redis.command) : Prop := match c with Redis.CSetNX _ _ ttl => 0 < ttl | _ => True end.

Lemma expiring_execute now r c : command_ok c → expiring r → expiring (Redis.execute r now c).
Proof.
  intros Hc Hr k. destruct (Hr k) as [free Hfree]. destruct c as [key token ttl|key token]; cbn in *.
  - destruct (redis_SETNX r now key token ttl).2 eqn:E.
    + destruct (decide (k = key)) as [->|Hne].
      * exists (now + redis_expiry ttl). intros t Ht. by apply setnx_expires.
      * exists (Z.max now free). intros t Ht. rewrite setnx_other by (done || lia). apply Hfree. lia.
    + exists (Z.max now free). intros t Ht. rewrite setnx_refused by (done || lia). apply Hfree. lia.
  - exists (Z.max now free). intros t Ht. unfold Redis.release_script. case_decide; [|apply Hfree; lia].
    destruct (decide (k = key)) as [->|Hne]; [apply del_gone; lia|]. rewrite del_other by (done || lia). apply Hfree. lia.
Qed.

Definition redis_ok (t : time) (l : Redis.redis_phase) : Prop :=
  match l with
  | Redis.Trying _ _ ttl => 0 < ttl
  | Redis.Waiting _ _ ttl w => 0 < ttl ∧ w ≤ t + Redis.redis_poll
  | _ => True
  end.

Lemma redis_phases r x i l : reachable (Redis.redis_step True) (Redis.mkWorld r ∅ []) Redis.Idle x →
  clients x !! i = Some l → redis_ok (clock x) l.
Proof.
  apply reachable_clients; [done|intros t t' [] ?; cbn; try done; lia|].
  intros now c l0 c' l1 []; cbn; try (intros; split; lia); naive_solver auto with flux.
Qed.

Lemma redis_expiring_step now w l w' l' : Redis.redis_step True now w l w' l' → redis_ok now l →
  expiring (Redis.server w) ∧ Forall command_ok (Redis.in_flight w) →
  expiring (Redis.server w') ∧ Forall command_ok (Redis.in_flight w').
Proof.
  intros Hs Hl [He Hf]. destruct Hs as [| |? ? ? ? E|? ? ? ? E| | | | | | | | |l cs c cs' _ E]; cbn in *; try done;
    try (split; [done|by constructor]).
  - apply (f_equal fst) in E. cbn in E. subst. split; [|done]. by apply (expiring_execute _ _ (Redis.CSetNX _ _ _)).
  - apply (f_equal fst) in E. cbn in E. subst. split; [|done]. by apply (expiring_execute _ _ (Redis.CSetNX _ _ _)).
  - split; [|done]. by apply (expiring_execute _ _ (Redis.CRelease _ _)).
  - rewrite E, Forall_app, Forall_cons in Hf. destruct Hf as (? & ? & ?). split; [by apply expiring_execute|by apply Forall_app].
Qed.

(** The key a client waits for is free one day. *)
Lemma redis_expiring r x : expiring r → reachable (Redis.redis_step True) (Redis.mkWorld r ∅ []) Redis.Idle x →
  expiring (Redis.server (store x)).
Proof.
  intros Hr (now & n & Hrun).
  assert (expiring (Redis.server (store x)) ∧ Forall command_ok (Redis.in_flight (store x))) as [? _]; [|done].
  assert (reachable (Redis.redis_step True) (Redis.mkWorld r ∅ []) Redis.Idle x) as Hx by (by exists now, n).
  revert x Hrun Hx. apply (rtc_ind_r (λ x, _ → expiring (Redis.server (store x)) ∧ Forall command_ok (Redis.in_flight (store x)))).
  - intros _. by split; [|constructor].
  - intros y z Hy Hyz IH _. assert (reachable (Redis.redis_step True) (Redis.mkWorld r ∅ []) Redis.Idle y) as Hr' by (by exists now, n).
    specialize (IH Hr'). destruct Hyz as [i l s' l' Hi Ha|]; [|done].
    eapply redis_expiring_step; [exact Ha|by eapply redis_phases|done].
Qed.

Definition redis_asks (key : string) (l : Redis.redis_phase) : Prop :=
  match l with Redis.Trying k _ _ | Redis.Waiting k _ _ _ => k = key | _ => False end.

Lemma redis_alone key token ttl free t w0 w : 0 < ttl → free_from (Redis.server w0) key free →
  until (solo (Redis.redis_step False) Redis.redis_wake) (λ v, redis_asks key (v_loc v))
    (λ v, (∃ exp, v_loc v = Redis.Leased key token exp ∧ v_clock v < exp) ∧ v_clock v ≤ Z.max (Z.max t w) (free + Redis.redis_poll))
    (mkView t w0 (Redis.Waiting key token ttl w)).
Proof.
  intros Httl. apply (polling _ _ Redis.redis_poll free (λ w, free_from (Redis.server w) key free)
    (Redis.Trying key token ttl) (Redis.Waiting key token ttl)); [done|done|done| |intros; by apply Redis.timer|].
  - intros t0 s w1 s' l' Ha. inversion Ha; subst; done.
  - intros t0 s Hinv. destruct (redis_SETNX (Redis.server s) t0 key token ttl) as [r' b] eqn:E. apply until_later; [done| |].
    + destruct b; eexists; apply solo_move; [by eapply Redis.grant|by eapply Redis.busy].
    + intros v Hv. inversion Hv as [s' l' Ha|]; subst; [|done]. cbn in *. apply until_now. split; [done|].
      inversion Ha as [| |? ? ? ? E'|? ? ? ? E'| | | | | | | | |]; subst; cbn; try done.
      * left. eexists. split; [done|]. pose proof (expiry_pos ttl Httl). lia.
      * right. pose proof (setnx_set (Redis.server s) t0 key token ttl) as Hset. rewrite E' in Hset. cbn in Hset.
        symmetry in Hset. apply bool_decide_eq_false in Hset.
        assert (t0 < free) by (destruct (decide (free ≤ t0)); [by destruct Hset; apply Hinv|lia]).
        split; [done|]. split; [done|]. intros u Hu. pose proof (setnx_refused (Redis.server s) t0 key token ttl u key) as Hsame.
        rewrite E' in Hsame. cbn in Hsame. rewrite Hsame by (done || lia). by apply Hinv.
Qed.

Lemma redis_waiter r x i key token ttl w free :
  reachable (Redis.redis_step True) (Redis.mkWorld r ∅ []) Redis.Idle x →
  clients x !! i = Some (Redis.Waiting key token ttl w) → free_from (Redis.server (store x)) key free →
  until (own_step (Redis.redis_step False) Redis.redis_wake i) (at_client (redis_asks key) i)
    (λ y, Redis.redis_holds y i key ∧ clock y ≤ Z.max (clock x) free + Redis.redis_poll) x.
Proof.
  intros Hx Hi Hfree. destruct (redis_phases _ _ _ _ Hx Hi) as [Httl Hw]. eapply until_weaken.
  2: { eapply (alone_in_system _ _ i x _ (λ t l, ∃ exp, l = Redis.Leased key token exp ∧ t < exp) w free Redis.redis_poll); [done|done|exact Hw|by apply redis_alone]. }
  intros y [(l & Hl & exp & -> & Hexp) Hc]. split; [by exists token, exp|done].
Qed.
End Redis.

(** ** Properties *)

(** C22: a client that waits for a key is never stuck, after any interleaving
    of the clients, failed commands, late releases and clients that stopped between two accesses
    included.  If from then on it is left alone and nothing fails for it, every run of it, asleep
    between its polls, ends with an unexpired lease on the key, at most one poll (20 ms in
    memory, 25 ms with lock files, 30 ms with Redis) after the later of the present instant and
    the instant from which the key is free: past the expiry of the lease the store records, if
    there is one, and for Redis the end of the key's value.  For Redis there is such an instant
    whenever the server held no key without an expiry at the start. *)
Theorem waiting_clients_acquire {R} `{RedisLaws R, !RedisExpiry R} may_release (r : R) i key token ttl w :
  expiring r →
  (∀ x free, reachable (Memory.memory_step True may_release) Memory.NewMemoryCoordinator Memory.Idle x →
     clients x !! i = Some (Memory.Waiting key ttl w) →
     (∀ exp, Memory.locks (store x) !! key = Some exp → exp < free) →
     until (own_step (Memory.memory_step False may_release) Memory.memory_wake i) (at_client (memory_asks key) i)
       (λ y, Memory.memory_holds y i key ∧ clock y ≤ Z.max (clock x) free + 20 * Millisecond) x) ∧
  (∀ x free, reachable (File.file_step True) File.empty_dir File.Idle x →
     clients x !! i = Some (File.Waiting key ttl w) →
     (∀ exp, File.read_file (store x) key = Some (File.Stamp exp) → exp < free) →
     until (own_step (File.file_step False) File.file_wake i) (at_client (file_asks key) i)
       (λ y, File.file_holds y i key ∧ clock y ≤ Z.max (clock x) free + 25 * Millisecond) x) ∧
  (∀ x, reachable (Redis.redis_step True) (Redis.mkWorld r ∅ []) Redis.Idle x →
     clients x !! i = Some (Redis.Waiting key token ttl w) →
     (∃ free, free_from (Redis.server (store x)) key free) ∧
     (∀ free, free_from (Redis.server (store x)) key free →
       until (own_step (Redis.redis_step False) Redis.redis_wake i) (at_client (redis_asks key) i)
         (λ y, Redis.redis_holds y i key ∧ clock y ≤ Z.max (clock x) free + 30 * Millisecond) x)).
Proof.
  intros Hr. split; [|split].
  - intros x free Hx Hi Hfree. by eapply memory_waiter.
  - intros x free Hx Hi Hfree. by eapply file_waiter.
  - intros x Hx Hi. split; [by eapply redis_expiring|]. intros free Hfree. by eapply redis_waiter.
Qed.

#[local] Instance map_redis_expiry : RedisExpiry map_server.
Proof.
  split; cbn.
  - done.
  - intros r now key v ttl t _. case_decide; [|done]. cbn. intros _ Ht. unfold map_GET. rewrite lookup_insert_eq.
    by rewrite (proj2 (Z.ltb_ge _ _)) by lia.
  - intros r now key t _. unfold map_GET. by rewrite lookup_delete_eq.
Qed.

(** The first client crashed with the lease; the second waits. *)
Definition memory_waiting : sys Memory.memoryCoordinator Memory.memory_phase :=
  mkSys 0 (Memory.mkMemoryCoordinator {["k" := Second]}) [Memory.Leased "k" Second; Memory.Waiting "k" Second (20 * Millisecond)].

Lemma waiting_clients_acquire_witness :
  until (own_step (Memory.memory_step False (λ _ _, True)) Memory.memory_wake 1) (at_client (memory_asks "k") 1)
    (λ y, Memory.memory_holds y 1 "k" ∧ clock y ≤ Z.max 0 (Second + 1) + 20 * Millisecond) memory_waiting.
Proof.
  assert (reachable (Memory.memory_step True (λ _ _, True)) Memory.NewMemoryCoordinator Memory.Idle memory_waiting) as Hx.
  { exists 0, 2%nat. evaluate_state. client 0%nat does (Memory.call _ _ _ _ "k" Second). client 0%nat does Memory.grant.
    client 1%nat does (Memory.call _ _ _ _ "k" Second). client 1%nat does Memory.busy. apply rtc_refl. }
  assert (expiring (∅ : map_server)) as Hr by (intros k; by exists 0).
  assert (∀ exp, Memory.locks (store memory_waiting) !! "k" = Some exp → exp < Second + 1) as Hfree.
  { intros exp [= <-]. reflexivity. }
  exact (proj1 (waiting_clients_acquire (λ _ _, True) (∅ : map_server) 1 "k" "" Second (20 * Millisecond) Hr)
    memory_waiting (Second + 1) Hx eq_refl Hfree).
Defined.
