(* ===== verification/Adapters.v ===== *)
(** * LLM providers: pkg/adapters

    The provider-agnostic request and response, the JSON-over-HTTP helper and the clients for
    OpenAI, Anthropic and Gemini.  The HTTP transport and the context are parameters; a call of
    the transport changes the state [W] of the world outside. *)

From Stdlib Require Import SpecFloat.
From S2P Require Import Prelude GoErrors GoStrings GoTime Utf8 Json GoFloat GoRound JsonCodec JsonAny GoPath AgentFunc.

Record GenerateRequest := mkGenerateRequest {
  gr_Model : string;
  gr_Prompt : string;
  gr_MaxTokens : Z;
  gr_Temperature : spec_float
}.

Record GenerateResponse := mkGenerateResponse {
  gs_Text : string;
  gs_InputTokens : Z;
  gs_OutputTokens : Z;
  gs_Raw : string
}.

Definition ErrMissingAPIKey : error := ErrorString (Some 20%N) "missing api key".
Definition ErrEmptyPrompt : error := ErrorString (Some 21%N) "prompt is empty".

(** ** The transport *)
Record HttpRequest := mkHttpRequest {
  rq_Method : string;
  rq_URL : string;
  rq_Header : list (string * string);
  rq_Body : string
}.

Record HttpResponse := mkHttpResponse {
  rp_StatusCode : Z;
  (** What [io.ReadAll] gives on the body. *)
  rp_Body : result error string
}.

Class Transport (W Ctx HttpClient : Type) := {
  DefaultClient : HttpClient;
  (** The error of [http.NewRequestWithContext] on a URL. *)
  new_request_error : string → option error;
  Do : HttpClient → Ctx → HttpRequest → W → W * result error HttpResponse
}.

(** What [json.Marshal] gives on a float64. *)
Definition enc_float (f : spec_float) : result error json :=
  match json_float f with
  | Some t => Ok (JNumber t)
  | None =>
      Err (Errorf ("json: unsupported value: " +:+
        match f with S754_infinity s => if s then "-Inf" else "+Inf" | _ => "NaN" end))
  end.

(** ** URLs *)

(** [url.PathEscape] and [url.QueryEscape]. *)
Definition unreserved (c : Z) : bool :=
  ((97 <=? c) && (c <=? 122)) || ((65 <=? c) && (c <=? 90)) || ((48 <=? c) && (c <=? 57)) ||
  (c =? 45) || (c =? 95) || (c =? 46) || (c =? 126).
Definition path_plain (c : Z) : bool :=
  unreserved c || (c =? 36) || (c =? 38) || (c =? 43) || (c =? 58) || (c =? 61) || (c =? 64).
Definition upper_hex (d : Z) : Z := if d <? 10 then 48 + d else 55 + d.
Definition percent (c : Z) : list Z := [37; upper_hex (c / 16); upper_hex (c mod 16)].
Definition PathEscape (s : string) : string :=
  string_of_bytes (concat ((λ c, if path_plain c then [c] else percent c) <$> bytes s)).
Definition QueryEscape (s : string) : string :=
  string_of_bytes (concat ((λ c, if c =? 32 then [43] else if unreserved c then [c] else percent c) <$> bytes s)).

(** ** Responses *)

(** The parts of a message, and the token counts. *)
Record Part := mkPart { pt_Type : string; pt_Text : string }.
Definition Part_zero : Part := mkPart "" "".
Definition dec_part : decoder Part := dec_struct [
  field_of "type" pt_Type (λ x p, mkPart x (pt_Text p)) dec_string;
  field_of "text" pt_Text (λ x p, mkPart (pt_Type p) x) dec_string].

Record TokenUsage := mkTokenUsage { us_Input : Z; us_Output : Z }.
Definition TokenUsage_zero : TokenUsage := mkTokenUsage 0 0.
Definition dec_usage (input output : string) : decoder TokenUsage := dec_struct [
  field_of input us_Input (λ x u, mkTokenUsage x (us_Output u)) dec_int;
  field_of output us_Output (λ x u, mkTokenUsage (us_Input u) x) dec_int].

(** Text parts, one after the other. *)
Definition concat_text (keep : Part → bool) (ps : list Part) : string :=
  foldl (λ text p, if keep p then text +:+ pt_Text p else text) "" ps.

Section Adapters.
Context {W Ctx HttpClient : Type} `{!Transport W Ctx HttpClient}.
(** The error of [json.Unmarshal] on a text. *)
Context (unmarshal_error : string → error).

Definition DoJSON (ctx : Ctx) (client : option HttpClient) (req : HttpRequest) (payload : option (result error json)) (w : W) :
    W * result error string :=
  let client := default DefaultClient client in
  let send (req : HttpRequest) :=
    match Do client ctx req w with
    | (w', Err err) => (w', Err (Errorf_w ("http request failed: " +:+ Error err) err))
    | (w', Ok resp) =>
        match rp_Body resp with
        | Err err => (w', Err (Errorf_w ("read response: " +:+ Error err) err))
        | Ok body =>
            if 300 <=? rp_StatusCode resp
            then (w', Err (Errorf ("provider returned status " +:+ Itoa (rp_StatusCode resp) +:+ ": " +:+ body)))
            else (w', Ok body)
        end
    end in
  match payload with
  | None => send req
  | Some (Err err) => (w, Err (Errorf_w ("marshal request: " +:+ Error err) err))
  | Some (Ok v) =>
      send (mkHttpRequest (rq_Method req) (rq_URL req) (rq_Header req ++ [("Content-Type", "application/json")]) (Marshal v))
  end.

Record Client := mkClient { cl_apiKey : string; cl_baseURL : string; cl_httpClient : option HttpClient }.

Definition new_client (defaultBaseURL apiKey : string) (httpClient : option HttpClient) (baseURL : string) : Client :=
  let baseURL := if decide (baseURL = "") then defaultBaseURL else baseURL in
  mkClient apiKey (string_of_bytes (trim_right slash (bytes baseURL))) httpClient.

(** The defaults of a request. *)
Definition with_defaults (model : string) (req : GenerateRequest) : GenerateRequest :=
  mkGenerateRequest (if decide (gr_Model req = "") then model else gr_Model req) (gr_Prompt req)
    (if gr_MaxTokens req <=? 0 then 512 else gr_MaxTokens req) (gr_Temperature req).

(** The steps every client's [Generate] has: the guards, the defaults, the request, the payload,
    the response. *)
Definition generate (c : Client) (model : string) (url : GenerateRequest → string) (headers : list (string * string))
    (payload : GenerateRequest → json → json) (response : string → option GenerateResponse)
    (ctx : Ctx) (req : GenerateRequest) (w : W) : W * result error GenerateResponse :=
  if decide (TrimSpace (cl_apiKey c) = "") then (w, Err ErrMissingAPIKey)
  else if decide (TrimSpace (gr_Prompt req) = "") then (w, Err ErrEmptyPrompt)
  else
    let req := with_defaults model req in
    match new_request_error (url req) with
    | Some err => (w, Err (Errorf_w ("build request: " +:+ Error err) err))
    | None =>
        let hReq := mkHttpRequest "POST" (url req) headers "" in
        let body := match enc_float (gr_Temperature req) with Ok t => Ok (payload req t) | Err err => Err err end in
        match DoJSON ctx (cl_httpClient c) hReq (Some body) w with
        | (w', Err err) => (w', Err err)
        | (w', Ok body) =>
            match response body with
            | None => let err := unmarshal_error body in (w', Err (Errorf_w ("parse response: " +:+ Error err) err))
            | Some resp => (w', Ok resp)
            end
        end
    end.
End Adapters.

(** ** OpenAI: pkg/adapters/openai/client.go *)
Module Openai.
Record openai_parsed := mkParsed { pr_Output : list (list Part); pr_OutputText : string; pr_Usage : TokenUsage }.
Definition openai_parsed_zero : openai_parsed := mkParsed [] "" TokenUsage_zero.
Definition dec_content : decoder (list Part) := dec_struct [
  field_of "content" (λ s, s) (λ x _, x) (dec_list dec_part Part_zero)].
Definition dec_openai : decoder openai_parsed := dec_struct [
  field_of "output" pr_Output (λ x p, mkParsed x (pr_OutputText p) (pr_Usage p)) (dec_list dec_content []);
  field_of "output_text" pr_OutputText (λ x p, mkParsed (pr_Output p) x (pr_Usage p)) dec_string;
  field_of "usage" pr_Usage (λ x p, mkParsed (pr_Output p) (pr_OutputText p) x) (dec_usage "input_tokens" "output_tokens")].

Definition openai_response (body : string) : option GenerateResponse :=
  p ← Unmarshal dec_openai body openai_parsed_zero;
  let text := TrimSpace (pr_OutputText p) in
  let text :=
    if decide (text = "")
    then concat_text (λ c, bool_decide (pt_Type c = "output_text") || negb (bool_decide (pt_Text c = ""))) (concat (pr_Output p))
    else text in
  Some (mkGenerateResponse text (us_Input (pr_Usage p)) (us_Output (pr_Usage p)) body).

Definition openai_payload (req : GenerateRequest) (temperature : json) : json :=
  any_map [("model", JString (gr_Model req)); ("input", JString (gr_Prompt req));
           ("max_output_tokens", enc_int (gr_MaxTokens req)); ("temperature", temperature)].

Definition openai_NewClient {HttpClient} := new_client (HttpClient:=HttpClient) "https://api.openai.com".

Definition openai_Generate {W Ctx HttpClient} `{!Transport W Ctx HttpClient} uerr (c : Client) :
    Ctx → GenerateRequest → W → W * result error GenerateResponse :=
  generate uerr c "gpt-4o-mini" (λ _, cl_baseURL c +:+ "/v1/responses")
    [("Authorization", "Bearer " +:+ cl_apiKey c)] openai_payload openai_response.
End Openai.

(** ** Anthropic: pkg/adapters/anthropic/client.go *)
Module Anthropic.
Record anthropic_parsed := mkParsed { pr_Content : list Part; pr_Usage : TokenUsage }.
Definition anthropic_parsed_zero : anthropic_parsed := mkParsed [] TokenUsage_zero.
Definition dec_anthropic : decoder anthropic_parsed := dec_struct [
  field_of "content" pr_Content (λ x p, mkParsed x (pr_Usage p)) (dec_list dec_part Part_zero);
  field_of "usage" pr_Usage (λ x p, mkParsed (pr_Content p) x) (dec_usage "input_tokens" "output_tokens")].

Definition anthropic_response (body : string) : option GenerateResponse :=
  p ← Unmarshal dec_anthropic body anthropic_parsed_zero;
  Some (mkGenerateResponse
    (concat_text (λ c, bool_decide (pt_Type c = "text") || negb (bool_decide (pt_Text c = ""))) (pr_Content p))
    (us_Input (pr_Usage p)) (us_Output (pr_Usage p)) body).

Definition anthropic_payload (req : GenerateRequest) (temperature : json) : json :=
  any_map [("model", JString (gr_Model req)); ("max_tokens", enc_int (gr_MaxTokens req)); ("temperature", temperature);
           ("messages", JArray [any_map [("role", JString "user"); ("content", JString (gr_Prompt req))]])].

Definition anthropic_NewClient {HttpClient} := new_client (HttpClient:=HttpClient) "https://api.anthropic.com".

Definition anthropic_Generate {W Ctx HttpClient} `{!Transport W Ctx HttpClient} uerr (c : Client) :
    Ctx → GenerateRequest → W → W * result error GenerateResponse :=
  generate uerr c "claude-3-5-sonnet-latest" (λ _, cl_baseURL c +:+ "/v1/messages")
    [("x-api-key", cl_apiKey c); ("anthropic-version", "2023-06-01")] anthropic_payload anthropic_response.
End Anthropic.

(** ** Gemini: pkg/adapters/gemini/client.go *)
Module Gemini.
Record gemini_parsed := mkParsed { pr_Candidates : list (list string); pr_Usage : TokenUsage }.
Definition gemini_parsed_zero : gemini_parsed := mkParsed [] TokenUsage_zero.
Definition dec_text : decoder string := dec_struct [field_of "text" (λ s, s) (λ x _, x) dec_string].
Definition dec_parts : decoder (list string) := dec_struct [field_of "parts" (λ s, s) (λ x _, x) (dec_list dec_text "")].
Definition dec_candidate : decoder (list string) := dec_struct [field_of "content" (λ s, s) (λ x _, x) dec_parts].
Definition dec_gemini : decoder gemini_parsed := dec_struct [
  field_of "candidates" pr_Candidates (λ x p, mkParsed x (pr_Usage p)) (dec_list dec_candidate []);
  field_of "usageMetadata" pr_Usage (λ x p, mkParsed (pr_Candidates p) x) (dec_usage "promptTokenCount" "candidatesTokenCount")].

Definition gemini_response (body : string) : option GenerateResponse :=
  p ← Unmarshal dec_gemini body gemini_parsed_zero;
  Some (mkGenerateResponse (foldl (λ text t, text +:+ t) "" (concat (pr_Candidates p)))
    (us_Input (pr_Usage p)) (us_Output (pr_Usage p)) body).

Definition gemini_payload (req : GenerateRequest) (temperature : json) : json :=
  any_map [("contents", JArray [any_map [("role", JString "user");
              ("parts", JArray [any_map [("text", JString (gr_Prompt req))]])]]);
           ("generationConfig", any_map [("temperature", temperature); ("maxOutputTokens", enc_int (gr_MaxTokens req))])].

Definition gemini_url (baseURL apiKey : string) (req : GenerateRequest) : string :=
  baseURL +:+ "/v1beta/models/" +:+ PathEscape (gr_Model req) +:+ ":generateContent?key=" +:+ QueryEscape apiKey.

Definition gemini_NewClient {HttpClient} := new_client (HttpClient:=HttpClient) "https://generativelanguage.googleapis.com".

Definition gemini_Generate {W Ctx HttpClient} `{!Transport W Ctx HttpClient} uerr (c : Client) :
    Ctx → GenerateRequest → W → W * result error GenerateResponse :=
  generate uerr c "gemini-1.5-pro" (gemini_url (cl_baseURL c) (cl_apiKey c)) [] gemini_payload gemini_response.
End Gemini.

Example adapter_checks :
  PathEscape "models/a b:c" = "models%2Fa%20b:c" ∧ QueryEscape "a b&c/é" = "a+b%26c%2F%C3%A9" ∧
  gs_Text <$> Openai.openai_response (dq "{'output':[{'content':[{'type':'output_text','text':'a'},{'text':'b'}]}],'usage':{'input_tokens':3}}") = Some "ab" ∧
  gs_InputTokens <$> Anthropic.anthropic_response (dq "{'content':[{'type':'text','text':'a'}],'usage':{'input_tokens':3,'output_tokens':4}}") = Some 3 ∧
  gs_Text <$> Gemini.gemini_response (dq "{'candidates':[{'content':{'parts':[{'text':'x'},{'text':'y'}]}}]}") = Some "xy" ∧
  Marshal (Anthropic.anthropic_payload (mkGenerateRequest "m" "hi" 5 (S754_zero false)) (JNumber "0")) =
    dq "{'max_tokens':5,'messages':[{'content':'hi','role':'user'}],'model':'m','temperature':0}".
Proof. vm_compute. repeat split; reflexivity. Qed.

(** ** One request, well formed *)

(** A transport that records the requests it is given. *)
Definition recording (bad_url : string → option error) (reply : HttpRequest → result error HttpResponse) :
    Transport (list HttpRequest) unit unit :=
  {| DefaultClient := tt; new_request_error := bad_url; Do _ _ req w := (w ++ [req], reply req) |}.

(** What a text sent as a request body says. *)
Definition body_has (text : string) (members : list (string * json)) : Prop :=
  ∃ ms, parse text = Some (JObject ms) ∧ ∀ k v, (k, v) ∈ members → (clean_string k, clean v) ∈ ms.

Lemma any_map_body ms n : NoDup ms.*1 → forallb (λ m, numbers_ok m.2) ms = true →
  Forall (λ m, json_depth m.2 ≤ n)%nat ms → Z.of_nat n < maxNestingDepth → body_has (Marshal (any_map ms)) ms.
Proof.
  intros Hnd Hnum Hdep Hn. exists ((λ m, (clean_string m.1, clean m.2)) <$> sorted_members (map_of ms)). split.
  - apply (parse_Marshal_clean (any_map ms)). split; [by apply any_map_numbers|]. apply any_map_depth in Hdep. lia.
  - intros k v Hin. apply list_elem_of_fmap. exists (k, v).
    split; [done|]. by apply any_map_member.
Qed.

(** Either nothing was sent and there is an error: the key is blank, the prompt is blank, the URL
    is not one or the temperature is not finite; or none of that holds and one request was, a POST
    to the URL with the headers of the API, whose body has the prompt, the model (the default for
    an empty one), the token limit (512 for none) and the temperature, as a number that reads back
    as the same float64, where the API expects them. *)
Definition sent (bad : string → option error) (c : Client (HttpClient:=unit)) (req : GenerateRequest) (default_model : string)
    (url : string → string) (headers : list (string * string)) (body : string → string → Z → string → string → Prop)
    (w : list HttpRequest) (r : result error GenerateResponse) : Prop :=
  let model := if decide (gr_Model req = "") then default_model else gr_Model req in
  let limit := if decide (gr_MaxTokens req ≤ 0) then 512 else gr_MaxTokens req in
  if decide (TrimSpace (cl_apiKey c) = "") then w = [] ∧ r = Err ErrMissingAPIKey
  else if decide (TrimSpace (gr_Prompt req) = "") then w = [] ∧ r = Err ErrEmptyPrompt
  else
    (w = [] ∧ (∃ e, r = Err e) ∧ (bad (url model) ≠ None ∨ ¬ is_float64 (gr_Temperature req))) ∨
    (bad (url model) = None ∧ is_float64 (gr_Temperature req) ∧
     ∃ text t, w = [mkHttpRequest "POST" (url model) (headers ++ [("Content-Type", "application/json")]) text] ∧
       ParseFloat t = Some (gr_Temperature req) ∧ body (gr_Prompt req) model limit t text).

(** What a recording transport has seen after [Generate]. *)
Lemma generate_sent bad reply uerr c model url headers payload response req w r url'
    (body : string → string → Z → string → string → Prop) :
  (∀ rq, url rq = url' (gr_Model rq)) →
  (∀ rq t, number_ok t = true → body (gr_Prompt rq) (gr_Model rq) (gr_MaxTokens rq) t (Marshal (payload rq (JNumber t)))) →
  @generate _ _ _ (recording bad reply) uerr c model url headers payload response tt req [] = (w, r) →
  sent bad c req model url' headers body w r.
Proof.
  intros Hurl Hbody. unfold generate, sent. cbv zeta. case_decide; [by intros [= <- <-]|]. case_decide; [by intros [= <- <-]|].
  rewrite Hurl. cbn [new_request_error recording].
  change (gr_Model (with_defaults model req)) with (if decide (gr_Model req = "") then model else gr_Model req).
  set (m := if decide (gr_Model req = "") then model else gr_Model req).
  destruct (bad (url' m)) eqn:Eb; [intros [= <- <-]; left; by split_and!; [done|eexists|left]|]. unfold enc_float.
  cbn [gr_Temperature with_defaults]. destruct (json_float (gr_Temperature req)) as [t|] eqn:Et; cbn [DoJSON].
  2: { intros [= <- <-]. left. split; [done|]. split; [by eexists|]. right. intros [t Ht]%json_float_total. congruence. }
  pose proof (json_float_ok _ _ Et) as Hok. apply json_float_read in Et.
  unfold DoJSON. cbn [Do recording app rq_Method rq_URL rq_Header]. intros H'. right. split; [done|].
  split; [by eapply ParseFloat_float64|]. eexists _, t. split; [revert H'; repeat case_match; intros; simplify_eq; done|].
  split; [done|]. pose proof (Hbody (with_defaults model req) t Hok) as Hb. cbn [gr_Prompt gr_Model gr_MaxTokens with_defaults] in Hb.
  fold m in Hb. replace (if decide (gr_MaxTokens req ≤ 0) then 512 else gr_MaxTokens req)
    with (if gr_MaxTokens req <=? 0 then 512 else gr_MaxTokens req); [exact Hb|].
  destruct (Z.leb_spec (gr_MaxTokens req) 0); case_decide; (done || lia).
Qed.

(** ** The three clients *)
Definition openai_body (prompt model : string) (n : Z) (t text : string) : Prop :=
  body_has text [("model", JString model); ("input", JString prompt); ("max_output_tokens", enc_int n); ("temperature", JNumber t)].
Definition anthropic_body (prompt model : string) (n : Z) (t text : string) : Prop :=
  body_has text [("model", JString model); ("max_tokens", enc_int n); ("temperature", JNumber t);
    ("messages", JArray [JObject [("content", JString prompt); ("role", JString "user")]])].
(** The model is in the URL. *)
Definition gemini_body (prompt model : string) (n : Z) (t text : string) : Prop :=
  body_has text
    [("contents", JArray [JObject [("parts", JArray [JObject [("text", JString prompt)]]); ("role", JString "user")]]);
     ("generationConfig", JObject [("maxOutputTokens", enc_int n); ("temperature", JNumber t)])].

Lemma body_has_subset text ms ms' : body_has text ms → ms' ⊆ ms → body_has text ms'.
Proof. intros (l & Hp & Hl) Hs. exists l. split; [done|]. intros k v Hin. by apply Hl, Hs. Qed.

Ltac any_map_body n :=
  eapply body_has_subset;
  [apply (any_map_body _ n);
    [cbn; repeat (apply NoDup_cons; split; [set_solver|]); apply NoDup_nil_2
    |cbn; rewrite number_ok_Itoa; match goal with H : number_ok _ = true |- _ => by rewrite H end
    |repeat (constructor; [cbn; lia|]); constructor
    |done]
  |set_solver].

Lemma openai_payload_body rq t : number_ok t = true →
  openai_body (gr_Prompt rq) (gr_Model rq) (gr_MaxTokens rq) t (Marshal (Openai.openai_payload rq (JNumber t))).
Proof. intros Ht. any_map_body 0%nat. Qed.

Lemma anthropic_payload_body rq t : number_ok t = true →
  anthropic_body (gr_Prompt rq) (gr_Model rq) (gr_MaxTokens rq) t (Marshal (Anthropic.anthropic_payload rq (JNumber t))).
Proof.
  intros Ht. unfold Anthropic.anthropic_payload.
  change (any_map [("role", JString "user"); ("content", JString (gr_Prompt rq))]) with
    (JObject [("content", JString (gr_Prompt rq)); ("role", JString "user")]). any_map_body 2%nat.
Qed.

Lemma gemini_payload_body rq t : number_ok t = true →
  gemini_body (gr_Prompt rq) (gr_Model rq) (gr_MaxTokens rq) t (Marshal (Gemini.gemini_payload rq (JNumber t))).
Proof.
  intros Ht. unfold gemini_body, Gemini.gemini_payload.
  change (any_map [("text", JString (gr_Prompt rq))]) with (JObject [("text", JString (gr_Prompt rq))]).
  change (any_map [("role", JString "user"); ("parts", JArray [JObject [("text", JString (gr_Prompt rq))]])]) with
    (JObject [("parts", JArray [JObject [("text", JString (gr_Prompt rq))]]); ("role", JString "user")]).
  change (any_map [("temperature", JNumber t); ("maxOutputTokens", enc_int (gr_MaxTokens rq))]) with
    (JObject [("maxOutputTokens", enc_int (gr_MaxTokens rq)); ("temperature", JNumber t)]). any_map_body 4%nat.
Qed.

(** C37: whatever the request, the options and the server's answers, each client sends
    at most one HTTP request.  With a blank key or a blank prompt it sends none and returns
    ErrMissingAPIKey or ErrEmptyPrompt; otherwise it sends none, with an error, exactly if the URL
    cannot be parsed or the temperature is not a finite float64; the one it sends is a POST of
    JSON to the endpoint of its API, with the API's key header (for Gemini the key is in the URL),
    whose body, read back, has the request's prompt, model (the client's default for an empty
    one; Gemini's is in the URL), token limit (512 for none) and temperature in the places the API
    defines. *)
Theorem adapters_request bad reply uerr c req :
  let G (generate : ∀ `{!Transport (list HttpRequest) unit unit}, (string → error) → Client → unit → GenerateRequest →
            list HttpRequest → list HttpRequest * result error GenerateResponse) :=
    @generate (recording bad reply) uerr c tt req [] in
  sent bad c req "gpt-4o-mini" (λ _, cl_baseURL c +:+ "/v1/responses") [("Authorization", "Bearer " +:+ cl_apiKey c)] openai_body
    (G (@Openai.openai_Generate _ _ _)).1 (G (@Openai.openai_Generate _ _ _)).2 ∧
  sent bad c req "claude-3-5-sonnet-latest" (λ _, cl_baseURL c +:+ "/v1/messages")
    [("x-api-key", cl_apiKey c); ("anthropic-version", "2023-06-01")] anthropic_body
    (G (@Anthropic.anthropic_Generate _ _ _)).1 (G (@Anthropic.anthropic_Generate _ _ _)).2 ∧
  sent bad c req "gemini-1.5-pro"
    (λ m, cl_baseURL c +:+ "/v1beta/models/" +:+ PathEscape m +:+ ":generateContent?key=" +:+ QueryEscape (cl_apiKey c)) []
    gemini_body (G (@Gemini.gemini_Generate _ _ _)).1 (G (@Gemini.gemini_Generate _ _ _)).2.
Proof.
  intros G. split; [|split]; (eapply generate_sent; cycle 2; [apply surjective_pairing|reflexivity|]); intros rq t Ht;
    [by apply openai_payload_body|by apply anthropic_payload_body|by apply gemini_payload_body].
Qed.

(** ** Answers *)
Definition join_text (ts : list string) : string := foldr String.append "" ts.

Lemma join_text_foldl ts : foldl (λ text t, text +:+ t) "" ts = join_text ts.
Proof.
  assert (∀ ts acc, foldl (λ text t, text +:+ t) acc ts = acc +:+ join_text ts) as H; [|apply H].
  clear ts. induction ts as [|t ts IH]; intros acc; cbn; [by rewrite string_app_nil_r|]. by rewrite IH, <- string_app_assoc.
Qed.

(** The parts left out of the text have none. *)
Lemma concat_text_all keep ps : (∀ p, keep p = false → pt_Text p = "") → concat_text keep ps = join_text (pt_Text <$> ps).
Proof.
  intros Hk. unfold concat_text. rewrite <- join_text_foldl.
  generalize "". induction ps as [|p ps IH]; intros acc; [done|]. cbn [fmap list_fmap foldl]. rewrite <- IH.
  destruct (keep p) eqn:E; [done|]. by rewrite (Hk p E), string_app_nil_r.
Qed.

Lemma dec_list_enc {A B} (dec : decoder B) zero (enc : A → json) (f : A → B) l :
  (∀ x, x ∈ l → dec (enc x) zero = Some (f x)) → dec_list dec zero (JArray (enc <$> l)) [] = Some (f <$> l).
Proof.
  intros H. cbn. induction l as [|x l IH]; [done|]. cbn. rewrite H by (by left). cbn.
  rewrite IH; [done|]. intros y Hy. apply H. by right.
Qed.

Definition part_json (p : Part) : json := JObject [("type", JString (pt_Type p)); ("text", JString (pt_Text p))].
Definition part_ok (p : Part) : bool := valid_utf8 (pt_Type p) && valid_utf8 (pt_Text p).
Definition usage_json (input output : string) (i o : Z) : json := JObject [(input, enc_int i); (output, enc_int o)].

(** The convenience field output_text can be left out. *)
Definition openai_answer (ms : list (list Part)) (output_text : option string) (i o : Z) : json :=
  JObject ([("output", JArray ((λ ps, JObject [("content", JArray (part_json <$> ps))]) <$> ms))] ++
           (match output_text with Some text => [("output_text", JString text)] | None => [] end) ++
           [("usage", usage_json "input_tokens" "output_tokens" i o)]).
(** Its text: output_text without the space around it, unless that is blank, else the parts. *)
Definition openai_text (ms : list (list Part)) (output_text : option string) : string :=
  let text := TrimSpace (default "" output_text) in
  if decide (text = "") then join_text (pt_Text <$> concat ms) else text.
Definition anthropic_answer (ps : list Part) (i o : Z) : json :=
  JObject [("content", JArray (part_json <$> ps)); ("usage", usage_json "input_tokens" "output_tokens" i o)].
Definition gemini_answer (cs : list (list string)) (i o : Z) : json :=
  JObject [("candidates", JArray ((λ ts, JObject [("content", JObject [("parts",
              JArray ((λ t, JObject [("text", JString t)]) <$> ts))])]) <$> cs));
           ("usageMetadata", usage_json "promptTokenCount" "candidatesTokenCount" i o)].

Lemma dec_part_json p : dec_part (part_json p) Part_zero = Some p.
Proof. by destruct p. Qed.

Lemma dec_usage_json i o : int64_range i → int64_range o →
  dec_usage "input_tokens" "output_tokens" (usage_json "input_tokens" "output_tokens" i o) TokenUsage_zero = Some (mkTokenUsage i o) ∧
  dec_usage "promptTokenCount" "candidatesTokenCount" (usage_json "promptTokenCount" "candidatesTokenCount" i o) TokenUsage_zero
    = Some (mkTokenUsage i o).
Proof.
  intros Hi Ho. split; unfold dec_usage, usage_json, TokenUsage_zero;
    (erewrite dec_struct_field; [|reflexivity|by apply dec_enc_int]); (erewrite dec_struct_field; [|reflexivity|by apply dec_enc_int]);
    by rewrite dec_struct_done.
Qed.

Lemma json_ok_array {A} (enc : A → json) l : forallb json_ok (enc <$> l) = forallb (λ x, json_ok (enc x)) l.
Proof. induction l as [|x l IH]; [done|]. cbn. by rewrite <- IH. Qed.

Lemma depth_array {A} (enc : A → json) l n : (∀ x, x ∈ l → json_depth (enc x) ≤ n)%nat → (json_depth (JArray (enc <$> l)) ≤ S n)%nat.
Proof.
  intros H. cbn. apply le_n_S, (foldr_max_bound json_depth), Forall_fmap, Forall_forall. exact H.
Qed.

(** The answer a response gives: all texts, one after the other, and the token counts. *)
Definition answer_of (texts : list string) (i o : Z) (body : string) : option GenerateResponse :=
  Some (mkGenerateResponse (join_text texts) i o body).

Lemma forallb_elem {A} (f : A → bool) l x : forallb f l = true → x ∈ l → f x = true.
Proof. rewrite forallb_forall. intros H Hx. by apply H, list_elem_of_In. Qed.

Lemma usage_ok input output i o : valid_utf8 input = true → valid_utf8 output = true → json_ok (usage_json input output i o) = true.
Proof. intros Hi Ho. cbn. by rewrite Hi, Ho, !number_ok_Itoa. Qed.

Lemma parts_ok ps : forallb part_ok ps = true → forallb json_ok (part_json <$> ps) = true.
Proof.
  intros H. rewrite json_ok_array. apply forallb_forall. intros p Hp%list_elem_of_In.
  apply (forallb_elem _ _ _ H) in Hp. apply andb_true_iff in Hp as [H1 H2]. cbn. by rewrite H1, H2.
Qed.

Lemma anthropic_answer_read ps i o : forallb part_ok ps = true → int64_range i → int64_range o →
  let body := Marshal (anthropic_answer ps i o) in Anthropic.anthropic_response body = answer_of (pt_Text <$> ps) i o body.
Proof.
  intros Hps Hi Ho body. destruct (dec_usage_json i o Hi Ho) as [Hu _].
  assert (printable (anthropic_answer ps i o)) as Hp.
  { split; [unfold anthropic_answer; cbn [json_ok forallb fst snd]; by rewrite parts_ok, usage_ok|].
    pose proof (depth_array part_json ps 1 ltac:(intros; cbn; lia)). unfold anthropic_answer.
    cbn [json_depth foldr fst snd usage_json enc_int] in *. unfold maxNestingDepth. lia. }
  unfold Anthropic.anthropic_response, Unmarshal, body. rewrite parse_Marshal by done. cbn [mbind option_bind].
  unfold Anthropic.dec_anthropic, anthropic_answer, Anthropic.anthropic_parsed_zero.
  erewrite dec_struct_field; [|reflexivity|apply (dec_list_enc _ _ _ (λ p, p)); intros; apply dec_part_json].
  erewrite dec_struct_field; [|reflexivity|exact Hu]. rewrite dec_struct_done, list_fmap_id.
  cbn [mbind option_bind Anthropic.pr_Content Anthropic.pr_Usage us_Input us_Output].
  rewrite concat_text_all; [done|]. intros p [_ E]%orb_false_iff. by destruct (bool_decide_reflect (pt_Text p = "")).
Qed.

Lemma openai_answer_printable ms ot i o : forallb (forallb part_ok) ms = true → valid_utf8 (default "" ot) = true →
  printable (openai_answer ms ot i o).
Proof.
  intros Hms Hot. split.
  - unfold openai_answer. assert (forallb json_ok ((λ ps, JObject [("content", JArray (part_json <$> ps))]) <$> ms) = true) as Hp.
    { rewrite json_ok_array. apply forallb_forall. intros ps Hps%list_elem_of_In.
      cbn [json_ok forallb fst snd]. rewrite parts_ok; [done|]. by apply (forallb_elem _ _ _ Hms). }
    destruct ot; cbn [app json_ok forallb fst snd default from_option id] in *; rewrite usage_ok, Hp, ?Hot by done; done.
  - pose proof (depth_array (λ ps, JObject [("content", JArray (part_json <$> ps))]) ms 3) as Hd.
    unfold openai_answer. specialize (Hd ltac:(intros ps _; pose proof (depth_array part_json ps 1 ltac:(intros; cbn; lia)) as H;
      cbn [json_depth foldr fst snd] in *; lia)).
    destruct ot; cbn [app json_depth foldr fst snd usage_json enc_int] in *; unfold maxNestingDepth; lia.
Qed.

Lemma openai_answer_read ms ot i o : forallb (forallb part_ok) ms = true → valid_utf8 (default "" ot) = true →
  int64_range i → int64_range o →
  let body := Marshal (openai_answer ms ot i o) in
  Openai.openai_response body = Some (mkGenerateResponse (openai_text ms ot) i o body).
Proof.
  intros Hms Hot Hi Ho body. destruct (dec_usage_json i o Hi Ho) as [Hu _].
  unfold Openai.openai_response, Unmarshal, body. rewrite parse_Marshal by (by apply openai_answer_printable).
  cbn [mbind option_bind]. unfold Openai.dec_openai, openai_answer, Openai.openai_parsed_zero.
  assert (∀ p : Part, bool_decide (pt_Type p = "output_text") || negb (bool_decide (pt_Text p = "")) = false → pt_Text p = "") as Hkeep
    by (intros p [_ E]%orb_false_iff; by destruct (bool_decide_reflect (pt_Text p = ""))).
  cbn [app]. erewrite dec_struct_field; [|reflexivity|apply (dec_list_enc _ _ _ (λ ps, ps))].
  2: { intros ps _. unfold Openai.dec_content. erewrite dec_struct_field;
       [|reflexivity|apply (dec_list_enc _ _ _ (λ p, p)); intros; apply dec_part_json]. by rewrite dec_struct_done, list_fmap_id. }
  unfold openai_text. destruct ot as [text|]; cbn [app default from_option id].
  - erewrite dec_struct_field; [|reflexivity|reflexivity]. erewrite dec_struct_field; [|reflexivity|exact Hu].
    rewrite dec_struct_done, list_fmap_id.
    cbn [mbind option_bind Openai.pr_Output Openai.pr_OutputText Openai.pr_Usage us_Input us_Output].
    by rewrite concat_text_all.
  - erewrite dec_struct_field; [|reflexivity|exact Hu]. rewrite dec_struct_done, list_fmap_id.
    cbn [mbind option_bind Openai.pr_Output Openai.pr_OutputText Openai.pr_Usage us_Input us_Output].
    by rewrite concat_text_all.
Qed.

Lemma gemini_answer_read cs i o : forallb (forallb valid_utf8) cs = true → int64_range i → int64_range o →
  let body := Marshal (gemini_answer cs i o) in Gemini.gemini_response body = answer_of (concat cs) i o body.
Proof.
  intros Hcs Hi Ho body. destruct (dec_usage_json i o Hi Ho) as [_ Hu].
  set (text t := JObject [("text", JString t)]).
  set (cand ts := JObject [("content", JObject [("parts", JArray (text <$> ts))])]).
  assert (printable (gemini_answer cs i o)) as Hp.
  { split.
    - unfold gemini_answer. cbn [json_ok forallb fst snd]. rewrite usage_ok, (json_ok_array cand) by done.
      rewrite !andb_true_iff. split; [|done]. split; [done|]. apply forallb_forall. intros ts Hts%list_elem_of_In.
      apply (forallb_elem _ _ _ Hcs) in Hts. unfold cand. cbn [json_ok forallb fst snd]. rewrite json_ok_array.
      rewrite !andb_true_iff. repeat split. apply forallb_forall. intros t Ht%list_elem_of_In. cbn.
      by rewrite (forallb_elem _ _ _ Hts Ht).
    - pose proof (depth_array cand cs 4) as Hd. unfold gemini_answer. fold text. fold cand.
      cbn [json_depth foldr fst snd usage_json enc_int] in *. unfold maxNestingDepth.
      specialize (Hd ltac:(intros ts _; pose proof (depth_array text ts 1 ltac:(intros; cbn; lia)) as H;
        unfold cand; cbn [json_depth foldr fst snd] in *; lia)). lia. }
  unfold Gemini.gemini_response, Unmarshal, body. rewrite parse_Marshal by done. cbn [mbind option_bind].
  unfold Gemini.dec_gemini, gemini_answer, Gemini.gemini_parsed_zero. fold text. fold cand.
  erewrite dec_struct_field; [|reflexivity|apply (dec_list_enc _ _ cand (λ ts, ts))].
  2: { intros ts _. assert (Gemini.dec_parts (JObject [("parts", JArray (text <$> ts))]) [] = Some ts) as Hparts.
       { unfold Gemini.dec_parts. erewrite dec_struct_field; [|reflexivity|by apply (dec_list_enc _ _ text (λ t, t))].
         by rewrite dec_struct_done, list_fmap_id. }
       unfold Gemini.dec_candidate, cand. erewrite dec_struct_field; [|reflexivity|exact Hparts]. by rewrite dec_struct_done. }
  erewrite dec_struct_field; [|reflexivity|exact Hu]. rewrite dec_struct_done, list_fmap_id.
  cbn [mbind option_bind Gemini.pr_Candidates Gemini.pr_Usage us_Input us_Output]. by rewrite join_text_foldl.
Qed.

(** A reply that can be read is what [Generate] returns. *)
Lemma generate_reply uerr c model url headers payload response req t status body resp :
  TrimSpace (cl_apiKey c) ≠ "" → TrimSpace (gr_Prompt req) ≠ "" → json_float (gr_Temperature req) = Some t →
  status < 300 → response body = Some resp →
  (@generate _ _ _ (recording (λ _, None) (λ _, Ok (mkHttpResponse status (Ok body)))) uerr c model url headers payload
     response tt req []).2 = Ok resp.
Proof.
  intros Hk Hp Ht Hs Hr. unfold generate, enc_float. rewrite !decide_False by done. cbn [gr_Temperature with_defaults new_request_error recording].
  rewrite Ht. unfold DoJSON. cbn. replace (300 <=? status) with false by lia. by rewrite Hr.
Qed.

(** C38: an answer of a provider with its text in any number of parts and its token
    counts, sent as JSON with a status below 300 to a client with a key that asked with a prompt
    that is not blank and a finite temperature, is returned as the concatenation of all the parts
    in order, with those counts and the body as it was; OpenAI's client returns the text of
    output_text, without the space around it, instead when the answer has one that is not
    blank. *)
Theorem adapters_answer uerr c req status parts output_text texts i o :
  TrimSpace (cl_apiKey c) ≠ "" → TrimSpace (gr_Prompt req) ≠ "" → is_float64 (gr_Temperature req) →
  status < 300 → forallb (forallb part_ok) parts = true → valid_utf8 (default "" output_text) = true →
  forallb (forallb valid_utf8) texts = true → int64_range i → int64_range o →
  let G (body : string) (generate : ∀ `{!Transport (list HttpRequest) unit unit}, (string → error) → Client → unit →
            GenerateRequest → list HttpRequest → list HttpRequest * result error GenerateResponse) :=
    (@generate (recording (λ _, None) (λ _, Ok (mkHttpResponse status (Ok body)))) uerr c tt req []).2 in
  let all_parts := join_text (pt_Text <$> concat parts) in
  let b1 := Marshal (openai_answer parts output_text i o) in
  let b2 := Marshal (anthropic_answer (concat parts) i o) in
  let b3 := Marshal (gemini_answer texts i o) in
  G b1 (@Openai.openai_Generate _ _ _) =
    Ok (mkGenerateResponse (let text := TrimSpace (default "" output_text) in if decide (text = "") then all_parts else text) i o b1) ∧
  G b2 (@Anthropic.anthropic_Generate _ _ _) = Ok (mkGenerateResponse all_parts i o b2) ∧
  G b3 (@Gemini.gemini_Generate _ _ _) = Ok (mkGenerateResponse (join_text (concat texts)) i o b3).
Proof.
  intros Hk Hp [t Ht]%json_float_total Hst Hparts Hot Htexts Hi Ho G all_parts b1 b2 b3. split; [|split].
  - by eapply generate_reply; [..|apply openai_answer_read].
  - eapply generate_reply; [..|apply anthropic_answer_read]; try done. apply forallb_forall. intros p Hin%list_elem_of_In.
    apply list_elem_of_In, in_concat in Hin as (ps & Hp2%list_elem_of_In & Hp1%list_elem_of_In). exact (forallb_elem part_ok ps p (forallb_elem _ _ _ Hparts Hp2) Hp1).
  - by eapply generate_reply; [..|apply gemini_answer_read].
Qed.

Lemma adapters_answer_witness :
  let c := Openai.openai_NewClient "key" None "http://localhost/" in
  let req := mkGenerateRequest "" "hi" 0 (S754_zero false) in
  let b := Marshal (openai_answer [[mkPart "output_text" "a"]; [mkPart "" "b"]] (Some " c ") 3 4) in
  (@Openai.openai_Generate _ _ _ (recording (λ _, None) (λ _, Ok (mkHttpResponse 200 (Ok b)))) Errorf c tt req []).2 =
    Ok (mkGenerateResponse "c" 3 4 b).
Proof.
  intros c req b.
  destruct (adapters_answer Errorf c req 200 [[mkPart "output_text" "a"]; [mkPart "" "b"]] (Some " c ") [] 3 4) as [H _];
    [vm_compute; discriminate|vm_compute; discriminate|by split_and!|lia|vm_compute; reflexivity|vm_compute; reflexivity|reflexivity
    |split; vm_compute; discriminate|split; vm_compute; discriminate|exact H].
Defined.
