(* ===== verification/Sdk.v ===== *)
(** * The SDK: pkg/sdk

    [Runtime] wraps a registry and an engine of its own; [AgentFromProvider] makes an agent of an
    LLM provider. *)

From Stdlib Require Import SpecFloat.
From S2P Require Import Prelude GoErrors GoStrings GoTime Utf8 Decimal Json GoFloat JsonCodec JsonAny AgentFunc Registry CircuitBreaker.
From S2P Require Import Metrics Trace PlanGraph Engine Scheduler Manifest App Adapters.

(** ** Plans *)
Record Node := mkNode {
  nd_ID : string;
  nd_AgentID : string;
  nd_Input : AgentInput;
  nd_DependsOn : list string;
  nd_RetryPolicy : RetryPolicy;
  nd_CircuitBreakerPolicy : CircuitBreakerPolicy
}.

Record Result := mkResult {
  rs_InvocationID : string;
  rs_AgentID : string;
  rs_Output : AgentOutput;
  rs_Error : string
}.

Record TraceStep := mkTraceStep {
  ts_InvocationID : string;
  ts_AgentID : string;
  ts_RequestID : string;
  ts_Error : string;
  ts_Attempt : Z
}.

Record sdk_Trace := mkSdkTrace {
  sk_TaskID : string;
  sk_Steps : list TraceStep;
  sk_TotalLatency : Z
}.

Definition toSDKTrace (tr : ExecutionTrace) : sdk_Trace :=
  mkSdkTrace (tr_TaskID tr)
    ((λ s, mkTraceStep (st_InvocationID s) (st_AgentID s) (st_RequestID s) (st_Error s) (st_Attempt s)) <$> tr_Steps tr)
    (Z.quot (tr_TotalLatency tr) 1000000).

(** A node without an identifier gets one from its position and its agent. *)
Definition sdk_id (i : nat) (n : Node) : string :=
  if decide (nd_ID n = "") then invocation_id i (nd_AgentID n) else nd_ID n.

Definition sdk_plan (taskID : string) (nodes : list Node) : ExecutionPlan :=
  mkExecutionPlan taskID
    (imap (λ i n, mkPlanNode (mkAgentInvocation (sdk_id i n) (nd_AgentID n) (nd_Input n)) (nd_DependsOn n)
                    (nd_RetryPolicy n) (nd_CircuitBreakerPolicy n)) nodes).

Definition sdk_result (rr : AgentResult) : Result :=
  mkResult (inv_ID (res_Invocation rr)) (inv_AgentID (res_Invocation rr)) (res_Output rr)
    (match res_Err rr with Some err => Error err | None => "" end).

Section Runtime.
Context {F M : Type} `{!Recorder M}.

Record Runtime := mkRuntime { rt_cfg : RouterConfig; rt_world : world F M }.

Definition NewRuntime (cfg : RouterConfig) (metrics : M) : Runtime :=
  mkRuntime (NewEngine_cfg cfg) (mkWorld NewRegistry NewCircuitBreaker metrics (NewRecorder "" zero_time)).

(** A [nil] function is [None]. *)
Definition RegisterAgent (r : Runtime) (agentID : string) (fn : option F) : Runtime * option error :=
  match Register (w_registry (rt_world r)) agentID fn with
  | Err err => (r, Some err)
  | Ok reg =>
      (mkRuntime (rt_cfg r) (mkWorld reg (w_breaker (rt_world r)) (w_metrics (rt_world r)) (w_recorder (rt_world r))), None)
  end.

(** The runs of a plan that the schedules of the engine allow. *)
Definition sdk_RunPlan (r : Runtime) (taskID : string) (nodes : list Node) (start endt : time)
    (res : list Result * sdk_Trace * option error) (r' : Runtime) : Prop :=
  match nodes with
  | [] => res = ([], mkSdkTrace "" [] 0, Some (Errorf "sdk: no nodes provided")) ∧ r' = r
  | _ =>
      ∃ results tr w', RunPlan (rt_cfg r) (sdk_plan taskID nodes) start endt (rt_world r) results tr w' ∧
        res = (sdk_result <$> results, toSDKTrace tr, None) ∧ r' = mkRuntime (rt_cfg r) w'
  end.
End Runtime.

(** ** Agents from providers *)
Record PromptPayload := mkPromptPayload { pp_Prompt : string }.
Definition dec_prompt : decoder PromptPayload := dec_struct [
  field_of "prompt" pp_Prompt (λ x _, mkPromptPayload x) dec_string].

Record CompletionPayload := mkCompletion {
  cp_Text : string;
  cp_InputTokens : Z;
  cp_OutputTokens : Z;
  cp_Provider : string;
  cp_Model : string
}.
Definition enc_completion (p : CompletionPayload) : json :=
  JObject [("text", JString (cp_Text p)); ("input_tokens", enc_int (cp_InputTokens p));
           ("output_tokens", enc_int (cp_OutputTokens p)); ("provider", JString (cp_Provider p));
           ("model", JString (cp_Model p))].

Definition extractPrompt (payload : slice) : result error string :=
  let text := bytes_of payload in
  if decide (text = "") then Err (Errorf "empty payload")
  else
    let fallback :=
      let trimmed := TrimSpace text in
      if decide (trimmed = "") then Err (Errorf "prompt not found in payload") else Ok trimmed in
    match Unmarshal dec_prompt text (mkPromptPayload "") with
    | Some p => if decide (TrimSpace (pp_Prompt p) = "") then fallback else Ok (pp_Prompt p)
    | None => fallback
    end.

Section Agents.
Context {W Ctx : Type}.
(** [ctx.Err()] when the context is done. *)
Context (ctx_Err : Ctx → option error).

(** The interface [adapters.Provider]. *)
Record Provider := mkProvider {
  pv_Name : string;
  pv_Generate : Ctx → GenerateRequest → W → W * result error GenerateResponse
}.

(** Marshalling strings and integers does not fail. *)
Definition AgentFromProvider (provider : option Provider) (model : string) (ctx : Ctx) (input : AgentInput) (w : W) :
    W * outcome :=
  let fail w err := (w, Returned AgentOutput_zero (Some err)) in
  match provider with
  | None => fail w (Errorf "provider is nil")
  | Some provider =>
      match ctx_Err ctx with
      | Some err => fail w err
      | None =>
          match extractPrompt (in_Payload input) with
          | Err err => fail w err
          | Ok prompt =>
              match pv_Generate provider ctx (mkGenerateRequest model prompt 0 (S754_zero false)) w with
              | (w', Err err) => fail w' err
              | (w', Ok resp) =>
                  let payload := Marshal (enc_completion (mkCompletion (gs_Text resp) (gs_InputTokens resp)
                    (gs_OutputTokens resp) (pv_Name provider) model)) in
                  (w', Returned (mkAgentOutput (in_RequestID input) (Some payload) None 0) None)
              end
          end
      end
  end.
End Agents.

Example prompt_checks :
  extractPrompt (Some (dq "{'prompt':'hi '}")) = Ok "hi " ∧ extractPrompt (Some (dq "{'prompt':' '}")) = Ok (dq "{'prompt':' '}") ∧
  extractPrompt (Some " raw ") = Ok "raw" ∧ extractPrompt (Some (dq "{'prompt':7}")) = Ok (dq "{'prompt':7}") ∧
  extractPrompt None = Err (Errorf "empty payload") ∧ extractPrompt (Some "  ") = Err (Errorf "prompt not found in payload").
Proof. vm_compute. repeat split; reflexivity. Qed.

(** ** Identifiers made from positions are distinct *)
Lemma pad4_digits n : 0 ≤ n → digits_of n (bytes (pad4 n)).
Proof.
  intros Hn. unfold pad4. rewrite bytes_app, bytes_string_of_bytes by (by apply Forall_replicate).
  pose proof (digits_of_app 0 n _ _ (digits_of_zeros (4 - String.length (Itoa n))) (dec_digits_of n Hn)) as H.
  by rewrite Z.mul_0_l, Z.add_0_l in H.
Qed.

Lemma invocation_id_index i j s t : invocation_id i s = invocation_id j t → i = j.
Proof.
  unfold invocation_id. intros H.
  apply (append_sep_inj "_"%char (pad4 (Z.of_nat i + 1)) (pad4 (Z.of_nat j + 1)) s t) in H as [H _]; [|apply pad4_plain; lia..].
  assert (number_of (bytes (pad4 (Z.of_nat i + 1))) = number_of (bytes (pad4 (Z.of_nat j + 1)))) as Hn by (by rewrite H).
  rewrite (number_of_digits _ _ (pad4_digits (Z.of_nat i + 1) ltac:(lia))), (number_of_digits _ _ (pad4_digits (Z.of_nat j + 1) ltac:(lia))) in Hn. lia.
Qed.

Lemma invocation_id_nonempty i s : invocation_id i s ≠ "".
Proof.
  intros H. apply (f_equal bytes) in H. unfold invocation_id in H. rewrite !bytes_app in H. by apply app_nil in H as [_ ?].
Qed.

Lemma sdk_plan_ids taskID nodes : node_id <$> plan_Nodes (sdk_plan taskID nodes) = imap sdk_id nodes.
Proof. unfold sdk_plan. cbn. rewrite fmap_imap. apply imap_ext. done. Qed.

Lemma sdk_ids_distinct nodes : Forall (λ n, nd_ID n = "") nodes → NoDup (imap sdk_id nodes).
Proof.
  intros Hn. apply NoDup_alt. intros i j x Hi Hj. rewrite list_lookup_imap in Hi, Hj.
  destruct (nodes !! i) as [a|] eqn:Ea; [|done]. destruct (nodes !! j) as [b|] eqn:Eb; [|done]. cbn in Hi, Hj.
  rewrite Forall_lookup in Hn. pose proof (Hn _ _ Ea) as Ha. pose proof (Hn _ _ Eb) as Hb. cbn in Ha, Hb.
  unfold sdk_id in *. rewrite decide_True in Hi by done. rewrite decide_True in Hj by done.
  apply (invocation_id_index i j (nd_AgentID a) (nd_AgentID b)). congruence.
Qed.

(** A plan of nodes that have neither identifiers nor dependencies is accepted. *)
Lemma sdk_plan_accepted taskID nodes : nodes ≠ [] → Forall (λ n, nd_ID n = "" ∧ nd_DependsOn n = []) nodes →
  plan_fits (sdk_plan taskID nodes) ∧ ∃ g, buildGraph (sdk_plan taskID nodes) = Ok g.
Proof.
  intros Hne Hn. assert (plan_edges (plan_Nodes (sdk_plan taskID nodes)) = []) as He.
  { unfold plan_edges, sdk_plan. cbn. rewrite fmap_imap. clear Hne. 
    assert (∀ f : nat → Node → list (string * string), (∀ i n, n ∈ nodes → f i n = []) → concat (imap f nodes) = []) as H.
    { clear Hn. induction nodes as [|n nodes IH]; intros f Hf; [done|]. cbn. rewrite Hf by (by left). apply IH.
      intros i m Hm. apply Hf. by right. }
    apply H. intros i n Hin. rewrite Forall_forall in Hn. apply Hn in Hin as [_ Hd]. cbn. by rewrite Hd. }
  assert (plan_fits (sdk_plan taskID nodes)) as Hfits by (unfold plan_fits; rewrite He; done).
  split; [done|]. apply buildGraph_Ok_iff; [done|]. split.
  - split; [by destruct nodes|]. split; [|split].
    + rewrite sdk_plan_ids. apply sdk_ids_distinct. eapply Forall_impl; [done|]. by intros n [? _].
    + intros n Hin. unfold sdk_plan in Hin. cbn in Hin. apply elem_of_lookup_imap in Hin as (i & x & -> & Hx). cbn.
      rewrite Forall_forall in Hn. apply list_elem_of_lookup_2 in Hx. apply Hn in Hx as [Hx _]. unfold sdk_id.
      rewrite decide_True by done. apply invocation_id_nonempty.
    + rewrite He. by intros d n ?%elem_of_nil.
  - exists (λ _, 0%nat). rewrite He. by intros d n ?%elem_of_nil.
Qed.

(** ** Results of a run *)
Section Runs.
Context {F M : Type} `{!Recorder M}.

(** A runtime after some calls of RegisterAgent, whatever they return. *)
Definition registered (cfg : RouterConfig) (metrics : M) (agents : list (string * option F)) : Runtime (F:=F) (M:=M) :=
  foldl (λ r a, (RegisterAgent r a.1 a.2).1) (NewRuntime cfg metrics) agents.

Lemma registered_cfg cfg metrics agents : rt_cfg (registered cfg metrics agents) = NewEngine_cfg cfg.
Proof.
  unfold registered. change (NewEngine_cfg cfg) with (rt_cfg (NewRuntime (F:=F) cfg metrics)). generalize (NewRuntime (F:=F) cfg metrics).
  induction agents as [|[id fn] agents IH]; intros r; [done|]. cbn [foldl]. rewrite IH. unfold RegisterAgent. by destruct (Register _ _ _).
Qed.

(** The text of an error, empty for none. *)
Definition error_text (e : option error) : string := match e with Some err => Error err | None => "" end.

(** C36: on a runtime made by NewRuntime with any agents registered, a run through the
    SDK of a plan the engine accepts returns no error and, under every schedule, one result per
    node, in the order of their identifiers (given, or made from the position and the agent),
    with the output and the error text of the engine's run of that node, and the trace of the
    task: the identifiers, agents, requests, errors and attempts of the steps those runs recorded,
    in the order of the engine's trace, and its latency in milliseconds.  Nodes without
    identifiers and dependencies are always accepted; a plan that is refused gives one result and
    one step with the engine's error; an empty plan is an error and changes nothing. *)
Theorem sdk_RunPlan_results cfg metrics agents (r' : Runtime (F:=F) (M:=M)) taskID nodes start endt results tr err :
  let r := registered cfg metrics agents in
  let plan := sdk_plan taskID nodes in
  let step s := mkTraceStep (st_InvocationID s) (st_AgentID s) (st_RequestID s) (st_Error s) (st_Attempt s) in
  sdk_RunPlan r taskID nodes start endt (results, tr, err) r' →
  (nodes = [] → results = [] ∧ is_Some err ∧ r' = r) ∧
  (nodes ≠ [] → ∀ e, buildGraph plan = Err e →
     err = None ∧ results = [mkResult "" "" AgentOutput_zero (Error e)] ∧
     sk_Steps tr = [mkTraceStep "plan_validation" "router" "" (Error e) 0]) ∧
  (nodes ≠ [] → plan_fits plan →
   (∃ g, buildGraph plan = Ok g) ∨ Forall (λ n, nd_ID n = "" ∧ nd_DependsOn n = []) nodes →
     err = None ∧ NoDup (imap sdk_id nodes) ∧ ∃ res lg,
       (∀ n, n ∈ plan_Nodes plan → node_run (F:=F) (NewEngine_cfg cfg) res n (lg (node_id n))) ∧
       rs_InvocationID <$> results = sort_strings (imap sdk_id nodes) ∧
       (∀ i n, nodes !! i = Some n →
          mkResult (sdk_id i n) (nd_AgentID n) (res_Output (res (sdk_id i n))) (error_text (res_Err (res (sdk_id i n)))) ∈ results) ∧
       tr = mkSdkTrace taskID (step <$> plan_steps plan lg) (Z.quot (Sub endt start) 1000000)).
Proof.
  intros r plan step Hrun. split; [|split].
  - intros ->. cbn in Hrun. destruct Hrun as [[= -> -> ->] ->]. by repeat split.
  - intros Hne e Hb. unfold sdk_RunPlan in Hrun. destruct nodes as [|n ns]; [done|]. remember (n :: ns) as nodes. clear Heqnodes Hne n ns.
    destruct Hrun as (rs & etr & w' & Hrun & [= -> -> ->] & _). unfold RunPlan in Hrun. fold plan in Hrun. rewrite Hb in Hrun.
    destruct Hrun as (-> & -> & _). done.
  - intros Hne Hfits Hok. assert (∃ g, buildGraph plan = Ok g) as [g Hb].
    { destruct Hok as [|Hall]; [done|]. exact (proj2 (sdk_plan_accepted taskID nodes Hne Hall)). }
    unfold sdk_RunPlan in Hrun. destruct nodes as [|n0 ns]; [done|]. remember (n0 :: ns) as nodes. clear Heqnodes Hne n0 ns.
    destruct Hrun as (rs & etr & w' & Hrun & [= -> -> ->] & _). subst r. rewrite registered_cfg in Hrun. fold plan in Hrun.
    destruct (RunPlan_denotation _ _ _ _ _ _ _ _ _ Hfits Hb Hrun) as (res & lg & Hplan & Hres & Htr).
    destruct (RunPlan_one_result_each _ _ _ _ _ _ _ _ _ Hfits Hb Hrun) as (_ & Hids & Hnd).
    split; [done|]. split; [by rewrite <- (sdk_plan_ids taskID), <- (sort_strings_perm (node_id <$> _)); fold plan; rewrite <- Hids|].
    exists res, lg. split; [exact Hplan|]. split; [by rewrite <- list_fmap_compose, <- (sdk_plan_ids taskID)|]. split.
    + intros i n Hn. set (node := mkPlanNode (mkAgentInvocation (sdk_id i n) (nd_AgentID n) (nd_Input n)) (nd_DependsOn n)
        (nd_RetryPolicy n) (nd_CircuitBreakerPolicy n)).
      assert (node ∈ plan_Nodes plan) as Hin.
      { apply (list_elem_of_lookup_2 _ i). unfold plan, sdk_plan. cbn. by rewrite list_lookup_imap, Hn. }
      apply list_elem_of_fmap. exists (res (sdk_id i n)). unfold sdk_result.
      rewrite (plan_run_invocation _ _ _ _ node Hplan Hin : res_Invocation (res (sdk_id i n)) = Invocation node). split; [done|].
      rewrite Hres. unfold plan_results, sort_results. rewrite sort_by_elem_of. apply list_elem_of_fmap. by exists node.
    + by rewrite Htr.
Qed.
End Runs.

(** Two nodes without identifiers, run one after the other by the engine. *)
Definition sample_runtime : Runtime (F:=AgentInput → outcome) (M:=unit) := registered sample_cfg tt [("a", Some good_agent)].
Definition sample_nodes : list Node :=
  [mkNode "" "b" AgentInput_zero [] RetryPolicy_zero CircuitBreakerPolicy_zero;
   mkNode "" "a" AgentInput_zero [] RetryPolicy_zero CircuitBreakerPolicy_zero].
Definition sample_sdk_run :=
  RunPlan_seq sample_env (rt_cfg sample_runtime) (sdk_plan "t" sample_nodes) (rt_world sample_runtime) 100.

Lemma sdk_RunPlan_results_witness :
  rs_InvocationID <$> (sdk_result <$> sample_sdk_run.1.1) = ["0001_b"; "0002_a"] ∧
  rs_Error <$> (sdk_result <$> sample_sdk_run.1.1) = ["agent not registered: b"; ""].
Proof.
  destruct (RunPlan_seq_runs sample_env (rt_cfg sample_runtime) (sdk_plan "t" sample_nodes) (rt_world sample_runtime) 100)
    as (start & endt & Hrun); [vm_compute; discriminate|].
  destruct (sdk_RunPlan_results sample_cfg tt [("a", Some good_agent)] (mkRuntime (rt_cfg sample_runtime) sample_sdk_run.2.1) "t" sample_nodes start endt
    (sdk_result <$> sample_sdk_run.1.1) (toSDKTrace sample_sdk_run.1.2) None) as (_ & _ & H).
  { do 3 eexists. split; [exact Hrun|]. by split. }
  destruct H as (_ & _ & res & lg & _ & Hids & _); [done|vm_compute; reflexivity|right; by repeat constructor|].
  split; [rewrite Hids; vm_compute; reflexivity|vm_compute; reflexivity].
Defined.

(** ** Agents from providers *)
Definition completion_fields : list (string * (json → CompletionPayload → option CompletionPayload)) := [
  field_of "text" cp_Text (λ x p, mkCompletion x (cp_InputTokens p) (cp_OutputTokens p) (cp_Provider p) (cp_Model p)) dec_string;
  field_of "input_tokens" cp_InputTokens (λ x p, mkCompletion (cp_Text p) x (cp_OutputTokens p) (cp_Provider p) (cp_Model p)) dec_int;
  field_of "output_tokens" cp_OutputTokens (λ x p, mkCompletion (cp_Text p) (cp_InputTokens p) x (cp_Provider p) (cp_Model p)) dec_int;
  field_of "provider" cp_Provider (λ x p, mkCompletion (cp_Text p) (cp_InputTokens p) (cp_OutputTokens p) x (cp_Model p)) dec_string;
  field_of "model" cp_Model (λ x p, mkCompletion (cp_Text p) (cp_InputTokens p) (cp_OutputTokens p) (cp_Provider p) x) dec_string].

Lemma completion_read p : int64_range (cp_InputTokens p) → int64_range (cp_OutputTokens p) →
  Unmarshal (dec_struct completion_fields) (Marshal (enc_completion p)) (mkCompletion "" 0 0 "" "") =
  Some (mkCompletion (clean_string (cp_Text p)) (cp_InputTokens p) (cp_OutputTokens p)
          (clean_string (cp_Provider p)) (clean_string (cp_Model p))).
Proof.
  intros Hi Ho. assert (writable (enc_completion p)) as Hw.
  { split; [cbn; by rewrite !number_ok_Itoa|done]. }
  unfold Unmarshal. rewrite parse_Marshal_clean by done. cbn [mbind option_bind]. unfold enc_completion. cbn [clean map fst snd].
  repeat (erewrite dec_struct_field;
    [cbn [cp_Text cp_InputTokens cp_OutputTokens cp_Provider cp_Model]|reflexivity
    |first [reflexivity|apply dec_enc_int; assumption]]).
  by rewrite dec_struct_done.
Qed.

(** A prompt that is found is not blank. *)
Lemma extractPrompt_not_blank payload prompt : extractPrompt payload = Ok prompt → TrimSpace prompt ≠ "".
Proof.
  unfold extractPrompt. case_decide; [done|].
  assert ((if decide (TrimSpace (bytes_of payload) = "") then Err (Errorf "prompt not found in payload")
           else Ok (TrimSpace (bytes_of payload))) = Ok prompt → TrimSpace prompt ≠ "") as Hf.
  { case_decide; [done|]. intros [= <-]. by rewrite TrimSpace_idem. }
  destruct (Unmarshal _ _ _) as [p|]; [|exact Hf].
  destruct (decide (TrimSpace (pp_Prompt p) = "")); [exact Hf|]. by intros [= <-].
Qed.

(** The prompt of a payload that is a JSON object with a prompt is that
    prompt as it is, not trimmed, for every valid prompt that is not blank. *)
Theorem extractPrompt_json prompt : valid_utf8 prompt = true → TrimSpace prompt ≠ "" →
  extractPrompt (Some (Marshal (JObject [("prompt", JString prompt)]))) = Ok prompt.
Proof.
  intros Hv Hp. assert (Unmarshal dec_prompt (Marshal (JObject [("prompt", JString prompt)])) (mkPromptPayload "") =
    Some (mkPromptPayload prompt)) as Hu.
  { unfold Unmarshal. rewrite parse_Marshal by (split; [cbn; by rewrite Hv|done]). done. }
  unfold extractPrompt. cbn [bytes_of default from_option id]. rewrite Hu. cbn [pp_Prompt]. rewrite (decide_False (P:=TrimSpace prompt = "")) by done.
  rewrite decide_False; [done|]. intros E. by rewrite E in Hu.
Qed.

Lemma extractPrompt_json_witness :
  extractPrompt (Some (Marshal (JObject [("prompt", JString " hi ")]))) = Ok " hi ".
Proof. apply extractPrompt_json; [vm_compute; reflexivity|vm_compute; discriminate]. Defined.

(** An agent made from a provider returns, and never panics.  It answers the
    input's request with a payload that reads back as the provider's text and token counts, the
    provider's name and the model, after exactly one generation for a prompt that is not blank;
    or it returns an empty output and an error, without a generation when the context is done or
    there is no prompt. *)
Theorem agent_from_provider {W Ctx} (ctx_Err : Ctx → option error) (provider : Provider (W:=W)) model ctx input (w : W) :
  let '(w', o) := AgentFromProvider ctx_Err (Some provider) model ctx input w in
  (∃ prompt resp payload,
     ctx_Err ctx = None ∧ extractPrompt (in_Payload input) = Ok prompt ∧ TrimSpace prompt ≠ "" ∧
     pv_Generate provider ctx (mkGenerateRequest model prompt 0 (S754_zero false)) w = (w', Ok resp) ∧
     o = Returned (mkAgentOutput (in_RequestID input) (Some payload) None 0) None ∧
     (int64_range (gs_InputTokens resp) → int64_range (gs_OutputTokens resp) →
      Unmarshal (dec_struct completion_fields) payload (mkCompletion "" 0 0 "" "") =
        Some (mkCompletion (clean_string (gs_Text resp)) (gs_InputTokens resp) (gs_OutputTokens resp)
                (clean_string (pv_Name provider)) (clean_string model)))) ∨
  (∃ err, o = Returned AgentOutput_zero (Some err) ∧
     (w' = w ∨ ∃ prompt, ctx_Err ctx = None ∧ extractPrompt (in_Payload input) = Ok prompt ∧
        pv_Generate provider ctx (mkGenerateRequest model prompt 0 (S754_zero false)) w = (w', Err err))).
Proof.
  unfold AgentFromProvider. destruct (ctx_Err ctx) as [e|]; [right; eauto|].
  destruct (extractPrompt (in_Payload input)) as [prompt|e] eqn:Ep; [|right; eauto].
  destruct (pv_Generate provider ctx _ w) as [w' [resp|e]] eqn:Eg; [left|right; eauto 10].
  do 3 eexists. split; [done|]. split; [done|]. split; [by eapply extractPrompt_not_blank|]. split; [done|]. split; [done|].
  intros Hi Ho. by apply completion_read.
Qed.
